(* ===== verification/_CoqProject ===== *)
-Q . S2P
Prelude.v
Msgs.v
Helpers.v
Double.v
Dist.v
Env.v
Client.v
ClientSpec.v
NetClient.v
NetServer.v
ServerSpec.v
EndToEnd.v
ClientThreads.v
ClientThreadsInv.v
ClientThreadsSteps.v
ClientThreadsSpec.v
ClientRun.v
Integrated.v
TBench.v
Setup.v
Workers.v
Xapian.v
ImgDnn.v
KPermuter.v
NodeVersion.v
KSearch.v
StringSlice.v
MtKey.v
CircularInt.v
StringBag.v
Changeset.v
ValueBag.v
LeafLink.v
Internode.v
Leaf.v
Tree.v
Layer.v
Paths.v
Cursor.v
TreeStore.v
HeldLeaf.v
Split.v
Focus.v
NewLayer.v
Modify.v
MasstreeSpec.v
Query.v
QuerySpec.v
Mycsba.v
MycsbaTree.v
ThreadPool.v
Sphinx.v
Silo.v
