(* ===== verification/Prelude.v ===== *)
(** * TailBench++: a verification development

    TailBench++ measures the tail latency of servers.  A client process generates
    requests at configured arrival times, sends them over TCP and records when
    each answer returns; a server library, linked into every benchmark
    application, receives requests from any number of clients and sends the
    responses.  This library models that harness (src/harness), the parts of
    the applications that are the suite's own (src/xapian, src/img-dnn, src/sphinx,
    src/silo/benchmarks, the thread pool of src/moses) and the Masstree store that
    one benchmark serves, its trees, rows and queries (src/masstree).

    ** Conventions

    Machine integers are [Z] with the conversion of their width written out
    ([u64], [i32], ...; KPermuter and NodeVersion have their own word types).
    Sequential C++ that touches state is a computation in the outcome monad [M]
    below: it returns, exits, aborts (a failed assertion), is undefined, or blocks
    on a mutex.  Pure code that can only fail an assertion or run out of an array
    returns [option].  Threads are step relations.  What the code calls and the
    repository does not contain is an argument: the kernel's split of sends and
    receives, select and accept results, the clock, the random samples, the
    application's request processing, Xapian's and OpenCV's results.

    ** The harness

    - Msgs: Request and Response with their byte layout (msgs.h).
    - Helpers, Env: sendfull, recvfull, the clock and getOpt (helpers.h).
    - Double, Dist: IEEE binary64 and ExpDist (dist.h).
    - Client, ClientSpec: class Client (client.h, client.cpp): startReq, finiReq,
      startRoi, dumpStats; what each does on every branch, the rate schedule, and
      that the statistics file reads back through utilities/parselats.py.
    - NetClient: class NetworkedClient: send, recv.
    - NetServer, ServerSpec: classes Server and NetworkedServer (server.h,
      tbench_server_networked.cpp): select loop, round robin, request reading,
      responses; invariant, delivery, fairness, error paths.
    - Setup: the constructors' socket calls, for any operating system.
    - EndToEnd: a request travels from send through recvReq and its response from
      sendResp through recv, whatever the fragmentation.
    - ClientThreads, ClientThreadsInv, ClientThreadsSteps, ClientThreadsSpec,
      ClientRun: main and its sender and receiver threads
      (tbench_client_networked.cpp) interleaved with the server: safety, exact
      completion, freedom from deadlock, a bound on the steps; ClientRun holds
      concrete executions.
    - Integrated, TBench: the integrated server, the tBench entry points and the
      Java bindings (tbench_server_integrated.cpp, tbench_jni.cpp).

    ** The applications

    - Workers: the request loops of the Xapian and img-dnn servers as threads over
      the shared request counter.
    - Xapian: term files, the request generator, the answer of the server.
    - ImgDnn: MNIST files, image requests.
    - ThreadPool (moses/ThreadPool.cpp): workers and the threads that submit tasks
      and stop the pool: order, no task lost or run twice, Stop(true) returns.
    - Sphinx (client.cpp, decoder.cpp): the samples of an audio file travel from
      the client's corpus to the decoder.
    - Silo (client.cc, bench.cc, tpcc.cc, util.h): the client's choice of a
      transaction, the worker that runs, retries and answers it.

    ** Masstree

    - KPermuter (kpermuter.hh): the packed permutation of a leaf's slots refines
      lists of live and free slots.
    - NodeVersion (nodeversion.hh): the version word as lock and change counter
      for any number of threads: mutual exclusion; a validated read has missed no
      write that was marked.
    - KSearch (ksearch.hh): bisection and scan agree and find the place of a key.
    - StringSlice, MtKey (string_slice.hh, masstree_key.hh): eight bytes of a
      string as an integer; comparing layer by layer is the lexicographic order.
    - CircularInt (circular_int.hh), StringBag (stringbag.hh).
    - LeafLink (btree_leaflink.hh): the list of leaves, seen between any two
      writes of an update.
    - Internode (masstree_struct.hh, masstree_split.hh): interior nodes; putting a
      child under a parent, with or without a split, is a list insertion.
    - Leaf (masstree_struct.hh, masstree_insert.hh, masstree_remove.hh,
      masstree_split.hh): slot selection, insertion, removal and split of leaves.
    - Tree (masstree_traverse.hh, masstree_get.hh): lookup through the layers of a
      tree at rest finds exactly what the tree maps a key to.
    - Layer (masstree_insert.hh): a new layer keeps what the tree maps; what
      readers see between the writes that create it, a race included.
    - Paths: what a table of layers maps, and how giving one key a value, making a
      layer or moving a layer's root changes it.
    - Cursor (masstree_get.hh, masstree_insert.hh, masstree_split.hh,
      masstree_traverse.hh, masstree_struct.hh): initialize, get_leaf_locked,
      find_insert, finish_split with its loop over the levels of the tree,
      find_locked, finish, modify_insert and modify, for one thread.
    - TreeStore: the invariant of the tree they work on: the key range of every
      node, parents, the list of leaves, root marks.  HeldLeaf: a leaf that is
      locked, and its two halves after a split.  Split: each level of finish_split
      keeps the invariant, up to a new root.  Focus: the cursor's place in the tree,
      get_leaf_locked, and the entry of a layer whose root has split.  NewLayer: a
      layer made for two keys, and the empty tree.  Modify: modify_insert and modify
      return and change the map at one key; an insertion the callback declines may
      spoil a leaf.  MasstreeSpec: the tree stands for a finite map, from initialize
      through any sequence of calls that insert missing keys.
    - Changeset (serial_changeset.hh, parsed_changeset.hh, kvrow.hh), ValueBag
      (value_bag.hh): the bytes of a put and of a row; a put changes the columns it
      names, inside of the memory of the rows.
    - Query (kvrow.hh, masstree.cc, kvthread.hh): get, put, replace and remove of
      query_table, which make rows, give them timestamps and put them into the tree.
      QuerySpec: a sequence of them with change sets in order and rows that fit is a
      map from keys to columns; no row that is in use is retired; timestamps grow.
    - Mycsba (mttest.hh, kvclient.cc, kvtest.hh, kvrandom.hh): the benchmark's key
      generator, its client, and the server loop over any key-value store.
      MycsbaTree (mttest.cc): the tree with its rows is such a store.

    ** Bounds and fuel

    Loops that are not structural take fuel, and a theorem shows how much is
    enough: recvfull and sendfull run once per event of the kernel schedule
    (recvfull_spec, sendfull_spec), recvReq once per select result
    (recvReq_loop_fuel; out of fuel and blocked are different outcomes), bisection once per key (bisect_total), the choice of a
    split point once per position (leaf_split_insert), the choice of a slot twice
    (leaf_update), a lookup for each level of a layer and each layer of the key
    (masstree_get), and a change too (masstree_modify_insert); a tree grows by at most
    one level with each change, so as many as there were calls are enough
    (masstree_history, query_store).  A chunk of audio takes two turns (asr_request), a
    transaction one per abort and one more (silo_request).  The steps of the thread pool are bounded by
    a measure (pool_completes).  The width of tree nodes is a parameter, 15 in the code; leaf
    splits need at least 11, since ten keys of a layer can share eight bytes.

    ** Not modelled

    The formatted text of progress messages (reduced to events), the percentile
    report of parselats.py, the matrix arithmetic of img-dnn (OpenCV), Xapian's
    query parser; in Masstree the retries after a concurrent change, the removal of
    layers and of empty leaves from the tree (the model stops there), scans, logs,
    checkpoints of the whole store and the reclamation of memory; node_ts_ of a leaf
    is an argument of the queries, and its copies at splits and unlinking are left
    out.  Memory is sequentially consistent: the client's threads read status and
    sent_requests without a lock in places, and each such access is one step of the
    model.  The client theorems assume a clock whose readings increase.  The Moses
    decoder, Shore-MT, Silo's engine and transactions, SPECjbb and PocketSphinx are
    third-party systems the suite wraps. *)

From stdpp Require Export base tactics list numbers option gmap.
From Stdlib Require Export ZArith Lia Bool Strings.Byte.

#[global] Set Default Goal Selector "!".
#[global] Open Scope Z_scope.

(** * Machine integers

    A value of a fixed-width C++ integer is a [Z]; the width shows in the
    conversion applied after each operation that may leave the range. *)

Definition u16 (z : Z) : Z := z mod 2 ^ 16.
Definition u32 (z : Z) : Z := z mod 2 ^ 32.
Definition u64 (z : Z) : Z := z mod 2 ^ 64.
Definition i32 (z : Z) : Z := (z + 2 ^ 31) mod 2 ^ 32 - 2 ^ 31.
Definition i64 (z : Z) : Z := (z + 2 ^ 63) mod 2 ^ 64 - 2 ^ 63.

Definition is_u64 (z : Z) : Prop := 0 <= z < 2 ^ 64.
Definition is_i32 (z : Z) : Prop := - 2 ^ 31 <= z < 2 ^ 31.

Create HintDb mach.

Lemma u64_range z : is_u64 (u64 z).
Proof. unfold is_u64, u64. apply Z.mod_pos_bound. lia. Qed.
Lemma u32_range z : 0 <= u32 z < 2 ^ 32.
Proof. unfold u32. apply Z.mod_pos_bound. lia. Qed.
Lemma u64_id z : is_u64 z -> u64 z = z.
Proof. unfold is_u64, u64. intros. by apply Z.mod_small. Qed.
Lemma u32_id z : 0 <= z < 2 ^ 32 -> u32 z = z.
Proof. unfold u32. intros. by apply Z.mod_small. Qed.
Lemma u64_idemp z : u64 (u64 z) = u64 z.
Proof. apply u64_id, u64_range. Qed.
Lemma i32_range z : is_i32 (i32 z).
Proof.
  unfold is_i32, i32.
  pose proof (Z.mod_pos_bound (z + 2 ^ 31) (2 ^ 32)). lia.
Qed.
Lemma i32_id z : is_i32 z -> i32 z = z.
Proof. unfold is_i32, i32. intros. rewrite Z.mod_small; lia. Qed.
Lemma i64_id z : - 2 ^ 63 <= z < 2 ^ 63 -> i64 z = z.
Proof. unfold i64. intros. rewrite Z.mod_small; lia. Qed.

#[export] Hint Resolve u64_range u32_range i32_range : mach.
#[export] Hint Rewrite u64_id u32_id i32_id i64_id
  using (unfold is_u64, is_i32; lia) : mach.

(** [mach] removes the conversions that lia can show to be the identity. *)
Ltac mach := autorewrite with mach; unfold is_u64, is_i32 in *; try lia.

(** * Outcomes of effectful code

    A call of the program returns, ends the process with [exit], fails an
    [assert], leaves defined behaviour, or waits for the environment (a lock,
    a socket, the clock) without returning. *)

Inductive outcome (W A : Type) : Type :=
| Ret (a : A) (w : W)
| Exit (code : Z) (w : W)
| Abort
| UB
| Blocked (w : W).
Arguments Ret {W A} a w.
Arguments Exit {W A} code w.
Arguments Abort {W A}.
Arguments UB {W A}.
Arguments Blocked {W A} w.

Definition M (W A : Type) : Type := W -> outcome W A.

#[export] Instance M_ret W : MRet (M W) := fun A a w => Ret a w.
#[export] Instance M_bind W : MBind (M W) := fun A B k m w =>
  match m w with
  | Ret a w' => k a w'
  | Exit c w' => Exit c w'
  | Abort => Abort
  | UB => UB
  | Blocked w' => Blocked w'
  end.

Definition get {W} : M W W := fun w => Ret w w.
Definition gets {W A} (f : W -> A) : M W A := fun w => Ret (f w) w.
Definition put {W} (w' : W) : M W () := fun _ => Ret () w'.
Definition modify {W} (f : W -> W) : M W () := fun w => Ret () (f w).
Definition exit_ {W A} (code : Z) : M W A := fun w => Exit code w.
Definition abort {W A} : M W A := fun _ => Abort.
Definition undefined {W A} : M W A := fun _ => UB.
Definition blocked {W A} : M W A := fun w => Blocked w.
Definition assert_ {W} (b : bool) : M W () := if b then mret () else abort.

(** Running a computation on a component of the state. *)
Definition zoom {W V A} (pr : W -> V) (upd : V -> W -> W) (m : M V A) : M W A :=
  fun w => match m (pr w) with
           | Ret a v => Ret a (upd v w)
           | Exit c v => Exit c (upd v w)
           | Abort => Abort
           | UB => UB
           | Blocked v => Blocked (upd v w)
           end.

(** The states a computation may end in when it returns. *)
Definition returns {W A} (m : M W A) (w : W) (a : A) (w' : W) : Prop := m w = Ret a w'.

Lemma bind_Ret {W A B} (m : M W A) (k : A -> M W B) w a w' :
  m w = Ret a w' -> (m ≫= k) w = k a w'.
Proof. unfold mbind, M_bind. by intros ->. Qed.

Lemma bind_inv {W A B} (m : M W A) (k : A -> M W B) w b w' :
  (m ≫= k) w = Ret b w' -> exists a w1, m w = Ret a w1 /\ k a w1 = Ret b w'.
Proof. unfold mbind, M_bind. destruct (m w) eqn:E; try done. eauto. Qed.

(** Runs the first computation of a bind, whose result [tac] proves. *)
Tactic Notation "bind_step" "by" tactic3(tac) := erewrite bind_Ret by tac; cbv beta iota.

(** Unfolds one layer of the outcome monad. *)
Ltac unM := cbv [mbind M_bind mret M_ret get gets put modify exit_ abort
                 undefined blocked zoom] in *.

(** * Arrays

    A write to an array: [None] out of bounds. *)
Definition poke {A} (l : list A) (i : nat) (v : A) : option (list A) :=
  if decide (i < length l)%nat then Some (<[i := v]> l) else None.

Lemma poke_Some {A} (l l' : list A) i v : poke l i v = Some l' <-> (i < length l)%nat /\ l' = <[i := v]> l.
Proof. unfold poke. destruct (decide (i < length l)%nat); split; [intros [= <-]|intros [_ ->]|discriminate|]; tauto || auto || lia. Qed.
Lemma poke_in {A} (l : list A) i v : (i < length l)%nat -> poke l i v = Some (<[i := v]> l).
Proof. intros H. apply poke_Some. auto. Qed.
Lemma lookup_insert_if {A} (l : list A) i v j : (i < length l)%nat ->
  <[i := v]> l !! j = if decide (j = i) then Some v else l !! j.
Proof. intros H. destruct (decide (j = i)) as [->|]; [apply list_lookup_insert_eq, H|apply list_lookup_insert_ne; congruence]. Qed.

(** Copying bytes into an array at an offset. *)
Definition splice {A} (l : list A) (off : nat) (bs : list A) : option (list A) :=
  if decide (off + length bs <= length l)%nat then Some (take off l ++ bs ++ drop (off + length bs) l) else None.

(** * Bytes and little-endian images *)

Abbreviation byte := Byte.byte.
#[export] Instance byte_eq_dec : EqDecision byte := Byte.byte_eq_dec.
#[export] Instance byte_countable : Countable byte := inj_countable Byte.to_N Byte.of_N Byte.of_to_N.
#[export] Instance byte_inhabited : Inhabited byte := populate x00.

Definition Z_of_byte (b : byte) : Z := Z.of_N (Byte.to_N b).
Definition byte_of_Z (z : Z) : byte :=
  default x00 (Byte.of_N (Z.to_N (z mod 256))).

Lemma Z_of_byte_range b : 0 <= Z_of_byte b < 256.
Proof. unfold Z_of_byte. pose proof (Byte.to_N_bounded b). lia. Qed.

Lemma Z_of_byte_of_Z z : Z_of_byte (byte_of_Z z) = z mod 256.
Proof.
  unfold Z_of_byte, byte_of_Z.
  pose proof (Z.mod_pos_bound z 256 ltac:(lia)) as Hz.
  destruct (Byte.of_N (Z.to_N (z mod 256))) as [b|] eqn:E; simpl.
  - apply Byte.to_of_N in E. rewrite E. lia.
  - apply Byte.of_N_None_iff in E. lia.
Qed.

Lemma byte_of_Z_of_byte b : byte_of_Z (Z_of_byte b) = b.
Proof.
  unfold byte_of_Z. rewrite Z.mod_small by apply Z_of_byte_range.
  unfold Z_of_byte. by rewrite N2Z.id, Byte.of_to_N.
Qed.

(** The [n]-byte little-endian image of an unsigned integer. *)
Fixpoint le_bytes (n : nat) (z : Z) : list byte :=
  match n with
  | O => []
  | S n' => byte_of_Z z :: le_bytes n' (z / 256)
  end.

Fixpoint le_value (bs : list byte) : Z :=
  match bs with
  | [] => 0
  | b :: bs' => Z_of_byte b + 256 * le_value bs'
  end.

Lemma length_le_bytes n z : length (le_bytes n z) = n.
Proof. revert z; induction n; intros; simpl; auto. Qed.

Lemma le_value_bytes n z : le_value (le_bytes n z) = z mod 256 ^ Z.of_nat n.
Proof.
  revert z; induction n as [|n IH]; intros z.
  - simpl. by rewrite Z.mod_1_r.
  - cbn [le_bytes le_value]. rewrite IH, Z_of_byte_of_Z.
    rewrite Nat2Z.inj_succ, Z.pow_succ_r by lia.
    rewrite Z.rem_mul_r by (try apply Z.pow_pos_nonneg; lia). lia.
Qed.

Lemma le_value_range bs : 0 <= le_value bs < 256 ^ Z.of_nat (length bs).
Proof.
  induction bs as [|b bs IH]; [simpl; lia|].
  cbn [le_value length]. pose proof (Z_of_byte_range b).
  rewrite Nat2Z.inj_succ, Z.pow_succ_r by lia. lia.
Qed.

Lemma le_bytes_value bs : le_bytes (length bs) (le_value bs) = bs.
Proof.
  induction bs as [|b bs IH]; [done|].
  cbn [le_value length le_bytes]. pose proof (Z_of_byte_range b). f_equal.
  - rewrite <- (byte_of_Z_of_byte b) at 2. unfold byte_of_Z.
    do 3 f_equal. rewrite Z.mul_comm, Z_mod_plus_full. done.
  - rewrite Z.mul_comm, Z.div_add by lia.
    by rewrite Z.div_small by lia.
Qed.

#[export] Hint Rewrite length_le_bytes : mach.

(** * Lists *)

Lemma take_app_exact {A} (l k : list A) n : length l = n -> take n (l ++ k) = l.
Proof. intros <-. by rewrite take_app_length. Qed.
Lemma drop_app_exact {A} (l k : list A) n : length l = n -> drop n (l ++ k) = k.
Proof. intros <-. by rewrite drop_app_length. Qed.

(** One element of a list exchanged for another, up to order: the form in which a
    step of one of several threads is seen by an invariant. *)
Lemma insert_Permutation {A} (l : list A) i x :
  l !! i = Some x -> exists rest, l ≡ₚ x :: rest /\ forall y, <[i := y]> l ≡ₚ y :: rest.
Proof.
  intros H. exists (take i l ++ drop (S i) l). split.
  - rewrite <- (take_drop_middle l i x H) at 1. by rewrite Permutation_middle.
  - intros y. pose proof (lookup_lt_Some _ _ _ H).
    rewrite insert_take_drop by done. by rewrite Permutation_middle.
Qed.

(** Field [off, off+n) of a memory image. *)
Definition field {A} (off n : nat) (l : list A) : list A := take n (drop off l).

Lemma field_app_here {A} (l1 l2 l3 : list A) off n :
  length l1 = off -> length l2 = n -> field off n (l1 ++ l2 ++ l3) = l2.
Proof.
  intros H1 H2. unfold field. rewrite drop_app_exact by done.
  by apply take_app_exact.
Qed.

(** * Framing

    [keeps pr m]: when [m] returns, the part [pr] of the state is what it was. *)

Definition keeps {W A B} (pr : W -> B) (m : M W A) : Prop :=
  forall w a w', m w = Ret a w' -> pr w' = pr w.

Lemma keeps_ret {W A B} (pr : W -> B) (a : A) : keeps pr (mret a).
Proof. by intros w a' w' [= _ <-]. Qed.
Lemma keeps_gets {W A B} (pr : W -> B) (f : W -> A) : keeps pr (gets f).
Proof. by intros w a' w' [= _ <-]. Qed.
Lemma keeps_bind {W A A' B} (pr : W -> B) (m : M W A) (k : A -> M W A') :
  keeps pr m -> (forall a, keeps pr (k a)) -> keeps pr (m ≫= k).
Proof.
  intros Hm Hk w a w' (a1 & w1 & H1 & H2)%bind_inv.
  rewrite <- (Hm _ _ _ H1). by eapply Hk.
Qed.
Lemma keeps_modify {W B} (pr : W -> B) (f : W -> W) :
  (forall w, pr (f w) = pr w) -> keeps pr (modify f).
Proof. by intros H w a w' [= _ <-]. Qed.
Lemma keeps_exit {W A B} (pr : W -> B) c : keeps pr (exit_ c : M W A).
Proof. done. Qed.
Lemma keeps_abort {W A B} (pr : W -> B) : keeps pr (abort : M W A).
Proof. done. Qed.
Lemma keeps_undefined {W A B} (pr : W -> B) : keeps pr (undefined : M W A).
Proof. done. Qed.
Lemma keeps_blocked {W A B} (pr : W -> B) : keeps pr (blocked : M W A).
Proof. done. Qed.
Lemma keeps_assert {W B} (pr : W -> B) b : keeps pr (assert_ b).
Proof. destruct b; [apply keeps_ret|apply keeps_abort]. Qed.
Lemma keeps_zoom {W V A B} (pr : W -> B) (g : W -> V) (u : V -> W -> W) (m : M V A) :
  (forall v w, pr (u v w) = pr w) -> keeps pr (zoom g u m).
Proof.
  intros H w a w'. unfold zoom. destruct (m (g w)); try done. by intros [= _ <-].
Qed.

Create HintDb keeps.
#[export] Hint Resolve keeps_ret keeps_gets keeps_exit keeps_abort keeps_undefined
  keeps_blocked keeps_assert : keeps.

(** Structural search for [keeps] goals over binds, conditionals and matches. *)
Ltac solve_keeps :=
  repeat first
    [ progress intros
    | solve [eauto with keeps]
    | apply keeps_modify; intros; first [reflexivity | simpl; repeat case_match; reflexivity]
    | apply keeps_zoom; intros; reflexivity
    | apply keeps_bind
    | case_match ].

(** [preserves P m]: an invariant that holds before [m] holds when it returns. *)
Definition preserves {W A} (P : W -> Prop) (m : M W A) : Prop :=
  forall w a w', P w -> m w = Ret a w' -> P w'.

Lemma preserves_ret {W A} (P : W -> Prop) (a : A) : preserves P (mret a).
Proof. by intros w a' w' H [= _ <-]. Qed.
Lemma preserves_gets {W A} (P : W -> Prop) (f : W -> A) : preserves P (gets f).
Proof. by intros w a' w' H [= _ <-]. Qed.
Lemma preserves_bind {W A B} (P : W -> Prop) (m : M W A) (k : A -> M W B) :
  preserves P m -> (forall a, preserves P (k a)) -> preserves P (m ≫= k).
Proof. intros Hm Hk w a w' HP (a1 & w1 & H1 & H2)%bind_inv. eapply Hk; [|done]. by eapply Hm. Qed.
Lemma preserves_modify {W} (P : W -> Prop) (f : W -> W) :
  (forall w, P w -> P (f w)) -> preserves P (modify f).
Proof. intros H w a w' HP [= _ <-]. auto. Qed.
Lemma preserves_exit {W A} (P : W -> Prop) c : preserves P (exit_ c : M W A).
Proof. by intros ????. Qed.
Lemma preserves_abort {W A} (P : W -> Prop) : preserves P (abort : M W A).
Proof. by intros ????. Qed.
Lemma preserves_undefined {W A} (P : W -> Prop) : preserves P (undefined : M W A).
Proof. by intros ????. Qed.
Lemma preserves_blocked {W A} (P : W -> Prop) : preserves P (blocked : M W A).
Proof. by intros ????. Qed.
Lemma preserves_assert {W} (P : W -> Prop) b : preserves P (assert_ b).
Proof. destruct b; [apply preserves_ret|apply preserves_abort]. Qed.

Create HintDb preserves.
#[export] Hint Resolve preserves_ret preserves_gets preserves_exit preserves_abort
  preserves_undefined preserves_blocked preserves_assert : preserves.

Ltac solve_preserves :=
  repeat first
    [ progress intros
    | solve [eauto with preserves]
    | apply preserves_modify; intros ? ?; assumption
    | apply preserves_bind
    | case_match ].
