(* ===== verification/Msgs.v ===== *)
(** * Messages (src/harness/msgs.h)

    The [Request] and [Response] structs exchanged by the harness client and
    server, their memory layout on the LP64 targets the harness is built for,
    and the byte images that [send] and [recv] move: both sides copy the raw
    struct, header first, then the first [len] bytes of [data]. *)

From S2P Require Import Prelude.

Definition MAX_REQ_BYTES : Z := Z.shiftl 1 20.
Definition MAX_RESP_BYTES : Z := Z.shiftl 1 20.

Inductive ResponseType := RESPONSE | ROI_BEGIN | FINISH.

#[export] Instance ResponseType_eq_dec : EqDecision ResponseType.
Proof. solve_decision. Defined.

(** The enumerators' values, in declaration order. *)
Definition ResponseType_val (t : ResponseType) : Z :=
  match t with RESPONSE => 0 | ROI_BEGIN => 1 | FINISH => 2 end.

(** [data] holds the bytes written so far at the front of the fixed-size array;
    what lies behind them reads as zero, the value [new T()] gives it. *)
Record Request := mkRequest {
  req_id : Z;
  req_genNs : Z;
  req_len : Z;
  req_late : bool;
  req_startNs : Z;
  req_startNs_lock_ad : Z;
  req_startNs_lock_re : Z;
  req_sentNs : Z;
  req_sentNs_lock_ad : Z;
  req_sentNs_lock_re : Z;
  req_data : list byte
}.

(** The [type] field keeps the raw 32-bit value: a received struct may hold any. *)
Record Response := mkResponse {
  resp_type : Z;
  resp_id : Z;
  resp_svcNs : Z;
  resp_len : Z;
  resp_recvNs : Z;
  resp_data : list byte
}.

(** [new Request()] and [new Response()] value-initialise. *)
Definition new_Request : Request := mkRequest 0 0 0 false 0 0 0 0 0 0 [].
Definition new_Response : Response := mkResponse 0 0 0 0 0 [].

(** ** Data buffers *)

Definition buf_read (n : nat) (data : list byte) : list byte := resize n x00 data.
Definition buf_write (bs data : list byte) : list byte := bs ++ drop (length bs) data.

Lemma length_buf_read n data : length (buf_read n data) = n.
Proof. apply length_resize. Qed.

Lemma buf_read_write bs data : buf_read (length bs) (buf_write bs data) = bs.
Proof. unfold buf_read, buf_write. by rewrite resize_app_le, resize_all. Qed.

(** ** Struct images

    [WireMsg T] is what the transport code needs of a message struct: the size of
    the part in front of [data], the image of that part, how received bytes
    overwrite it, and the [len]/[data] pair. *)

Class WireMsg (T : Type) := {
  hdr_size : nat;
  hdr_image : T -> list byte;
  hdr_load : list byte -> T -> T;
  msg_len : T -> Z;
  msg_data : T -> list byte;
  set_data : list byte -> T -> T;
  hdr_wf : T -> Prop
}.

Class WireLaws (T : Type) `{WireMsg T} := {
  length_hdr_image (x : T) : length (hdr_image x) = hdr_size;
  hdr_load_image (x y : T) : hdr_wf x -> hdr_load (hdr_image x) y = set_data (msg_data y) x;
  msg_len_set_data (x : T) bs : msg_len (set_data bs x) = msg_len x;
  msg_data_set_data (x : T) bs : msg_data (set_data bs x) = bs;
  set_data_set_data (x : T) bs bs' : set_data bs (set_data bs' x) = set_data bs x;
  msg_len_wf (x : T) : hdr_wf x -> is_u64 (msg_len x)
}.

(** What [sendfull] is handed for a whole message: the header and [len] bytes. *)
Definition msg_image {T} `{WireMsg T} (x : T) : list byte :=
  hdr_image x ++ buf_read (Z.to_nat (msg_len x)) (msg_data x).

Lemma length_msg_image {T} `{WireLaws T} (x : T) :
  length (msg_image x) = (hdr_size + Z.to_nat (msg_len x))%nat.
Proof. unfold msg_image. by rewrite length_app, length_hdr_image, length_buf_read. Qed.

(** ** Request: 8-byte fields at 0, 8, 16, the bool at 24 with 7 bytes of
    padding, six 8-byte fields from 32, [data] at 80. *)

Definition bool_byte (b : bool) : byte := if b then x01 else x00.
Definition byte_bool (b : byte) : bool := negb (bool_decide (b = x00)).

Definition request_hdr_image (r : Request) : list byte :=
  le_bytes 8 (req_id r) ++ le_bytes 8 (req_genNs r) ++ le_bytes 8 (req_len r) ++
  (bool_byte (req_late r) :: replicate 7 x00) ++
  le_bytes 8 (req_startNs r) ++ le_bytes 8 (req_startNs_lock_ad r) ++
  le_bytes 8 (req_startNs_lock_re r) ++ le_bytes 8 (req_sentNs r) ++
  le_bytes 8 (req_sentNs_lock_ad r) ++ le_bytes 8 (req_sentNs_lock_re r).

Definition request_hdr_load (bs : list byte) (r : Request) : Request := {|
  req_id := le_value (field 0 8 bs);
  req_genNs := le_value (field 8 8 bs);
  req_len := le_value (field 16 8 bs);
  req_late := byte_bool (default x00 (bs !! 24%nat));
  req_startNs := le_value (field 32 8 bs);
  req_startNs_lock_ad := le_value (field 40 8 bs);
  req_startNs_lock_re := le_value (field 48 8 bs);
  req_sentNs := le_value (field 56 8 bs);
  req_sentNs_lock_ad := le_value (field 64 8 bs);
  req_sentNs_lock_re := le_value (field 72 8 bs);
  req_data := req_data r
|}.

Definition request_set_data (bs : list byte) (r : Request) : Request :=
  mkRequest (req_id r) (req_genNs r) (req_len r) (req_late r) (req_startNs r)
    (req_startNs_lock_ad r) (req_startNs_lock_re r) (req_sentNs r)
    (req_sentNs_lock_ad r) (req_sentNs_lock_re r) bs.

Definition request_wf (r : Request) : Prop :=
  Forall is_u64 [req_id r; req_genNs r; req_len r; req_startNs r;
                 req_startNs_lock_ad r; req_startNs_lock_re r; req_sentNs r;
                 req_sentNs_lock_ad r; req_sentNs_lock_re r].

#[export] Instance Request_wire : WireMsg Request := {
  hdr_size := 80;
  hdr_image := request_hdr_image;
  hdr_load := request_hdr_load;
  msg_len := req_len;
  msg_data := req_data;
  set_data := request_set_data;
  hdr_wf := request_wf
}.

(** ** Response: the enum at 0 with 4 bytes of padding, 8-byte fields from 8,
    [data] at 40. *)

Definition response_hdr_image (r : Response) : list byte :=
  (le_bytes 4 (resp_type r) ++ replicate 4 x00) ++ le_bytes 8 (resp_id r) ++
  le_bytes 8 (resp_svcNs r) ++ le_bytes 8 (resp_len r) ++ le_bytes 8 (resp_recvNs r).

Definition response_hdr_load (bs : list byte) (r : Response) : Response := {|
  resp_type := le_value (field 0 4 bs);
  resp_id := le_value (field 8 8 bs);
  resp_svcNs := le_value (field 16 8 bs);
  resp_len := le_value (field 24 8 bs);
  resp_recvNs := le_value (field 32 8 bs);
  resp_data := resp_data r
|}.

Definition response_set_data (bs : list byte) (r : Response) : Response :=
  mkResponse (resp_type r) (resp_id r) (resp_svcNs r) (resp_len r) (resp_recvNs r) bs.

Definition response_wf (r : Response) : Prop :=
  0 <= resp_type r < 2 ^ 32 /\
  Forall is_u64 [resp_id r; resp_svcNs r; resp_len r; resp_recvNs r].

#[export] Instance Response_wire : WireMsg Response := {
  hdr_size := 40;
  hdr_image := response_hdr_image;
  hdr_load := response_hdr_load;
  msg_len := resp_len;
  msg_data := resp_data;
  set_data := response_set_data;
  hdr_wf := response_wf
}.

(** ** The laws *)

Lemma le_value_u64 z : is_u64 z -> le_value (le_bytes 8 z) = z.
Proof. unfold is_u64. intros. rewrite le_value_bytes, Z.mod_small; lia. Qed.
Lemma le_value_u32 z : 0 <= z < 2 ^ 32 -> le_value (le_bytes 4 z) = z.
Proof. intros. rewrite le_value_bytes, Z.mod_small; lia. Qed.

Lemma byte_bool_byte b : byte_bool (bool_byte b) = b.
Proof. by destruct b. Qed.

#[export] Instance Request_laws : WireLaws Request.
Proof.
  split; try done.
  - intros x y Hwf. unfold hdr_wf, Request_wire, request_wf in Hwf.
    rewrite !Forall_cons in Hwf. destruct_and!.
    unfold hdr_load, hdr_image, Request_wire, request_hdr_load, request_hdr_image,
      set_data, request_set_data, field.
    cbn [le_bytes app replicate drop take]. f_equal; try by apply le_value_u64.
    apply byte_bool_byte.
  - intros x. unfold hdr_wf, Request_wire, request_wf. rewrite !Forall_cons. tauto.
Qed.

#[export] Instance Response_laws : WireLaws Response.
Proof.
  split; try done.
  - intros x y [? Hwf]. rewrite !Forall_cons in Hwf. destruct_and!.
    unfold hdr_load, hdr_image, Response_wire, response_hdr_load, response_hdr_image,
      set_data, response_set_data, field.
    cbn [le_bytes app replicate drop take].
    f_equal; try (by apply le_value_u64); by apply le_value_u32.
  - intros x [_ Hwf]. rewrite !Forall_cons in Hwf. tauto.
Qed.

(** Overwriting an object with the image of a whole message reproduces the
    message: its header, and its payload as the first [len] bytes of [data]. *)
Definition msg_load {T} `{WireMsg T} (bs : list byte) (y : T) : T :=
  let y' := hdr_load (take hdr_size bs) y in
  set_data (buf_write (drop hdr_size bs) (msg_data y')) y'.

(** Loading the byte image of a message into any other object of its type
    gives back every header field and the [len] payload bytes, whatever the
    object held before; for [Request] and [Response] alike. *)
Theorem msg_load_image {T} `{WireLaws T} (x y : T) :
  hdr_wf x ->
  exists d, msg_load (msg_image x) y = set_data d x /\
            buf_read (Z.to_nat (msg_len x)) d = buf_read (Z.to_nat (msg_len x)) (msg_data x).
Proof.
  intros Hwf. unfold msg_load, msg_image.
  rewrite take_app_exact, drop_app_exact, hdr_load_image by eauto using length_hdr_image.
  rewrite set_data_set_data, msg_data_set_data.
  eexists; split; [done|].
  rewrite <- (length_buf_read (Z.to_nat (msg_len x)) (msg_data x)) at 1.
  apply buf_read_write.
Qed.

Definition example_request : Request :=
  mkRequest 7 1000 3 true 900 901 902 903 904 0 [x61; x62; x63].

Lemma msg_load_image_witness :
  hdr_wf example_request /\
  exists d, msg_load (msg_image example_request) new_Request = set_data d example_request /\
    buf_read (Z.to_nat (msg_len example_request)) d
      = buf_read (Z.to_nat (msg_len example_request)) (msg_data example_request).
Proof.
  assert (H : hdr_wf example_request)
    by (repeat constructor; vm_compute; congruence).
  split; [exact H|]. apply (msg_load_image example_request new_Request H).
Defined.
