(* ===== verification/Helpers.v ===== *)
(** * Helpers (src/harness/helpers.h): clock, sleeping, and whole-message
    socket transfers.

    The kernel side of a connected stream socket is a byte queue in each
    direction together with a schedule that says, call by call, how many bytes
    the kernel moves or that the call fails.  Any short count the kernel may
    legally return is a schedule, so a theorem over all schedules is a theorem
    about all kernels. *)

From S2P Require Import Prelude.

(** ** Clock *)

Record timespec := mkTimespec { tv_sec : Z; tv_nsec : Z }.

(** [t = ts.tv_sec*1000*1000*1000 + ts.tv_nsec], signed 64-bit arithmetic stored
    into a [uint64_t]. *)
Definition ts_ns (ts : timespec) : Z :=
  u64 (i64 (i64 (i64 (i64 (tv_sec ts * 1000) * 1000) * 1000) + tv_nsec ts)).

Section Clock.
(** The [k]-th reading of CLOCK_REALTIME by the process. *)
Context (clock : nat -> timespec).

(** State: the number of readings made so far. *)
Definition getCurNs : M nat Z := fun k => Ret (ts_ns (clock k)) (S k).

(** The argument of nanosleep for a given distance. *)
Definition sleep_ts (diffNs : Z) : timespec :=
  mkTimespec (i64 (diffNs / (1000 * 1000 * 1000))) (i64 (diffNs mod (1000 * 1000 * 1000))).

(** [while (curNs < targetNs) { nanosleep(...); curNs = getCurNs(); }], one unit
    of fuel per iteration; without fuel the call has not returned yet. *)
Fixpoint sleepUntil_loop (fuel : nat) (targetNs curNs : Z) : M nat () :=
  if curNs <? targetNs then
    match fuel with
    | O => blocked
    | S f => curNs' ← getCurNs; sleepUntil_loop f targetNs curNs'
    end
  else mret ().

Definition sleepUntil (fuel : nat) (targetNs : Z) : M nat () :=
  curNs ← getCurNs; sleepUntil_loop fuel targetNs curNs.

(** [k'] is the tick after the first reading, from [k] on, that is not before
    the target. *)
Definition first_at_or_after (targetNs : Z) (k k' : nat) : Prop :=
  (k < k')%nat /\ targetNs <= ts_ns (clock (pred k')) /\
  forall j, (k <= j < pred k')%nat -> ts_ns (clock j) < targetNs.

Lemma sleepUntil_loop_spec fuel targetNs k j :
  (j <= fuel)%nat -> targetNs <= ts_ns (clock (k + j)) ->
  exists k', sleepUntil_loop fuel targetNs (ts_ns (clock k)) (S k) = Ret () k' /\
             first_at_or_after targetNs k k'.
Proof.
  revert k j; induction fuel as [|f IH]; intros k j Hj Hk; cbn [sleepUntil_loop].
  - assert (j = O) as -> by lia. rewrite Nat.add_0_r in Hk.
    rewrite (proj2 (Z.ltb_ge _ _)) by lia.
    eexists; split; [done|]. unfold first_at_or_after; repeat split; [lia|done|lia].
  - destruct (Z.ltb_spec (ts_ns (clock k)) targetNs) as [Hlt|Hge].
    + destruct j as [|j]; [rewrite Nat.add_0_r in Hk; lia|].
      destruct (IH (S k) j) as (k' & E & H1 & H2 & H3);
        [lia|by rewrite Nat.add_succ_l, <- Nat.add_succ_r|].
      exists k'; split; [exact E|]. unfold first_at_or_after.
      repeat split; [lia|done|]. intros i Hi.
      destruct (decide (i = k)) as [->|]; [done|]. apply H3. lia.
    + eexists; split; [done|]. unfold first_at_or_after; repeat split; [lia|done|lia].
Qed.
End Clock.

(** ** Stream sockets *)

Inductive sched_ev := Chunk (n : nat) | Fail.

Record sock := mkSock {
  s_in : list byte;            (* bytes that arrived and were not read yet *)
  s_eof : bool;                (* the peer has closed its side *)
  s_out : list byte;           (* bytes accepted for sending, oldest first *)
  s_rsched : list sched_ev;    (* fate of the coming recv calls *)
  s_ssched : list sched_ev     (* fate of the coming send calls *)
}.

(** A call that asks for [n > 0] of [avail > 0] bytes moves at least one. *)
Definition clamp (k n avail : nat) : nat := Nat.max 1 (Nat.min k (Nat.min n avail)).

Definition send_count (s : sock) (n : nat) : nat :=
  match s_ssched s with Chunk k :: _ => clamp k n n | _ => n end.

(** send(2) on a blocking stream socket, [n > 0]. *)
Definition sys_send (cur : list byte) (n : Z) : M sock Z := fun s =>
  match s_ssched s with
  | Fail :: r => Ret (-1) (mkSock (s_in s) (s_eof s) (s_out s) (s_rsched s) r)
  | ev => let k := send_count s (Z.to_nat n) in
          Ret (Z.of_nat k)
              (mkSock (s_in s) (s_eof s) (s_out s ++ take k cur) (s_rsched s) (tail ev))
  end.

Definition recv_count (s : sock) (n : nat) : nat :=
  match s_rsched s with
  | Chunk k :: _ => clamp k n (length (s_in s))
  | _ => Nat.min n (length (s_in s))
  end.

(** recv(2) on a blocking stream socket, [n > 0]: the count and the bytes. *)
Definition sys_recv (n : Z) : M sock (Z * list byte) := fun s =>
  match s_rsched s with
  | Fail :: r => Ret (-1, []) (mkSock (s_in s) (s_eof s) (s_out s) r (s_ssched s))
  | ev =>
    match s_in s with
    | [] => if s_eof s
            then Ret (0, []) (mkSock [] true (s_out s) (tail ev) (s_ssched s))
            else Blocked s
    | _ => let k := recv_count s (Z.to_nat n) in
           Ret (Z.of_nat k, take k (s_in s))
               (mkSock (drop k (s_in s)) (s_eof s) (s_out s) (tail ev) (s_ssched s))
    end
  end.

(** ** sendfull and recvfull

    Both loops move at least one byte per iteration, so [len] units of fuel
    always suffice: see [recvfull_Blocked] and [sendfull_returns]. *)

Fixpoint sendfull_loop (fuel : nat) (cur : list byte) (remaining : Z) : M sock Z :=
  if 0 <? remaining then
    match fuel with
    | O => blocked
    | S f =>
      sent ← sys_send cur remaining;
      if sent =? -1 then mret remaining
      else sendfull_loop f (drop (Z.to_nat sent) cur) (remaining - sent)
    end
  else mret remaining.

Definition sendfull (msg : list byte) (len : Z) : M sock Z :=
  remaining ← sendfull_loop (Z.to_nat len) msg len; mret (len - remaining).

Fixpoint recvfull_loop (fuel : nat) (acc : list byte) (remaining : Z)
  : M sock (list byte * Z) :=
  if 0 <? remaining then
    match fuel with
    | O => blocked
    | S f =>
      '(recvd, bs) ← sys_recv remaining;
      if (recvd =? -1) || (recvd =? 0) then mret (acc, remaining)
      else recvfull_loop f (acc ++ bs) (remaining - recvd)
    end
  else mret (acc, remaining).

(** The returned count and the bytes stored at the front of the buffer. *)
Definition recvfull (len : Z) : M sock (Z * list byte) :=
  '(acc, remaining) ← recvfull_loop (Z.to_nat len) [] len; mret (len - remaining, acc).

(** ** Facts about the two loops *)

Definition no_fail (l : list sched_ev) : Prop := Fail ∉ l.

Lemma no_fail_tail l : no_fail l -> no_fail (tail l).
Proof. unfold no_fail. destruct l; [done|]. simpl. intros H ?. apply H. by right. Qed.

Lemma clamp_bounds k n a : (0 < n)%nat -> (0 < a)%nat -> (1 <= clamp k n a <= Nat.min n a)%nat.
Proof. unfold clamp. lia. Qed.

Lemma send_count_bounds s n : (0 < n)%nat -> (1 <= send_count s n <= n)%nat.
Proof.
  intros. unfold send_count. destruct (s_ssched s) as [|[k|] r]; [lia| |lia].
  pose proof (clamp_bounds k n n). lia.
Qed.

Lemma recv_count_bounds s n :
  (0 < n)%nat -> s_in s <> [] -> (1 <= recv_count s n <= Nat.min n (length (s_in s)))%nat.
Proof.
  intros Hn Hs. assert (0 < length (s_in s))%nat by (destruct (s_in s); [done|simpl; lia]).
  unfold recv_count. destruct (s_rsched s) as [|[k|] r]; [lia| |lia].
  by apply clamp_bounds.
Qed.

(** One [recv] call, by the shape of its result. *)
Lemma sys_recv_cases n s :
  0 < n ->
  (exists r, s_rsched s = Fail :: r /\
     sys_recv n s = Ret (-1, []) (mkSock (s_in s) (s_eof s) (s_out s) r (s_ssched s))) \/
  (s_in s = [] /\ s_eof s = true /\
     sys_recv n s = Ret (0, []) (mkSock [] true (s_out s) (tail (s_rsched s)) (s_ssched s))) \/
  (s_in s = [] /\ s_eof s = false /\ sys_recv n s = Blocked s) \/
  (exists k, (1 <= k <= Nat.min (Z.to_nat n) (length (s_in s)))%nat /\
     sys_recv n s = Ret (Z.of_nat k, take k (s_in s))
       (mkSock (drop k (s_in s)) (s_eof s) (s_out s) (tail (s_rsched s)) (s_ssched s))).
Proof.
  intros Hn. unfold sys_recv.
  destruct (s_rsched s) as [|[k|] r] eqn:Er.
  3: { left. eauto. }
  all: right; destruct (s_in s) as [|b bs] eqn:Ei;
    [destruct (s_eof s) eqn:Ee; [left; done|right; left; done]|].
  all: right; right; exists (recv_count s (Z.to_nat n)); split; [|done].
  all: rewrite <- Ei; apply recv_count_bounds; [lia|by rewrite Ei].
Qed.

(** ** What the receiving loop does, for every schedule *)

(** [evs'] is what is left of a schedule after some calls. *)
Lemma tail_subset {A} (l : list A) : tail l ⊆ l.
Proof. destruct l; set_solver. Qed.

Lemma recvfull_loop_spec fuel acc rem s :
  0 <= rem -> (Z.to_nat rem <= fuel)%nat ->
  match recvfull_loop fuel acc rem s with
  | Ret (bs, rem') s' =>
      exists got, bs = acc ++ got /\ got ++ s_in s' = s_in s /\
        0 <= rem' <= rem /\ rem - rem' = Z.of_nat (length got) /\
        s_out s' = s_out s /\ s_eof s' = s_eof s /\ s_ssched s' = s_ssched s /\
        s_rsched s' ⊆ s_rsched s /\
        (0 < rem' -> Fail ∈ s_rsched s \/ s_in s' = [] /\ s_eof s = true)
  | Blocked s' => s_in s' = [] /\ s_eof s = false /\ Z.of_nat (length (s_in s)) < rem
  | _ => False
  end.
Proof.
  revert acc rem s. induction fuel as [|f IH]; intros acc rem s Hrem Hf; cbn [recvfull_loop];
    destruct (Z.ltb_spec 0 rem) as [Hpos|Hnp]; [lia| | |].
  1, 3: exists []; rewrite app_nil_r; simpl; repeat split; try lia; done.
  unfold mbind, M_bind.
  destruct (sys_recv_cases rem s Hpos) as
    [(r & Hr & ->)|[(Hi & He & ->)|[(Hi & He & ->)|(k & Hk & ->)]]]; simpl.
  - exists []. rewrite app_nil_r, Hr. simpl. repeat split; try lia; [set_solver|].
    left. by left.
  - exists []. rewrite app_nil_r, Hi, He. simpl.
    repeat split; try lia; [apply tail_subset|by right].
  - rewrite Hi. simpl. repeat split; [done|lia].
  - rewrite (proj2 (Z.eqb_neq _ _)), (proj2 (Z.eqb_neq (Z.of_nat k) 0)) by lia. simpl.
    set (s1 := mkSock (drop k (s_in s)) (s_eof s) (s_out s) (tail (s_rsched s)) (s_ssched s)).
    specialize (IH (acc ++ take k (s_in s)) (rem - Z.of_nat k) s1 ltac:(lia) ltac:(lia)).
    pose proof (tail_subset (s_rsched s)) as Ht.
    destruct (recvfull_loop f _ _ s1) as [[bs rem'] s'|c s'| | |s']; try done.
    + destruct IH as (got & -> & Hin & Hr & Hlen & Ho & He & Hs & Hsub & Hstop). simpl in *.
      exists (take k (s_in s) ++ got). rewrite app_assoc. repeat split; try lia; try done.
      * rewrite <- app_assoc, Hin. apply take_drop.
      * rewrite length_app, length_take. lia.
      * set_solver.
      * intros H. destruct (Hstop H); [left; set_solver|by right].
    + simpl in IH. rewrite length_drop in IH. naive_solver lia.
Qed.

(** C10: for every kernel schedule, [recvfull] either returns the number of bytes
    it stored, which is between 0 and [len] (so never -1), with those bytes the
    next ones of the stream and the rest left in order, a short count only after
    a failed [recv] or the end of the stream; or it waits in [recv] on an open
    stream that holds fewer than [len] bytes.  It cannot stop in any other way. *)
Theorem recvfull_spec len s :
  0 <= len ->
  match recvfull len s with
  | Ret (n, bs) s' =>
      0 <= n <= len /\ n = Z.of_nat (length bs) /\ bs ++ s_in s' = s_in s /\
      s_out s' = s_out s /\ s_eof s' = s_eof s /\ s_ssched s' = s_ssched s /\
      s_rsched s' ⊆ s_rsched s /\
      (n < len -> Fail ∈ s_rsched s \/ s_in s' = [] /\ s_eof s = true)
  | Blocked s' => s_in s' = [] /\ s_eof s = false /\ Z.of_nat (length (s_in s)) < len
  | _ => False
  end.
Proof.
  intros Hl. unfold recvfull, mbind, M_bind.
  pose proof (recvfull_loop_spec (Z.to_nat len) [] len s Hl ltac:(lia)) as H.
  destruct (recvfull_loop _ _ _ s) as [[bs rem'] s'|c s'| | |s']; simpl; try done.
  destruct H as (got & -> & H). simpl. naive_solver lia.
Qed.

Definition example_sock : sock :=
  mkSock [x01; x02; x03; x04] false [] [Chunk 1; Chunk 9] [].

Lemma recvfull_spec_witness :
  0 <= 3 /\ exists s', recvfull 3 example_sock = Ret (3, [x01; x02; x03]) s' /\
  [x01; x02; x03] ++ s_in s' = s_in example_sock.
Proof.
  split; [lia|].
  pose proof (recvfull_spec 3 example_sock ltac:(lia)) as H.
  destruct (recvfull 3 example_sock) as [[n bs] s'|c s'| | |s'] eqn:E;
    vm_compute in E; try discriminate.
  injection E as <- <- <-. eexists; split; [reflexivity|]. apply H.
Defined.

(** ** Consequences used by the callers *)

(** Nothing to read on an open stream. *)
Lemma recvfull_empty len s :
  0 < len -> s_in s = [] -> s_eof s = false -> no_fail (s_rsched s) ->
  exists s', recvfull len s = Blocked s'.
Proof.
  intros Hl Hi He Hn. unfold recvfull, mbind, M_bind.
  pose proof (recvfull_loop_spec (Z.to_nat len) [] len s ltac:(lia) ltac:(lia)) as H.
  destruct (recvfull_loop _ _ _ s) as [[bs rem'] s'|c s'| | |s']; try done; [|by eexists].
  destruct H as (got & -> & Hin & Hr & Hlen & _ & _ & _ & _ & Hstop). exfalso.
  rewrite Hi in Hin. apply app_nil in Hin as [-> _]. simpl in Hlen.
  destruct (Hstop ltac:(lia)) as [?|[_ ?]]; [done|congruence].
Qed.

Lemma recvfull_complete len s :
  0 <= len -> (Z.to_nat len <= length (s_in s))%nat -> no_fail (s_rsched s) ->
  exists s', recvfull len s = Ret (len, take (Z.to_nat len) (s_in s)) s' /\
    s_in s' = drop (Z.to_nat len) (s_in s) /\ s_eof s' = s_eof s /\ s_out s' = s_out s /\
    s_ssched s' = s_ssched s /\ no_fail (s_rsched s').
Proof.
  intros Hl Hs Hn. unfold recvfull, mbind, M_bind.
  pose proof (recvfull_loop_spec (Z.to_nat len) [] len s Hl ltac:(lia)) as H.
  destruct (recvfull_loop _ _ _ s) as [[bs rem'] s'|c s'| | |s']; try done; [|lia].
  destruct H as (got & -> & Hin & Hr & Hlen & Ho & He & Hss & Hsub & Hstop). simpl in *.
  assert (length got + length (s_in s') = length (s_in s))%nat as Htot
    by (by rewrite <- Hin, length_app).
  assert (rem' = 0) as ->.
  { destruct (decide (0 < rem')) as [Hp|]; [|lia].
    destruct (Hstop Hp) as [Hf|[Hi _]]; [done|]. rewrite Hi in Htot. simpl in Htot. lia. }
  exists s'. unM. rewrite Z.sub_0_r.
  assert (length got = Z.to_nat len) as Hg by lia.
  rewrite <- Hin, take_app_exact, drop_app_exact by done.
  repeat split; try done. unfold no_fail in *. set_solver.
Qed.

Lemma recvfull_nonpos len s : len <= 0 -> recvfull len s = Ret (len - len, []) s.
Proof.
  intros. unfold recvfull. rewrite Z2Nat.nonpos by lia. simpl.
  by rewrite (proj2 (Z.ltb_ge _ _)) by lia.
Qed.

(** ** The sending loop *)

Lemma sys_send_cases cur n s :
  0 < n ->
  (exists r, s_ssched s = Fail :: r /\
     sys_send cur n s = Ret (-1) (mkSock (s_in s) (s_eof s) (s_out s) (s_rsched s) r)) \/
  (exists k, (1 <= k <= Z.to_nat n)%nat /\
     sys_send cur n s = Ret (Z.of_nat k)
       (mkSock (s_in s) (s_eof s) (s_out s ++ take k cur) (s_rsched s) (tail (s_ssched s)))).
Proof.
  intros Hn. unfold sys_send.
  pose proof (send_count_bounds s (Z.to_nat n) ltac:(lia)).
  destruct (s_ssched s) as [|[k|] r] eqn:Er; eauto.
Qed.

Lemma sendfull_loop_spec fuel cur rem s :
  0 <= rem -> (Z.to_nat rem <= fuel)%nat -> (Z.to_nat rem <= length cur)%nat ->
  exists rem' s', sendfull_loop fuel cur rem s = Ret rem' s' /\ 0 <= rem' <= rem /\
    s_out s' = s_out s ++ take (Z.to_nat (rem - rem')) cur /\
    s_in s' = s_in s /\ s_eof s' = s_eof s /\ s_rsched s' = s_rsched s /\
    s_ssched s' ⊆ s_ssched s /\ (0 < rem' -> Fail ∈ s_ssched s).
Proof.
  revert cur rem s. induction fuel as [|f IH]; intros cur rem s Hrem Hf Hc; cbn [sendfull_loop];
    destruct (Z.ltb_spec 0 rem) as [Hpos|Hnp]; [lia| | |].
  1, 3: exists rem, s; rewrite Z.sub_diag, take_0, app_nil_r; repeat split; try lia; done.
  unfold mbind, M_bind.
  destruct (sys_send_cases cur rem s Hpos) as [(r & Hr & ->)|(k & Hk & ->)]; simpl.
  - exists rem. eexists; split; [reflexivity|]. simpl.
    rewrite Z.sub_diag, take_0, app_nil_r, Hr.
    repeat split; try lia; [set_solver|intros; by left].
  - rewrite (proj2 (Z.eqb_neq _ _)), Nat2Z.id by lia.
    set (s1 := mkSock _ _ _ _ _).
    destruct (IH (drop k cur) (rem - Z.of_nat k) s1)
      as (rem' & s' & -> & Hr & Ho & Hi & He & Hrs & Hsub & Hstop);
      [lia|lia|rewrite length_drop; lia|].
    pose proof (tail_subset (s_ssched s)) as Ht. simpl in *.
    exists rem', s'. rewrite Ho, Hi, He, Hrs. repeat split; try lia; try done; [|set_solver|set_solver].
    rewrite <- app_assoc, take_take_drop. do 2 f_equal. lia.
Qed.

(** C11: for every kernel schedule, [sendfull] returns (it never waits for more
    than the kernel's own calls), the count is between 0 and [len], exactly that
    prefix of the message has been appended to the outgoing stream, and a short
    count means a [send] failed. *)
Theorem sendfull_spec msg len s :
  0 <= len -> (Z.to_nat len <= length msg)%nat ->
  exists n s', sendfull msg len s = Ret n s' /\ 0 <= n <= len /\
    s_out s' = s_out s ++ take (Z.to_nat n) msg /\
    s_in s' = s_in s /\ s_eof s' = s_eof s /\ s_rsched s' = s_rsched s /\
    s_ssched s' ⊆ s_ssched s /\ (n < len -> Fail ∈ s_ssched s).
Proof.
  intros Hl Hm. unfold sendfull, mbind, M_bind.
  destruct (sendfull_loop_spec (Z.to_nat len) msg len s) as (rem' & s' & -> & H); [lia..|].
  exists (len - rem'), s'. naive_solver lia.
Qed.

Lemma sendfull_spec_witness :
  (0 <= 3 /\ (Z.to_nat 3 <= length [x01; x02; x03])%nat) /\
  exists n s', sendfull [x01; x02; x03] 3 (mkSock [] false [] [] [Chunk 2; Fail]) = Ret n s' /\
    s_out s' = [] ++ take (Z.to_nat n) [x01; x02; x03] /\ n = 2.
Proof.
  split; [split; [lia|simpl; lia]|].
  destruct (sendfull_spec [x01; x02; x03] 3 (mkSock [] false [] [] [Chunk 2; Fail]))
    as (n & s' & E & _ & Ho & _); [lia|simpl; lia|].
  exists n, s'. split; [exact E|]. split; [exact Ho|].
  vm_compute in E. by injection E.
Defined.

Lemma sendfull_complete msg len s :
  0 <= len -> (Z.to_nat len <= length msg)%nat -> no_fail (s_ssched s) ->
  exists s', sendfull msg len s = Ret len s' /\
    s_out s' = s_out s ++ take (Z.to_nat len) msg /\ s_in s' = s_in s /\
    s_eof s' = s_eof s /\ s_rsched s' = s_rsched s /\ no_fail (s_ssched s').
Proof.
  intros Hl Hm Hn. unfold sendfull, mbind, M_bind.
  destruct (sendfull_loop_spec (Z.to_nat len) msg len s)
    as (rem' & s' & -> & Hr & Ho & Hi & He & Hrs & Hsub & Hstop); [lia..|].
  assert (rem' = 0) as -> by (destruct (decide (0 < rem')); [by destruct Hn; apply Hstop|lia]).
  rewrite Z.sub_0_r in Ho. exists s'. unM. rewrite Z.sub_0_r.
  repeat split; try done. unfold no_fail in *. set_solver.
Qed.
