(* ===== verification/Double.v ===== *)
(** * Binary64 arithmetic

    The C++ [double] as the Standard Library's executable IEEE-754 specification
    at precision 53, with the conversions the harness uses, and the one fact the
    arrival process needs: rounding to nearest never crosses a representable
    number from above. *)

From Stdlib Require Import SpecFloat.
From S2P Require Import Prelude.

Definition double : Type := spec_float.
Definition dadd : double -> double -> double := SFadd 53 1024.
Definition dmul : double -> double -> double := SFmul 53 1024.
Definition ddiv : double -> double -> double := SFdiv 53 1024.
Definition dltb : double -> double -> bool := SFltb.

(** Conversion of an integer to the nearest double. *)
Definition dZ (z : Z) : double := binary_normalize 53 1024 z 0 false.

(** The correctly rounded quotient of two positive integers: the value of a
    decimal literal such as [1e-9] is [drat 1 1000000000]. *)
Definition drat (num den : Z) : double :=
  let '(q, e, l) := SFdiv_core_binary 53 1024 num 0 den 0 in
  binary_round_aux 53 1024 false q e l.

(** Truncation towards zero; no integer for infinities and NaN. *)
Definition dtrunc (x : double) : option Z :=
  match x with
  | S754_zero _ => Some 0
  | S754_finite s m e =>
      let v := if 0 <=? e then Zpos m * 2 ^ e else Zpos m / 2 ^ (- e) in
      Some (if s then - v else v)
  | _ => None
  end.

(** Conversions to integer types are undefined out of range. *)
Definition d_to_u64 (x : double) : option Z :=
  z ← dtrunc x; if (0 <=? z) && (z <? 2 ^ 64) then Some z else None.
Definition d_to_i32 (x : double) : option Z :=
  z ← dtrunc x; if (- 2 ^ 31 <=? z) && (z <? 2 ^ 31) then Some z else None.

(** ** Scaled values of non-negative doubles *)

(** Finite non-negative doubles are integers at scale 2^-1074. *)
Definition sval (x : double) : Z :=
  match x with S754_finite false m e => Zpos m * 2 ^ (e + 1074) | _ => 0 end.

Definition nonneg (x : double) : Prop :=
  match x with
  | S754_zero _ => True
  | S754_finite false m e => Zpos m < 2 ^ 53 /\ -1074 <= e
  | _ => False
  end.

(** Scaled values that some double has. *)
Definition repr (v : Z) : Prop :=
  exists m e, 0 <= m < 2 ^ 53 /\ -1074 <= e /\ v = m * 2 ^ (e + 1074).

Lemma nonneg_repr x : nonneg x -> repr (sval x).
Proof.
  destruct x as [| | |[] m e]; simpl; try done.
  - intros _. exists 0, 0. repeat split; lia.
  - intros [? ?]. exists (Zpos m), e. repeat split; lia.
Qed.

Lemma sval_nonneg x : 0 <= sval x.
Proof. destruct x as [| | |[] m e]; simpl; try lia. Qed.

Lemma dtrunc_sval x : nonneg x -> dtrunc x = Some (sval x / 2 ^ 1074).
Proof.
  destruct x as [| | |[] m e]; cbn [nonneg]; try done. intros [_ He]. cbn [dtrunc sval].
  f_equal. destruct (Z.leb_spec 0 e).
  - rewrite Z.pow_add_r, Z.mul_assoc by lia. by rewrite Z.div_mul.
  - replace 1074 with ((e + 1074) + - e) at 2 by lia.
    rewrite (Z.pow_add_r 2 (e + 1074) (- e)) by lia.
    rewrite (Z.mul_comm (Zpos m)), Z.div_mul_cancel_l; [done|lia|lia].
Qed.

(** ** Rounding *)

Lemma digits2_pos_bounds m :
  2 ^ (Zpos (digits2_pos m) - 1) <= Zpos m < 2 ^ Zpos (digits2_pos m).
Proof.
  induction m as [p IH|p IH|]; cbn [digits2_pos]; [| |done].
  all: rewrite Pos2Z.inj_succ;
    replace (Z.succ (Zpos (digits2_pos p)) - 1) with (Zpos (digits2_pos p)) by lia.
  all: rewrite Z.pow_succ_r by lia.
  all: assert (2 ^ Zpos (digits2_pos p) = 2 * 2 ^ (Zpos (digits2_pos p) - 1))
    by (rewrite <- Z.pow_succ_r by lia; f_equal; lia).
  all: lia.
Qed.

Lemma digits2_le m k : 0 <= k -> Zpos m < 2 ^ k -> Zpos (digits2_pos m) <= k.
Proof.
  intros Hk Hm. destruct (digits2_pos_bounds m) as [Hlo _].
  assert (2 ^ (Zpos (digits2_pos m) - 1) < 2 ^ k) as H by lia.
  apply Z.pow_lt_mono_r_iff in H; lia.
Qed.

Lemma shr_1_m r : 0 <= shr_m r -> shr_m (shr_1 r) = shr_m r / 2.
Proof.
  destruct r as [m b s]; cbn [shr_m].
  destruct m as [|[p|p|]|p]; cbn [shr_1 shr_m]; intros; try done; try lia.
  - rewrite Pos2Z.inj_xI. apply Z.div_unique with 1; lia.
  - rewrite Pos2Z.inj_xO. apply Z.div_unique with 0; lia.
Qed.

Lemma iter_shr_m n r : 0 <= shr_m r -> shr_m (SpecFloat.iter_pos shr_1 n r) = shr_m r / 2 ^ Zpos n.
Proof.
  revert r. induction n as [n IH|n IH|]; intros r Hr; cbn [SpecFloat.iter_pos].
  - assert (0 <= shr_m (shr_1 r)) by (rewrite shr_1_m by done; apply Z.div_pos; lia).
    rewrite !IH, shr_1_m, !Z.div_div; try done; try lia.
    + f_equal. rewrite <- Z.pow_add_r, <- Z.pow_succ_r by lia. f_equal. lia.
    + rewrite IH by done. apply Z.div_pos; lia.
  - rewrite !IH, Z.div_div; try done; try lia.
    + f_equal. rewrite <- Z.pow_add_r by lia. f_equal. lia.
    + rewrite IH by done. apply Z.div_pos; lia.
  - rewrite shr_1_m by done. done.
Qed.

Lemma shr_exact m e n :
  0 <= m ->
  let '(r, e') := shr (shr_record_of_loc m loc_Exact) e n in
  e' = e + Z.max 0 n /\ shr_m r = m / 2 ^ Z.max 0 n.
Proof.
  intros Hm. destruct n as [|p|p]; simpl.
  - rewrite Z.div_1_r. lia.
  - rewrite iter_shr_m by (simpl; lia). by simpl.
  - rewrite Z.div_1_r. lia.
Qed.

Lemma round_nearest_even_bounds m l : m <= round_nearest_even m l <= m + 1.
Proof. destruct l as [|[]]; simpl; try lia. destruct (Z.even m); lia. Qed.

(** The number of mantissa bits rounding drops from [m * 2^e]. *)
Definition dropped (m : positive) (e : Z) : Z :=
  Z.max 0 (fexp 53 1024 (Zpos (digits2_pos m) + e) - e).

Lemma dropped_eq m e : dropped m e = Z.max 0 (Z.max (Zpos (digits2_pos m) - 53) (-1074 - e)).
Proof. unfold dropped, fexp, emin. lia. Qed.

(** A representable number below [m * 2^e] is below its truncation too. *)
Lemma truncation_keeps_repr m e v :
  -1074 <= e -> repr v -> v <= Zpos m * 2 ^ (e + 1074) ->
  v <= Zpos m / 2 ^ dropped m e * 2 ^ (e + dropped m e + 1074).
Proof.
  rewrite dropped_eq. set (d := Zpos (digits2_pos m)). set (k := Z.max 0 _).
  destruct (digits2_pos_bounds m) as [Hlo _]. fold d in Hlo.
  intros He (mb & eb & Hmb & Heb & ->) Hle.
  destruct (decide (k = 0)) as [->|Hk0]; [by rewrite Z.div_1_r, Z.add_0_r|].
  assert (Hk : 0 <= k) by lia.
  pose proof (Z.pow_pos_nonneg 2 k ltac:(lia) Hk) as Hk2.
  pose proof (Z.pow_pos_nonneg 2 (e + 1074) ltac:(lia) ltac:(lia)) as He2.
  destruct (Z.le_gt_cases (e + k) eb) as [Hc|Hc].
  - assert (Heq : 2 ^ (eb + 1074) = 2 ^ (eb - e - k) * 2 ^ k * 2 ^ (e + 1074))
      by (rewrite <- !Z.pow_add_r by lia; f_equal; lia).
    rewrite Heq in Hle |- *. replace (e + k + 1074) with (k + (e + 1074)) by lia.
    rewrite (Z.pow_add_r 2 k) by lia. rewrite !Z.mul_assoc in *.
    do 2 (apply Z.mul_le_mono_nonneg_r; [lia|]).
    apply Z.div_le_lower_bound; [lia|]. nia.
  - assert (Hkd : k = d - 53) by lia.
    transitivity (2 ^ 53 * 2 ^ (eb + 1074));
      [apply Z.mul_le_mono_nonneg_r; [apply Z.pow_nonneg|]; lia|].
    transitivity (2 ^ 52 * 2 ^ (e + k + 1074));
      [rewrite <- !Z.pow_add_r by lia; apply Z.pow_le_mono_r; lia|].
    apply Z.mul_le_mono_nonneg_r; [apply Z.pow_nonneg; lia|].
    apply Z.div_le_lower_bound; [lia|].
    rewrite <- Z.pow_add_r by lia. replace (k + 52) with (d - 1) by lia. lia.
Qed.

Lemma truncation_bound m e :
  -1074 <= e -> 0 < Zpos m / 2 ^ dropped m e < 2 ^ 53.
Proof.
  intros He. rewrite dropped_eq. set (k := Z.max 0 _).
  destruct (digits2_pos_bounds m) as [Hlo Hhi].
  pose proof (Z.pow_pos_nonneg 2 k ltac:(lia) ltac:(lia)).
  split.
  { apply Z.div_str_pos. split; [lia|]. etrans; [|exact Hlo].
    apply Z.pow_le_mono_r; [lia|]. lia. }
  apply Z.div_lt_upper_bound; [lia|]. rewrite <- Z.pow_add_r by lia.
  assert (2 ^ Zpos (digits2_pos m) <= 2 ^ (k + 53)) by (apply Z.pow_le_mono_r; lia). lia.
Qed.

(** The second normalisation inside [binary_round_aux] changes the
    representation of the rounded mantissa, never its value. *)
Lemma renormalise q e1 :
  Zpos q <= 2 ^ 53 -> -1074 <= e1 ->
  let '(r, e2) := shr_fexp 53 1024 (Zpos q) e1 loc_Exact in
  0 < shr_m r < 2 ^ 53 /\ e1 <= e2 /\ shr_m r * 2 ^ (e2 + 1074) = Zpos q * 2 ^ (e1 + 1074).
Proof.
  intros Hq He1. unfold shr_fexp. cbn [Zdigits2].
  pose proof (shr_exact (Zpos q) e1 (fexp 53 1024 (Zpos (digits2_pos q) + e1) - e1)) as Hs.
  destruct (shr _ e1 _) as [r2 e2]. destruct (Hs ltac:(lia)) as [He2 Hr2].
  change (Z.max 0 _) with (dropped q e1) in *. rewrite dropped_eq in *.
  destruct (decide (Zpos q < 2 ^ 53)) as [Hlt|Hge].
  - pose proof (digits2_le q 53 ltac:(lia) Hlt) as Hd.
    replace (Z.max 0 _) with 0 in * by lia. rewrite Z.div_1_r in Hr2.
    rewrite Hr2, He2, Z.add_0_r. repeat split; lia.
  - assert (q = 2 ^ 53)%positive as -> by lia.
    change (Zpos (digits2_pos (2 ^ 53))) with 54 in *.
    replace (Z.max 0 _) with 1 in * by lia.
    change (Z.pos (2 ^ 53) / 2 ^ 1) with (Zpos (2 ^ 52)) in Hr2.
    rewrite Hr2, He2. replace (e1 + 1 + 1074) with (1 + (e1 + 1074)) by lia.
    rewrite (Z.pow_add_r 2 1) by lia. repeat split; lia.
Qed.

(** Rounding [m * 2^e] gives a non-negative double unless it overflows, and a
    representable number below [m * 2^e] stays below the result. *)
Definition rounds_above (z : double) (exact : Z) : Prop :=
  is_Some (dtrunc z) -> nonneg z /\ forall v, repr v -> v <= exact -> v <= sval z.

Lemma binary_round_aux_lower m e :
  -1074 <= e ->
  rounds_above (binary_round_aux 53 1024 false (Zpos m) e loc_Exact) (Zpos m * 2 ^ (e + 1074)).
Proof.
  intros He. unfold binary_round_aux. unfold shr_fexp at 1. cbn [Zdigits2].
  pose proof (shr_exact (Zpos m) e (fexp 53 1024 (Zpos (digits2_pos m) + e) - e)) as Hs.
  destruct (shr _ e _) as [r1 e1]. destruct (Hs ltac:(lia)) as [He1 Hr1]. clear Hs.
  change (Z.max 0 _) with (dropped m e) in *.
  pose proof (truncation_bound m e He) as Hb. rewrite <- Hr1 in Hb.
  pose proof (round_nearest_even_bounds (shr_m r1) (loc_of_shr_record r1)) as Hm2.
  destruct (round_nearest_even _ _) as [|q|q] eqn:Eq; [lia| |lia].
  pose proof (renormalise q e1) as Hren.
  destruct (shr_fexp 53 1024 (Zpos q) e1 loc_Exact) as [r2 e2].
  assert (-1074 <= e1) by (unfold dropped in He1; lia).
  destruct Hren as (H1 & H2 & H3); [lia|done|].
  destruct (shr_m r2) as [|q2|q2] eqn:E2; [lia| |lia].
  destruct (e2 <=? 1024 - 53); [|by intros [? ?]]. intros _.
  split; [simpl; lia|]. intros v Hv Hle. cbn [sval]. rewrite H3.
  pose proof (truncation_keeps_repr m e v He Hv Hle) as Ht.
  rewrite <- Hr1, <- He1 in Ht.
  assert (shr_m r1 * 2 ^ (e1 + 1074) <= Zpos q * 2 ^ (e1 + 1074)); [|lia].
  apply Z.mul_le_mono_nonneg_r; [apply Z.pow_nonneg|]; lia.
Qed.

Lemma iter_xO m d : Zpos (Pos.iter xO m d) = Zpos m * 2 ^ Zpos d.
Proof.
  induction d as [|d IH] using Pos.peano_ind; [simpl; lia|].
  rewrite Pos.iter_succ, Pos2Z.inj_xO, IH, Pos2Z.inj_succ, Z.pow_succ_r by lia. lia.
Qed.

Lemma shl_align_val m e e' :
  -1074 <= e -> -1074 <= e' ->
  let '(mz, ez) := shl_align m e e' in
  Zpos mz * 2 ^ (ez + 1074) = Zpos m * 2 ^ (e + 1074) /\ -1074 <= ez /\ (e' <= e -> ez = e').
Proof.
  intros He He'. unfold shl_align. destruct (e' - e) as [|d|d] eqn:E; [repeat split; lia..|].
  rewrite iter_xO, <- Z.mul_assoc, <- Z.pow_add_r by lia.
  replace (Zpos d + (e' + 1074)) with (e + 1074) by lia. repeat split; lia.
Qed.

Lemma binary_normalize_lower m e :
  -1074 <= e -> 0 < m ->
  rounds_above (binary_normalize 53 1024 m e false) (m * 2 ^ (e + 1074)).
Proof.
  intros He Hm. destruct m as [|p|p]; try lia. unfold binary_normalize, binary_round.
  pose proof (shl_align_val p e (fexp 53 1024 (Zpos (digits2_pos p) + e)) He) as Hs.
  destruct (shl_align _ _ _) as [mz ez].
  destruct Hs as (<- & Hez & _); [unfold fexp, emin; lia|].
  by apply binary_round_aux_lower.
Qed.

Lemma dadd_lower x y : nonneg x -> nonneg y -> rounds_above (dadd x y) (sval x + sval y).
Proof.
  intros Hx Hy. pose proof (nonneg_repr x Hx) as Rx. pose proof (nonneg_repr y Hy) as Ry.
  destruct x as [[]| | |[] mx ex]; try done; destruct y as [[]| | |[] my ey]; try done.
  1, 2: intros _; split; [done|cbv [dadd SFadd sval]; intros; lia].
  destruct Hx as [_ Hex], Hy as [_ Hey]. unfold dadd, SFadd. cbn [cond_Zopp].
  pose proof (shl_align_val mx ex (Z.min ex ey) Hex ltac:(lia)) as Hsx.
  pose proof (shl_align_val my ey (Z.min ex ey) Hey ltac:(lia)) as Hsy.
  destruct (shl_align mx ex _) as [ax bx]. destruct (shl_align my ey _) as [ay by_].
  destruct Hsx as (Hvx & _ & Hbx), Hsy as (Hvy & _ & Hby). cbn [fst].
  rewrite Hbx in Hvx by lia. rewrite Hby in Hvy by lia.
  cbn [sval]. rewrite <- Hvx, <- Hvy, <- Z.mul_add_distr_r.
  apply binary_normalize_lower; lia.
Qed.

(** An integer with a 53-bit mantissa does not grow smaller when converted. *)
Lemma dZ_lower z : 0 <= z -> rounds_above (dZ z) (z * 2 ^ 1074).
Proof.
  intros Hz. unfold dZ. destruct (decide (z = 0)) as [->|].
  - intros _. split; [done|simpl; lia].
  - apply (binary_normalize_lower z 0); lia.
Qed.

(** The integer part of a double is a double. *)
Lemma repr_trunc x : nonneg x -> repr (sval x / 2 ^ 1074 * 2 ^ 1074).
Proof.
  destruct x as [| | |[] m e]; try done; cbn [nonneg sval].
  - intros _. exists 0, 0. repeat split; lia.
  - intros [Hm He]. destruct (Z.le_gt_cases 0 e).
    + rewrite Z.pow_add_r, Z.mul_assoc, Z.div_mul by lia.
      exists (Zpos m), e. rewrite Z.pow_add_r by lia. repeat split; lia.
    + assert (0 <= Zpos m * 2 ^ (e + 1074) / 2 ^ 1074) by (apply Z.div_pos; lia).
      assert (Zpos m * 2 ^ (e + 1074) / 2 ^ 1074 < 2 ^ 53).
      { apply Z.div_lt_upper_bound; [lia|].
        assert (2 ^ (e + 1074) <= 2 ^ 1074) by (apply Z.pow_le_mono_r; lia).
        apply Z.le_lt_trans with (Zpos m * 2 ^ 1074); [nia|].
        rewrite Z.mul_comm. apply Z.mul_lt_mono_pos_l; lia. }
      eexists _, 0. split; [split; eassumption|]. split; [lia|done].
Qed.
