(* ===== verification/Dist.v ===== *)
(** * Arrival process (src/harness/dist.h) *)

From Stdlib Require Import Sorting.Sorted.
From S2P Require Import Prelude Double.

(** [ExpDist]: the engine [g] is determined by its seed and the number of draws
    made, the distribution [d] by its rate. *)
Record ExpDist := mkExpDist {
  ed_lambda : double;
  ed_seed : Z;
  ed_draws : nat;
  ed_curNs : Z
}.

(** [ExpDist(lambda, seed, startNs) : g(seed), d(lambda), curNs(startNs)]. *)
Definition new_ExpDist (lambda : double) (seed startNs : Z) : ExpDist :=
  mkExpDist lambda seed 0 startNs.

Section Arrivals.
(** [expo lambda seed k]: the [k]-th sample of
    [std::exponential_distribution<double>(lambda)] driven by
    [std::default_random_engine(seed)]. *)
Context (expo : double -> Z -> nat -> double).

(** [curNs += d(g); return curNs;]: the sum is computed in double and converted
    back to [uint64_t], undefined when it does not fit. *)
Definition nextArrivalNs (d : ExpDist) : option (Z * ExpDist) :=
  t ← d_to_u64 (dadd (dZ (ed_curNs d)) (expo (ed_lambda d) (ed_seed d) (ed_draws d)));
  Some (t, mkExpDist (ed_lambda d) (ed_seed d) (S (ed_draws d)) t).

(** The arrival times of the next [n] requests. *)
Fixpoint arrivals (n : nat) (d : ExpDist) : option (list Z) :=
  match n with
  | O => Some []
  | S n' => '(t, d') ← nextArrivalNs d; ts ← arrivals n' d'; Some (t :: ts)
  end.

(** Samples of an exponential distribution are non-negative. *)
Hypothesis expo_nonneg : forall lambda seed k, nonneg (expo lambda seed k).

Lemma d_to_u64_trunc x t : d_to_u64 x = Some t -> dtrunc x = Some t /\ is_u64 t.
Proof.
  unfold d_to_u64. destruct (dtrunc x) as [z|]; simpl; [|done].
  destruct (Z.leb_spec 0 z), (Z.ltb_spec z (2 ^ 64)); simpl; try done.
  intros [= <-]. unfold is_u64. split; [done|lia].
Qed.

Lemma d_to_u64_sval x t : nonneg x -> d_to_u64 x = Some t -> t = sval x / 2 ^ 1074.
Proof.
  intros Hx [Ht _]%d_to_u64_trunc. rewrite dtrunc_sval in Ht by done. by injection Ht.
Qed.

(** A time that is a double: the only ones [nextArrivalNs] returns. *)
Definition on_grid (t : Z) : Prop := repr (t * 2 ^ 1074).

Lemma dadd_finite_l x y : is_Some (dtrunc (dadd x y)) -> is_Some (dtrunc x).
Proof.
  destruct x as [| [] | |]; try (intros; by eexists).
  - destruct y as [|[]| |]; simpl; by intros [? ?].
  - destruct y as [|[]| |]; simpl; by intros [? ?].
  - destruct y; simpl; by intros [? ?].
Qed.

Lemma nextArrivalNs_nonneg d t d' :
  0 <= ed_curNs d -> nextArrivalNs d = Some (t, d') ->
  let x := dadd (dZ (ed_curNs d)) (expo (ed_lambda d) (ed_seed d) (ed_draws d)) in
  nonneg (dZ (ed_curNs d)) /\ nonneg x /\ t = sval x / 2 ^ 1074 /\
  forall v, repr v -> v <= sval (dZ (ed_curNs d)) -> v <= sval x.
Proof.
  intros Hc. unfold nextArrivalNs. cbv zeta. set (x := dadd _ _).
  destruct (d_to_u64 x) as [t'|] eqn:E; simpl; [|done]. intros [= <- <-].
  assert (is_Some (dtrunc x)) as Hx by (apply d_to_u64_trunc in E as [-> _]; eauto).
  destruct (dZ_lower (ed_curNs d) Hc) as [Hz _]; [by eapply dadd_finite_l|].
  destruct (dadd_lower _ _ Hz (expo_nonneg (ed_lambda d) (ed_seed d) (ed_draws d)) Hx)
    as [Hn Hlow].
  repeat split; [done|done|by apply d_to_u64_sval|].
  intros v Hv Hle. apply Hlow; [done|]. pose proof (sval_nonneg (expo (ed_lambda d) (ed_seed d) (ed_draws d))). lia.
Qed.

Lemma nextArrivalNs_grid d t d' :
  0 <= ed_curNs d -> nextArrivalNs d = Some (t, d') -> on_grid t /\ 0 <= t /\ ed_curNs d' = t.
Proof.
  intros Hc H. destruct (nextArrivalNs_nonneg d t d' Hc H) as (_ & Hx & -> & _).
  split; [by apply repr_trunc|]. split; [apply Z.div_pos; [apply sval_nonneg|lia]|].
  unfold nextArrivalNs in H. destruct (d_to_u64 _) eqn:E; simpl in H; [|done].
  apply d_to_u64_sval in E; [|done]. injection H as <- <-. done.
Qed.

(** No double truncates to the largest [uint64_t]. *)
Lemma on_grid_odd t : on_grid t -> 2 ^ 53 <= t -> Z.odd t = true -> False.
Proof.
  intros (m & e & Hm & He & Heq) Ht Hodd.
  destruct (Z.le_gt_cases (e + 1074) 1074) as [Hle|Hgt].
  - replace 1074 with ((1074 - (e + 1074)) + (e + 1074)) in Heq at 1 by lia.
    rewrite Z.pow_add_r, Z.mul_assoc in Heq by lia.
    apply Z.mul_reg_r in Heq; [|apply Z.pow_nonzero; lia].
    assert (0 < 2 ^ (1074 - (e + 1074))) by (apply Z.pow_pos_nonneg; lia). nia.
  - replace (e + 1074) with ((e - 1) + 1 + 1074) in Heq by lia.
    rewrite Z.pow_add_r, Z.mul_assoc in Heq by lia.
    apply Z.mul_reg_r in Heq; [|apply Z.pow_nonzero; lia].
    rewrite Z.pow_add_r, Z.mul_assoc in Heq by lia. rewrite Heq, Z.odd_mul in Hodd.
    by rewrite andb_false_r in Hodd.
Qed.

Lemma nextArrivalNs_lt d t d' :
  0 <= ed_curNs d -> nextArrivalNs d = Some (t, d') ->
  0 <= t < 2 ^ 64 - 1 /\ ed_curNs d' = t.
Proof.
  intros Hc H. destruct (nextArrivalNs_grid d t d' Hc H) as (Hg & Ht & Hd).
  split; [|done]. split; [done|].
  unfold nextArrivalNs in H. destruct (d_to_u64 _) as [u|] eqn:E; simpl in H; [|done].
  injection H as -> _. apply d_to_u64_trunc in E as [_ Hu]. unfold is_u64 in Hu.
  destruct (decide (t = 2 ^ 64 - 1)) as [->|]; [|lia].
  destruct (on_grid_odd _ Hg); [lia|done].
Qed.

Lemma nextArrivalNs_ge d t d' :
  0 <= ed_curNs d -> on_grid (ed_curNs d) -> nextArrivalNs d = Some (t, d') -> ed_curNs d <= t.
Proof.
  intros Hc Hg H. destruct (nextArrivalNs_nonneg d t d' Hc H) as (Hz & Hx & -> & Hlow).
  apply Z.div_le_lower_bound; [lia|]. rewrite Z.mul_comm.
  apply Hlow; [done|].
  assert (is_Some (dtrunc (dZ (ed_curNs d)))) as Hs by (rewrite dtrunc_sval by done; eauto).
  destruct (dZ_lower (ed_curNs d) Hc Hs) as [_ Hl]. apply Hl; [done|lia].
Qed.

Lemma arrivals_sorted_from n d ts :
  0 <= ed_curNs d -> on_grid (ed_curNs d) -> arrivals n d = Some ts ->
  Forall (fun t => ed_curNs d <= t) ts /\ StronglySorted Z.le ts.
Proof.
  revert d ts. induction n as [|n IH]; intros d ts Hc Hg; simpl.
  { intros [= <-]. repeat constructor. }
  destruct (nextArrivalNs d) as [[t d']|] eqn:E; simpl; [|done].
  destruct (arrivals n d') as [ts'|] eqn:E'; simpl; [|done]. intros [= <-].
  destruct (nextArrivalNs_grid d t d' Hc E) as (Hg' & Ht & Hd').
  pose proof (nextArrivalNs_ge d t d' Hc Hg E) as Hge.
  destruct (IH d' ts') as [HF HS]; [lia|by rewrite Hd'|done|].
  rewrite Hd' in HF. split; constructor; try done.
  eapply Forall_impl; [exact HF|]. simpl. lia.
Qed.

(** Whatever the rate and the starting time, the arrival times the client
    draws are non-decreasing, in spite of the rounding of 64-bit nanosecond
    times to double. *)
Theorem arrivals_sorted n d ts :
  is_u64 (ed_curNs d) -> arrivals n d = Some ts -> StronglySorted Z.le ts.
Proof.
  unfold is_u64. intros Hc. destruct n as [|n]; simpl; [intros [= <-]; constructor|].
  destruct (nextArrivalNs d) as [[t d']|] eqn:E; simpl; [|done].
  destruct (arrivals n d') as [ts'|] eqn:E'; simpl; [|done]. intros [= <-].
  destruct (nextArrivalNs_grid d t d' ltac:(lia) E) as (Hg' & Ht & Hd').
  destruct (arrivals_sorted_from n d' ts') as [HF HS]; [lia|by rewrite Hd'|done|].
  rewrite Hd' in HF. by constructor.
Qed.

End Arrivals.

(** Samples for the examples: 0 and 1500.5 ns in turn. *)
Definition example_expo (_ : double) (_ : Z) (k : nat) : double :=
  if Nat.even k then dZ 0 else drat 3001 2.

Lemma example_expo_nonneg lambda seed k : nonneg (example_expo lambda seed k).
Proof. unfold example_expo. destruct (Nat.even k); vm_compute; done. Qed.

Lemma arrivals_sorted_witness :
  (forall lambda seed k, nonneg (example_expo lambda seed k)) /\
  arrivals example_expo 3 (new_ExpDist (drat 1 1000) 0 1700000000000000001)
    = Some [1700000000000000000; 1700000000000001536; 1700000000000001536] /\
  StronglySorted Z.le [1700000000000000000; 1700000000000001536; 1700000000000001536].
Proof.
  split; [exact example_expo_nonneg|].
  assert (E : arrivals example_expo 3 (new_ExpDist (drat 1 1000) 0 1700000000000000001)
    = Some [1700000000000000000; 1700000000000001536; 1700000000000001536])
    by (vm_compute; reflexivity).
  split; [exact E|].
  refine (arrivals_sorted example_expo example_expo_nonneg 3 _ _ _ E).
  unfold is_u64; simpl; lia.
Defined.
