(* ===== verification/Env.v ===== *)
(** * Options from the environment (getOpt of src/harness/helpers.h)

    [getOpt<T>] prints the variable, and returns its value read with
    [std::stringstream >> T], or the default when the variable is unset, empty
    or does not parse.  What the template needs of [T] is the class [FromStream];
    the instances are the types the harness uses. *)

From Stdlib Require Import SpecFloat Ascii String.
From stdpp Require Import strings.
From S2P Require Import Prelude Double.

Open Scope Z_scope.

(** The extraction operator: the value, or failbit. *)
Class FromStream (T : Type) := extract : list ascii -> option T.

(** An output stream: text written, and badbit. *)
Record ostream := mkOstream { os_out : list string; os_bad : bool }.

(** [os << s] for a [const char*]: a null pointer sets badbit (libstdc++), and
    nothing is written to a stream in a bad state. *)
Definition os_put (s : option string) (o : ostream) : ostream :=
  match s with
  | None => mkOstream (os_out o) true
  | Some t => if os_bad o then o else mkOstream (os_out o ++ [t]) (os_bad o)
  end.

(** The value part of [getOpt]. *)
Definition getOpt_val {T} `{FromStream T} (env : gmap string string) (name : string) (defVal : T) : T :=
  match env !! name with
  | None => defVal
  | Some opt =>
      if String.length opt =? 0 then defVal
      else match extract (list_ascii_of_string opt) with
           | Some res => res
           | None => defVal
           end
  end%nat.

(** The whole function; its state is [std::cout]. *)
Definition getOpt {T} `{FromStream T} (env : gmap string string) (name : string) (defVal : T)
  : M ostream T :=
  modify (fun o => os_put (Some (String (ascii_of_nat 10) EmptyString))
                     (os_put (env !! name) (os_put (Some (name +:+ " = ")%string) o)));;
  mret (getOpt_val env name defVal).

(** ** Character classes and digits *)

Definition is_space (c : ascii) : bool :=
  let n := nat_of_ascii c in (n =? 32)%nat || ((9 <=? n)%nat && (n <=? 13)%nat).
Definition digit (c : ascii) : option Z :=
  let n := Z.of_nat (nat_of_ascii c) in
  if (48 <=? n) && (n <=? 57) then Some (n - 48) else None.

Fixpoint skip_ws (l : list ascii) : list ascii :=
  match l with
  | c :: l' => if is_space c then skip_ws l' else l
  | [] => []
  end.

(** The longest run of digits: how many, their decimal value, the rest. *)
Fixpoint digits (l : list ascii) (acc : Z) (n : nat) : nat * Z * list ascii :=
  match l with
  | c :: l' => match digit c with
               | Some d => digits l' (10 * acc + d) (S n)
               | None => (n, acc, l)
               end
  | [] => (n, acc, [])
  end.

Definition sign (l : list ascii) : bool * list ascii :=
  match l with
  | "-"%char :: l' => (true, l')
  | "+"%char :: l' => (false, l')
  | _ => (false, l)
  end.

(** A decimal integer: sign and magnitude; no digits is a failure. *)
Definition integer (l : list ascii) : option (bool * Z) :=
  let '(neg, l1) := sign (skip_ws l) in
  let '(n, v, _) := digits l1 0 0 in
  if (n =? 0)%nat then None else Some (neg, v).

(** ** Instances: int, uint64_t, std::string, double *)

Inductive cint := Int (z : Z).
Definition int_val (i : cint) : Z := let 'Int z := i in z.

(** Out of range is a failure. *)
#[export] Instance cint_stream : FromStream cint := fun l =>
  match integer l with
  | Some (neg, v) =>
      let z := if neg : bool then - v else v in
      if (- 2 ^ 31 <=? z) && (z <? 2 ^ 31) then Some (Int z) else None
  | None => None
  end.

(** A minus sign negates modulo 2^64, as strtoull does. *)
#[export] Instance u64_stream : FromStream Z := fun l =>
  match integer l with
  | Some (neg, v) => if v <? 2 ^ 64 then Some (u64 (if neg : bool then - v else v)) else None
  | None => None
  end.

Fixpoint word (l : list ascii) : list ascii :=
  match l with
  | c :: l' => if is_space c then [] else c :: word l'
  | [] => []
  end.

#[export] Instance string_stream : FromStream string := fun l =>
  match word (skip_ws l) with
  | [] => None
  | w => Some (string_of_list_ascii w)
  end.

(** digits [. digits] [e [sign] digits], correctly rounded. *)
Definition dec_double (neg : bool) (m e10 : Z) : double :=
  let x := if m =? 0 then S754_zero false
           else if 0 <=? e10 then drat (m * 10 ^ e10) 1 else drat m (10 ^ (- e10)) in
  if neg then SFopp x else x.

#[export] Instance double_stream : FromStream double := fun l =>
  let '(neg, l1) := sign (skip_ws l) in
  let '(n1, v1, l2) := digits l1 0 0 in
  let '(n2, v2, l3) := match l2 with "."%char :: l' => digits l' v1 0 | _ => (0%nat, v1, l2) end in
  if (n1 + n2 =? 0)%nat then None
  else match l3 with
       | c :: l4 =>
           if bool_decide (c = "e"%char \/ c = "E"%char) then
             let '(eneg, l5) := sign l4 in
             let '(n3, v3, _) := digits l5 0 0 in
             if (n3 =? 0)%nat then None
             else Some (dec_double neg v2 ((if eneg then - v3 else v3) - Z.of_nat n2))
           else Some (dec_double neg v2 (- Z.of_nat n2))
       | [] => Some (dec_double neg v2 (- Z.of_nat n2))
       end.

(** ** Printing and reading back *)

(** The decimal text of a natural number, as a shell script would export it. *)
Definition digit_char (d : Z) : ascii := ascii_of_nat (Z.to_nat (d + 48)).

Fixpoint decimal (fuel : nat) (z : Z) : list ascii :=
  match fuel with
  | O => []
  | S f => if z <? 10 then [digit_char z] else decimal f (z / 10) ++ [digit_char (z mod 10)]
  end.

Lemma digit_digit_char d : 0 <= d < 10 -> digit (digit_char d) = Some d.
Proof.
  intros Hd. unfold digit, digit_char. rewrite nat_ascii_embedding by lia.
  rewrite Z2Nat.id by lia.
  destruct (Z.leb_spec 48 (d + 48)), (Z.leb_spec (d + 48) 57); simpl; try lia.
  f_equal. lia.
Qed.

Lemma digits_snoc l d acc n n' v :
  digits l acc n = (n', v, []) -> 0 <= d < 10 ->
  digits (l ++ [digit_char d]) acc n = (S n', 10 * v + d, []).
Proof.
  revert acc n. induction l as [|c l IH]; intros acc n; simpl.
  - intros [= <- <-] Hd. by rewrite digit_digit_char.
  - destruct (digit c); [apply IH|done].
Qed.

Lemma digits_decimal fuel z :
  0 <= z < 10 ^ Z.of_nat fuel -> (0 < fuel)%nat ->
  exists n, digits (decimal fuel z) 0 0 = (S n, z, []) /\
    exists c l, decimal fuel z = c :: l /\ digit c <> None.
Proof.
  revert z. induction fuel as [|f IH]; intros z Hz Hf; [lia|]. cbn [decimal].
  destruct (Z.ltb_spec z 10).
  - exists 0%nat. simpl. rewrite digit_digit_char by lia. split; [done|].
    eexists _, _. split; [done|]. by rewrite digit_digit_char by lia.
  - destruct f as [|f]; [simpl in Hz; lia|].
    destruct (IH (z / 10)) as (n & Hn & c & l & Hl & Hc); [|lia|].
    { split; [apply Z.div_pos; lia|]. apply Z.div_lt_upper_bound; [lia|].
      rewrite Nat2Z.inj_succ, Z.pow_succ_r in Hz by lia. lia. }
    exists (S n). split.
    + rewrite (digits_snoc _ (z mod 10) _ _ (S n) (z / 10)); [|done|apply Z.mod_pos_bound; lia].
      f_equal. f_equal. rewrite <- Z.div_mod; lia.
    + rewrite Hl. eexists _, _. split; [done|done].
Qed.

(** A digit is neither white space nor a sign. *)
Lemma digit_not_special c : digit c <> None -> is_space c = false /\ sign [c] = (false, [c]).
Proof.
  destruct c as [b0 b1 b2 b3 b4 b5 b6 b7].
  destruct b0, b1, b2, b3, b4, b5, b6, b7; vm_compute; intros H; try done; by destruct H.
Qed.

Lemma sign_cons c l : sign [c] = (false, [c]) -> sign (c :: l) = (false, c :: l).
Proof.
  destruct c as [b0 b1 b2 b3 b4 b5 b6 b7].
  destruct b0, b1, b2, b3, b4, b5, b6, b7; vm_compute; done.
Qed.

Lemma integer_decimal fuel z :
  0 <= z < 10 ^ Z.of_nat fuel -> (0 < fuel)%nat -> integer (decimal fuel z) = Some (false, z).
Proof.
  intros Hz Hf. destruct (digits_decimal fuel z Hz Hf) as (n & Hd & c & l & Hl & Hc).
  destruct (digit_not_special c Hc) as [Hs Hsg].
  unfold integer. rewrite Hl in *. cbn [skip_ws]. rewrite Hs, sign_cons by done.
  by rewrite Hd.
Qed.

Lemma list_ascii_of_string_length s : length (list_ascii_of_string s) = String.length s.
Proof. induction s; simpl; auto. Qed.

(** An option set to the decimal text of a 64-bit number reads back as that
    number (TBENCH_WARMUPREQS, TBENCH_MAXREQS); an unset variable gives the
    default and leaves std::cout in the bad state, because the null pointer is
    streamed before it is tested. *)
Theorem getOpt_u64 (env : gmap string string) (name : string) (defVal z : Z) (o : ostream) :
  is_u64 z ->
  (env !! name = Some (string_of_list_ascii (decimal 20 z)) ->
   exists o', getOpt env name defVal o = Ret z o') /\
  (env !! name = None ->
   exists o', getOpt env name defVal o = Ret defVal o' /\ os_bad o' = true).
Proof.
  unfold is_u64. intros Hz. unfold getOpt. split.
  - intros Hn. eexists. unM. f_equal. unfold getOpt_val. rewrite Hn.
    rewrite <- list_ascii_of_string_length, list_ascii_of_string_of_list_ascii.
    pose proof (integer_decimal 20 z ltac:(lia) ltac:(lia)) as Hi.
    destruct (digits_decimal 20 z) as (n & _ & c & l & Hl & _); [lia|lia|].
    rewrite Hl in Hi |- *. cbn [length Nat.eqb]. unfold extract, u64_stream. rewrite Hi.
    rewrite (proj2 (Z.ltb_lt _ _)) by lia. by mach.
  - intros Hn. eexists. unM. unfold getOpt_val. rewrite Hn. split; [done|]. done.
Qed.

Lemma getOpt_u64_witness :
  is_u64 20000 /\
  exists o', getOpt (<["TBENCH_MAXREQS" := "20000"]> ∅ : gmap string string) "TBENCH_MAXREQS" 100
               (mkOstream [] false) = Ret 20000 o'.
Proof.
  assert (H : is_u64 20000) by (unfold is_u64; lia). split; [exact H|].
  apply (getOpt_u64 _ "TBENCH_MAXREQS" 100 20000 (mkOstream [] false) H).
  vm_compute. reflexivity.
Defined.
