(* ===== verification/Client.v ===== *)
(** * The load-generating client (class Client of src/harness/client.{h,cpp})

    The object's fields, the heap of [Request] objects it shares between the
    sending and receiving threads, and every method.  The parts of [startReq]
    between two lock operations are separate definitions, so that the thread
    model can interleave them; [startReq] is their composition. *)

From stdpp Require Import strings.
From S2P Require Import Prelude Msgs Helpers Double Dist Env.

Open Scope Z_scope.

Inductive ClientStatus := INIT | WARMUP | ROI | FINISHED.

#[export] Instance ClientStatus_eq_dec : EqDecision ClientStatus.
Proof. solve_decision. Defined.

(** The fields added for variable request rates. *)
Record QpsState := mkQps {
  qpsVar : Z;
  qpsIni : double;
  qpsInterval : Z;
  qpsStep : double;
  qpsCounter : Z;
  listQPS : list double;
  idxListQPS : Z
}.

(** The latency samples of the region of interest. *)
Record Stats := mkStats {
  svcTimes : list Z;
  queueTimes : list Z;
  sjrnTimes : list Z;
  requestDate : list Z;
  NicSjrnTimes : list Z
}.

Record Counters := mkCounters {
  gen_requests : Z;
  timely_gen_requests : Z;
  sent_requests : Z;
  gen_req_ns : Z;
  send_req_ns : Z;
  total_req_ns : Z;
  total_sleep_ns : Z;
  roi_start_ns : Z
}.

(** Addresses of [Request] objects. *)
Abbreviation loc := nat.

Record Client := mkClient {
  status : ClientStatus;
  nthreads : Z;
  client_id : Z;
  warmupreqs : Z;
  maxreqs : Z;
  numReqsSent : Z;
  numReqsCompleted : Z;
  minSleepNs : Z;
  seed : Z;
  qps : QpsState;
  lambda : double;
  dist : option ExpDist;
  startedReqs : Z;
  inFlightReqs : gmap Z loc;
  stats : Stats;
  ctr : Counters
}.

Definition no_stats : Stats := mkStats [] [] [] [] [].
Definition no_counters : Counters := mkCounters 0 0 0 0 0 0 0 0.

(** ** Assignments to fields *)

Definition set_status v (c : Client) : Client :=
  mkClient v (nthreads c) (client_id c) (warmupreqs c) (maxreqs c) (numReqsSent c)
    (numReqsCompleted c) (minSleepNs c) (seed c) (qps c) (lambda c) (dist c)
    (startedReqs c) (inFlightReqs c) (stats c) (ctr c).
Definition set_numReqsSent v (c : Client) : Client :=
  mkClient (status c) (nthreads c) (client_id c) (warmupreqs c) (maxreqs c) v
    (numReqsCompleted c) (minSleepNs c) (seed c) (qps c) (lambda c) (dist c)
    (startedReqs c) (inFlightReqs c) (stats c) (ctr c).
Definition set_numReqsCompleted v (c : Client) : Client :=
  mkClient (status c) (nthreads c) (client_id c) (warmupreqs c) (maxreqs c) (numReqsSent c)
    v (minSleepNs c) (seed c) (qps c) (lambda c) (dist c)
    (startedReqs c) (inFlightReqs c) (stats c) (ctr c).
Definition set_qps v (c : Client) : Client :=
  mkClient (status c) (nthreads c) (client_id c) (warmupreqs c) (maxreqs c) (numReqsSent c)
    (numReqsCompleted c) (minSleepNs c) (seed c) v (lambda c) (dist c)
    (startedReqs c) (inFlightReqs c) (stats c) (ctr c).
Definition set_dist v (c : Client) : Client :=
  mkClient (status c) (nthreads c) (client_id c) (warmupreqs c) (maxreqs c) (numReqsSent c)
    (numReqsCompleted c) (minSleepNs c) (seed c) (qps c) (lambda c) v
    (startedReqs c) (inFlightReqs c) (stats c) (ctr c).
Definition set_startedReqs v (c : Client) : Client :=
  mkClient (status c) (nthreads c) (client_id c) (warmupreqs c) (maxreqs c) (numReqsSent c)
    (numReqsCompleted c) (minSleepNs c) (seed c) (qps c) (lambda c) (dist c)
    v (inFlightReqs c) (stats c) (ctr c).
Definition set_inFlightReqs v (c : Client) : Client :=
  mkClient (status c) (nthreads c) (client_id c) (warmupreqs c) (maxreqs c) (numReqsSent c)
    (numReqsCompleted c) (minSleepNs c) (seed c) (qps c) (lambda c) (dist c)
    (startedReqs c) v (stats c) (ctr c).
Definition set_stats v (c : Client) : Client :=
  mkClient (status c) (nthreads c) (client_id c) (warmupreqs c) (maxreqs c) (numReqsSent c)
    (numReqsCompleted c) (minSleepNs c) (seed c) (qps c) (lambda c) (dist c)
    (startedReqs c) (inFlightReqs c) v (ctr c).
Definition set_ctr v (c : Client) : Client :=
  mkClient (status c) (nthreads c) (client_id c) (warmupreqs c) (maxreqs c) (numReqsSent c)
    (numReqsCompleted c) (minSleepNs c) (seed c) (qps c) (lambda c) (dist c)
    (startedReqs c) (inFlightReqs c) (stats c) v.

Definition set_qpsCounter v (q : QpsState) : QpsState :=
  mkQps (qpsVar q) (qpsIni q) (qpsInterval q) (qpsStep q) v (listQPS q) (idxListQPS q).

(** ** Lines the client prints (times in nanoseconds) *)
Inductive log_line :=
| LRequest (id queueTime serviceTime sojournTime nicSojournTime sendingTime receivingTime : Z)
| LRoiBegin (client : Z)
| LDistributionBroken
| LFinish.

(** ** The constructor *)

(** [getOpt<double>(name, 1000.0) * 1e-9]. *)
Definition getQps (env : gmap string string) (name : string) : double :=
  dmul (getOpt_val env name (dZ 1000)) (drat 1 1000000000).
Definition getInt (env : gmap string string) (name : string) (d : Z) : Z :=
  int_val (getOpt_val env name (Int d)).

(** Members the constructor leaves uninitialised ([qpsCounter], and the rate
    fields unless [qpsVar] asks for them) are written before they are read. *)
Definition initQps (env : gmap string string) : QpsState :=
  let qpsVar := getInt env "TBENCH_VARQPS" 0 in
  if qpsVar =? 1 then
    mkQps qpsVar (getQps env "TBENCH_INIQPS") (getInt env "TBENCH_INTERVALQPS" 0)
      (getQps env "TBENCH_STEPQPS") 0 [] 0
  else if qpsVar =? 2 then
    mkQps qpsVar (getQps env "TBENCH_INIQPS") (getInt env "TBENCH_INTERVALQPS" 0)
      (dZ 0) 0
      [getQps env "TBENCH_INIQPS"; getQps env "TBENCH_QPS_1"; getQps env "TBENCH_QPS_2";
       getQps env "TBENCH_QPS_3"; getQps env "TBENCH_QPS_4"] 1
  else mkQps qpsVar (dZ 0) 0 (dZ 0) 0 [] 0.

Definition new_Client (env : gmap string string) (_nthreads _client_id warmupreq maxreq : Z) : Client :=
  mkClient INIT _nthreads _client_id warmupreq maxreq 0 0
    (u64 (getInt env "TBENCH_MINSLEEPNS" 0))
    (u64 (i32 (getInt env "TBENCH_RANDSEED" 0 + _client_id)))
    (initQps env) (getQps env "TBENCH_QPS") None 0 ∅ no_stats no_counters.

Section Methods.
(** The benchmark's [tBenchClientGenReq]: the bytes it stores at [data] and the
    length it returns; the environment's clock; the random samples. *)
Context {App : Type} (genReq : App -> (list byte * Z) * App).
Context (clock : nat -> timespec).
Context (expo : double -> Z -> nat -> double).

Record CWorld := mkCWorld {
  cl : Client;
  heap : gmap loc Request;
  next_loc : loc;
  tick : nat;
  app : App;
  log : list log_line;
  lats : option (list byte)
}.

Definition set_cl c (w : CWorld) : CWorld :=
  mkCWorld c (heap w) (next_loc w) (tick w) (app w) (log w) (lats w).
Definition set_heap h (w : CWorld) : CWorld :=
  mkCWorld (cl w) h (next_loc w) (tick w) (app w) (log w) (lats w).
Definition set_next_loc l (w : CWorld) : CWorld :=
  mkCWorld (cl w) (heap w) l (tick w) (app w) (log w) (lats w).
Definition set_tick t (w : CWorld) : CWorld :=
  mkCWorld (cl w) (heap w) (next_loc w) t (app w) (log w) (lats w).
Definition set_app a (w : CWorld) : CWorld :=
  mkCWorld (cl w) (heap w) (next_loc w) (tick w) a (log w) (lats w).
Definition set_log l (w : CWorld) : CWorld :=
  mkCWorld (cl w) (heap w) (next_loc w) (tick w) (app w) l (lats w).
Definition set_lats f (w : CWorld) : CWorld :=
  mkCWorld (cl w) (heap w) (next_loc w) (tick w) (app w) (log w) f.

Definition upd_cl (f : Client -> Client) : M CWorld () := modify (fun w => set_cl (f (cl w)) w).
Definition print (l : log_line) : M CWorld () := modify (fun w => set_log (log w ++ [l]) w).
Definition now : M CWorld Z := zoom tick set_tick (getCurNs clock).

(** [new Request()]. *)
Definition alloc (r : Request) : M CWorld loc := fun w =>
  Ret (next_loc w) (set_heap (<[next_loc w := r]> (heap w)) (set_next_loc (S (next_loc w)) w)).
(** Reading, writing and deleting through a [Request*]: undefined when the object
    is gone. *)
Definition load (l : loc) : M CWorld Request := fun w =>
  match heap w !! l with Some r => Ret r w | None => UB end.
Definition store (l : loc) (r : Request) : M CWorld () := fun w =>
  match heap w !! l with Some _ => Ret () (set_heap (<[l := r]> (heap w)) w) | None => UB end.
Definition free (l : loc) : M CWorld () := fun w =>
  match heap w !! l with Some _ => Ret () (set_heap (delete l (heap w)) w) | None => UB end.

Definition set_req_late v (r : Request) : Request :=
  mkRequest (req_id r) (req_genNs r) (req_len r) v (req_startNs r)
    (req_startNs_lock_ad r) (req_startNs_lock_re r) (req_sentNs r)
    (req_sentNs_lock_ad r) (req_sentNs_lock_re r) (req_data r).

(** ** startReq *)

(** Inside the lock of the INIT branch: the first thread creates [dist]. *)
Definition startReq_init : M CWorld () :=
  c ← gets cl;
  match dist c with
  | Some _ => mret ()
  | None =>
      curNs ← now;
      let rate := if qpsVar (qps c) =? 0 then lambda c else qpsIni (qps c) in
      upd_cl (fun c => set_status WARMUP (set_dist (Some (new_ExpDist rate (seed c) curNs)) c))
  end.

(** The new rate, interval and list position; [None] where a conversion or the
    division by [listQPS.size()] is undefined. *)
Definition next_qps (q : QpsState) : option QpsState :=
  if qpsVar q =? 1 then
    Some (mkQps (qpsVar q) (dadd (qpsIni q) (qpsStep q)) (qpsInterval q) (qpsStep q)
            0 (listQPS q) (idxListQPS q))
  else if qpsVar q =? 2 then
    let size := Z.of_nat (length (listQPS q)) in
    if size =? 0 then None
    else
      newqps ← listQPS q !! Z.to_nat (idxListQPS q mod size);
      let ratio := ddiv newqps (qpsIni q) in
      interval ← d_to_i32 (dmul (dZ (qpsInterval q)) ratio);
      let qpsInterval' := if dltb newqps (qpsIni q) then i32 (interval + 1) else interval in
      Some (mkQps (qpsVar q) newqps qpsInterval' (qpsStep q) 0 (listQPS q)
              (u64 (idxListQPS q + 1)))
  else Some (set_qpsCounter 0 q).

(** [if (status == ROI && qpsVar)]: every [qpsInterval] requests change the rate. *)
Definition startReq_qps : M CWorld () :=
  c ← gets cl;
  if bool_decide (status c = ROI) && negb (qpsVar (qps c) =? 0) then
    if qpsCounter (qps c) =? qpsInterval (qps c) then
      match next_qps (qps c) with
      | None => undefined
      | Some q =>
          curNs ← now;
          upd_cl (fun c => set_dist (Some (new_ExpDist (qpsIni q) (seed c) curNs)) (set_qps q c))
      end
    else upd_cl (fun c => set_qps (set_qpsCounter (i32 (qpsCounter (qps c) + 1)) (qps c)) c)
  else mret ().

(** Request creation and the critical section that generates it. *)
Definition startReq_gen (startNs : Z) : M CWorld loc :=
  lock_ad ← now;
  '(data, len) ← (fun w => let '(r, a) := genReq (app w) in Ret r (set_app a w));
  if MAX_REQ_BYTES <? Z.of_nat (length data) then undefined else
  c ← gets cl;
  match dist c with
  | None => undefined
  | Some d =>
    match nextArrivalNs expo d with
    | None => undefined
    | Some (genNs, d') =>
      lock_re ← now;
      let id := startedReqs c in
      l ← alloc (mkRequest id genNs (u64 len) false startNs lock_ad lock_re 0 0 0 data);
      let k := ctr c in
      upd_cl (fun c =>
        set_ctr (mkCounters (u64 (gen_requests k + 1))
                   (if startNs <? genNs then u64 (timely_gen_requests k + 1)
                    else timely_gen_requests k)
                   (sent_requests k) (u64 (gen_req_ns k + (lock_re - lock_ad)))
                   (send_req_ns k) (total_req_ns k) (total_sleep_ns k) (roi_start_ns k))
       (set_inFlightReqs (<[id := l]> (inFlightReqs c))
       (set_startedReqs (u64 (id + 1)) (set_dist (Some d') c))));;
      mret l
    end
  end.

(** After the lock: [req->late], then sleeping until the arrival time. *)
Definition startReq_late (l : loc) : M CWorld () :=
  r ← load l; store l (set_req_late (req_genNs r <? req_startNs r) r).

Definition startReq_sleep (fuel : nat) (l : loc) : M CWorld () :=
  r ← load l;
  curNs ← now;
  if curNs <? req_genNs r then
    c ← gets cl;
    zoom tick set_tick (sleepUntil clock fuel (Z.max (req_genNs r) (u64 (curNs + minSleepNs c))));;
    upd_cl (fun c => let k := ctr c in
      set_ctr (mkCounters (gen_requests k) (timely_gen_requests k) (sent_requests k)
                 (gen_req_ns k) (send_req_ns k) (total_req_ns k)
                 (u64 (total_sleep_ns k + Z.max (req_genNs r - curNs) (minSleepNs c)))
                 (roi_start_ns k)) c)
  else mret ().

(** The whole method as run by a single thread, for which the barriers are open. *)
Definition startReq (fuel : nat) : M CWorld loc :=
  startNs ← now;
  c ← gets cl;
  (if bool_decide (status c = INIT) then startReq_init else mret ());;
  startReq_qps;;
  l ← startReq_gen startNs;
  startReq_late l;;
  startReq_sleep fuel l;;
  mret l.

(** ** finiReq, the region of interest, and the statistics file *)

Definition _startRoi : M CWorld () :=
  c ← gets cl;
  assert_ (bool_decide (status c = WARMUP));;
  upd_cl (set_status ROI);;
  print (LRoiBegin (client_id c));;
  upd_cl (fun c => set_qps (set_qpsCounter 0 (qps c)) (set_stats no_stats (set_ctr no_counters c)));;
  curNs ← now;
  upd_cl (fun c => set_ctr (mkCounters 0 0 0 0 0 0 0 curNs) c).

(** Under the lock. *)
Definition startRoi : M CWorld () := _startRoi.

(** The five values written for sample [r], in file order. *)
Definition lats_record (s : Stats) (r : nat) : option (list byte) :=
  q ← queueTimes s !! r;
  sv ← svcTimes s !! r;
  sj ← sjrnTimes s !! r;
  d ← requestDate s !! r;
  nic ← NicSjrnTimes s !! r;
  Some (le_bytes 8 q ++ le_bytes 8 sv ++ le_bytes 8 sj ++ le_bytes 8 d ++ le_bytes 8 nic).

Fixpoint lats_records (s : Stats) (r n : nat) : option (list byte) :=
  match n with
  | O => Some []
  | S n' => b ← lats_record s r; bs ← lats_records s (S r) n'; Some (b ++ bs)
  end.

Definition dumpStats : M CWorld () :=
  _fiNs ← now;
  c ← gets cl;
  let reqs := i32 (Z.of_nat (length (sjrnTimes (stats c)))) in
  match lats_records (stats c) 0 (Z.to_nat reqs) with
  | None => undefined
  | Some bytes =>
      modify (set_lats (Some bytes));;
      let k := ctr c in
      let gen := u64 (numReqsCompleted c - warmupreqs c) in
      upd_cl (set_ctr (mkCounters gen (timely_gen_requests k) (sent_requests k) (gen_req_ns k)
                         (send_req_ns k) (total_req_ns k) (total_sleep_ns k) (roi_start_ns k)));;
      let perc := ddiv (dZ (timely_gen_requests k)) (dZ gen) in
      if dltb perc (drat 975 1000) then print LDistributionBroken else mret ()
  end.

(** Sojourn and queueing time of a completed request. *)
Definition sojourn (r : Request) (curNs : Z) : Z :=
  if req_late r then u64 (curNs - req_startNs r) else u64 (curNs - req_genNs r).
Definition queue_time (sjrn svcNs : Z) : Z := if sjrn <? svcNs then 0 else u64 (sjrn - svcNs).

Definition push_sample (r : Request) (resp : Response) (curNs : Z) (s : Stats) : Stats :=
  let sjrn := sojourn r curNs in
  mkStats (svcTimes s ++ [resp_svcNs resp])
          (queueTimes s ++ [queue_time sjrn (resp_svcNs resp)])
          (sjrnTimes s ++ [sjrn])
          (requestDate s ++ [if req_late r then req_startNs r else req_genNs r])
          (NicSjrnTimes s ++ [u64 (curNs - req_sentNs_lock_ad r)]).

Definition request_line (r : Request) (resp : Response) (curNs : Z) : log_line :=
  let sjrn := sojourn r curNs in
  LRequest (resp_id resp) (queue_time sjrn (resp_svcNs resp)) (resp_svcNs resp) sjrn
    (u64 (curNs - req_sentNs_lock_ad r))
    (u64 (req_sentNs_lock_re r - req_sentNs_lock_ad r)) (resp_recvNs resp).

(** The part of [finiReq] after the bookkeeping of the request. *)
Definition finiReq_count : M CWorld () :=
  upd_cl (fun c => set_numReqsCompleted (u64 (numReqsCompleted c + 1)) c);;
  c ← gets cl;
  if (numReqsCompleted c =? warmupreqs c) || (warmupreqs c =? 0) then _startRoi
  else if u64 (warmupreqs c + maxreqs c) <=? numReqsCompleted c then
    dumpStats;; print LFinish;; exit_ 0
  else mret ().

Definition finiReq (resp : Response) : M CWorld () :=
  c ← gets cl;
  match inFlightReqs c !! resp_id resp with
  | None => abort
  | Some l =>
      r ← load l;
      curNs ← now;
      assert_ (req_genNs r <? curNs);;
      (if bool_decide (status c = ROI) then
         print (request_line r resp curNs);;
         upd_cl (fun c => set_stats (push_sample r resp curNs (stats c)) c)
       else mret ());;
      free l;;
      upd_cl (fun c => set_inFlightReqs (delete (resp_id resp) (inFlightReqs c)) c);;
      finiReq_count
  end.

Definition get_warmupreq : M CWorld Z := gets (fun w => warmupreqs (cl w)).
Definition get_maxreq : M CWorld Z := gets (fun w => maxreqs (cl w)).
Definition get_reqsSent : M CWorld Z := gets (fun w => numReqsSent (cl w)).
Definition get_reqsCompleted : M CWorld Z := gets (fun w => numReqsCompleted (cl w)).

End Methods.
