(* ===== verification/ClientSpec.v ===== *)
(** * What the client's methods do

    The functional behaviour of [finiReq] on every branch, the statistics file
    read back by src/utilities/parselats.py, and the schedule of request rates. *)

From stdpp Require Import strings.
From S2P Require Import Prelude Msgs Helpers Double Dist Env Client.

Open Scope Z_scope.

#[local] Opaque ts_ns u64.

(** ** Inverting computations that have returned *)

Ltac inv_base :=
  repeat match goal with
  | H : (_ ≫= _) _ = Ret _ _ |- _ =>
      let a := fresh "a" in let w := fresh "w" in let H1 := fresh "H" in
      apply bind_inv in H as (a & w & H1 & H)
  | H : mret _ _ = Ret _ _ |- _ => first [injection H as <- <-|injection H as <-]
  | H : gets _ _ = Ret _ _ |- _ => injection H as <- <-
  | H : modify _ _ = Ret _ _ |- _ => injection H as <- <-
  | H : upd_cl _ _ = Ret _ _ |- _ => first [injection H as <- <-|injection H as <-]
  | H : now _ _ = Ret _ _ |- _ => injection H as <- <-
  end.

Section Inversion.
Context {App : Type} (clock : nat -> timespec) (fuel : nat).

Lemma load_inv l (b b' : CWorld (App := App)) r : load l b = Ret r b' -> b' = b /\ heap b !! l = Some r.
Proof. unfold load. destruct (heap b !! l); [|done]. by intros [= -> ->]. Qed.
Lemma store_inv l r (b b' : CWorld (App := App)) u :
  store l r b = Ret u b' -> b' = set_heap (<[l := r]> (heap b)) b.
Proof. unfold store. destruct (heap b !! l); [|done]. by intros [= _ <-]. Qed.

Lemma sleepUntil_loop_ret f target k k' :
  sleepUntil_loop clock f target (ts_ns (clock k)) (S k) = Ret () k' ->
  (k < k')%nat /\ target <= ts_ns (clock (pred k')).
Proof.
  revert k. induction f as [|f IH]; intros k; cbn [sleepUntil_loop];
    destruct (Z.ltb_spec (ts_ns (clock k)) target); try done.
  1,3: intros [= <-]; simpl; lia.
  intros H'. apply bind_inv in H' as (t & k1 & [= <- <-] & H'). apply IH in H'. lia.
Qed.

Lemma startReq_sleep_ret l (b : CWorld (App := App)) b' :
  startReq_sleep clock fuel l b = Ret () b' ->
  exists r, heap b !! l = Some r /\ (tick b < tick b')%nat /\ req_genNs r <= ts_ns (clock (pred (tick b'))) /\
    exists k, b' = set_cl (set_ctr k (cl b)) (set_tick (tick b') b).
Proof.
  unfold startReq_sleep. intros H. inv_base.
  match goal with H : load _ _ = _ |- _ => apply load_inv in H as [-> Hr] end.
  exists a. split; [done|].
  destruct (Z.ltb_spec (ts_ns (clock (tick b))) (req_genNs a)) as [Hlt|Hge]; inv_base.
  - match goal with H : zoom _ _ _ _ = _ |- _ => rename H into Hz end.
    unfold zoom, sleepUntil in Hz. cbn [tick set_tick] in Hz.
    match type of Hz with match ?o with _ => _ end = _ =>
      destruct o as [[] k'| | | |] eqn:E; try done end. injection Hz as <- <-.
    apply bind_inv in E as (t & k1 & [= <- <-] & E). apply sleepUntil_loop_ret in E as [Hk Ht].
    simpl. split; [lia|]. split; [lia|]. by eexists.
  - simpl. split; [lia|]. split; [done|]. exists (ctr (cl b)). by destruct b as [[]].
Qed.

End Inversion.

Section FiniReq.
Context {App : Type} (clock : nat -> timespec).

(** ** What is recorded of a request

    Its time begins when it was to be sent, or, if it was late, when the sender
    started on it; [curNs] is when its response was accounted for. *)
Definition began (r : Request) : Z := if req_late r then req_startNs r else req_genNs r.
Definition took (r : Request) (curNs : Z) : Z := (curNs - began r) mod 2 ^ 64.
Definition waited (r : Request) (resp : Response) (curNs : Z) : Z := Z.max 0 (took r curNs - resp_svcNs resp) mod 2 ^ 64.
Definition on_wire (r : Request) (curNs : Z) : Z := (curNs - req_sentNs_lock_ad r) mod 2 ^ 64.

(** One more sample in every vector. *)
Definition measured (r : Request) (resp : Response) (curNs : Z) (s : Stats) : Stats := {|
  queueTimes := queueTimes s ++ [waited r resp curNs];
  svcTimes := svcTimes s ++ [resp_svcNs resp];
  sjrnTimes := sjrnTimes s ++ [took r curNs];
  requestDate := requestDate s ++ [began r];
  NicSjrnTimes := NicSjrnTimes s ++ [on_wire r curNs]
|}.
Definition measured_line (r : Request) (resp : Response) (curNs : Z) : log_line :=
  LRequest (resp_id resp) (waited r resp curNs) (resp_svcNs resp) (took r curNs) (on_wire r curNs)
    ((req_sentNs_lock_re r - req_sentNs_lock_ad r) mod 2 ^ 64) (resp_recvNs resp).

#[local] Transparent u64.
Lemma sojourn_took r curNs : sojourn r curNs = took r curNs.
Proof. unfold sojourn, took, began, u64. by destruct (req_late r). Qed.
Lemma queue_time_waited r resp curNs : queue_time (sojourn r curNs) (resp_svcNs resp) = waited r resp curNs.
Proof.
  rewrite sojourn_took. unfold queue_time, waited, u64. destruct (Z.ltb_spec (took r curNs) (resp_svcNs resp)); f_equal; [|lia].
  rewrite Z.max_l by lia. done.
Qed.
Lemma push_sample_measured r resp curNs s : push_sample r resp curNs s = measured r resp curNs s.
Proof. unfold push_sample, measured. by rewrite queue_time_waited, sojourn_took. Qed.
Lemma request_line_measured r resp curNs : request_line r resp curNs = measured_line r resp curNs.
Proof. unfold request_line, measured_line. by rewrite queue_time_waited, sojourn_took. Qed.
#[local] Opaque u64.

(** The client after a response has been accounted for and its request deleted. *)
Definition settled (resp : Response) (r : Request) (curNs : Z) (c : Client) : Client :=
  set_numReqsCompleted (u64 (numReqsCompleted c + 1))
    (set_inFlightReqs (delete (resp_id resp) (inFlightReqs c))
       (if bool_decide (status c = ROI)
        then set_stats (measured r resp curNs (stats c)) c else c)).

Definition settle (resp : Response) (l : loc) (r : Request) (b : CWorld (App := App)) : CWorld :=
  let curNs := ts_ns (clock (tick b)) in
  mkCWorld (settled resp r curNs (cl b)) (delete l (heap b)) (next_loc b) (S (tick b)) (app b)
    (if bool_decide (status (cl b) = ROI) then log b ++ [measured_line r resp curNs] else log b)
    (lats b).

(** What follows the increment of [numReqsCompleted]. *)
Definition after_settle : M (CWorld (App := App)) () :=
  c ← gets cl;
  if (numReqsCompleted c =? warmupreqs c) || (warmupreqs c =? 0) then _startRoi clock
  else if u64 (warmupreqs c + maxreqs c) <=? numReqsCompleted c then
    dumpStats clock;; print LFinish;; exit_ 0
  else mret ().

Lemma finiReq_found resp (b : CWorld (App := App)) l r :
  inFlightReqs (cl b) !! resp_id resp = Some l -> heap b !! l = Some r ->
  req_genNs r < ts_ns (clock (tick b)) ->
  finiReq clock resp b = after_settle (settle resp l r b).
Proof.
  intros Hl Hr Hg. unfold finiReq. bind_step by reflexivity. rewrite Hl.
  bind_step by (unfold load; rewrite Hr; reflexivity). bind_step by reflexivity.
  bind_step by (rewrite (proj2 (Z.ltb_lt _ _)) by exact Hg; reflexivity).
  unfold settle, settled. rewrite <- request_line_measured, <- push_sample_measured. destruct (bool_decide (status (cl b) = ROI)).
  - bind_step by (bind_step by reflexivity; reflexivity).
    bind_step by (unfold free; cbn; rewrite Hr; reflexivity). bind_step by reflexivity. done.
  - bind_step by reflexivity.
    bind_step by (unfold free; cbn; rewrite Hr; reflexivity). bind_step by reflexivity. done.
Qed.

(** The state [_startRoi] leaves. *)
Definition roi_state (b : CWorld (App := App)) : CWorld :=
  let c := cl b in
  set_cl (set_ctr (mkCounters 0 0 0 0 0 0 0 (ts_ns (clock (tick b))))
           (set_qps (set_qpsCounter 0 (qps c)) (set_stats no_stats (set_status ROI c))))
    (set_tick (S (tick b)) (set_log (log b ++ [LRoiBegin (client_id c)]) b)).

Lemma _startRoi_warmup (b : CWorld (App := App)) :
  status (cl b) = WARMUP -> _startRoi clock b = Ret () (roi_state b).
Proof. intros Hs. unfold _startRoi. bind_step by reflexivity. rewrite Hs. reflexivity. Qed.

Lemma _startRoi_twice (b : CWorld (App := App)) :
  status (cl b) <> WARMUP -> _startRoi clock b = Abort.
Proof.
  intros Hs. unfold _startRoi. bind_step by reflexivity.
  by rewrite bool_decide_eq_false_2.
Qed.

(** ** The statistics file *)

Definition sample_row : Type := Z * Z * Z * Z * Z.

(** Row [r] of the five vectors. *)
Definition row (s : Stats) (r : nat) : option sample_row :=
  q ← queueTimes s !! r; sv ← svcTimes s !! r; sj ← sjrnTimes s !! r;
  d ← requestDate s !! r; nic ← NicSjrnTimes s !! r; Some (q, sv, sj, d, nic).

Definition row_bytes (x : sample_row) : list byte :=
  let '(q, sv, sj, d, nic) := x in
  le_bytes 8 q ++ le_bytes 8 sv ++ le_bytes 8 sj ++ le_bytes 8 d ++ le_bytes 8 nic.

Fixpoint rows (s : Stats) (r n : nat) : option (list sample_row) :=
  match n with
  | O => Some []
  | S n' => x ← row s r; xs ← rows s (S r) n'; Some (x :: xs)
  end.

Lemma lats_records_rows s r n :
  lats_records s r n = (fun xs => concat (row_bytes <$> xs)) <$> rows s r n.
Proof.
  revert r. induction n as [|n IH]; intros r; [done|]. cbn [lats_records rows].
  unfold lats_record, row. rewrite IH.
  destruct (queueTimes s !! r), (svcTimes s !! r), (sjrnTimes s !! r), (requestDate s !! r),
    (NicSjrnTimes s !! r), (rows s (S r) n); done.
Qed.

Lemma row_bytes_length x : length (row_bytes x) = 40%nat.
Proof. by destruct x as [[[[]]]]. Qed.

Lemma rows_length s r n xs : rows s r n = Some xs -> length xs = n.
Proof.
  revert r xs. induction n as [|n IH]; intros r xs; cbn [rows]; [by intros [= <-]|].
  destruct (row s r); [|done]. simpl. destruct (rows s (S r) n) eqn:E; [|done].
  intros [= <-]. simpl. by rewrite (IH _ _ E).
Qed.

Lemma concat_rows_length xs : length (concat (row_bytes <$> xs)) = (40 * length xs)%nat.
Proof.
  induction xs as [|x xs IH]; [done|]. cbn [fmap list_fmap concat length].
  rewrite length_app, row_bytes_length, IH. lia.
Qed.

Lemma rows_columns s n xs :
  length (queueTimes s) = n -> length (svcTimes s) = n -> length (sjrnTimes s) = n ->
  length (requestDate s) = n -> length (NicSjrnTimes s) = n -> rows s 0 n = Some xs ->
  (fun x : sample_row => x.1.1.1.1) <$> xs = queueTimes s /\
  (fun x : sample_row => x.1.1.1.2) <$> xs = svcTimes s /\
  (fun x : sample_row => x.1.1.2) <$> xs = sjrnTimes s /\
  (fun x : sample_row => x.1.2) <$> xs = requestDate s /\
  (fun x : sample_row => x.2) <$> xs = NicSjrnTimes s.
Proof.
  intros L1 L2 L3 L4 L5 H.
  assert (Hrow : forall k r xs, rows s r k = Some xs -> forall i x, xs !! i = Some x -> row s (r + i) = Some x).
  { clear. induction k as [|k IH]; intros r xs; cbn [rows]; [by intros [= <-]|].
    destruct (row s r) eqn:Er; [|done]. simpl. destruct (rows s (S r) k) eqn:E; [|done].
    intros [= <-] [|i] x; simpl; [intros [= <-]; by rewrite Nat.add_0_r|].
    intros Hx. rewrite Nat.add_succ_r. by apply (IH (S r) l). }
  assert (Hl := rows_length s 0 n xs H). specialize (Hrow n 0%nat xs H).
  assert (Hcol : forall (f : sample_row -> Z) (v : list Z), length v = n ->
            (forall i x, row s i = Some x -> v !! i = Some (f x)) -> f <$> xs = v).
  { intros f v Lv Hf. apply list_eq. intros i. rewrite list_lookup_fmap.
    destruct (xs !! i) as [x|] eqn:Ex; simpl; [by rewrite (Hf i x (Hrow i x Ex))|].
    symmetry. apply lookup_ge_None. apply lookup_ge_None in Ex. lia. }
  repeat split; apply Hcol; try done; intros i x; unfold row.
  all: destruct (queueTimes s !! i), (svcTimes s !! i), (sjrnTimes s !! i), (requestDate s !! i),
    (NicSjrnTimes s !! i); simpl; intros; by simplify_eq.
Qed.

Lemma rows_total s r n :
  (r + n <= length (queueTimes s))%nat -> (r + n <= length (svcTimes s))%nat ->
  (r + n <= length (sjrnTimes s))%nat -> (r + n <= length (requestDate s))%nat ->
  (r + n <= length (NicSjrnTimes s))%nat -> exists xs, rows s r n = Some xs.
Proof.
  revert r. induction n as [|n IH]; intros r H1 H2 H3 H4 H5; [by eexists|]. cbn [rows].
  destruct (IH (S r)) as [xs ->]; [lia..|]. unfold row.
  destruct (lookup_lt_is_Some_2 (queueTimes s) r) as [? ->]; [lia|].
  destruct (lookup_lt_is_Some_2 (svcTimes s) r) as [? ->]; [lia|].
  destruct (lookup_lt_is_Some_2 (sjrnTimes s) r) as [? ->]; [lia|].
  destruct (lookup_lt_is_Some_2 (requestDate s) r) as [? ->]; [lia|].
  destruct (lookup_lt_is_Some_2 (NicSjrnTimes s) r) as [? ->]; [lia|].
  simpl. by eexists.
Qed.

(** All vectors have [n] samples, which are [uint64_t]. *)
Record full_stats (s : Stats) (n : nat) : Prop := {
  fs_q : length (queueTimes s) = n; fs_sv : length (svcTimes s) = n;
  fs_sj : length (sjrnTimes s) = n; fs_d : length (requestDate s) = n;
  fs_nic : length (NicSjrnTimes s) = n
}.

(** The counter updates at the end of [dumpStats]. *)
Lemma dumpStats_writes (b : CWorld (App := App)) n :
  full_stats (stats (cl b)) n -> Z.of_nat n < 2 ^ 31 ->
  exists xs b', rows (stats (cl b)) 0 n = Some xs /\ dumpStats clock b = Ret () b' /\
    lats b' = Some (concat (row_bytes <$> xs)) /\
    numReqsCompleted (cl b') = numReqsCompleted (cl b) /\ stats (cl b') = stats (cl b).
Proof.
  intros [H1 H2 H3 H4 H5] Hn. destruct (rows_total (stats (cl b)) 0 n) as [xs Hx]; [lia..|].
  unfold dumpStats. bind_step by reflexivity. bind_step by reflexivity. cbn [cl set_tick].
  rewrite H3, i32_id, Nat2Z.id, lats_records_rows, Hx by (unfold is_i32; lia).
  exists xs. cbn [fmap option_fmap option_map].
  destruct (dltb (ddiv (dZ (timely_gen_requests (ctr (cl b))))
    (dZ (u64 (numReqsCompleted (cl b) - warmupreqs (cl b))))) (drat 975 1000));
    eexists; (split; [done|]).
  all: (split; [bind_step by reflexivity; bind_step by reflexivity; reflexivity|done]).
Qed.
End FiniReq.

(** ** src/utilities/parselats.py *)

(** [np.fromfile(f, dtype=np.uint64)]: trailing bytes short of a word are ignored. *)
Fixpoint words (bs : list byte) : list Z :=
  match bs with
  | b0 :: b1 :: b2 :: b3 :: b4 :: b5 :: b6 :: b7 :: rest =>
      le_value [b0; b1; b2; b3; b4; b5; b6; b7] :: words rest
  | _ => []
  end.

(** [a.reshape((a.shape[0]/5, 5))], which raises when words are left over. *)
Fixpoint reshape5 (a : list Z) : option (list sample_row) :=
  match a with
  | [] => Some []
  | q :: sv :: sj :: d :: nic :: rest => xs ← reshape5 rest; Some ((q, sv, sj, d, nic) :: xs)
  | _ => None
  end.

Definition Lat_init (file : list byte) : option (list sample_row) := reshape5 (words file).
Definition parseQueueTimes (t : list sample_row) : list Z := (fun x => x.1.1.1.1) <$> t.
Definition parseSvcTimes (t : list sample_row) : list Z := (fun x => x.1.1.1.2) <$> t.
Definition parseSojournTimes (t : list sample_row) : list Z := (fun x => x.1.1.2) <$> t.
Definition parseRequestDate (t : list sample_row) : list Z := (fun x => x.1.2) <$> t.
Definition parseNicSojournTimes (t : list sample_row) : list Z := (fun x => x.2) <$> t.

Definition row_u64 (x : sample_row) : Prop :=
  is_u64 x.1.1.1.1 /\ is_u64 x.1.1.1.2 /\ is_u64 x.1.1.2 /\ is_u64 x.1.2 /\ is_u64 x.2.

Lemma words_cons z bs : is_u64 z -> words (le_bytes 8 z ++ bs) = z :: words bs.
Proof.
  intros Hz. transitivity (le_value (le_bytes 8 z) :: words bs); [reflexivity|].
  by rewrite le_value_u64.
Qed.

Lemma Lat_init_rows xs : Forall row_u64 xs -> Lat_init (concat (row_bytes <$> xs)) = Some xs.
Proof.
  unfold Lat_init. induction 1 as [|[[[[q sv] sj] d] nic] xs (?&?&?&?&?) _ IH]; [done|].
  cbn [fmap list_fmap concat row_bytes]. cbn [fst snd] in *.
  rewrite <- !app_assoc, !words_cons by done. cbn [reshape5]. by rewrite IH.
Qed.

Lemma rows_u64 s r n xs :
  Forall is_u64 (queueTimes s) -> Forall is_u64 (svcTimes s) -> Forall is_u64 (sjrnTimes s) ->
  Forall is_u64 (requestDate s) -> Forall is_u64 (NicSjrnTimes s) ->
  rows s r n = Some xs -> Forall row_u64 xs.
Proof.
  intros H1 H2 H3 H4 H5. revert r xs. induction n as [|n IH]; intros r xs; cbn [rows]; [by intros [= <-]|].
  unfold row. destruct (queueTimes s !! r) eqn:E1, (svcTimes s !! r) eqn:E2,
    (sjrnTimes s !! r) eqn:E3, (requestDate s !! r) eqn:E4, (NicSjrnTimes s !! r) eqn:E5; try done.
  simpl. destruct (rows s (S r) n) eqn:E; [|done]. intros [= <-].
  constructor; [|by eapply IH].
  pose proof (Forall_lookup_1 is_u64) as F.
  exact (conj (F _ _ _ H1 E1) (conj (F _ _ _ H2 E2) (conj (F _ _ _ H3 E3)
    (conj (F _ _ _ H4 E4) (F _ _ _ H5 E5))))).
Qed.

(** C13: the statistics file survives its reader.  When the five sample vectors
    hold [n] values each, the file [dumpStats] writes has 40 bytes per request, and
    [Lat] of parselats.py reads from it exactly the client's vectors. *)
Theorem lats_file_roundtrip {App} clock (b : CWorld (App := App)) n :
  let s := stats (cl b) in
  full_stats s n -> Z.of_nat n < 2 ^ 31 ->
  Forall is_u64 (queueTimes s) -> Forall is_u64 (svcTimes s) -> Forall is_u64 (sjrnTimes s) ->
  Forall is_u64 (requestDate s) -> Forall is_u64 (NicSjrnTimes s) ->
  exists b' file t, dumpStats clock b = Ret () b' /\ lats b' = Some file /\
    length file = (40 * n)%nat /\ Lat_init file = Some t /\
    parseQueueTimes t = queueTimes s /\ parseSvcTimes t = svcTimes s /\
    parseSojournTimes t = sjrnTimes s /\ parseRequestDate t = requestDate s /\
    parseNicSojournTimes t = NicSjrnTimes s.
Proof.
  intros s Hs Hn U1 U2 U3 U4 U5. destruct (dumpStats_writes clock b n Hs Hn) as (xs & b' & Hx & E & Hl & _).
  exists b', (concat (row_bytes <$> xs)), xs. split; [done|]. split; [done|].
  split; [by rewrite concat_rows_length, (rows_length _ _ _ _ Hx)|].
  split; [by eapply Lat_init_rows, rows_u64|]. destruct Hs. by eapply rows_columns.
Qed.

Definition example_client : Client :=
  mkClient ROI 1 0 1 2 3 3 0 0 (mkQps 0 (dZ 0) 0 (dZ 0) 0 [] 0) (dZ 0) None 3 ∅
    (mkStats [11; 21] [12; 22] [13; 23] [14; 24] [15; 2 ^ 64 - 1]) no_counters.
Definition example_base : CWorld (App := ()) := mkCWorld example_client ∅ 0 0 () [] None.

Lemma lats_file_roundtrip_witness :
  exists b' file t, dumpStats (fun _ => mkTimespec 1 0) example_base = Ret () b' /\
    lats b' = Some file /\ length file = 80%nat /\ Lat_init file = Some t /\
    parseQueueTimes t = [12; 22] /\ parseSvcTimes t = [11; 21] /\
    parseSojournTimes t = [13; 23] /\ parseRequestDate t = [14; 24] /\
    parseNicSojournTimes t = [15; 2 ^ 64 - 1].
Proof.
  apply (lats_file_roundtrip (fun _ => mkTimespec 1 0) example_base 2).
  1: by split.
  1: lia.
  all: repeat constructor; simpl; lia.
Defined.

(** C8: [finiReq] on every branch.  An unknown id and a response that does not
    arrive after its request's arrival time fail their assertions.  Otherwise the
    request is deleted, its entry removed, the completion counted and, in the
    region of interest, one sample recorded in every vector and one line printed
    ([settle]): the time since the request's arrival, or since the sender started on
    it if it was late, that time less the service time but not below 0, the service
    time, the arrival, and the time since it was put on the wire ([measured]).  The
    [warmupreqs]-th completion opens the region of interest with empty statistics;
    completion [warmupreqs + maxreqs] writes the statistics file, if the vectors have
    one length below 2^31, and ends the process with code 0; any other completion
    just returns. *)
Theorem finiReq_spec {App} clock resp (b : CWorld (App := App)) :
  let c := cl b in
  let n := u64 (numReqsCompleted c + 1) in
  (inFlightReqs c !! resp_id resp = None -> finiReq clock resp b = Abort) /\
  forall l r, inFlightReqs c !! resp_id resp = Some l -> heap b !! l = Some r ->
    let b1 := settle clock resp l r b in
    (ts_ns (clock (tick b)) <= req_genNs r -> finiReq clock resp b = Abort) /\
    (req_genNs r < ts_ns (clock (tick b)) ->
      ((n = warmupreqs c \/ warmupreqs c = 0) ->
         finiReq clock resp b =
           if bool_decide (status c = WARMUP) then Ret () (roi_state clock b1) else Abort) /\
      (n <> warmupreqs c -> warmupreqs c <> 0 ->
         (n < u64 (warmupreqs c + maxreqs c) -> finiReq clock resp b = Ret () b1) /\
         (u64 (warmupreqs c + maxreqs c) <= n ->
          forall k, full_stats (stats (cl b1)) k -> Z.of_nat k < 2 ^ 31 ->
            exists xs b2, rows (stats (cl b1)) 0 k = Some xs /\ finiReq clock resp b = Exit 0 b2 /\
              lats b2 = Some (concat (row_bytes <$> xs)) /\ numReqsCompleted (cl b2) = n))).
Proof.
  intros c n. split.
  { intros H. unfold c in H. unfold finiReq. bind_step by reflexivity. by rewrite H. }
  intros l r Hl Hr b1. unfold c in Hl. split.
  { intros Hg. unfold finiReq. bind_step by reflexivity. rewrite Hl.
    bind_step by (unfold load; rewrite Hr; reflexivity). bind_step by reflexivity.
    by rewrite (proj2 (Z.ltb_ge _ _)). }
  intros Hg. rewrite (finiReq_found clock resp b l r Hl Hr Hg). fold b1.
  assert (En : numReqsCompleted (cl b1) = n) by done.
  assert (Ew : warmupreqs (cl b1) = warmupreqs c) by (subst b1; simpl; by case_bool_decide).
  assert (Em : maxreqs (cl b1) = maxreqs c) by (subst b1; simpl; by case_bool_decide).
  assert (Es : status (cl b1) = status c) by (subst b1; simpl; by case_bool_decide).
  unfold after_settle. split.
  - intros Hw. bind_step by reflexivity. rewrite En, Ew.
    replace ((n =? warmupreqs c) || (warmupreqs c =? 0)) with true
      by (symmetry; apply orb_true_iff; rewrite !Z.eqb_eq; done).
    case_bool_decide; [apply _startRoi_warmup|apply _startRoi_twice]; congruence.
  - intros Hn Hw. split.
    + intros Hlt. bind_step by reflexivity. rewrite En, Ew, Em.
      by rewrite (proj2 (Z.eqb_neq _ _) Hn), (proj2 (Z.eqb_neq _ _) Hw), (proj2 (Z.leb_gt _ _) Hlt).
    + intros Hge k Hk Hk'. destruct (dumpStats_writes clock b1 k Hk Hk')
        as (xs & b2 & Hx & E & Hl' & Hc & _).
      eexists xs, _. split; [done|]. split.
      * bind_step by reflexivity. rewrite En, Ew, Em.
        rewrite (proj2 (Z.eqb_neq _ _) Hn), (proj2 (Z.eqb_neq _ _) Hw), (proj2 (Z.leb_le _ _) Hge).
        simpl. bind_step by exact E. reflexivity.
      * simpl. split; congruence.
Qed.

Definition last_request : Request := mkRequest 2 900 0 false 800 801 802 910 911 0 [].
Definition last_response : Response := mkResponse 0 2 30 0 5 [].
Definition last_base : CWorld (App := ()) :=
  mkCWorld (mkClient ROI 1 0 1 2 3 2 0 0 (mkQps 0 (dZ 0) 0 (dZ 0) 0 [] 0) (dZ 0) None 3
      {[2 := 7%nat]} (mkStats [12] [11] [13] [14] [15]) no_counters)
    {[7%nat := last_request]} 8 0 () [] None.

(** The third completion of a run of one warm-up and two measured requests. *)
Lemma finiReq_spec_witness :
  full_stats (stats (cl (settle (fun _ => mkTimespec 0 1000) last_response 7 last_request last_base))) 2 /\
  exists xs b2,
    rows (stats (cl (settle (fun _ => mkTimespec 0 1000) last_response 7 last_request last_base))) 0 2
      = Some xs /\
    finiReq (fun _ => mkTimespec 0 1000) last_response last_base = Exit 0 b2 /\
    lats b2 = Some (concat (row_bytes <$> xs)) /\ numReqsCompleted (cl b2) = 3.
Proof.
  assert (H : full_stats (stats (cl (settle (fun _ => mkTimespec 0 1000) last_response 7
    last_request last_base))) 2) by (split; reflexivity).
  split; [exact H|].
  destruct (finiReq_spec (fun _ => mkTimespec 0 1000) last_response last_base) as [_ F].
  destruct (F 7%nat last_request eq_refl eq_refl) as [_ G].
  destruct (G eq_refl) as [_ K].
  destruct (K ltac:(vm_compute; discriminate) ltac:(vm_compute; discriminate)) as [_ L].
  apply (L ltac:(vm_compute; discriminate) 2%nat H). lia.
Defined.

(** ** The schedule of request rates *)

Lemma next_qps_fields q q' :
  next_qps q = Some q' ->
  qpsVar q' = qpsVar q /\ qpsCounter q' = 0 /\ listQPS q' = listQPS q /\
  (qpsVar q = 2 ->
     listQPS q !! Z.to_nat (idxListQPS q mod Z.of_nat (length (listQPS q))) = Some (qpsIni q') /\
     idxListQPS q' = u64 (idxListQPS q + 1)).
Proof.
  unfold next_qps. destruct (Z.eqb_spec (qpsVar q) 1) as [E1|N1].
  { intros [= <-]. simpl. repeat split; lia. }
  destruct (Z.eqb_spec (qpsVar q) 2) as [E2|N2]; [|by intros [= <-]].
  destruct (_ =? 0); [done|]. destruct (listQPS q !! _) as [newqps|] eqn:El; [|done]. simpl.
  destruct (d_to_i32 _); [|done]. simpl. by intros [= <-].
Qed.

Fixpoint times {S} (n : nat) (m : M S ()) : M S () :=
  match n with O => mret () | S n' => m;; times n' m end.

Section Qps.
Context {App : Type} (clock : nat -> timespec).

Definition in_roi (b : CWorld (App := App)) : Prop :=
  status (cl b) = ROI /\ qpsVar (qps (cl b)) <> 0.

Lemma startReq_qps_tick (b : CWorld (App := App)) :
  in_roi b -> qpsCounter (qps (cl b)) <> qpsInterval (qps (cl b)) ->
  startReq_qps clock b =
    Ret () (set_cl (set_qps (set_qpsCounter (i32 (qpsCounter (qps (cl b)) + 1)) (qps (cl b))) (cl b)) b).
Proof.
  intros [Hs Hv] Hc. unfold startReq_qps. bind_step by reflexivity.
  rewrite bool_decide_eq_true_2, (proj2 (Z.eqb_neq _ _) Hv) by done. simpl.
  by rewrite (proj2 (Z.eqb_neq _ _) Hc).
Qed.

Lemma startReq_qps_change (b : CWorld (App := App)) q :
  in_roi b -> qpsCounter (qps (cl b)) = qpsInterval (qps (cl b)) ->
  next_qps (qps (cl b)) = Some q ->
  startReq_qps clock b =
    Ret () (set_cl (set_dist (Some (new_ExpDist (qpsIni q) (seed (cl b)) (ts_ns (clock (tick b)))))
                     (set_qps q (cl b))) (set_tick (S (tick b)) b)).
Proof.
  intros [Hs Hv] Hc Hq. unfold startReq_qps. bind_step by reflexivity.
  rewrite bool_decide_eq_true_2, (proj2 (Z.eqb_neq _ _) Hv) by done. simpl.
  by rewrite (proj2 (Z.eqb_eq _ _) Hc), Hq.
Qed.

Lemma times_count k (b : CWorld (App := App)) :
  in_roi b -> 0 <= qpsCounter (qps (cl b)) ->
  qpsCounter (qps (cl b)) + Z.of_nat k <= qpsInterval (qps (cl b)) < 2 ^ 31 ->
  times k (startReq_qps clock) b =
    Ret () (set_cl (set_qps (set_qpsCounter (qpsCounter (qps (cl b)) + Z.of_nat k) (qps (cl b)))
                      (cl b)) b).
Proof.
  revert b. induction k as [|k IH]; intros b Hr H0 Hk.
  { simpl. rewrite Z.add_0_r. by destruct b as [[? ? ? ? ? ? ? ? ? []]]. }
  cbn [times]. bind_step by (apply startReq_qps_tick; [done|lia]).
  rewrite i32_id by (unfold is_i32; lia). rewrite IH by (try done; simpl; lia).
  cbn [cl set_cl qps set_qps qpsCounter set_qpsCounter].
  replace (Z.of_nat (S k)) with (1 + Z.of_nat k) by lia. rewrite Z.add_assoc. reflexivity.
Qed.

(** The rate schedule.  In the region of interest, with the counter at 0, the
    next [qpsInterval] requests leave the rate and the distribution alone, and the
    request after them moves to the next rate, restarts the arrival process with
    it at the current time, and resets the counter: each period after the first
    thus lasts [qpsInterval + 1] requests. *)
Theorem qps_period (b : CWorld (App := App)) q :
  in_roi b -> qpsCounter (qps (cl b)) = 0 -> 0 <= qpsInterval (qps (cl b)) < 2 ^ 31 ->
  next_qps (set_qpsCounter (qpsInterval (qps (cl b))) (qps (cl b))) = Some q ->
  (forall k, Z.of_nat k <= qpsInterval (qps (cl b)) ->
     exists b', times k (startReq_qps clock) b = Ret () b' /\ tick b' = tick b /\
       qpsIni (qps (cl b')) = qpsIni (qps (cl b)) /\ dist (cl b') = dist (cl b) /\
       qpsCounter (qps (cl b')) = Z.of_nat k) /\
  exists b', times (S (Z.to_nat (qpsInterval (qps (cl b))))) (startReq_qps clock) b = Ret () b' /\
    in_roi b' /\ qps (cl b') = q /\ qpsCounter q = 0 /\
    dist (cl b') = Some (new_ExpDist (qpsIni q) (seed (cl b)) (ts_ns (clock (tick b)))).
Proof.
  intros Hr H0 Hi Hq.
  assert (Hrun : forall k, Z.of_nat k <= qpsInterval (qps (cl b)) ->
    times k (startReq_qps clock) b =
      Ret () (set_cl (set_qps (set_qpsCounter (Z.of_nat k) (qps (cl b))) (cl b)) b)).
  { intros k Hk. rewrite times_count by (try done; lia). by rewrite H0. }
  split.
  { intros k Hk. eexists. split; [by apply Hrun|]. done. }
  set (I := Z.to_nat (qpsInterval (qps (cl b)))).
  assert (HI : Z.of_nat I = qpsInterval (qps (cl b))) by lia.
  assert (Hsnoc : forall n (m : M (CWorld (App := App)) ()) w w1, times n m w = Ret () w1 -> times (S n) m w = m w1).
  { clear. induction n as [|n IH]; intros m w w1.
    - intros [= <-]. cbn. unfold mbind, M_bind. by destruct (m w) as [[] ?| | | |].
    - intros H. apply bind_inv in H as ([] & w2 & H1 & H2).
      change (times (S (S n)) m) with (m ≫= fun _ => times (S n) m).
      rewrite (bind_Ret _ _ _ _ _ H1). by apply IH. }
  eexists. split.
  { rewrite (Hsnoc I _ _ _ (Hrun I ltac:(lia))). rewrite HI. by apply startReq_qps_change. }
  simpl. split; [|split; [done|split; [|done]]].
  - destruct Hr as [Hs Hv]. split; [done|]. simpl.
    by destruct (next_qps_fields _ _ Hq) as (-> & _).
  - by destruct (next_qps_fields _ _ Hq) as (_ & -> & _).
Qed.
End Qps.

Definition qps_base : CWorld (App := ()) :=
  mkCWorld (set_qps (mkQps 2 (drat 100 1000000000) 3 (dZ 0) 0
      [drat 100 1000000000; drat 200 1000000000; drat 400 1000000000; drat 500 1000000000;
       drat 50 1000000000] 1) example_client) ∅ 0 0 () [] None.

Lemma qps_period_witness :
  in_roi qps_base /\
  exists q, next_qps (set_qpsCounter 3 (qps (cl qps_base))) = Some q /\ qpsInterval q = 6 /\
  exists b', times 4 (startReq_qps (fun _ => mkTimespec 5 0)) qps_base = Ret () b' /\
    in_roi b' /\ qps (cl b') = q /\ qpsCounter q = 0 /\
    dist (cl b') = Some (new_ExpDist (qpsIni q) 0 5000000000).
Proof.
  assert (Hr : in_roi qps_base) by (split; [reflexivity|discriminate]).
  split; [exact Hr|].
  destruct (next_qps (set_qpsCounter 3 (qps (cl qps_base)))) as [q|] eqn:Hq;
    [|vm_compute in Hq; discriminate].
  exists q. split; [reflexivity|]. split; [vm_compute in Hq; by injection Hq as <-|].
  refine (proj2 (qps_period (fun _ => mkTimespec 5 0) qps_base q Hr eq_refl _ Hq)).
  simpl. lia.
Defined.

(** [n] changes of rate. *)
Fixpoint qps_after (n : nat) (q : QpsState) : option QpsState :=
  match n with O => Some q | S n' => q' ← qps_after n' q; next_qps q' end.

Lemma qps_after_list env n q :
  getInt env "TBENCH_VARQPS" 0 = 2 -> Z.of_nat n < 2 ^ 63 -> qps_after n (initQps env) = Some q ->
  qpsVar q = 2 /\ listQPS q = listQPS (initQps env) /\ idxListQPS q = 1 + Z.of_nat n /\
  listQPS q !! (n mod 5)%nat = Some (qpsIni q).
Proof.
  intros Hv. assert (E : initQps env = mkQps 2 (getQps env "TBENCH_INIQPS")
      (getInt env "TBENCH_INTERVALQPS" 0) (dZ 0) 0
      [getQps env "TBENCH_INIQPS"; getQps env "TBENCH_QPS_1"; getQps env "TBENCH_QPS_2";
       getQps env "TBENCH_QPS_3"; getQps env "TBENCH_QPS_4"] 1)
    by (unfold initQps; by rewrite Hv).
  revert q. induction n as [|n IH]; intros q Hn; cbn [qps_after]; [intros [= <-]; by rewrite E|].
  destruct (qps_after n (initQps env)) as [q0|]; [|done]. cbn [mbind option_bind]. intros Hq.
  destruct (IH q0) as (V & Ls & I & _); [lia|done|].
  destruct (next_qps_fields _ _ Hq) as (V' & _ & L' & H2). destruct (H2 V) as [Hl I'].
  rewrite V', L', I', I, u64_id by (unfold is_u64; lia). repeat split; try done; [lia|].
  rewrite <- Hl, I, Ls, E. cbn [listQPS length]. f_equal.
  apply Nat2Z.inj. rewrite Nat2Z.inj_mod, Z2Nat.id by (apply Z.mod_pos_bound; lia). f_equal. lia.
Qed.

(** With TBENCH_VARQPS=2 the client cycles through the five configured rates
    in order, TBENCH_INIQPS -> TBENCH_QPS_1 -> ... -> TBENCH_QPS_4 -> TBENCH_INIQPS:
    after [n] changes the rate is entry [n mod 5]. *)
Theorem qps_cycles env n q :
  getInt env "TBENCH_VARQPS" 0 = 2 -> Z.of_nat n < 2 ^ 63 -> qps_after n (initQps env) = Some q ->
  Some (qpsIni q) =
    [getQps env "TBENCH_INIQPS"; getQps env "TBENCH_QPS_1"; getQps env "TBENCH_QPS_2";
     getQps env "TBENCH_QPS_3"; getQps env "TBENCH_QPS_4"] !! (n mod 5)%nat.
Proof.
  intros Hv Hn Hq. destruct (qps_after_list env n q Hv Hn Hq) as (_ & Hl & _ & Hi).
  rewrite <- Hi, Hl. unfold initQps. by rewrite Hv.
Qed.

Definition qps_env : gmap string string :=
  <["TBENCH_VARQPS" := "2"]> (<["TBENCH_INIQPS" := "100"]> (<["TBENCH_INTERVALQPS" := "1000"]>
  (<["TBENCH_QPS_1" := "200"]> (<["TBENCH_QPS_2" := "400"]> (<["TBENCH_QPS_3" := "500"]>
  (<["TBENCH_QPS_4" := "300"]> ∅)))))).

Lemma qps_cycles_witness :
  exists q, qps_after 7 (initQps qps_env) = Some q /\
    Some (qpsIni q) = Some (getQps qps_env "TBENCH_QPS_2").
Proof.
  destruct (qps_after 7 (initQps qps_env)) as [q|] eqn:Hq; [|vm_compute in Hq; discriminate].
  exists q. split; [reflexivity|].
  refine (qps_cycles qps_env 7 q _ _ Hq); [vm_compute; reflexivity|lia].
Defined.
