(* ===== verification/NetClient.v ===== *)
(** * The networked client (class NetworkedClient of src/harness/client.{h,cpp})

    A [Client] with a connected socket, the two mutexes that serialise [send]
    and [recv], and the error string's presence. *)

From stdpp Require Import strings.
From S2P Require Import Prelude Msgs Helpers Double Dist Env Client.

Open Scope Z_scope.

Section NetworkedClient.
Context {App : Type} (clock : nat -> timespec).

Record NWorld := mkNWorld {
  base : CWorld (App := App);
  serverFd : sock;
  sendLock : bool;
  recvLock : bool;
  has_error : bool
}.

Definition set_base b (w : NWorld) := mkNWorld b (serverFd w) (sendLock w) (recvLock w) (has_error w).
Definition set_serverFd s (w : NWorld) := mkNWorld (base w) s (sendLock w) (recvLock w) (has_error w).
Definition set_sendLock b (w : NWorld) := mkNWorld (base w) (serverFd w) b (recvLock w) (has_error w).
Definition set_recvLock b (w : NWorld) := mkNWorld (base w) (serverFd w) (sendLock w) b (has_error w).
Definition set_error (w : NWorld) := mkNWorld (base w) (serverFd w) (sendLock w) (recvLock w) true.

Definition on_base {A} (m : M (CWorld (App := App)) A) : M NWorld A := zoom base set_base m.
Definition on_sock {A} (m : M sock A) : M NWorld A := zoom serverFd set_serverFd m.

(** pthread_mutex_lock on a mutex somebody holds does not return. *)
Definition lock_send : M NWorld () := fun w =>
  if sendLock w then Blocked w else Ret () (set_sendLock true w).
Definition unlock_send : M NWorld () := modify (set_sendLock false).
Definition lock_recv : M NWorld () := fun w =>
  if recvLock w then Blocked w else Ret () (set_recvLock true w).
Definition unlock_recv : M NWorld () := modify (set_recvLock false).

Definition set_req_sentNs v (r : Request) : Request :=
  mkRequest (req_id r) (req_genNs r) (req_len r) (req_late r) (req_startNs r)
    (req_startNs_lock_ad r) (req_startNs_lock_re r) v
    (req_sentNs_lock_ad r) (req_sentNs_lock_re r) (req_data r).
Definition set_req_sentNs_lock_ad v (r : Request) : Request :=
  mkRequest (req_id r) (req_genNs r) (req_len r) (req_late r) (req_startNs r)
    (req_startNs_lock_ad r) (req_startNs_lock_re r) (req_sentNs r)
    v (req_sentNs_lock_re r) (req_data r).

Definition sizeof_Request : Z := Z.of_nat (hdr_size (T := Request)) + MAX_REQ_BYTES.
Definition sizeof_Response : Z := Z.of_nat (hdr_size (T := Response)) + MAX_RESP_BYTES.

(** The first [n] bytes of the struct in memory. *)
Definition struct_bytes {T} `{WireMsg T} (x : T) (n : Z) : list byte :=
  take (Z.to_nat n) (hdr_image x ++ buf_read (Z.to_nat n) (msg_data x)).

(** ** send *)

(** [req->sentNs = getCurNs();] before the lock. *)
Definition send_stamp (l : loc) : M NWorld () :=
  on_base (t ← now clock; r ← load l; store l (set_req_sentNs t r)).

(** Inside [sendLock], up to the end of [sendfull]: whether the request was
    within the quota, the length asked for and the length sent. *)
Definition send_transfer (l : loc) : M NWorld (bool * Z * Z) :=
  on_base (t ← now clock; r ← load l; store l (set_req_sentNs_lock_ad t r));;
  c ← gets (fun w => cl (base w));
  if numReqsSent c =? u64 (warmupreqs c + maxreqs c) then mret (false, 0, 0)
  else
    r ← on_base (load l);
    let len := i32 (u64 (sizeof_Request - MAX_REQ_BYTES + req_len r)) in
    if sizeof_Request <? len then undefined else
    sent ← on_sock (sendfull (struct_bytes r len) len);
    (if negb (sent =? len) then modify set_error else mret ());;
    mret (true, len, sent).

(** [numReqsSent++; sent_requests++;]: the request object is not touched any more,
    the receiving side may already have deleted it. *)
Definition send_count (counted : bool) : M NWorld () :=
  if counted then
    on_base (upd_cl (fun c => let k := ctr c in
      set_ctr (mkCounters (gen_requests k) (timely_gen_requests k) (u64 (sent_requests k + 1))
                 (gen_req_ns k) (send_req_ns k) (total_req_ns k) (total_sleep_ns k)
                 (roi_start_ns k))
        (set_numReqsSent (u64 (numReqsSent c + 1)) c)))
  else mret ().

Definition send (l : loc) : M NWorld bool :=
  send_stamp l;;
  lock_send;;
  '(counted, len, sent) ← send_transfer l;
  send_count counted;;
  unlock_send;;
  mret (sent =? len).

(** ** recv

    Both error returns leave the function with [recvLock] held, as the source
    does.  [resp] is the caller's buffer; on failure the caller never reads it. *)
Definition recv (resp : Response) : M NWorld (bool * Response) :=
  lock_recv;;
  s1 ← on_base (now clock);
  let len := i32 (u64 (sizeof_Response - MAX_RESP_BYTES)) in
  '(recvd, hdr) ← on_sock (recvfull len);
  if negb (recvd =? len) then modify set_error;; mret (false, resp)
  else
    let resp1 := hdr_load hdr resp in
    '(ok, resp2) ←
      (if resp_type resp1 =? ResponseType_val RESPONSE then
         '(recvd2, body) ← on_sock (recvfull (i32 (resp_len resp1)));
         if MAX_RESP_BYTES <? Z.of_nat (length body) then undefined else
         if negb (u64 recvd2 =? resp_len resp1) then mret (false, resp1)
         else mret (true, set_data (buf_write body (resp_data resp1)) resp1)
       else mret (true, resp1));
    if negb ok then modify set_error;; mret (false, resp)
    else
      t ← on_base (now clock);
      unlock_recv;;
      mret (true, mkResponse (resp_type resp2) (resp_id resp2) (resp_svcNs resp2)
                    (resp_len resp2) (u64 (t - s1)) (resp_data resp2)).

(** ** Facts *)

Lemma struct_bytes_msg {T} `{WireLaws T} (x : T) :
  0 <= msg_len x ->
  struct_bytes x (Z.of_nat hdr_size + msg_len x) = msg_image x.
Proof.
  intros Hl. unfold struct_bytes, msg_image. rewrite Z2Nat.inj_add, Nat2Z.id by lia.
  rewrite take_app, length_hdr_image, take_ge by (rewrite length_hdr_image; lia).
  f_equal. replace (hdr_size + Z.to_nat (msg_len x) - hdr_size)%nat
    with (Z.to_nat (msg_len x)) by lia.
  rewrite Nat.add_comm. apply take_resize_add.
Qed.

(** Receiving a whole message in two [recvfull] calls, header then payload. *)
Lemma recv_msg_ok {T} `{WireLaws T} (x : T) s rest :
  s_in s = msg_image x ++ rest -> no_fail (s_rsched s) -> 0 <= msg_len x ->
  exists s1 s2,
    recvfull (Z.of_nat hdr_size) s = Ret (Z.of_nat hdr_size, hdr_image x) s1 /\
    recvfull (msg_len x) s1 =
      Ret (msg_len x, buf_read (Z.to_nat (msg_len x)) (msg_data x)) s2 /\
    s_in s2 = rest /\ s_out s2 = s_out s /\ s_ssched s2 = s_ssched s /\ no_fail (s_rsched s2) /\
    s_eof s2 = s_eof s.
Proof.
  intros Hin Hn Hlen. pose proof (length_msg_image x) as Hl.
  destruct (recvfull_complete (Z.of_nat hdr_size) s)
    as (s1 & E1 & Hi1 & He1 & Ho1 & Hss1 & Hn1); [lia| |done|].
  { rewrite Hin, length_app. lia. }
  rewrite Hin, Nat2Z.id in E1, Hi1. unfold msg_image in E1, Hi1. rewrite <- app_assoc in E1, Hi1.
  rewrite take_app_exact in E1 by apply length_hdr_image.
  rewrite drop_app_exact in Hi1 by apply length_hdr_image.
  destruct (recvfull_complete (msg_len x) s1)
    as (s2 & E2 & Hi2 & He2 & Ho2 & Hss2 & Hn2); [lia| |done|].
  { rewrite Hi1, length_app, length_buf_read. lia. }
  rewrite Hi1 in E2, Hi2.
  rewrite take_app_exact in E2 by apply length_buf_read.
  rewrite drop_app_exact in Hi2 by apply length_buf_read.
  exists s1, s2. repeat split; congruence.
Qed.

Lemma recv_lock_free resp w b resp' w' :
  recv resp w = Ret (b, resp') w' -> recvLock w = false.
Proof. unfold recv, lock_recv. unM. by destruct (recvLock w). Qed.

Lemma recvLock_on_sock {A} (m : M sock A) w a w' :
  on_sock m w = Ret a w' -> recvLock w' = recvLock w.
Proof. unfold on_sock, zoom. destruct (m (serverFd w)); by intros [= _ <-]. Qed.

Lemma recvLock_on_base {A} (m : M (CWorld (App := App)) A) w a w' :
  on_base m w = Ret a w' -> recvLock w' = recvLock w.
Proof. unfold on_base, zoom. destruct (m (base w)); by intros [= _ <-]. Qed.

(** C14: once [recv] has reported a failure, its mutex stays locked: every later
    call of [recv], from any receiving thread, waits forever. *)
Theorem recv_failure_keeps_lock resp w resp' w' :
  recv resp w = Ret (false, resp') w' ->
  has_error w' = true /\ forall resp'' (w'' : NWorld), recvLock w'' = recvLock w' -> recv resp'' w'' = Blocked w''.
Proof.
  intros H.
  enough (recvLock w' = true /\ has_error w' = true) as [Hl He].
  { split; [done|]. intros resp'' w'' Hw. unfold recv, lock_recv. unM. by rewrite Hw, Hl. }
  unfold recv in H.
  apply bind_inv in H as ([] & w1 & H1 & H).
  assert (recvLock w1 = true) as L1.
  { unfold lock_recv in H1. destruct (recvLock w); [done|]. by injection H1 as <-. }
  apply bind_inv in H as (s1 & w2 & H2 & H). apply recvLock_on_base in H2.
  apply bind_inv in H as ([recvd hdr] & w3 & H3 & H). apply recvLock_on_sock in H3.
  destruct (negb _).
  { unM. injection H as _ <-. simpl. by rewrite H3, H2. }
  apply bind_inv in H as ([ok resp2] & w4 & H4 & H).
  assert (recvLock w4 = true) as L4.
  { rewrite <- L1, <- H2, <- H3. destruct (_ =? _); [|by injection H4 as _ _ <-].
    apply bind_inv in H4 as ([recvd2 body] & w5 & H5 & H4). apply recvLock_on_sock in H5.
    destruct (_ <? _); [done|]. destruct (negb _); by injection H4 as _ _ <-. }
  destruct ok; simpl in H.
  - apply bind_inv in H as (t & w5 & _ & H). unM. by injection H.
  - unM. injection H as _ <-. done.
Qed.

End NetworkedClient.
Arguments NWorld : clear implicits.
Arguments mkNWorld {App}.

Definition idle_client : Client :=
  mkClient WARMUP 1 0 1 2 0 0 0 0 (mkQps 0 (dZ 0) 0 (dZ 0) 0 [] 0) (dZ 0) None 1
    {[7 := 0%nat]} no_stats no_counters.
Definition idle_base : CWorld (App := ()) :=
  mkCWorld idle_client {[0%nat := example_request]} 1 0 () [] None.

(** The server closes the connection. *)
Lemma recv_failure_keeps_lock_witness :
  exists w', recv (fun _ => mkTimespec 1 0) new_Response
      (mkNWorld idle_base (mkSock [] true [] [] []) false false false)
      = Ret (false, new_Response) w' /\
    has_error w' = true /\
    forall resp'' (w'' : NWorld ()), recvLock w'' = recvLock w' ->
      recv (fun _ => mkTimespec 1 0) resp'' w'' = Blocked w''.
Proof.
  eexists. split; [vm_compute; reflexivity|].
  refine (recv_failure_keeps_lock (fun _ => mkTimespec 1 0) new_Response
    (mkNWorld idle_base (mkSock [] true [] [] []) false false false) new_Response _ _).
  vm_compute. reflexivity.
Defined.
