(* ===== verification/NetServer.v ===== *)
(** * The networked server (src/harness/server.h,
    src/harness/tbench_server_networked.cpp)

    Classes Server and NetworkedServer, and the tBench* entry points.  The
    environment supplies the results of [select] and [accept], the bytes in the
    client sockets and the clock; everything else is the program's state. *)

From stdpp Require Import strings.
From S2P Require Import Prelude Msgs Helpers Env NetClient.

Open Scope Z_scope.

Record ReqInfo := mkReqInfo { ri_id : Z; ri_startNs : Z }.
#[export] Instance ReqInfo_inhabited : Inhabited ReqInfo := populate (mkReqInfo 0 0).

(** Result of an accept call: the new descriptor with its socket and whether
    TCP_NODELAY can be set on it, or failure. *)
Inductive accept_res := AccFd (fd : Z) (s : sock) (nodelay_ok : bool) | AccFail.

Record SWorld := mkSWorld {
  (* class Server *)
  finishedReqs : Z;
  maxReqs : Z;
  warmupReqs : Z;
  start_file : bool;
  start_file_name : string;
  reqInfo : list ReqInfo;
  (* class NetworkedServer *)
  sendLock : bool;
  recvLock : bool;
  reqbuf : list Request;
  clientFds : list Z;
  activeFds : list Z;
  recvClientHead : Z;
  listenFd : Z;
  (* environment *)
  socks : gmap Z sock;
  selects : list (option (list Z));
  accepts : list accept_res;
  ticks : nat;
  files : list string
}.

(** ** Assignments *)
Definition set_finishedReqs v (w : SWorld) : SWorld :=
  mkSWorld v (maxReqs w) (warmupReqs w) (start_file w) (start_file_name w) (reqInfo w)
    (sendLock w) (recvLock w) (reqbuf w) (clientFds w) (activeFds w) (recvClientHead w)
    (listenFd w) (socks w) (selects w) (accepts w) (ticks w) (files w).
Definition set_start_file (fs : list string) (w : SWorld) : SWorld :=
  mkSWorld (finishedReqs w) (maxReqs w) (warmupReqs w) true (start_file_name w) (reqInfo w)
    (sendLock w) (recvLock w) (reqbuf w) (clientFds w) (activeFds w) (recvClientHead w)
    (listenFd w) (socks w) (selects w) (accepts w) (ticks w) fs.
Definition set_reqInfo v (w : SWorld) : SWorld :=
  mkSWorld (finishedReqs w) (maxReqs w) (warmupReqs w) (start_file w) (start_file_name w) v
    (sendLock w) (recvLock w) (reqbuf w) (clientFds w) (activeFds w) (recvClientHead w)
    (listenFd w) (socks w) (selects w) (accepts w) (ticks w) (files w).
Definition set_sendLock v (w : SWorld) : SWorld :=
  mkSWorld (finishedReqs w) (maxReqs w) (warmupReqs w) (start_file w) (start_file_name w) (reqInfo w)
    v (recvLock w) (reqbuf w) (clientFds w) (activeFds w) (recvClientHead w)
    (listenFd w) (socks w) (selects w) (accepts w) (ticks w) (files w).
Definition set_recvLock v (w : SWorld) : SWorld :=
  mkSWorld (finishedReqs w) (maxReqs w) (warmupReqs w) (start_file w) (start_file_name w) (reqInfo w)
    (sendLock w) v (reqbuf w) (clientFds w) (activeFds w) (recvClientHead w)
    (listenFd w) (socks w) (selects w) (accepts w) (ticks w) (files w).
Definition set_reqbuf v (w : SWorld) : SWorld :=
  mkSWorld (finishedReqs w) (maxReqs w) (warmupReqs w) (start_file w) (start_file_name w) (reqInfo w)
    (sendLock w) (recvLock w) v (clientFds w) (activeFds w) (recvClientHead w)
    (listenFd w) (socks w) (selects w) (accepts w) (ticks w) (files w).
Definition set_clientFds v (w : SWorld) : SWorld :=
  mkSWorld (finishedReqs w) (maxReqs w) (warmupReqs w) (start_file w) (start_file_name w) (reqInfo w)
    (sendLock w) (recvLock w) (reqbuf w) v (activeFds w) (recvClientHead w)
    (listenFd w) (socks w) (selects w) (accepts w) (ticks w) (files w).
Definition set_activeFds v (w : SWorld) : SWorld :=
  mkSWorld (finishedReqs w) (maxReqs w) (warmupReqs w) (start_file w) (start_file_name w) (reqInfo w)
    (sendLock w) (recvLock w) (reqbuf w) (clientFds w) v (recvClientHead w)
    (listenFd w) (socks w) (selects w) (accepts w) (ticks w) (files w).
Definition set_recvClientHead v (w : SWorld) : SWorld :=
  mkSWorld (finishedReqs w) (maxReqs w) (warmupReqs w) (start_file w) (start_file_name w) (reqInfo w)
    (sendLock w) (recvLock w) (reqbuf w) (clientFds w) (activeFds w) v
    (listenFd w) (socks w) (selects w) (accepts w) (ticks w) (files w).
Definition set_socks v (w : SWorld) : SWorld :=
  mkSWorld (finishedReqs w) (maxReqs w) (warmupReqs w) (start_file w) (start_file_name w) (reqInfo w)
    (sendLock w) (recvLock w) (reqbuf w) (clientFds w) (activeFds w) (recvClientHead w)
    (listenFd w) v (selects w) (accepts w) (ticks w) (files w).
Definition set_selects v (w : SWorld) : SWorld :=
  mkSWorld (finishedReqs w) (maxReqs w) (warmupReqs w) (start_file w) (start_file_name w) (reqInfo w)
    (sendLock w) (recvLock w) (reqbuf w) (clientFds w) (activeFds w) (recvClientHead w)
    (listenFd w) (socks w) v (accepts w) (ticks w) (files w).
Definition set_accepts v (w : SWorld) : SWorld :=
  mkSWorld (finishedReqs w) (maxReqs w) (warmupReqs w) (start_file w) (start_file_name w) (reqInfo w)
    (sendLock w) (recvLock w) (reqbuf w) (clientFds w) (activeFds w) (recvClientHead w)
    (listenFd w) (socks w) (selects w) v (ticks w) (files w).
Definition set_ticks v (w : SWorld) : SWorld :=
  mkSWorld (finishedReqs w) (maxReqs w) (warmupReqs w) (start_file w) (start_file_name w) (reqInfo w)
    (sendLock w) (recvLock w) (reqbuf w) (clientFds w) (activeFds w) (recvClientHead w)
    (listenFd w) (socks w) (selects w) (accepts w) v (files w).

(** ** Constructors, after the listening socket is bound *)
Definition new_NetworkedServer (env : gmap string string) (nthreads : nat) (listener : Z)
    (str_file_name : string) (sk : gmap Z sock) (sel : list (option (list Z)))
    (acc : list accept_res) : SWorld :=
  mkSWorld 0 (u64 (int_val (getOpt_val env "TBENCH_MAXREQS" (Int 0))))
    (u64 (int_val (getOpt_val env "TBENCH_WARMUPREQS" (Int 0)))) false str_file_name
    (replicate nthreads (mkReqInfo 0 0)) false false (replicate nthreads new_Request)
    [] (replicate nthreads 0) 0 listener sk sel acc 0 [].

(** ** Descriptor sets and select *)

Definition FD_SETSIZE : Z := 1024.

(** [FD_SET] outside [0, FD_SETSIZE) is undefined. *)
Definition fds_ok (fds : list Z) : bool := forallb (fun f => (0 <=? f) && (f <? FD_SETSIZE)) fds.

(** FD_ZERO, FD_SET on each of [fds], select: the descriptors left in the set. *)
Definition do_select (fds : list Z) : M SWorld (option (list Z)) := fun w =>
  if fds_ok fds then
    match selects w with
    | [] => Blocked w
    | None :: r => Ret None (set_selects r w)
    | Some ready :: r => Ret (Some (filter (fun f => f ∈ ready) fds)) (set_selects r w)
    end
  else UB.

Definition FD_ISSET (f : Z) (set : list Z) : bool := bool_decide (f ∈ set).

(** A descriptor that is not open fails every call. *)
Definition bad_fd : sock := mkSock [] true [] [Fail] [Fail].

Definition on_fd {A} (fd : Z) (m : M sock A) : M SWorld A :=
  zoom (fun w => default bad_fd (socks w !! fd)) (fun s w => set_socks (<[fd := s]> (socks w)) w) m.

Definition lock_recv : M SWorld () := fun w =>
  if recvLock w then Blocked w else Ret () (set_recvLock true w).
Definition unlock_recv : M SWorld () := modify (set_recvLock false).
Definition lock_send : M SWorld () := fun w =>
  if sendLock w then Blocked w else Ret () (set_sendLock true w).
Definition unlock_send : M SWorld () := modify (set_sendLock false).

(** ** removeClient, checkRecv, checkNewClient *)

(** [clientFds.erase(std::find(...))]; erasing [end()] is undefined. *)
Definition removeClient (fd : Z) : M SWorld () := fun w =>
  match list_find (fun f => f = fd) (clientFds w) with
  | Some (i, _) => Ret () (set_clientFds (delete i (clientFds w)) w)
  | None => UB
  end.

Definition checkRecv (recvd expected fd : Z) : M SWorld bool :=
  if recvd =? 0 then removeClient fd;; mret false
  else if recvd =? -1 then exit_ (-1)
  else if negb (recvd =? expected) then exit_ (-1)
  else mret true.

(** accept, then setsockopt(TCP_NODELAY) or close. *)
Definition accept_client : M SWorld bool := fun w =>
  match accepts w with
  | [] => Blocked w
  | AccFail :: r => Ret false (set_accepts r w)
  | AccFd fd s true :: r =>
      Ret true (set_clientFds (clientFds w ++ [fd])
                  (set_socks (<[fd := s]> (socks w)) (set_accepts r w)))
  | AccFd _ _ false :: r => Ret false (set_accepts r w)
  end.

Definition checkNewClient (fdSet : list Z) : M SWorld bool :=
  lfd ← gets listenFd;
  if FD_ISSET lfd fdSet then accept_client else mret false.

(** ** recvReq *)

(** The first ready client, starting at position [head] and wrapping around. *)
Fixpoint pick_fd (fds : list Z) (head : Z) (readSet : list Z) (i : Z) (n : nat) : Z :=
  match n with
  | O => -1
  | S n' =>
      let idx := u64 (head + i) mod Z.of_nat (length fds) in
      match fds !! Z.to_nat idx with
      | Some f => if FD_ISSET f readSet then f else pick_fd fds head readSet (i + 1) n'
      | None => -1
      end
  end.

(** [recvClientHead = (recvClientHead + 1) % clientFds.size();] *)
Definition next_head (n : nat) (head : Z) : Z := u64 (head + 1) mod Z.of_nat n.

(** Reading header and body of one request from [fd] into [reqbuf[id]]. *)
Definition read_request (id : nat) (fd : Z) : M SWorld bool :=
  buf ← gets reqbuf;
  match buf !! id with
  | None => undefined
  | Some req =>
    let len := i32 (u64 (sizeof_Request - MAX_REQ_BYTES)) in
    '(recvd, hdr) ← on_fd fd (recvfull len);
    (if recvd =? len then modify (set_reqbuf (<[id := hdr_load hdr req]> buf)) else mret ());;
    success ← checkRecv recvd len fd;
    if negb success then mret false
    else
      let req1 := hdr_load hdr req in
      '(recvd2, body) ← on_fd fd (recvfull (i32 (req_len req1)));
      if MAX_REQ_BYTES <? Z.of_nat (length body) then undefined else
      modify (set_reqbuf (<[id := set_data (buf_write body (req_data req1)) req1]> buf));;
      checkRecv recvd2 (i32 (req_len req1)) fd
  end.

(** One iteration of [while (!success)]: the descriptor served, if any. *)
Definition recvReq_iter (id : nat) : M SWorld (option Z) :=
  fds ← gets clientFds;
  lfd ← gets listenFd;
  if (length fds =? 0)%nat then
    r ← do_select [lfd];
    match r with
    | None => unlock_recv;; exit_ (-1)
    | Some readSet =>
        new ← checkNewClient readSet;
        (if (new : bool) then modify (set_recvClientHead 0) else mret ());;
        mret None
    end
  else
    r ← do_select (lfd :: fds);
    match r with
    | None => exit_ (-1)
    | Some readSet0 =>
        new ← checkNewClient readSet0;
        fds ← gets clientFds;
        r ← (if (new : bool) then do_select fds else mret (Some readSet0));
        match r with
        | None => unlock_recv;; exit_ (-1)
        | Some readSet =>
            head ← gets recvClientHead;
            let fd := pick_fd fds head readSet 0 (length fds) in
            modify (set_recvClientHead (next_head (length fds) head));;
            if fd =? -1 then mret None
            else success ← read_request id fd; mret (if (success : bool) then Some fd else None)
        end
    end.

(** Every iteration uses at least one select result, so the number of results
    still to come bounds the iterations: see [recvReq_iter_select]. *)
Fixpoint recvReq_loop (fuel : nat) (id : nat) : M SWorld Z :=
  match fuel with
  | O => undefined (* not reached with the fuel [recvReq] gives: recvReq_loop_fuel *)
  | S f => r ← recvReq_iter id;
           match r with Some fd => mret fd | None => recvReq_loop f id end
  end.

Section WithClock.
Context (clock : nat -> timespec).

Definition nowS : M SWorld Z := zoom ticks set_ticks (getCurNs clock).

(** The request's length and the start of its bytes in [reqbuf[id].data]. *)
Definition recvReq (id : nat) : M SWorld (Z * list byte) :=
  lock_recv;;
  n ← gets (fun w => length (selects w));
  fd ← recvReq_loop (S n) id;
  curNs ← nowS;
  buf ← gets reqbuf;
  infos ← gets reqInfo;
  acts ← gets activeFds;
  match buf !! id, infos !! id, acts !! id with
  | Some req, Some _, Some _ =>
      modify (set_reqInfo (<[id := mkReqInfo (req_id req) curNs]> infos));;
      modify (set_activeFds (<[id := fd]> acts));;
      modify (fun w => if start_file w then w
                       else set_start_file (if String.eqb (start_file_name w) "" then files w
                                            else files w ++ [start_file_name w]) w);;
      unlock_recv;;
      mret (req_len req, req_data req)
  | _, _, _ => undefined
  end.

(** ** sendResp and finish *)

Definition sendResp (id : nat) (data : list byte) (len : Z) : M SWorld () :=
  lock_send;;
  infos ← gets reqInfo;
  acts ← gets activeFds;
  match infos !! id, acts !! id with
  | Some info, Some fd =>
      if (MAX_RESP_BYTES <? len) || (Z.of_nat (length data) <? len) then undefined else
      curNs ← nowS;
      assert_ (ri_startNs info <? curNs);;
      let resp := mkResponse (ResponseType_val RESPONSE) (ri_id info)
                    (u64 (curNs - ri_startNs info)) len 0
                    (buf_write (take (Z.to_nat len) data) []) in
      let totalLen := i32 (u64 (sizeof_Response - MAX_RESP_BYTES + len)) in
      _sent ← on_fd fd (sendfull (struct_bytes resp totalLen) totalLen);
      modify (fun w => set_finishedReqs (u64 (finishedReqs w + 1)) w);;
      unlock_send
  | _, _ => undefined
  end.

Definition finish_resp : Response := mkResponse (ResponseType_val FINISH) 0 0 0 0 [].

Fixpoint finish_loop (fds : list Z) : M SWorld () :=
  match fds with
  | [] => mret ()
  | fd :: fds' =>
      let len := i32 (u64 (sizeof_Response - MAX_RESP_BYTES)) in
      sent ← on_fd fd (sendfull (struct_bytes finish_resp len) len);
      assert_ (sent =? len);;
      finish_loop fds'
  end.

Definition finish : M SWorld () :=
  lock_send;; fds ← gets clientFds; finish_loop fds;; unlock_send.

End WithClock.

(** ** Framing facts *)

Lemma keeps_on_fd {A B} (pr : SWorld -> B) fd (m : M sock A) :
  (forall v w, pr (set_socks v w) = pr w) -> keeps pr (on_fd fd m).
Proof. intros H. apply keeps_zoom. intros. apply H. Qed.

Lemma keeps_removeClient {B} (pr : SWorld -> B) fd :
  (forall v w, pr (set_clientFds v w) = pr w) -> keeps pr (removeClient fd).
Proof.
  intros H w a w'. unfold removeClient. case_match; [|done]. case_match.
  by intros [= _ <-].
Qed.

#[export] Hint Extern 5 (keeps _ (on_fd _ _)) => apply keeps_on_fd; reflexivity : keeps.
#[export] Hint Extern 5 (keeps _ (removeClient _)) => apply keeps_removeClient; reflexivity : keeps.

Lemma accept_selects : keeps selects accept_client.
Proof.
  intros w a w'. unfold accept_client.
  destruct (accepts w) as [|[fd s []|] r]; try done; by intros [= _ <-].
Qed.
#[export] Hint Resolve accept_selects : keeps.

Lemma checkRecv_selects recvd expected fd : keeps selects (checkRecv recvd expected fd).
Proof. unfold checkRecv. solve_keeps. Qed.
#[export] Hint Resolve checkRecv_selects : keeps.

Lemma read_request_selects id fd : keeps selects (read_request id fd).
Proof. unfold read_request. solve_keeps. Qed.

Lemma checkNewClient_selects set : keeps selects (checkNewClient set).
Proof. unfold checkNewClient. solve_keeps. Qed.
#[export] Hint Resolve read_request_selects checkNewClient_selects : keeps.

Lemma do_select_selects fds w a w' :
  do_select fds w = Ret a w' -> length (selects w) = S (length (selects w')).
Proof.
  unfold do_select. destruct (fds_ok fds); [|done].
  destruct (selects w) as [|[]] eqn:E; try done; by intros [= _ <-].
Qed.

Lemma do_select_le fds w a w' :
  do_select fds w = Ret a w' -> (length (selects w') <= length (selects w))%nat.
Proof. intros H%do_select_selects. lia. Qed.

(** An iteration that goes round again has used up a select result. *)
Lemma recvReq_iter_select id w r w' :
  recvReq_iter id w = Ret r w' -> (length (selects w') < length (selects w))%nat.
Proof.
  unfold recvReq_iter. intros H.
  apply bind_inv in H as (fds & w1 & [= <- <-] & H).
  apply bind_inv in H as (lfd & w1 & [= <- <-] & H).
  destruct (length (clientFds w) =? 0)%nat.
  - apply bind_inv in H as (rs & w1 & Hs%do_select_selects & H). destruct rs; [|done].
    apply bind_inv in H as (new & w2 & Hn%checkNewClient_selects & H).
    apply bind_inv in H as ([] & w3 & Hh & [= _ <-]).
    assert (selects w3 = selects w2) as -> by (destruct new; by injection Hh as <-).
    rewrite Hn. lia.
  - apply bind_inv in H as (rs & w1 & Hs%do_select_selects & H). destruct rs; [|done].
    apply bind_inv in H as (new & w2 & Hn%checkNewClient_selects & H).
    apply bind_inv in H as (fds & w3 & [= <- <-] & H).
    apply bind_inv in H as (rs2 & w3 & H3 & H).
    assert (length (selects w3) <= length (selects w2))%nat as H23
      by (destruct new; [by eapply do_select_le|by injection H3 as _ <-]).
    destruct rs2; [|done].
    enough (selects w' = selects w3) as -> by (rewrite Hn in H23; lia).
    revert H. apply (keeps_bind selects (gets recvClientHead)); [apply keeps_gets|].
    intros head. solve_keeps.
Qed.

(** The fuel [recvReq] gives its loop is enough: an iteration uses at least one
    select result, so no larger bound on the iterations gives another outcome.
    (The loop itself runs for as long as select returns.) *)
Lemma recvReq_loop_fuel id fuel w :
  (length (selects w) < fuel)%nat ->
  recvReq_loop fuel id w = recvReq_loop (S (length (selects w))) id w.
Proof.
  revert w. assert (H : forall n f1 f2 w, (length (selects w) <= n)%nat ->
    (length (selects w) < f1)%nat -> (length (selects w) < f2)%nat ->
    recvReq_loop f1 id w = recvReq_loop f2 id w).
  { induction n as [|n IH]; intros f1 f2 w Hn H1 H2;
      destruct f1 as [|f1], f2 as [|f2]; try lia; cbn [recvReq_loop]; unfold mbind, M_bind;
      destruct (recvReq_iter id w) as [r w1| | | |] eqn:E; try done;
      destruct r; try done; pose proof (recvReq_iter_select _ _ _ _ E); [lia|].
    apply IH; lia. }
  intros w Hf. eapply H; [reflexivity|lia|lia].
Qed.

(** ** Round-robin choice *)

(** A head position that is a valid index, as every value computed modulo the
    number of clients is. *)
Lemma pick_fd_at fds head readSet i n :
  0 <= head -> 0 <= i -> head + i + Z.of_nat n < 2 ^ 64 -> fds <> [] ->
  let f := pick_fd fds head readSet i n in
  (exists j, i <= j < i + Z.of_nat n /\
     fds !! Z.to_nat ((head + j) mod Z.of_nat (length fds)) = Some f /\ f ∈ readSet /\
     forall k g, i <= k < j ->
       fds !! Z.to_nat ((head + k) mod Z.of_nat (length fds)) = Some g -> g ∉ readSet) \/
  (f = -1 /\ forall k g, i <= k < i + Z.of_nat n ->
     fds !! Z.to_nat ((head + k) mod Z.of_nat (length fds)) = Some g -> g ∉ readSet).
Proof.
  revert i. induction n as [|n IH]; intros i Hh Hi Hb Hne; cbn [pick_fd]; cbv zeta.
  { right. split; [done|]. intros; lia. }
  rewrite u64_id by (unfold is_u64; lia).
  assert (0 < Z.of_nat (length fds)) by (destruct fds; [done|simpl; lia]).
  pose proof (Z.mod_pos_bound (head + i) (Z.of_nat (length fds)) ltac:(lia)) as Hm.
  destruct (lookup_lt_is_Some_2 fds (Z.to_nat ((head + i) mod Z.of_nat (length fds)))) as [f Hf];
    [lia|].
  rewrite Hf. unfold FD_ISSET. destruct (bool_decide (f ∈ readSet)) eqn:E.
  - apply bool_decide_eq_true in E. left. exists i. repeat split; try lia; try done.
  - apply bool_decide_eq_false in E.
    destruct (IH (i + 1)) as [(j & Hj & Hlk & Hr & Hmin)|[-> Hnone]]; try lia; try done.
    + left. exists j. repeat split; try lia; try done. intros k g Hk Hg.
      destruct (decide (k = i)) as [->|]; [rewrite Hf in Hg; by injection Hg as <-|].
      eapply Hmin; [|done]. lia.
    + right. split; [done|]. intros k g Hk Hg.
      destruct (decide (k = i)) as [->|]; [rewrite Hf in Hg; by injection Hg as <-|].
      eapply Hnone; [|done]. lia.
Qed.

Lemma iter_next_head n head t :
  0 <= head < Z.of_nat n -> Z.of_nat n < 2 ^ 63 ->
  Nat.iter t (next_head n) head = (head + Z.of_nat t) mod Z.of_nat n.
Proof.
  intros Hh Hn. induction t as [|t IH].
  - simpl. rewrite Z.add_0_r, Z.mod_small; lia.
  - rewrite Nat.iter_succ, IH. unfold next_head.
    pose proof (Z.mod_pos_bound (head + Z.of_nat t) (Z.of_nat n) ltac:(lia)).
    rewrite u64_id by (unfold is_u64; lia).
    rewrite Zplus_mod_idemp_l. f_equal. lia.
Qed.

(** C12: no client starves: with a fixed set of [n] clients, among any [n]
    consecutive rounds there is one in which a client that has data is the one
    served, whatever the other clients do. *)
Theorem round_robin_fair fds head p f :
  0 <= head < Z.of_nat (length fds) -> Z.of_nat (length fds) < 2 ^ 63 -> fds !! p = Some f ->
  exists t, (t < length fds)%nat /\ forall readSet, f ∈ readSet ->
    pick_fd fds (Nat.iter t (next_head (length fds)) head) readSet 0 (length fds) = f.
Proof.
  intros Hh Hn Hp. set (n := Z.of_nat (length fds)) in *.
  pose proof (lookup_lt_Some _ _ _ Hp) as Hlt.
  pose proof (Z.mod_pos_bound (Z.of_nat p - head) n ltac:(lia)) as Ht.
  exists (Z.to_nat ((Z.of_nat p - head) mod n)). split; [lia|].
  intros readSet Hr. rewrite iter_next_head by (fold n; lia). fold n.
  rewrite Z2Nat.id, Zplus_mod_idemp_r by lia.
  replace (head + (Z.of_nat p - head)) with (Z.of_nat p) by lia.
  rewrite (Z.mod_small (Z.of_nat p)) by lia.
  destruct (length fds) as [|m] eqn:El; [lia|]. cbn [pick_fd]. rewrite El.
  rewrite Z.add_0_r, u64_id by (unfold is_u64; lia).
  rewrite Z.mod_small, Nat2Z.id, Hp by lia.
  unfold FD_ISSET. by rewrite bool_decide_eq_true_2.
Qed.

Lemma round_robin_fair_witness :
  (0 <= 1 < Z.of_nat (length [4; 5; 6]) /\ Z.of_nat (length [4; 5; 6]) < 2 ^ 63 /\
   [4; 5; 6] !! 0%nat = Some 4) /\
  exists t, (t < 3)%nat /\ forall readSet, 4 ∈ readSet ->
    pick_fd [4; 5; 6] (Nat.iter t (next_head 3) 1) readSet 0 3 = 4.
Proof.
  split; [repeat split; simpl; lia|].
  apply (round_robin_fair [4; 5; 6] 1 0 4); [simpl; lia|simpl; lia|reflexivity].
Defined.
