(* ===== verification/ServerSpec.v ===== *)
(** * What the networked server guarantees

    Behaviour of [recvReq] and [sendResp] on whole messages, on the error paths
    of [checkRecv], and the invariant of the client table. *)

From stdpp Require Import strings.
From S2P Require Import Prelude Msgs Helpers Env NetClient NetServer.

Open Scope Z_scope.

Lemma on_fd_Ret {A} fd (m : M sock A) w s a s' :
  socks w !! fd = Some s -> m s = Ret a s' ->
  on_fd fd m w = Ret a (set_socks (<[fd := s']> (socks w)) w).
Proof. intros Hs Hm. unfold on_fd, zoom. rewrite Hs. simpl. by rewrite Hm. Qed.

Lemma request_hdr_len : i32 (u64 (sizeof_Request - MAX_REQ_BYTES)) = 80.
Proof. vm_compute. done. Qed.
Lemma response_hdr_len : i32 (u64 (sizeof_Response - MAX_RESP_BYTES)) = 40.
Proof. vm_compute. done. Qed.
Lemma MAX_REQ_BYTES_eq : MAX_REQ_BYTES = 1048576.
Proof. done. Qed.
Lemma MAX_RESP_BYTES_eq : MAX_RESP_BYTES = 1048576.
Proof. done. Qed.
Opaque MAX_REQ_BYTES MAX_RESP_BYTES.

(** ** Receiving one whole request *)

(** The object left in [reqbuf[id]] after request [x] was read over [req]. *)
Definition received (req x : Request) : Request :=
  request_set_data (buf_write (buf_read (Z.to_nat (req_len x)) (req_data x)) (req_data req)) x.

Lemma read_request_ok id fd w req s (x : Request) rest :
  reqbuf w !! id = Some req -> socks w !! fd = Some s ->
  s_in s = msg_image x ++ rest -> no_fail (s_rsched s) ->
  request_wf x -> 0 < req_len x <= MAX_REQ_BYTES ->
  exists s', read_request id fd w =
      Ret true (set_reqbuf (<[id := received req x]> (reqbuf w))
                  (set_socks (<[fd := s']> (socks w)) w)) /\
    s_in s' = rest /\ s_out s' = s_out s /\ s_ssched s' = s_ssched s /\ no_fail (s_rsched s').
Proof.
  intros Hreq Hs Hin Hn Hwf Hlen. rewrite MAX_REQ_BYTES_eq in Hlen.
  destruct (recv_msg_ok x s rest Hin Hn ltac:(simpl; lia))
    as (s1 & s2 & E1 & E2 & Hi & Ho & Hss & Hn2 & _).
  exists s2. split; [|done].
  change (Z.of_nat hdr_size) with 80 in E1. cbn [msg_len msg_data Request_wire] in E2.
  set (body := buf_read _ _) in E2.
  assert (Hbody : length body = Z.to_nat (req_len x)) by apply length_buf_read.
  assert (Hld : request_hdr_load (request_hdr_image x) req = request_set_data (req_data req) x)
    by exact (@hdr_load_image Request Request_wire Request_laws x req Hwf).
  unfold read_request. bind_step by reflexivity. rewrite Hreq, request_hdr_len.
  bind_step by (apply (on_fd_Ret _ _ _ s); [done|exact E1]). rewrite Z.eqb_refl.
  bind_step by reflexivity. bind_step by reflexivity.
  cbn [negb hdr_load hdr_image Request_wire]. rewrite Hld.
  cbn [req_len request_set_data]. rewrite i32_id by (unfold is_i32; lia).
  bind_step by (apply (on_fd_Ret _ _ _ s1); [apply lookup_insert_eq|exact E2]).
  rewrite (proj2 (Z.ltb_ge _ _)) by (rewrite MAX_REQ_BYTES_eq; lia).
  bind_step by reflexivity. unfold checkRecv.
  rewrite (proj2 (Z.eqb_neq (req_len x) 0)), (proj2 (Z.eqb_neq (req_len x) (-1))), Z.eqb_refl by lia.
  unM. cbn [negb]. f_equal. unfold set_reqbuf, set_socks; cbn [finishedReqs maxReqs warmupReqs
    start_file start_file_name reqInfo sendLock recvLock reqbuf clientFds activeFds recvClientHead
    listenFd socks selects accepts ticks files].
  f_equal. apply insert_insert_eq.
Qed.

(** The situation in which one iteration serves descriptor [fd]: clients are
    connected, select reports no new connection, and [fd] is the first ready
    client in the rotation. *)
Record serves (w : SWorld) (fd : Z) (ready : list Z) (sel : list (option (list Z))) : Prop := {
  sv_clients : clientFds w <> [];
  sv_range : fds_ok (listenFd w :: clientFds w) = true;
  sv_select : selects w = Some ready :: sel;
  sv_nonew : listenFd w ∉ ready;
  sv_pick : pick_fd (clientFds w) (recvClientHead w)
              (filter (fun f => f ∈ ready) (listenFd w :: clientFds w)) 0
              (length (clientFds w)) = fd;
  sv_fd : fd <> -1
}.

Lemma recvReq_iter_serves id w fd ready sel :
  serves w fd ready sel ->
  recvReq_iter id w =
    (success ← read_request id fd; mret (if (success : bool) then Some fd else None))
      (set_recvClientHead (next_head (length (clientFds w)) (recvClientHead w))
         (set_selects sel w)).
Proof.
  intros [Hc Hr Hsel Hnew Hpick Hfd]. unfold recvReq_iter.
  bind_step by reflexivity. bind_step by reflexivity.
  destruct (clientFds w) as [|c cs] eqn:Ec; [done|]. cbn [length Nat.eqb].
  bind_step by (unfold do_select; rewrite Hr, Hsel; reflexivity).
  bind_step by
    (unfold checkNewClient; bind_step by reflexivity; unfold FD_ISSET;
     rewrite bool_decide_eq_false_2; [reflexivity|];
     simpl listenFd; rewrite list_elem_of_filter; tauto).
  bind_step by reflexivity. bind_step by reflexivity. bind_step by reflexivity.
  unfold set_selects. cbn [clientFds recvClientHead listenFd]. rewrite Ec.
  cbn [length] in Hpick |- *. rewrite Hpick.
  bind_step by reflexivity.
  by rewrite (proj2 (Z.eqb_neq _ _) Hfd).
Qed.

Lemma recvReq_ok clock id w fd ready sel req s (x : Request) rest :
  recvLock w = false -> serves w fd ready sel ->
  reqbuf w !! id = Some req -> is_Some (reqInfo w !! id) -> is_Some (activeFds w !! id) ->
  socks w !! fd = Some s -> s_in s = msg_image x ++ rest -> no_fail (s_rsched s) ->
  request_wf x -> 0 < req_len x <= MAX_REQ_BYTES ->
  exists d w' s', recvReq clock id w = Ret (req_len x, d) w' /\
    take (Z.to_nat (req_len x)) d = buf_read (Z.to_nat (req_len x)) (req_data x) /\
    reqInfo w' !! id = Some (mkReqInfo (req_id x) (ts_ns (clock (ticks w)))) /\
    activeFds w' !! id = Some fd /\
    socks w' !! fd = Some s' /\ s_in s' = rest /\ s_out s' = s_out s /\
    clientFds w' = clientFds w /\ recvLock w' = false /\ start_file w' = true /\
    sendLock w' = sendLock w /\ ticks w' = S (ticks w) /\ s_ssched s' = s_ssched s.
Proof.
  intros Hlock Hsv Hreq [info Hinfo] [act Hact] Hs Hin Hn Hwf Hlen.
  set (w1 := set_recvClientHead (next_head (length (clientFds w)) (recvClientHead w))
               (set_selects sel (set_recvLock true w))).
  destruct (read_request_ok id fd w1 req s x rest) as (s' & Hrd & Hi & Ho & Hss & _); try done.
  eexists _, _, s'. split.
  - unfold recvReq, lock_recv. bind_step by (rewrite Hlock; reflexivity).
    bind_step by reflexivity. cbn [recvReq_loop].
    bind_step by (bind_step by
      (rewrite (recvReq_iter_serves id _ fd ready sel) by (by destruct Hsv);
       bind_step by exact Hrd; reflexivity); reflexivity).
    bind_step by reflexivity. bind_step by reflexivity. bind_step by reflexivity.
    bind_step by reflexivity. cbn. rewrite list_lookup_insert_eq, Hinfo, Hact
      by (by eapply lookup_lt_Some). reflexivity.
  - cbn. repeat case_match; cbn; rewrite ?list_lookup_insert_eq by (by eapply lookup_lt_Some);
      rewrite ?lookup_insert_eq; repeat split; try done.
    all: unfold buf_write; rewrite take_app_exact; [done|apply length_buf_read].
Qed.

(** C7: when the client whose turn it is has sent a complete request, [recvReq]
    returns it: the length and payload the client sent, the thread's slot records
    the request id, the reception time and the client's descriptor for the reply,
    later bytes of that client stay queued, and the lock is released. *)
Theorem recvReq_delivers clock id w fd ready sel req s (x : Request) rest :
  recvLock w = false -> serves w fd ready sel ->
  reqbuf w !! id = Some req -> is_Some (reqInfo w !! id) -> is_Some (activeFds w !! id) ->
  socks w !! fd = Some s -> s_in s = msg_image x ++ rest -> no_fail (s_rsched s) ->
  request_wf x -> 0 < req_len x <= MAX_REQ_BYTES ->
  exists d w' s', recvReq clock id w = Ret (req_len x, d) w' /\
    take (Z.to_nat (req_len x)) d = buf_read (Z.to_nat (req_len x)) (req_data x) /\
    reqInfo w' !! id = Some (mkReqInfo (req_id x) (ts_ns (clock (ticks w)))) /\
    activeFds w' !! id = Some fd /\
    socks w' !! fd = Some s' /\ s_in s' = rest /\ s_out s' = s_out s /\
    clientFds w' = clientFds w /\ recvLock w' = false /\ start_file w' = true.
Proof.
  intros Hl Hsv Hq Hi Ha Hs Hin Hn Hwf Hlen.
  destruct (recvReq_ok clock id w fd ready sel req s x rest Hl Hsv Hq Hi Ha Hs Hin Hn Hwf Hlen)
    as (d & w' & s' & Hall).
  exists d, w', s'. by destruct_and! Hall.
Qed.

Definition serving_world : SWorld :=
  mkSWorld 0 0 0 false "" [mkReqInfo 0 0] false false [new_Request] [4; 5] [0] 1 3
    (<[4 := mkSock [] false [] [] []]>
       (<[5 := mkSock (msg_image example_request ++ [x2a]) false [] [Chunk 33] []]> ∅))
    [Some [5]] [] 0 [].

Lemma serving_world_serves : serves serving_world 5 [5] [].
Proof. split; try (vm_compute; done). simpl. set_solver. Qed.

Lemma recvReq_delivers_witness :
  (serves serving_world 5 [5] [] /\ request_wf example_request) /\
  exists d w' s', recvReq (fun _ => mkTimespec 2 5) 0 serving_world = Ret (3, d) w' /\
    take 3 d = buf_read 3 [x61; x62; x63] /\
    reqInfo w' !! 0%nat = Some (mkReqInfo 7 2000000005) /\
    activeFds w' !! 0%nat = Some 5 /\
    socks w' !! 5 = Some s' /\ s_in s' = [x2a] /\ s_out s' = [] /\
    clientFds w' = [4; 5] /\ recvLock w' = false /\ start_file w' = true.
Proof.
  assert (Hwf : request_wf example_request) by (repeat constructor; vm_compute; congruence).
  split; [split; [exact serving_world_serves|exact Hwf]|].
  refine (recvReq_delivers (fun _ => mkTimespec 2 5) 0 serving_world 5 [5] [] new_Request
    (mkSock (msg_image example_request ++ [x2a]) false [] [Chunk 33] []) example_request [x2a]
    _ serving_world_serves _ _ _ _ _ _ Hwf _); try reflexivity; try (eexists; reflexivity).
  - unfold no_fail. simpl. intros H. apply list_elem_of_singleton in H. discriminate.
  - vm_compute. split; congruence.
Defined.

(** ** The client table *)

(** Descriptors the environment will hand out. *)
Definition accept_fds (l : list accept_res) : list Z :=
  omap (fun a => match a with AccFd fd _ _ => Some fd | AccFail => None end) l.

(** Client descriptors are distinct, non-negative and open; [accept] returns
    descriptors that are not open. *)
Record srv_inv (w : SWorld) : Prop := {
  si_nodup : NoDup (clientFds w);
  si_open : forall f, f ∈ clientFds w -> is_Some (socks w !! f) /\ 0 <= f;
  si_fresh : NoDup (accept_fds (accepts w));
  si_accept : forall f, f ∈ accept_fds (accepts w) -> socks w !! f = None /\ 0 <= f
}.

Definition srv_inv_with (fd : Z) (w : SWorld) : Prop := srv_inv w /\ is_Some (socks w !! fd).

Lemma srv_inv_on_fd {A} fd (m : M sock A) : preserves (srv_inv_with fd) (on_fd fd m).
Proof.
  intros w a w' [[H1 H2 H3 H4] Hfd]. unfold on_fd, zoom.
  destruct (m _) as [? s'| | | |]; try done. intros [= _ <-]. split; [split|]; cbn; try done.
  - intros f Hf. destruct (H2 f Hf) as [Ho Hp]. split; [|done].
    destruct (decide (f = fd)) as [->|]; [by rewrite lookup_insert_eq|by rewrite lookup_insert_ne].
  - intros f Hf. destruct (H4 f Hf) as [Hno Hp]. split; [|done].
    rewrite lookup_insert_ne; [done|]. intros ->. rewrite Hno in Hfd. by destruct Hfd.
  - by rewrite lookup_insert_eq.
Qed.

Lemma srv_inv_removeClient fd f : preserves (srv_inv_with fd) (removeClient f).
Proof.
  intros w a w' [[H1 H2 H3 H4] Hfd]. unfold removeClient.
  destruct (list_find _ _) as [[i g]|]; [|done]. intros [= _ <-]. split; [split|]; cbn; try done.
  - eapply sublist_NoDup; [exact H1|apply sublist_delete].
  - intros h Hh. apply H2. by eapply list_elem_of_delete_inv.
Qed.
#[export] Hint Resolve srv_inv_on_fd srv_inv_removeClient : preserves.

Lemma srv_inv_checkRecv fd recvd expected f :
  preserves (srv_inv_with fd) (checkRecv recvd expected f).
Proof. unfold checkRecv. solve_preserves. Qed.
#[export] Hint Resolve srv_inv_checkRecv : preserves.

(** Fields outside the client table. *)
Lemma srv_inv_with_reqbuf fd v w : srv_inv_with fd w -> srv_inv_with fd (set_reqbuf v w).
Proof. intros [[] ?]. by split; [split|]. Qed.

Lemma srv_inv_read_request id fd : preserves (srv_inv_with fd) (read_request id fd).
Proof.
  unfold read_request.
  apply preserves_bind; [auto with preserves|]. intros buf.
  case_match; [|auto with preserves].
  apply preserves_bind; [auto with preserves|]. intros [recvd hdr].
  apply preserves_bind.
  { case_match; [|auto with preserves]. apply preserves_modify.
    intros. by apply srv_inv_with_reqbuf. }
  intros _. apply preserves_bind; [auto with preserves|]. intros [].
  2: { simpl. auto with preserves. }
  apply preserves_bind; [auto with preserves|]. intros [recvd2 body]. simpl.
  case_match; [auto with preserves|].
  apply preserves_bind; [|intros; auto with preserves].
  apply preserves_modify. intros. by apply srv_inv_with_reqbuf.
Qed.

(** Reading succeeds only without touching the client table. *)
Lemma checkRecv_true_clientFds recvd expected fd w w' :
  checkRecv recvd expected fd w = Ret true w' -> clientFds w' = clientFds w.
Proof.
  unfold checkRecv. repeat case_match; try done; unM.
  - by destruct (removeClient fd w).
  - by intros [= <-].
Qed.

Lemma read_request_true_clientFds id fd w w' :
  read_request id fd w = Ret true w' -> clientFds w' = clientFds w.
Proof.
  unfold read_request. intros H.
  apply bind_inv in H as (buf & w1 & [= <- <-] & H).
  destruct (reqbuf w !! id) as [req|]; [|done].
  apply bind_inv in H as ([recvd hdr] & w2 & H2 & H).
  assert (clientFds w2 = clientFds w) as E2 by (eapply keeps_on_fd; [|exact H2]; done).
  apply bind_inv in H as ([] & w3 & H3 & H).
  assert (clientFds w3 = clientFds w2) as E3 by (case_match; by injection H3 as <-).
  apply bind_inv in H as (b & w4 & H4 & H). destruct b; [|done]. simpl in H.
  apply checkRecv_true_clientFds in H4.
  apply bind_inv in H as ([recvd2 body] & w5 & H5 & H).
  assert (clientFds w5 = clientFds w4) as E5 by (eapply keeps_on_fd; [|exact H5]; done).
  destruct (_ <? _); [done|]. apply bind_inv in H as ([] & w6 & [= <-] & H).
  apply checkRecv_true_clientFds in H. cbn in H. congruence.
Qed.

Lemma pick_fd_elem fds head set i n :
  pick_fd fds head set i n = -1 \/ pick_fd fds head set i n ∈ fds.
Proof.
  revert i. induction n as [|n IH]; intros i; simpl; [by left|].
  destruct (fds !! _) as [f|] eqn:E; [|by left]. destruct (FD_ISSET f set); [|done].
  right. by eapply list_elem_of_lookup_2.
Qed.

Lemma srv_inv_do_select fds : preserves srv_inv (do_select fds).
Proof.
  intros w a w' [] . unfold do_select. destruct (fds_ok fds); [|done].
  destruct (selects w) as [|[]]; try done; intros [= _ <-]; by split.
Qed.

Lemma srv_inv_checkNewClient set : preserves srv_inv (checkNewClient set).
Proof.
  unfold checkNewClient. apply preserves_bind; [auto with preserves|]. intros lfd.
  case_match; [|auto with preserves].
  intros w a w' [H1 H2 H3 H4]. unfold accept_client.
  destruct (accepts w) as [|[fd s []|] r] eqn:Ea; try done; intros [= _ <-];
    cbn [accept_fds omap list_omap] in H3, H4.
  - apply NoDup_cons in H3 as [Hni Hnd].
    destruct (H4 fd) as [Hno Hp]; [by left|].
    assert (Hneq : forall f, f ∈ clientFds w -> f <> fd).
    { intros f Hf ->. destruct (H2 fd Hf) as [[? Hso] _]. congruence. }
    split; cbn; try done.
    + apply NoDup_app. split; [done|]. split; [|apply NoDup_singleton].
      intros f Hf Hx. apply list_elem_of_singleton in Hx. by eapply Hneq.
    + intros f [Hf|Hf%list_elem_of_singleton]%elem_of_app.
      * rewrite lookup_insert_ne by (intros ->; by eapply Hneq). auto.
      * subst. by rewrite lookup_insert_eq.
    + intros f Hf. destruct (H4 f) as [Hfn ?]; [by right|].
      rewrite lookup_insert_ne by (intros ->; done). done.
  - apply NoDup_cons in H3 as [Hni Hnd]. split; cbn; try done. intros f Hf. apply H4. by right.
  - by split.
Qed.

Lemma srv_inv_head v w : srv_inv w -> srv_inv (set_recvClientHead v w).
Proof. intros []. by split. Qed.

(** C9: the client table stays well formed across every iteration of [recvReq],
    whatever the clients and the network do: descriptors are distinct and open,
    and a request is only ever accepted from a descriptor that is in the table. *)
Theorem recvReq_iter_inv id w r w' :
  srv_inv w -> recvReq_iter id w = Ret r w' ->
  srv_inv w' /\ forall fd, r = Some fd -> fd ∈ clientFds w'.
Proof.
  unfold recvReq_iter. intros Hinv H.
  apply bind_inv in H as (fds & w1 & [= <- <-] & H).
  apply bind_inv in H as (lfd & w1 & [= <- <-] & H).
  destruct (length (clientFds w) =? 0)%nat.
  - apply bind_inv in H as (rs & w1 & Hs & H). destruct rs; [|done].
    apply bind_inv in H as (new & w2 & Hn & H).
    apply bind_inv in H as ([] & w3 & Hh & [= <- <-]). split; [|done].
    assert (srv_inv w2) by (eapply srv_inv_checkNewClient; [|exact Hn];
      by eapply srv_inv_do_select).
    destruct new; injection Hh as <-; [by apply srv_inv_head|done].
  - apply bind_inv in H as (rs & w1 & Hs & H). destruct rs; [|done].
    apply bind_inv in H as (new & w2 & Hn & H).
    apply bind_inv in H as (fds & w3 & [= <- <-] & H).
    apply bind_inv in H as (rs2 & w3 & H3 & H). destruct rs2 as [set|]; [|done].
    assert (srv_inv w2) as Hi2 by (eapply srv_inv_checkNewClient; [|exact Hn];
      by eapply srv_inv_do_select).
    assert (srv_inv w3 /\ clientFds w3 = clientFds w2) as [Hi3 Hc3].
    { destruct new; [|by injection H3 as _ <-]. split; [by eapply srv_inv_do_select|].
      unfold do_select in H3. repeat case_match; try done; by injection H3 as _ <-. }
    apply bind_inv in H as (head & w4 & [= <- <-] & H).
    apply bind_inv in H as ([] & w4 & [= <-] & H).
    destruct (pick_fd_elem (clientFds w2) (recvClientHead w3) set 0 (length (clientFds w2)))
      as [E|E].
    { rewrite E in H. injection H as <- <-. split; [by apply srv_inv_head|done]. }
    destruct (_ =? -1); [injection H as <- <-; split; [by apply srv_inv_head|done]|].
    apply bind_inv in H as (b & w5 & Hrd & [= <- <-]).
    set (fd := pick_fd _ _ _ _ _) in *.
    assert (srv_inv_with fd w5) as [Hi5 _].
    { eapply srv_inv_read_request; [|exact Hrd]. split; [by apply srv_inv_head|].
      cbn. apply (si_open _ Hi3). by rewrite Hc3. }
    split; [done|]. destruct b; [|done]. intros fd' [= <-].
    apply read_request_true_clientFds in Hrd. cbn in Hrd. by rewrite Hrd, Hc3.
Qed.

Lemma serving_world_inv : srv_inv serving_world.
Proof.
  split.
  - vm_compute clientFds. repeat (apply NoDup_cons; split; [set_solver|]). apply NoDup_nil_2.
  - intros f Hf. assert (f = 4 \/ f = 5) as [->| ->] by (cbn in Hf; set_solver);
      (split; [eexists; reflexivity|lia]).
  - apply NoDup_nil_2.
  - intros f Hf. cbn in Hf. set_solver.
Qed.

Lemma recvReq_iter_inv_witness :
  srv_inv serving_world /\
  exists w', recvReq_iter 0 serving_world = Ret (Some 5) w' /\ srv_inv w' /\ 5 ∈ clientFds w'.
Proof.
  split; [exact serving_world_inv|].
  destruct (recvReq_iter 0 serving_world) as [r w'| | | |] eqn:E;
    try (vm_compute in E; discriminate).
  destruct (recvReq_iter_inv 0 serving_world r w' serving_world_inv E) as [Hi Hf].
  assert (r = Some 5) as -> by (vm_compute in E; injection E; done).
  exists w'. split; [reflexivity|]. split; [exact Hi|]. apply Hf. reflexivity.
Defined.

(** ** Error paths of receiving *)

Lemma removeClient_ok fd w :
  fd ∈ clientFds w ->
  exists i, clientFds w !! i = Some fd /\
    removeClient fd w = Ret () (set_clientFds (delete i (clientFds w)) w).
Proof.
  intros Hfd. unfold removeClient.
  destruct (list_find_elem_of (fun f => f = fd) (clientFds w) fd Hfd eq_refl) as [[i f] E].
  rewrite E. apply list_find_Some in E as (Hi & -> & _). eauto.
Qed.

Lemma delete_NoDup {A} (l : list A) i x : NoDup l -> l !! i = Some x -> x ∉ delete i l.
Proof.
  intros Hnd Hi Hin. rewrite delete_take_drop in Hin.
  apply take_drop_middle in Hi. rewrite <- Hi in Hnd.
  apply NoDup_app in Hnd as (_ & H1 & H2). apply NoDup_cons in H2 as [H2 _].
  apply elem_of_app in Hin as [Hin|Hin]; [|done]. apply (H1 _ Hin). by left.
Qed.

Lemma checkRecv_zero expected fd w :
  NoDup (clientFds w) -> fd ∈ clientFds w ->
  exists w', checkRecv 0 expected fd w = Ret false w' /\ fd ∉ clientFds w'.
Proof.
  intros Hnd Hfd. destruct (removeClient_ok fd w Hfd) as (i & Hi & E).
  eexists. unfold checkRecv. cbn [Z.eqb]. bind_step by exact E.
  split; [reflexivity|]. cbn. by eapply delete_NoDup.
Qed.

(** Nothing to read at a message boundary: the stream ended, or [recv] failed. *)
Definition at_end (s : sock) : Prop :=
  s_in s = [] /\ (s_eof s = true \/ exists r, s_rsched s = Fail :: r).

Lemma recvfull_at_end len s :
  0 < len -> at_end s -> exists s', recvfull len s = Ret (0, []) s'.
Proof.
  intros Hl [Hi He]. unfold recvfull. destruct (Z.to_nat len) as [|f] eqn:E; [lia|].
  cbn [recvfull_loop]. rewrite (proj2 (Z.ltb_lt _ _)) by lia.
  assert (exists n s', sys_recv len s = Ret (n, []) s' /\ (n = 0 \/ n = -1)) as (n & s' & Er & Hn).
  { unfold sys_recv. destruct (s_rsched s) as [|[k|] r]; [| |eauto].
    all: destruct He as [->|[? ?]]; [rewrite Hi; eauto|done]. }
  unM. rewrite Er. exists s'. destruct Hn as [-> | ->]; simpl; by rewrite Z.sub_diag.
Qed.

Lemma recvfull_truncated len s :
  no_fail (s_rsched s) -> s_eof s = true -> Z.of_nat (length (s_in s)) < len ->
  exists s', recvfull len s = Ret (Z.of_nat (length (s_in s)), s_in s) s'.
Proof.
  intros Hn He Hl. unfold recvfull.
  pose proof (recvfull_loop_spec (Z.to_nat len) [] len s ltac:(lia) ltac:(lia)) as H.
  destruct (recvfull_loop _ _ _ s) as [[bs rem] s'| | | |s'] eqn:E; try done.
  - destruct H as (got & -> & Hin & Hr & Hlen & _ & _ & _ & _ & Hstop). simpl in *.
    bind_step by exact E.
    assert (0 < rem) as Hpos by (rewrite <- Hin, length_app in Hl; lia).
    destruct (Hstop Hpos) as [?|[Hi _]]; [done|]. rewrite Hi, app_nil_r in Hin.
    exists s'. subst got. unM. do 2 f_equal. lia.
  - destruct H as (_ & Hf & _). congruence.
Qed.

(** The error paths of receiving a request from a connected client.  At a
    message boundary, the end of the stream and a failed [recv] are treated
    alike: the client is dropped and the server goes on.  A request whose [len]
    is 0 also drops its client.  A stream that ends inside a header makes the
    whole server exit with -1. *)
Theorem read_request_errors id fd w req s :
  NoDup (clientFds w) -> fd ∈ clientFds w ->
  reqbuf w !! id = Some req -> socks w !! fd = Some s ->
  (at_end s -> exists w', read_request id fd w = Ret false w' /\ fd ∉ clientFds w') /\
  (forall x rest, s_in s = msg_image x ++ rest -> request_wf x -> req_len x = 0 ->
     no_fail (s_rsched s) ->
     exists w', read_request id fd w = Ret false w' /\ fd ∉ clientFds w') /\
  (s_eof s = true -> no_fail (s_rsched s) -> (0 < length (s_in s) < 80)%nat ->
     exists w', read_request id fd w = Exit (-1) w').
Proof.
  intros Hnd Hfd Hreq Hs. unfold read_request. repeat split.
  - intros Hend. destruct (recvfull_at_end 80 s ltac:(lia) Hend) as [s' E].
    bind_step by reflexivity. rewrite Hreq, request_hdr_len.
    bind_step by (apply (on_fd_Ret _ _ _ s); [done|exact E]).
    bind_step by reflexivity.
    destruct (checkRecv_zero 80 fd (set_socks (<[fd:=s']> (socks w)) w) Hnd Hfd) as (w' & Ec & Hn).
    bind_step by exact Ec. eauto.
  - intros x rest Hin Hwf Hz Hn.
    destruct (recv_msg_ok x s rest Hin Hn ltac:(simpl; lia)) as (s1 & s2 & E1 & _).
    change (Z.of_nat hdr_size) with 80 in E1.
    bind_step by reflexivity. rewrite Hreq, request_hdr_len.
    bind_step by (apply (on_fd_Ret _ _ _ s); [done|exact E1]). rewrite Z.eqb_refl.
    bind_step by reflexivity. bind_step by reflexivity.
    rewrite (@hdr_load_image Request Request_wire Request_laws x req Hwf).
    cbn [req_len set_data Request_wire request_set_data negb]. rewrite Hz.
    bind_step by (apply (on_fd_Ret _ _ _ s1); [apply lookup_insert_eq|by apply recvfull_nonpos]).
    rewrite (proj2 (Z.ltb_ge _ _)) by (rewrite MAX_REQ_BYTES_eq; simpl; lia).
    bind_step by reflexivity. by apply checkRecv_zero.
  - intros He Hn Hl. destruct (recvfull_truncated 80 s Hn He ltac:(lia)) as [s' E].
    bind_step by reflexivity. rewrite Hreq, request_hdr_len.
    bind_step by (apply (on_fd_Ret _ _ _ s); [done|exact E]).
    rewrite (proj2 (Z.eqb_neq _ 80)) by lia. bind_step by reflexivity.
    unfold checkRecv. rewrite (proj2 (Z.eqb_neq _ 0)), (proj2 (Z.eqb_neq _ (-1))),
      (proj2 (Z.eqb_neq _ 80)) by lia. eexists. reflexivity.
Qed.

Lemma read_request_errors_witness :
  (NoDup (clientFds serving_world) /\ 4 ∈ clientFds serving_world) /\
  exists w', read_request 0 4
    (set_socks (<[4 := mkSock [x01; x02] true [] [] []]> (socks serving_world)) serving_world)
    = Exit (-1) w'.
Proof.
  split; [split; [apply serving_world_inv|vm_compute; left]|].
  apply (read_request_errors 0 4
    (set_socks (<[4 := mkSock [x01; x02] true [] [] []]> (socks serving_world)) serving_world)
    new_Request (mkSock [x01; x02] true [] [] [])).
  - apply serving_world_inv.
  - vm_compute. left.
  - reflexivity.
  - reflexivity.
  - reflexivity.
  - unfold no_fail. simpl. apply not_elem_of_nil.
  - simpl. lia.
Defined.

(** ** Replying *)

(** The message [sendResp] puts on the wire. *)
Definition reply (info : ReqInfo) (curNs len : Z) (data : list byte) : Response :=
  mkResponse (ResponseType_val RESPONSE) (ri_id info) (u64 (curNs - ri_startNs info)) len 0
    (take (Z.to_nat len) data).

Lemma sendResp_sends clock id w data len info fd s :
  sendLock w = false -> reqInfo w !! id = Some info -> activeFds w !! id = Some fd ->
  0 <= len <= MAX_RESP_BYTES -> len <= Z.of_nat (length data) ->
  ri_startNs info < ts_ns (clock (ticks w)) ->
  socks w !! fd = Some s -> no_fail (s_ssched s) ->
  exists w' s', sendResp clock id data len w = Ret () w' /\
    socks w' !! fd = Some s' /\
    s_out s' = s_out s ++ msg_image (reply info (ts_ns (clock (ticks w))) len data) /\
    s_in s' = s_in s /\ finishedReqs w' = u64 (finishedReqs w + 1) /\
    sendLock w' = false /\ clientFds w' = clientFds w.
Proof.
  intros Hlock Hinfo Hact Hlen Hdata Hclk Hs Hn. rewrite MAX_RESP_BYTES_eq in Hlen.
  set (resp := reply info (ts_ns (clock (ticks w))) len data).
  assert (Hsb : struct_bytes resp (40 + len) = msg_image resp)
    by (apply (@struct_bytes_msg Response Response_wire Response_laws); simpl; lia).
  assert (Hl : length (msg_image resp) = (40 + Z.to_nat len)%nat)
    by exact (@length_msg_image Response Response_wire Response_laws resp).
  destruct (sendfull_complete (msg_image resp) (40 + len) s)
    as (s' & E & Ho & Hi & _); [lia|lia|done|].
  rewrite take_ge in Ho by lia.
  eexists _, s'. split.
  - unfold sendResp, lock_send. bind_step by (rewrite Hlock; reflexivity).
    bind_step by reflexivity. bind_step by reflexivity. cbn. rewrite Hinfo, Hact.
    rewrite (proj2 (Z.ltb_ge MAX_RESP_BYTES len)), (proj2 (Z.ltb_ge _ len))
      by (rewrite ?MAX_RESP_BYTES_eq; lia). cbn [orb].
    bind_step by reflexivity. bind_step by
      (rewrite (proj2 (Z.ltb_lt (ri_startNs info) _)) by exact Hclk; reflexivity).
    replace (i32 (u64 (sizeof_Response - MAX_RESP_BYTES + len))) with (40 + len).
    2: { unfold sizeof_Response. rewrite MAX_RESP_BYTES_eq. cbn [Z.of_nat hdr_size Response_wire].
         mach. }
    unfold buf_write. rewrite drop_nil, app_nil_r.
    change (mkResponse _ _ _ _ _ _) with resp. rewrite Hsb.
    bind_step by (apply (on_fd_Ret _ _ _ s); [exact Hs|exact E]).
    bind_step by reflexivity. reflexivity.
  - split; [apply lookup_insert_eq|]. split; [exact Ho|]. split; [exact Hi|].
    split; [reflexivity|]. split; reflexivity.
Qed.
