(* ===== verification/EndToEnd.v ===== *)
(** * A request and its response, from the client's [send] to its [recv]

    The networked client and server composed through the two byte streams that
    connect them. *)

From stdpp Require Import strings.
From S2P Require Import Prelude Msgs Helpers Client NetClient NetServer ServerSpec.

Open Scope Z_scope.

Section EndToEnd.
Context {App : Type} (clkC clkS : nat -> timespec).

(** The request object as it is on the wire: stamped twice by [send]. *)
Definition stamped (r : Request) (t1 t2 : Z) : Request :=
  set_req_sentNs_lock_ad t2 (set_req_sentNs t1 r).

Lemma on_base_Ret {A} (m : M (CWorld (App := App)) A) nw a b' :
  m (base nw) = Ret a b' -> on_base m nw = Ret a (set_base b' nw).
Proof. intros H. unfold on_base, zoom. by rewrite H. Qed.

Lemma on_sock_Ret {A} (m : M sock A) (nw : NWorld App) a s' :
  m (serverFd nw) = Ret a s' -> on_sock m nw = Ret a (set_serverFd s' nw).
Proof. intros H. unfold on_sock, zoom. by rewrite H. Qed.

Definition below_quota (c : Client) : Prop := numReqsSent c <> u64 (warmupreqs c + maxreqs c).

(** The state after [req->sentNs_lock_ad = getCurNs()]. *)
Definition stamp_base (l : loc) (r : Request) (b : CWorld (App := App)) : CWorld :=
  set_heap (<[l := set_req_sentNs_lock_ad (ts_ns (clkC (tick b))) r]> (heap b))
    (set_tick (S (tick b)) b).

Lemma send_transfer_full (nw : NWorld App) l r :
  heap (base nw) !! l = Some r -> ~ below_quota (cl (base nw)) ->
  send_transfer clkC l nw = Ret (false, 0, 0) (set_base (stamp_base l r (base nw)) nw).
Proof.
  unfold below_quota. intros Hr Hq. unfold send_transfer.
  bind_step by (apply on_base_Ret; unfold now, zoom; bind_step by reflexivity;
    bind_step by (unfold load; cbn; rewrite Hr; reflexivity);
    unfold store; cbn; rewrite Hr; reflexivity).
  bind_step by reflexivity. cbn [cl base set_base set_heap set_tick].
  rewrite (proj2 (Z.eqb_eq _ _)) by lia. reflexivity.
Qed.

Lemma send_transfer_ok (nw : NWorld App) l r :
  heap (base nw) !! l = Some r -> below_quota (cl (base nw)) ->
  0 <= req_len r <= MAX_REQ_BYTES -> no_fail (s_ssched (serverFd nw)) ->
  exists s',
    send_transfer clkC l nw = Ret (true, 80 + req_len r, 80 + req_len r)
      (set_serverFd s' (set_base (stamp_base l r (base nw)) nw)) /\
    s_out s' = s_out (serverFd nw) ++
      msg_image (set_req_sentNs_lock_ad (ts_ns (clkC (tick (base nw)))) r) /\
    s_in s' = s_in (serverFd nw) /\ s_eof s' = s_eof (serverFd nw) /\
    s_rsched s' = s_rsched (serverFd nw) /\ no_fail (s_ssched s').
Proof.
  intros Hr Hq Hlen Hn. rewrite MAX_REQ_BYTES_eq in Hlen.
  set (x := set_req_sentNs_lock_ad _ r).
  assert (Hsb : struct_bytes x (80 + req_len r) = msg_image x)
    by (apply (@struct_bytes_msg Request Request_wire Request_laws x); simpl; lia).
  assert (Hl : length (msg_image x) = (80 + Z.to_nat (req_len r))%nat)
    by exact (@length_msg_image Request Request_wire Request_laws x).
  destruct (sendfull_complete (msg_image x) (80 + req_len r) (serverFd nw))
    as (s' & E & Ho & Hi & He & Hrs & Hss); [lia|lia|done|].
  rewrite take_ge in Ho by lia. exists s'. split; [|done].
  unfold send_transfer.
  bind_step by (apply on_base_Ret; unfold now, zoom; bind_step by reflexivity;
    bind_step by (unfold load; cbn; rewrite Hr; reflexivity);
    unfold store; cbn; rewrite Hr; reflexivity).
  bind_step by reflexivity. cbn [cl base set_base set_heap set_tick].
  rewrite (proj2 (Z.eqb_neq _ _) Hq).
  bind_step by (apply on_base_Ret; unfold load; cbn; rewrite lookup_insert_eq; reflexivity).
  cbn [req_len set_req_sentNs_lock_ad].
  replace (i32 (u64 (sizeof_Request - MAX_REQ_BYTES + req_len r))) with (80 + req_len r)
    by (unfold sizeof_Request; rewrite MAX_REQ_BYTES_eq; cbn [Z.of_nat hdr_size Request_wire]; mach).
  rewrite (proj2 (Z.ltb_ge sizeof_Request _))
    by (unfold sizeof_Request; rewrite MAX_REQ_BYTES_eq; cbn [Z.of_nat hdr_size Request_wire]; lia).
  bind_step by (apply on_sock_Ret; cbn [serverFd set_base];
    change (set_req_sentNs_lock_ad _ _) with x; rewrite Hsb; exact E).
  rewrite Z.eqb_refl. bind_step by reflexivity. reflexivity.
Qed.

Lemma send_ok (nw : NWorld App) l r :
  let t1 := ts_ns (clkC (tick (base nw))) in
  let t2 := ts_ns (clkC (S (tick (base nw)))) in
  NetClient.sendLock nw = false -> heap (base nw) !! l = Some r -> below_quota (cl (base nw)) ->
  0 <= req_len r <= MAX_REQ_BYTES -> no_fail (s_ssched (serverFd nw)) ->
  exists nw', send clkC l nw = Ret true nw' /\
    s_out (serverFd nw') = s_out (serverFd nw) ++ msg_image (stamped r t1 t2) /\
    numReqsSent (cl (base nw')) = u64 (numReqsSent (cl (base nw)) + 1) /\
    NetClient.sendLock nw' = false /\ heap (base nw') !! l = Some (stamped r t1 t2) /\
    NetClient.recvLock nw' = NetClient.recvLock nw /\
    s_in (serverFd nw') = s_in (serverFd nw) /\
    s_rsched (serverFd nw') = s_rsched (serverFd nw) /\ tick (base nw') = S (S (tick (base nw))).
Proof.
  intros t1 t2 Hlock Hr Hq Hlen Hn.
  set (b1 := set_heap (<[l := set_req_sentNs t1 r]> (heap (base nw)))
               (set_tick (S (tick (base nw))) (base nw))).
  destruct (send_transfer_ok (NetClient.set_sendLock true (set_base b1 nw)) l (set_req_sentNs t1 r))
    as (s' & E & Ho & Hi & _ & Hrs & _); [apply lookup_insert_eq|exact Hq|exact Hlen|exact Hn|].
  eexists. split.
  - unfold send, send_stamp.
    bind_step by (apply on_base_Ret; unfold now, zoom; bind_step by reflexivity;
      bind_step by (unfold load; cbn; rewrite Hr; reflexivity);
      unfold store; cbn; rewrite Hr; reflexivity).
    unfold NetClient.lock_send. bind_step by (cbn; rewrite Hlock; reflexivity).
    bind_step by exact E.
    bind_step by reflexivity. bind_step by reflexivity. rewrite Z.eqb_refl. reflexivity.
  - split; [exact Ho|]. split; [reflexivity|]. split; [reflexivity|].
    split; [apply lookup_insert_eq|]. split; [reflexivity|]. split; [exact Hi|].
    split; [exact Hrs|reflexivity].
Qed.

Lemma recv_ok (nw : NWorld App) (x : Response) rest resp0 :
  NetClient.recvLock nw = false -> s_in (serverFd nw) = msg_image x ++ rest ->
  no_fail (s_rsched (serverFd nw)) -> response_wf x ->
  resp_type x = ResponseType_val RESPONSE -> 0 <= resp_len x <= MAX_RESP_BYTES ->
  exists nw' d, recv clkC resp0 nw =
      Ret (true, mkResponse (resp_type x) (resp_id x) (resp_svcNs x) (resp_len x)
                   (u64 (ts_ns (clkC (S (tick (base nw)))) - ts_ns (clkC (tick (base nw))))) d) nw' /\
    take (Z.to_nat (resp_len x)) d = buf_read (Z.to_nat (resp_len x)) (resp_data x) /\
    s_in (serverFd nw') = rest /\ NetClient.recvLock nw' = false /\
    base nw' = set_tick (S (S (tick (base nw)))) (base nw) /\
    NetClient.sendLock nw' = NetClient.sendLock nw /\ s_eof (serverFd nw') = s_eof (serverFd nw) /\
    no_fail (s_rsched (serverFd nw')) /\ s_ssched (serverFd nw') = s_ssched (serverFd nw).
Proof.
  intros Hlock Hin Hn Hwf Hty Hlen. rewrite MAX_RESP_BYTES_eq in Hlen.
  destruct (@recv_msg_ok Response Response_wire Response_laws x (serverFd nw) rest)
    as (s1 & s2 & E1 & E2 & Hi & _ & Hss & Hnr & He); [exact Hin|exact Hn|exact (proj1 Hlen)|].
  eexists _, _. split; [|split; [|split]].
  - unfold recv, NetClient.lock_recv. bind_step by (cbn; rewrite Hlock; reflexivity).
    bind_step by (apply on_base_Ret; reflexivity). rewrite response_hdr_len.
    bind_step by (apply on_sock_Ret; exact E1). cbn [hdr_size Response_wire].
    rewrite Z.eqb_refl. cbn [negb].
    rewrite (hdr_load_image x resp0) by exact Hwf.
    bind_step by
      (cbn [resp_type set_data Response_wire response_set_data resp_len]; rewrite Hty, Z.eqb_refl;
       bind_step by (apply on_sock_Ret; rewrite (i32_id (resp_len x)) by mach; exact E2);
       rewrite (proj2 (Z.ltb_ge MAX_RESP_BYTES _))
         by (rewrite length_buf_read; cbn [msg_len Response_wire]; rewrite MAX_RESP_BYTES_eq; lia);
       cbn [msg_len Response_wire]; rewrite u64_id, Z.eqb_refl by mach; reflexivity).
    cbn [negb]. bind_step by (apply on_base_Ret; reflexivity).
    bind_step by reflexivity. unfold mret, M_ret.
    cbn [resp_type resp_id resp_svcNs resp_len set_data Response_wire response_set_data].
    rewrite Hty. reflexivity.
  - cbn [resp_data set_data Response_wire response_set_data msg_len msg_data].
    unfold buf_write. apply take_app_exact, length_buf_read.
  - exact Hi.
  - split; [reflexivity|]. split; [reflexivity|]. split; [reflexivity|].
    split; [exact He|]. split; [exact Hnr|exact Hss].
Qed.

Lemma recv_waits (nw : NWorld App) resp0 :
  NetClient.recvLock nw = false -> s_in (serverFd nw) = [] -> s_eof (serverFd nw) = false ->
  no_fail (s_rsched (serverFd nw)) -> exists nw', recv clkC resp0 nw = Blocked nw'.
Proof.
  intros Hlock Hin He Hn. destruct (recvfull_empty 40 (serverFd nw)) as [s' E]; try done.
  eexists. unfold recv, NetClient.lock_recv. bind_step by (cbn; rewrite Hlock; reflexivity).
  bind_step by (apply on_base_Ret; reflexivity). rewrite response_hdr_len.
  unfold mbind, M_bind, on_sock, zoom. cbn [serverFd set_base NetClient.set_recvLock].
  rewrite E. reflexivity.
Qed.

(** ** The connection: bytes one side has sent become readable at the other. *)

Definition arrive (bs : list byte) (s : sock) : sock :=
  mkSock (s_in s ++ bs) (s_eof s) (s_out s) (s_rsched s) (s_ssched s).
Definition server_arrive (fd : Z) (bs : list byte) (w : SWorld) : SWorld :=
  set_socks (alter (arrive bs) fd (socks w)) w.
Definition client_arrive (bs : list byte) (nw : NWorld App) : NWorld App :=
  set_serverFd (arrive bs (serverFd nw)) nw.
(** What was sent between two states of a socket. *)
Definition new_bytes (s s' : sock) : list byte := drop (length (s_out s)) (s_out s').

Lemma new_bytes_app s s' bs : s_out s' = s_out s ++ bs -> new_bytes s s' = bs.
Proof. intros H. unfold new_bytes. rewrite H. apply drop_app_exact. reflexivity. Qed.

Lemma serves_arrive w fd ready sel bs :
  serves w fd ready sel -> serves (server_arrive fd bs w) fd ready sel.
Proof. by intros []. Qed.

Lemma stamped_wf r k k' : request_wf r -> request_wf (stamped r (ts_ns (clkC k)) (ts_ns (clkC k'))).
Proof.
  unfold request_wf, stamped. rewrite !Forall_cons. cbn [req_id req_genNs req_len req_startNs
    req_startNs_lock_ad req_startNs_lock_re req_sentNs req_sentNs_lock_ad req_sentNs_lock_re
    set_req_sentNs_lock_ad set_req_sentNs].
  intros. destruct_and!. repeat split; try apply u64_range; try assumption; try constructor;
  match goal with H : is_u64 ?x |- _ <= ?x => apply H | H : is_u64 ?x |- ?x < _ => apply H end.
Qed.

Lemma reply_wf info t len data :
  is_u64 (ri_id info) -> 0 <= len <= MAX_RESP_BYTES -> response_wf (reply info t len data).
Proof.
  rewrite MAX_RESP_BYTES_eq. intros Hid Hlen.
  unfold response_wf, reply. cbn. split; [lia|].
  repeat constructor; cbn; try apply Hid; try apply u64_range; lia.
Qed.

Lemma u64_diff k k' :
  ts_ns (clkS k) < ts_ns (clkS k') ->
  u64 (ts_ns (clkS k') - ts_ns (clkS k)) = ts_ns (clkS k') - ts_ns (clkS k).
Proof.
  intros H. apply u64_id.
  assert (forall t, is_u64 (ts_ns t)) as Hr by (intros; apply u64_range).
  pose proof (Hr (clkS k)). pose proof (Hr (clkS k')). unfold is_u64 in *. lia.
Qed.

(** A client and a server joined by a connection, both idle on it. *)
Record joined (nw : NWorld App) (w : SWorld) (fd : Z) (s : sock) : Prop := {
  j_slock : NetClient.sendLock nw = false;
  j_rlock : NetClient.recvLock nw = false;
  j_cin : s_in (serverFd nw) = [];
  j_crecv : no_fail (s_rsched (serverFd nw));
  j_csend : no_fail (s_ssched (serverFd nw));
  j_srlock : NetServer.recvLock w = false;
  j_sslock : NetServer.sendLock w = false;
  j_sock : socks w !! fd = Some s;
  j_sin : s_in s = [];
  j_srecv : no_fail (s_rsched s);
  j_ssend : no_fail (s_ssched s)
}.

(** C5: the harness protocol end to end.  A request the client sends is received
    by the server thread [id] with its length and payload; the response that
    thread sends is received by the client with the id of that request, a service
    time equal to the server's clock difference between reception and reply, and
    the reply's length and payload.  The four calls return: no lock is left held
    and no byte is left on the connection. *)
Theorem request_response_roundtrip nw w fd s ready sel l r req id data len resp0 :
  let tS1 := ts_ns (clkS (ticks w)) in
  let tS2 := ts_ns (clkS (S (ticks w))) in
  joined nw w fd s -> serves w fd ready sel ->
  heap (base nw) !! l = Some r -> below_quota (cl (base nw)) ->
  request_wf r -> 0 < req_len r <= MAX_REQ_BYTES ->
  reqbuf w !! id = Some req -> is_Some (reqInfo w !! id) -> is_Some (activeFds w !! id) ->
  0 <= len <= MAX_RESP_BYTES -> len <= Z.of_nat (length data) -> tS1 < tS2 ->
  exists nw1 d w1 w2 s2 resp nw2,
    send clkC l nw = Ret true nw1 /\
    recvReq clkS id (server_arrive fd (new_bytes (serverFd nw) (serverFd nw1)) w)
      = Ret (req_len r, d) w1 /\
    take (Z.to_nat (req_len r)) d = buf_read (Z.to_nat (req_len r)) (req_data r) /\
    sendResp clkS id data len w1 = Ret () w2 /\ socks w2 !! fd = Some s2 /\ s_in s2 = [] /\
    recv clkC resp0 (client_arrive (new_bytes s s2) nw1) = Ret (true, resp) nw2 /\
    resp_id resp = req_id r /\ resp_svcNs resp = tS2 - tS1 /\ resp_len resp = len /\
    take (Z.to_nat len) (resp_data resp) = take (Z.to_nat len) data /\
    s_in (serverFd nw2) = [] /\ NetClient.recvLock nw2 = false /\
    NetServer.sendLock w2 = false /\ finishedReqs w2 = u64 (finishedReqs w1 + 1).
Proof.
  intros tS1 tS2 J Hsv Hl Hq Hwf Hlen Hreq Hinfo Hact Hrl Hdl Hclk.
  destruct (send_ok nw l r) as (nw1 & E1 & Ho & _ & _ & _ & Hrlk & Hci & Hcr & Htk);
    [apply J|exact Hl|exact Hq|lia|apply J|].
  set (x := stamped r _ _) in Ho.
  destruct (recvReq_ok clkS id (server_arrive fd (msg_image x) w) fd ready sel req
      (arrive (msg_image x) s) x [])
    as (d & w1 & s1 & E2 & Hd & Hi1 & Ha1 & Hs1 & Hin1 & Ho1 & _ & _ & _ & Hsl1 & Ht1 & Hss1).
  { apply J. } { by apply serves_arrive. } { done. } { done. } { done. }
  { unfold server_arrive, set_socks. cbn [socks].
    rewrite lookup_alter_eq, (j_sock _ _ _ _ J). reflexivity. }
  { cbn [s_in arrive]. rewrite (j_sin _ _ _ _ J), app_nil_r. reflexivity. } { apply J. }
  { by apply stamped_wf. } { exact Hlen. }
  cbn [ticks server_arrive set_socks] in Hi1, Ht1. cbn [s_out s_ssched arrive] in Ho1, Hss1.
  set (info := mkReqInfo _ _) in Hi1.
  destruct (sendResp_sends clkS id w1 data len info fd s1)
    as (w2 & s2 & E3 & Hs2 & Ho2 & Hin2 & Hf & Hsl2 & _);
    [|exact Hi1|exact Ha1|exact Hrl|exact Hdl| |exact Hs1| |].
  { rewrite Hsl1. apply J. } { rewrite Ht1. exact Hclk. } { rewrite Hss1. apply J. }
  set (y := reply _ _ _ _) in Ho2.
  assert (Hwy : response_wf y).
  { apply reply_wf; [|exact Hrl]. unfold request_wf in Hwf. rewrite Forall_cons in Hwf. apply Hwf. }
  destruct (recv_ok (client_arrive (msg_image y) nw1) y [] resp0)
    as (nw2 & dr & E4 & Hdr & Hci2 & Hrl2 & _);
    [|  | |exact Hwy|reflexivity|exact Hrl|].
  { cbn [NetClient.recvLock client_arrive set_serverFd]. rewrite Hrlk. apply J. } { cbn [serverFd client_arrive set_serverFd s_in arrive].
    rewrite Hci, (j_cin _ _ _ _ J), app_nil_r. reflexivity. }
  { cbn [serverFd client_arrive set_serverFd s_rsched arrive]. rewrite Hcr. apply J. }
  eexists nw1, d, w1, w2, s2, _, nw2.
  rewrite (new_bytes_app _ _ _ Ho), (new_bytes_app s s2 (msg_image y)) by congruence.
  split; [exact E1|]. split; [exact E2|]. split; [exact Hd|]. split; [exact E3|].
  split; [exact Hs2|]. split; [congruence|]. split; [exact E4|].
  split; [reflexivity|]. split.
  { transitivity (u64 (ts_ns (clkS (ticks w1)) - tS1)); [reflexivity|].
    rewrite Ht1. apply u64_diff. exact Hclk. }
  split; [reflexivity|]. split.
  { cbn [resp_data y reply] in Hdr. cbn [resp_len y reply] in Hdr. etransitivity; [exact Hdr|].
    unfold buf_read. rewrite resize_le by (rewrite length_take; lia).
    rewrite take_take. f_equal. lia. }
  repeat split; assumption.
Qed.
End EndToEnd.

(** ** An example exchange *)

Definition ex_client : NWorld () :=
  mkNWorld idle_base (mkSock [] false [] [Chunk 9] [Chunk 50]) false false false.
Definition ex_server_sock : sock := mkSock [] false [] [Chunk 33] [].
Definition ex_server : SWorld :=
  mkSWorld 0 0 0 false "" [mkReqInfo 0 0] false false [new_Request] [4; 5] [0] 1 3
    (<[4 := mkSock [] false [] [] []]> (<[5 := ex_server_sock]> ∅)) [Some [5]] [] 0 [].
Definition ex_clkS (k : nat) : timespec := mkTimespec 3 (Z.of_nat k).

Lemma ex_joined : joined ex_client ex_server 5 ex_server_sock.
Proof. split; try reflexivity; unfold no_fail; simpl; set_solver. Qed.
Lemma ex_serves : serves ex_server 5 [5] [].
Proof. split; try (vm_compute; done). simpl. set_solver. Qed.
Lemma example_request_wf : request_wf example_request.
Proof. repeat constructor; vm_compute; congruence. Qed.

Lemma request_response_roundtrip_witness :
  exists nw1 d w1 w2 s2 resp nw2,
    send (fun _ => mkTimespec 2 0) 0 ex_client = Ret true nw1 /\
    recvReq ex_clkS 0 (server_arrive 5 (new_bytes (serverFd ex_client) (serverFd nw1)) ex_server)
      = Ret (3, d) w1 /\
    take 3 d = buf_read 3 [x61; x62; x63] /\
    sendResp ex_clkS 0 [x6f; x6b] 2 w1 = Ret () w2 /\ socks w2 !! 5 = Some s2 /\ s_in s2 = [] /\
    recv (fun _ => mkTimespec 2 0) new_Response (client_arrive (new_bytes ex_server_sock s2) nw1)
      = Ret (true, resp) nw2 /\
    resp_id resp = 7 /\ resp_svcNs resp = ts_ns (ex_clkS 1) - ts_ns (ex_clkS 0) /\ resp_len resp = 2 /\
    take 2 (resp_data resp) = [x6f; x6b] /\
    s_in (serverFd nw2) = [] /\ NetClient.recvLock nw2 = false /\
    NetServer.sendLock w2 = false /\ finishedReqs w2 = u64 (finishedReqs w1 + 1).
Proof.
  refine (request_response_roundtrip (fun _ => mkTimespec 2 0) ex_clkS ex_client ex_server 5
    ex_server_sock [5] [] 0%nat example_request new_Request 0%nat [x6f; x6b] 2 new_Response
    ex_joined ex_serves eq_refl _ example_request_wf _ eq_refl _ _ _ _ _).
  - intros E. vm_compute in E. discriminate.
  - rewrite MAX_REQ_BYTES_eq. simpl. lia.
  - eexists; reflexivity.
  - eexists; reflexivity.
  - rewrite MAX_RESP_BYTES_eq. lia.
  - simpl. lia.
  - vm_compute. reflexivity.
Defined.
