(* ===== verification/ClientThreads.v ===== *)
(** * The networked client's threads (src/harness/tbench_client_networked.cpp)

    [nthreads] sending and [nthreads] receiving threads share one
    [NetworkedClient].  A state gives each thread's position between two
    operations that other threads can observe: the critical sections of
    [startReq], [send], [recv] and [finiReq], the barriers, and the unlocked
    accesses in between, each of them one step (numReqsSent, status and the sent
    counters are read or written without a lock in the code; memory is taken to be
    sequentially consistent).  [main] waits for all threads and then returns.  The
    server is the environment: it answers, in any order, requests that were put on
    the wire. *)

From stdpp Require Import strings.
From S2P Require Import Prelude Msgs Helpers Double Dist Env Client NetClient EndToEnd.

Open Scope Z_scope.

(** ** Positions in [send] (the thread function) and in [recv] *)

Inductive spc :=
| SCheck                                  (* top of the loop *)
| SStart                                  (* entering startReq *)
| SBar1 (startNs : Z)                     (* at the first barrier *)
| SInit (startNs : Z)                     (* before the lock that creates dist *)
| SBar2 (startNs : Z)                     (* at the second barrier *)
| SQps (startNs : Z)                      (* at the rate change *)
| SGen (startNs : Z)                      (* before the generating critical section *)
| SLate (l : loc)                         (* after it *)
| SSleep (l : loc)
| SStamp (l : loc)                        (* entering NetworkedClient::send *)
| STransfer (l : loc)                     (* before sendLock *)
| SCount (counted : bool) (len sent : Z)  (* inside sendLock, after sendfull *)
| SDone                                   (* pthread_exit *)
| SFailed.                                (* left the loop *)

Inductive rpc :=
| RRecv (resp : Response)                 (* before NetworkedClient::recv *)
| RFini (resp : Response)                 (* before finiReq *)
| RDone.

Section Threads.
Context {App : Type} (genReq : App -> (list byte * Z) * App).
Context (clock : nat -> timespec) (expo : double -> Z -> nat -> double).
(** Fuel for the loop of [sleepUntil]. *)
Context (fuel : nat).

Local Notation World := (NWorld App).

Definition sender_op (p : spc) : M World spc :=
  match p with
  | SCheck =>
      c ← gets (fun w => cl (base w));
      mret (if u64 (warmupreqs c + maxreqs c) <=? numReqsSent c then SDone else SStart)
  | SStart =>
      startNs ← on_base (now clock);
      c ← gets (fun w => cl (base w));
      mret (if bool_decide (status c = INIT) then SBar1 startNs else SQps startNs)
  | SInit s => on_base (startReq_init clock);; mret (SBar2 s)
  | SQps s => on_base (startReq_qps clock);; mret (SGen s)
  | SGen s => l ← on_base (startReq_gen genReq clock expo s); mret (SLate l)
  | SLate l => on_base (startReq_late l);; mret (SSleep l)
  | SSleep l => on_base (startReq_sleep clock fuel l);; mret (SStamp l)
  | SStamp l => send_stamp clock l;; mret (STransfer l)
  | STransfer l =>
      lock_send;;
      '(counted, len, sent) ← send_transfer clock l;
      mret (SCount counted len sent)
  | SCount counted len sent =>
      NetClient.send_count counted;;
      unlock_send;;
      mret (if sent =? len then SCheck else SFailed)
  | SBar1 _ | SBar2 _ | SDone | SFailed => blocked
  end.

Definition receiver_op (p : rpc) : M World rpc :=
  match p with
  | RRecv resp =>
      '(ok, resp') ← recv clock resp;
      mret (if (ok : bool) then
              if resp_type resp' =? ResponseType_val RESPONSE then RFini resp' else RDone
            else RDone)
  | RFini resp => on_base (finiReq clock resp);; mret (RRecv resp)
  | RDone => blocked
  end.

(** ** Configurations and steps *)

(** [unanswered]: ids on the wire the server has not answered; [answers]: the
    responses whose bytes are waiting at the client's socket. *)
Record TState := mkT {
  world : World;
  senders : list spc;
  receivers : list rpc;
  unanswered : list Z;
  answers : list Response
}.

Inductive conf :=
| Running (s : TState)
| Exited (code : Z) (w : World)
| SenderFault (p : spc) (w : World)
| ReceiverFault (p : rpc) (w : World).

(** The request id a transition puts on the wire. *)
Definition wire_ids (p p' : spc) (w : World) : list Z :=
  match p, p' with
  | STransfer l, SCount true _ _ =>
      match heap (base w) !! l with Some r => [req_id r] | None => [] end
  | _, _ => []
  end.

(** A response as the server's [sendResp] makes it. *)
Definition server_response (x : Response) : Prop :=
  response_wf x /\ resp_type x = ResponseType_val RESPONSE /\ 0 <= resp_len x <= MAX_RESP_BYTES.

Definition fault {A} (o : outcome World A) : Prop := o = UB \/ o = Abort.

Definition pass_bar1 (p : spc) : spc := match p with SBar1 s => SInit s | _ => p end.
Definition pass_bar2 (p : spc) : spc := match p with SBar2 s => SQps s | _ => p end.
Definition at_bar1 (p : spc) : Prop := match p with SBar1 _ => True | _ => False end.
Definition at_bar2 (p : spc) : Prop := match p with SBar2 _ => True | _ => False end.

(** [recv] takes the first of the waiting responses. *)
Definition received (p p' : rpc) (ans : list Response) : list Response :=
  match p, p' with RRecv _, RFini _ => tail ans | _, _ => ans end.

Inductive step : conf -> conf -> Prop :=
| step_sender w ss rs un an i p p' w' :
    ss !! i = Some p -> sender_op p w = Ret p' w' ->
    step (Running (mkT w ss rs un an))
         (Running (mkT w' (<[i := p']> ss) rs (un ++ wire_ids p p' w) an))
| step_sender_fault w ss rs un an i p :
    ss !! i = Some p -> fault (sender_op p w) ->
    step (Running (mkT w ss rs un an)) (SenderFault p w)
| step_barrier1 w ss rs un an :
    ss <> [] -> Forall at_bar1 ss ->
    step (Running (mkT w ss rs un an)) (Running (mkT w (pass_bar1 <$> ss) rs un an))
| step_barrier2 w ss rs un an :
    ss <> [] -> Forall at_bar2 ss ->
    step (Running (mkT w ss rs un an)) (Running (mkT w (pass_bar2 <$> ss) rs un an))
| step_receiver w ss rs un an i p p' w' :
    rs !! i = Some p -> receiver_op p w = Ret p' w' ->
    step (Running (mkT w ss rs un an))
         (Running (mkT w' ss (<[i := p']> rs) un (received p p' an)))
| step_exit w ss rs un an i p code w' :
    rs !! i = Some p -> receiver_op p w = Exit code w' ->
    step (Running (mkT w ss rs un an)) (Exited code w')
| step_receiver_fault w ss rs un an i p :
    rs !! i = Some p -> fault (receiver_op p w) ->
    step (Running (mkT w ss rs un an)) (ReceiverFault p w)
| step_server w ss rs un un' an x :
    un ≡ₚ resp_id x :: un' -> server_response x ->
    step (Running (mkT w ss rs un an))
         (Running (mkT (client_arrive (msg_image x) w) ss rs un' (an ++ [x])))
(** [main] has joined every thread and returns 0. *)
| step_main w ss rs un an :
    Forall (fun p => p = SDone \/ p = SFailed) ss -> Forall (fun p => p = RDone) rs ->
    step (Running (mkT w ss rs un an)) (Exited 0 w).

(** [main]: the client object and the threads, or [None] when it refuses to run. *)
Definition client_main (env : gmap string string) (a : App) (fd : sock) : option TState :=
  let nthreads := getInt env "TBENCH_CLIENT_THREADS" 1 in
  let client_id := getInt env "TBENCH_ID" 0 in
  let warmup := getOpt_val env "TBENCH_WARMUPREQS" 10 in
  let maxreq := getOpt_val env "TBENCH_MAXREQS" 100 in
  if (warmup =? 0) || (maxreq =? 0) then None
  else
    let client := new_Client env nthreads client_id warmup maxreq in
    Some (mkT (mkNWorld (mkCWorld client ∅ 0 0 a [] None) fd false false false)
            (replicate (Z.to_nat nthreads) SCheck)
            (replicate (Z.to_nat nthreads) (RRecv new_Response)) [] []).
End Threads.
