(* ===== verification/ClientThreadsInv.v ===== *)
(** * The invariant of the client's threads

    What is true between any two steps of the threads of
    [ClientThreads]: where every live request object is, how the counters relate
    to the threads' positions, and what the status says.  Every definition here
    is insensitive to the order of the threads, so that a step is an exchange of
    one position for another at the head of the list. *)

From stdpp Require Import strings.
From S2P Require Import Prelude Msgs Helpers Double Dist Env Client NetClient ServerSpec EndToEnd ClientThreads.

Open Scope Z_scope.

(** ** Time *)

Definition END : Z := 2 ^ 64 - 1.

Section Clock.
Context (clock : nat -> timespec).
Definition T (k : nat) : Z := ts_ns (clock k).

(** Consecutive readings increase, until the largest value a [uint64_t] holds. *)
Class Advancing : Prop := {
  clock_adv : forall k, T k < END -> T k < T (S k);
  clock_stay : forall k, T k = END -> T (S k) = END
}.

Lemma T_range k : 0 <= T k <= END.
Proof. unfold END, T. pose proof (u64_range (i64 (i64 (i64 (i64 (tv_sec (clock k) * 1000) * 1000)
  * 1000) + tv_nsec (clock k)))). unfold is_u64, ts_ns in *. lia. Qed.

Context `{Advancing}.

Lemma T_S k : T k <= T (S k).
Proof.
  destruct (decide (T k < END)) as [Hl|Hl]; [pose proof (clock_adv k Hl); lia|].
  pose proof (T_range k). rewrite clock_stay; lia.
Qed.

Lemma T_mono j k : (j <= k)%nat -> T j <= T k.
Proof. induction 1; [lia|]. pose proof (T_S m). lia. Qed.

Lemma T_after g j k : g <= T j -> (j < k)%nat -> g < END -> g < T k.
Proof.
  intros Hg Hjk He. pose proof (T_mono (S j) k Hjk) as Hm.
  destruct (decide (T j < END)) as [Hl|Hl]; [pose proof (clock_adv j Hl); lia|].
  pose proof (T_range j). rewrite clock_stay in Hm; lia.
Qed.

(** Any time is reached after a bounded number of readings. *)
Lemma T_reaches k n : Z.min END (T k + Z.of_nat n) <= T (k + n).
Proof.
  induction n as [|n IH]; [rewrite Nat.add_0_r; lia|].
  rewrite Nat.add_succ_r. destruct (decide (T (k + n) < END)) as [Hl|Hl].
  - pose proof (clock_adv _ Hl). lia.
  - pose proof (T_range (k + n)). rewrite (clock_stay (k + n)); lia.
Qed.
End Clock.

(** ** Request objects *)

Definition loc_of (p : spc) : option loc :=
  match p with SLate l | SSleep l | SStamp l | STransfer l => Some l | _ => None end.
Definition slept_of (p : spc) : option loc :=
  match p with SStamp l | STransfer l => Some l | _ => None end.

Section Flight.
Context (clock : nat -> timespec) `{!Advancing clock}.

(** [fl]: the in-flight table; [h]: the heap; [locs]: objects a sender is still
    working on; [slept]: those whose arrival time has come; [out]: ids sent and
    not completed. *)
Record Flight (k : nat) (started : Z) (fl : gmap Z loc) (h : gmap loc Request) (nl : loc)
  (locs slept : list loc) (out : list Z) : Prop := {
  f_fresh : forall l r, h !! l = Some r -> (l < nl)%nat;
  f_map : forall id l, fl !! id = Some l ->
            0 <= id < started /\ exists r, h !! l = Some r /\ req_id r = id;
  f_out_nd : NoDup out;
  f_out : forall id, id ∈ out ->
            exists l r, fl !! id = Some l /\ h !! l = Some r /\ req_genNs r < T clock k;
  f_locs_nd : NoDup locs;
  f_locs : forall l, l ∈ locs ->
             exists r, h !! l = Some r /\ fl !! req_id r = Some l /\ req_id r ∉ out /\
               0 <= req_len r <= MAX_REQ_BYTES /\ req_genNs r < END;
  f_sub : slept ⊆ locs;
  f_slept : forall l r, l ∈ slept -> h !! l = Some r -> req_genNs r < T clock k
}.

#[export] Instance Flight_proper k st fl h nl :
  Proper ((≡ₚ) ==> (≡ₚ) ==> (≡ₚ) ==> impl) (Flight k st fl h nl).
Proof.
  intros l1 l2 Hl s1 s2 Hs o1 o2 Ho [H1 H2 H3 H4 H5 H6 Hsub H7].
  split; try done; try setoid_rewrite <- Hl; try setoid_rewrite <- Hs; try setoid_rewrite <- Ho;
    done.
Qed.

Lemma Flight_tick k k' st fl h nl locs slept out :
  (k <= k')%nat -> Flight k st fl h nl locs slept out -> Flight k' st fl h nl locs slept out.
Proof.
  intros Hk [H1 H2 H3 H4 H5 H6 Hsub H7]. pose proof (T_mono clock k k' Hk). split; try done.
  - intros id Hid. destruct (H4 id Hid) as (l & r & ? & ? & ?). exists l, r. repeat split; try done. lia.
  - intros l r Hl Hr. specialize (H7 l r Hl Hr). lia.
Qed.

(** A new request. *)
Lemma Flight_gen k st fl h nl locs slept out r :
  Flight k st fl h nl locs slept out -> 0 <= st -> req_id r = st ->
  0 <= req_len r <= MAX_REQ_BYTES -> req_genNs r < END ->
  Flight k (st + 1) (<[st := nl]> fl) (<[nl := r]> h) (S nl) (nl :: locs) slept out.
Proof.
  intros [H1 H2 H3 H4 H5 H6 Hsub H7] Hst Hid Hlen Hg.
  assert (Hnl : forall l r', h !! l = Some r' -> l <> nl) by (intros l r' ?%H1; lia).
  assert (Hfl : forall id l, fl !! id = Some l -> id <> st) by (intros id l [? _]%H2; lia).
  split; try done.
  - intros l r' [[<- <-]|[? Hl]]%lookup_insert_Some; [lia|]. apply H1 in Hl. lia.
  - intros id l [[<- <-]|[? Hl]]%lookup_insert_Some.
    + split; [lia|]. exists r. by rewrite lookup_insert_eq.
    + destruct (H2 id l Hl) as (? & r' & Hr' & ?). split; [lia|]. exists r'.
      rewrite lookup_insert_ne by (by apply not_eq_sym, (Hnl _ r')). done.
  - intros id Hin. destruct (H4 id Hin) as (l & r' & Hl & Hr' & ?). exists l, r'.
    rewrite !lookup_insert_ne by (try apply not_eq_sym; eauto). done.
  - constructor; [|done]. intros Hin. destruct (H6 nl Hin) as (r' & Hr' & _). by destruct (Hnl _ _ Hr').
  - intros l [->|Hl]%elem_of_cons.
    + exists r. rewrite lookup_insert_eq, Hid, lookup_insert_eq. repeat split; try done; try lia.
      intros Hin. destruct (H4 _ Hin) as (l & _ & Hl & _). by destruct (Hfl _ _ Hl).
    + destruct (H6 l Hl) as (r' & Hr' & Hf & ?). exists r'.
      rewrite !lookup_insert_ne by (try apply not_eq_sym; eauto). done.
  - set_solver.
  - intros l r' Hl [[<- <-]|[? Hr']]%lookup_insert_Some; [|by eapply H7].
    destruct (H6 nl (Hsub _ Hl)) as (r' & Hr' & _). by destruct (Hnl _ _ Hr').
Qed.

(** A sender changes time stamps of its own request. *)
Lemma Flight_update k st fl h nl locs slept out l r r' :
  Flight k st fl h nl locs slept out -> h !! l = Some r ->
  req_id r' = req_id r -> req_len r' = req_len r -> req_genNs r' = req_genNs r ->
  Flight k st fl (<[l := r']> h) nl locs slept out.
Proof.
  intros [H1 H2 H3 H4 H5 H6 Hsub H7] Hl Hid Hlen Hgen.
  assert (Hh : forall l0 r0, h !! l0 = Some r0 -> exists r1, <[l := r']> h !! l0 = Some r1 /\
            req_id r1 = req_id r0 /\ req_len r1 = req_len r0 /\ req_genNs r1 = req_genNs r0).
  { intros l0 r0 H0. destruct (decide (l0 = l)) as [->|].
    - exists r'. rewrite lookup_insert_eq. simplify_eq. done.
    - exists r0. by rewrite lookup_insert_ne. }
  assert (Hb : forall l0 r1, <[l := r']> h !! l0 = Some r1 -> exists r0, h !! l0 = Some r0 /\
            req_genNs r1 = req_genNs r0).
  { intros l0 r1 [[<- <-]|[? ?]]%lookup_insert_Some; eauto. }
  split; try done.
  - intros l0 r0 (r1 & ? & _)%Hb. eauto.
  - intros id l0 (? & r0 & (r1 & ? & ? & _)%Hh & <-)%H2. eauto.
  - intros id (l0 & r0 & ? & (r1 & ? & ? & ? & Hg)%Hh & ?)%H4. exists l0, r1. by rewrite Hg.
  - intros l0 (r0 & (r1 & ? & Hi & Hle & Hg)%Hh & ? & ? & ?)%H6. exists r1.
    by rewrite Hi, Hle, Hg.
  - intros l0 r1 Hin (r0 & ? & ->)%Hb. eauto.
Qed.

(** The arrival time of a sender's request has come. *)
Lemma Flight_slept k st fl h nl locs slept out l r :
  Flight k st fl h nl locs slept out -> l ∈ locs -> h !! l = Some r -> req_genNs r < T clock k ->
  Flight k st fl h nl locs (l :: slept) out.
Proof.
  intros [H1 H2 H3 H4 H5 H6 Hsub H7] Hl Hr Hg. split; try done; [set_solver|].
  intros l0 r0 [->|?]%elem_of_cons ?; [by simplify_eq|by eapply H7].
Qed.

(** It is put on the wire. *)
Lemma Flight_send k st fl h nl locs slept out l r :
  Flight k st fl h nl (l :: locs) (l :: slept) out -> h !! l = Some r -> slept ⊆ locs ->
  Flight k st fl h nl locs slept (req_id r :: out).
Proof.
  intros [H1 H2 H3 H4 H5 H6 Hsub H7] Hr Hsub'. apply NoDup_cons in H5 as [Hni H5].
  destruct (H6 l) as (r0 & Hr0 & Hf & Hno & _); [by left|].
  assert (r0 = r) as -> by congruence. split; try done.
  - by constructor.
  - intros id [->|Hid]%elem_of_cons; [|by apply H4].
    exists l, r. repeat split; try done. eapply H7; [by left|done].
  - intros l0 Hl0. destruct (H6 l0) as (r1 & Hr1 & Hf1 & Hno1 & ?); [by right|].
    exists r1. repeat split; try done; try lia. intros [E|?]%elem_of_cons; [|done].
    rewrite E in Hf1. congruence.
  - intros l0 r1 Hin. apply H7. by right.
Qed.

(** It is dropped because the quota is used up. *)
Lemma Flight_leak k st fl h nl locs slept out l :
  Flight k st fl h nl (l :: locs) (l :: slept) out -> slept ⊆ locs ->
  Flight k st fl h nl locs slept out.
Proof.
  intros [H1 H2 H3 H4 H5 H6 Hsub H7] Hsub'. apply NoDup_cons in H5 as [_ H5].
  split; try done; intros; [apply H6|eapply H7; [|done]]; by right.
Qed.

(** It is completed and deleted. *)
Lemma Flight_finish k st fl h nl locs slept out id :
  Flight k st fl h nl locs slept (id :: out) ->
  exists l r, fl !! id = Some l /\ h !! l = Some r /\ req_genNs r < T clock k /\
    Flight k st (delete id fl) (delete l h) nl locs slept out.
Proof.
  intros [H1 H2 H3 H4 H5 H6 Hsub H7]. destruct (H4 id) as (l & r & Hl & Hr & Hg); [by left|].
  apply NoDup_cons in H3 as [Hni H3]. exists l, r. do 3 (split; [done|]).
  assert (Hinj : forall id', fl !! id' = Some l -> id' = id).
  { intros id' H'. destruct (H2 id' l H') as (_ & r1 & ? & ?).
    destruct (H2 id l Hl) as (_ & r2 & ? & ?). congruence. }
  split; try done.
  - intros l0 r0 [_ H0]%lookup_delete_Some. eauto.
  - intros id' l' [Hne H']%lookup_delete_Some. destruct (H2 id' l' H') as (? & r' & Hr' & ?).
    split; [done|]. exists r'. rewrite lookup_delete_ne; [done|]. intros <-. by apply Hne, symmetry, Hinj.
  - intros id' Hin. destruct (H4 id') as (l' & r' & Hl' & Hr' & ?); [by right|]. exists l', r'.
    assert (id' <> id) by (intros ->; done).
    rewrite !lookup_delete_ne; [done| |done]. intros <-. auto.
  - intros l0 Hl0. destruct (H6 l0 Hl0) as (r0 & Hr0 & Hf0 & Hno & Hrest). exists r0.
    apply not_elem_of_cons in Hno as [Hne Hno].
    rewrite !lookup_delete_ne; [done|congruence|]. intros <-. auto.
  - intros l0 r0 Hin [_ H0]%lookup_delete_Some. eauto.
Qed.
End Flight.

(** ** Counters *)

Abbreviation cnt := sum_list_with.

Definition counted_of (p : spc) : nat := match p with SCount true _ _ => 1 | _ => 0 end.
Definition uncounted_of (p : spc) : nat := match p with SCount false _ _ => 1 | _ => 0 end.
Definition done_of (p : spc) : nat := match p with SDone => 1 | _ => 0 end.
Definition holds_of (p : spc) : nat := 
  match p with SLate _ | SSleep _ | SStamp _ | STransfer _ => 1 | _ => 0 end.
Definition idle_of (p : spc) : nat :=
  match p with SCheck | SDone | SCount false _ _ => 1 | _ => 0 end.

Lemma holds_idle ss : (cnt holds_of ss + cnt idle_of ss <= length ss)%nat.
Proof.
  induction ss as [|p ss IH]; [done|]. simpl.
  destruct p as [ | | | | | | | | | | |[]| |]; simpl; lia.
Qed.

(** [L] of the started requests were dropped, at most one per idle sender. *)
Record Counts (W M : Z) (N : nat) (sent comp started : Z) (lock : bool) (ss : list spc)
  (nout : nat) : Prop := {
  c_n : length ss = N;
  c_lock : (cnt counted_of ss + cnt uncounted_of ss)%nat = Nat.b2n lock;
  c_bal : comp + Z.of_nat nout = sent + Z.of_nat (cnt counted_of ss);
  c_quota : sent + Z.of_nat (cnt counted_of ss) <= W + M;
  c_unc : (0 < cnt uncounted_of ss)%nat -> sent = W + M;
  c_done : (0 < cnt done_of ss)%nat -> sent = W + M;
  c_comp : 0 <= comp < W + M;
  c_sent : 0 <= sent;
  c_started : exists L,
    started = sent + Z.of_nat (cnt counted_of ss) + Z.of_nat (cnt holds_of ss) + L /\
    0 <= L <= Z.of_nat (cnt idle_of ss) /\ (sent < W + M -> L = 0)
}.

#[export] Instance Counts_proper W M N sent comp started lock :
  Proper ((≡ₚ) ==> (=) ==> impl) (Counts W M N sent comp started lock).
Proof.
  intros s1 s2 Hs n ? <- [H1 H2 H3 H4 H5 H6 H7 H8 H9].
  split; try rewrite <- Hs; try setoid_rewrite <- Hs; done.
Qed.

(** ** Status and barriers *)

Definition early (p : spc) : Prop :=
  match p with SCheck | SStart | SBar1 _ | SInit _ => True | _ => False end.
Definition inbar (p : spc) : Prop := match p with SInit _ | SBar2 _ => True | _ => False end.
Definition fine (p : spc) : Prop :=
  match p with SFailed => False | SCount _ len sent => sent = len | _ => True end.

Definition samples (s : Stats) (n : Z) : Prop :=
  Forall (fun l => Z.of_nat (length l) = n)
    [queueTimes s; svcTimes s; sjrnTimes s; requestDate s; NicSjrnTimes s].

Definition has_dist (c : Client) : Prop := exists d, dist c = Some d /\ 0 <= ed_curNs d.

Definition StatusInv (c : Client) (ss : list spc) : Prop :=
  (Forall inbar ss \/ Forall (fun p => ~ inbar p) ss) /\
  match status c with
  | INIT => dist c = None /\ numReqsCompleted c = 0 /\ numReqsSent c = 0 /\
            samples (stats c) 0 /\ Forall early ss
  | WARMUP => has_dist c /\ numReqsCompleted c < warmupreqs c /\ samples (stats c) 0 /\
              Forall (fun p => ~ at_bar1 p) ss
  | ROI => has_dist c /\ warmupreqs c <= numReqsCompleted c /\
           samples (stats c) (numReqsCompleted c - warmupreqs c) /\
           Forall (fun p => ~ at_bar1 p) ss
  | FINISHED => False
  end.

#[export] Instance StatusInv_proper c : Proper ((≡ₚ) ==> impl) (StatusInv c).
Proof.
  intros s1 s2 Hs [H1 H2]. split; [by rewrite <- !Hs|].
  destruct (status c); try done; by rewrite <- Hs.
Qed.

(** ** The connection and the receivers *)

Definition held_of (p : rpc) : option Z := match p with RFini x => Some (resp_id x) | _ => None end.
Definition outs (rs : list rpc) (un : list Z) (an : list Response) : list Z :=
  omap held_of rs ++ un ++ (resp_id <$> an).

Record NetInv {App} (w : NWorld App) (rs : list rpc) (an : list Response) : Prop := {
  n_lock : recvLock w = false;
  n_in : s_in (serverFd w) = concat (msg_image <$> an);
  n_eof : s_eof (serverFd w) = false;
  n_rs : no_fail (s_rsched (serverFd w));
  n_ss : no_fail (s_ssched (serverFd w));
  n_an : Forall server_response an;
  n_rcv : Forall (fun p => p <> RDone) rs
}.

#[export] Instance NetInv_proper {App} (w : NWorld App) : Proper ((≡ₚ) ==> (=) ==> impl) (NetInv w).
Proof. intros r1 r2 Hr a ? <- []. split; try done. by rewrite <- Hr. Qed.

(** ** The invariant *)

Section Inv.
Context {App : Type} (clock : nat -> timespec) (W M : Z) (N : nat).

Record Inv (w : NWorld App) (ss : list spc) (rs : list rpc) (un : list Z) (an : list Response)
  : Prop := {
  i_cfg : warmupreqs (cl (base w)) = W /\ maxreqs (cl (base w)) = M /\ length rs = N;
  i_flight : Flight clock (tick (base w)) (startedReqs (cl (base w)))
               (inFlightReqs (cl (base w))) (heap (base w)) (next_loc (base w))
               (omap loc_of ss) (omap slept_of ss) (outs rs un an);
  i_counts : Counts W M N (numReqsSent (cl (base w))) (numReqsCompleted (cl (base w)))
               (startedReqs (cl (base w))) (sendLock w) ss (length (outs rs un an));
  i_status : StatusInv (cl (base w)) ss;
  i_net : NetInv w rs an;
  i_fine : Forall fine ss
}.

#[export] Instance Inv_proper w : Proper ((≡ₚ) ==> (≡ₚ) ==> (≡ₚ) ==> (=) ==> impl) (Inv w).
Proof.
  intros s1 s2 Hs r1 r2 Hr u1 u2 Hu a ? <- [H1 H2 H3 H4 H5 H6].
  assert (Ho : outs r1 u1 a ≡ₚ outs r2 u2 a) by (unfold outs; by rewrite Hr, Hu).
  split; try (by rewrite <- ?Hs, <- ?Hr, <- ?Ho).
Qed.
End Inv.
