(* ===== verification/ClientThreadsSteps.v ===== *)
(** * Every step of the client's threads preserves the invariant *)

From stdpp Require Import strings.
From S2P Require Import Prelude Msgs Helpers Double Dist Env Client ClientSpec NetClient ServerSpec EndToEnd ClientThreads ClientThreadsInv.

Open Scope Z_scope.

#[local] Opaque ts_ns u64.

Lemma on_base_inv {App A} (m : M (CWorld (App := App)) A) (w : NWorld App) a w' :
  on_base m w = Ret a w' -> exists b', m (base w) = Ret a b' /\ w' = set_base b' w.
Proof. unfold on_base, zoom. destruct (m (base w)); try done. intros [= <- <-]. eauto. Qed.

(** Undoes the binds of a computation that has returned. *)
Ltac inv_ret :=
  repeat (progress inv_base ||
    match goal with
    | H : on_base _ _ = Ret _ _ |- _ =>
        let b := fresh "b" in apply on_base_inv in H as (b & H & ->)
    end).

Lemma StatusInv_swap c c' p p' ss :
  StatusInv c (p :: ss) -> status c' = status c -> (has_dist c -> has_dist c') ->
  (dist c = None -> dist c' = None) -> numReqsCompleted c' = numReqsCompleted c ->
  warmupreqs c' = warmupreqs c -> stats c' = stats c -> (inbar p <-> inbar p') ->
  (status c = INIT -> early p -> early p' /\ numReqsSent c' = numReqsSent c) ->
  (status c <> INIT -> ~ at_bar1 p') ->
  StatusInv c' (p' :: ss).
Proof.
  intros [H1 H2] Es Hd Hd' Ec Ew Et Hb He Hn. unfold StatusInv. rewrite Es, Ec, Ew, Et.
  split.
  { destruct H1 as [H1|H1]; [left|right]; apply Forall_cons in H1 as [Hp H1]; constructor; tauto. }
  destruct (status c); rewrite ?Forall_cons in *; destruct_and?; split_and?; auto; try done.
  - destruct He as [_ ->]; auto.
  - by apply He.
Qed.

Lemma fine_swap p p' ss : Forall fine (p :: ss) -> fine p' -> Forall fine (p' :: ss).
Proof. intros [_ ?]%Forall_cons ?. by constructor. Qed.

(** Arithmetic on counters after one thread has moved. *)
Ltac solve_counts :=
  match goal with
  | H : Counts _ _ _ _ _ _ _ _ _ |- _ =>
      destruct H as [? ? ? ? ? ? ? ? (L & ? & ? & ?)]; split; simpl in *;
      try lia; exists L; lia
  end.

Section Steps.
Context {App : Type} (genReq : App -> (list byte * Z) * App).
Context (clock : nat -> timespec) `{!Advancing clock} (expo : double -> Z -> nat -> double).
Context (fuel : nat) (W M : Z) (N : nat).

Context (HW : 0 < W) (HM : 0 < M < 2 ^ 31) (HN : (0 < N)%nat).
Context (Hfit : W + M + Z.of_nat N < 2 ^ 64).
(** The benchmark's generator stays within the request's buffer. *)
Context (genReq_ok : forall a, Z.of_nat (length (genReq a).1.1) <= MAX_REQ_BYTES /\
                               0 <= (genReq a).1.2 <= MAX_REQ_BYTES).
Context (expo_nonneg : forall lambda seed k, nonneg (expo lambda seed k)).

Local Notation sender_op := (sender_op genReq clock expo fuel).
Local Notation Inv := (Inv (App := App) clock W M N).

Lemma inv_SCheck w ss rs un an p' w' :
  Inv w (SCheck :: ss) rs un an -> sender_op SCheck w = Ret p' w' ->
  Inv w' (p' :: ss) rs (un ++ wire_ids SCheck p' w) an.
Proof.
  intros [(E1 & E2 & E3) Hf Hc Hs Hn Hfi] Hop. simpl in Hop. inv_ret. subst.
  rewrite app_nil_r. rewrite u64_id by (destruct Hc; mach).
  assert (Hq := c_quota _ _ _ _ _ _ _ _ _ Hc).
  destruct (Z.leb_spec (warmupreqs (cl (base w)) + maxreqs (cl (base w))) (numReqsSent (cl (base w)))).
  all: split; [done|exact Hf| | |exact Hn|by rewrite Forall_cons in *].
  1,3: solve_counts.
  all: eapply StatusInv_swap; try exact Hs; try done; auto; simpl.
  intros Hst. destruct Hs as [_ Hs]. rewrite Hst in Hs. destruct Hs as (_ & _ & Hz & _). lia.
Qed.

(** Steps that change no request and no counter. *)
Lemma inv_frame (w w' : NWorld App) ss rs un an p p' :
  Inv w (p :: ss) rs un an ->
  warmupreqs (cl (base w')) = warmupreqs (cl (base w)) ->
  maxreqs (cl (base w')) = maxreqs (cl (base w)) ->
  startedReqs (cl (base w')) = startedReqs (cl (base w)) ->
  inFlightReqs (cl (base w')) = inFlightReqs (cl (base w)) ->
  numReqsSent (cl (base w')) = numReqsSent (cl (base w)) ->
  numReqsCompleted (cl (base w')) = numReqsCompleted (cl (base w)) ->
  heap (base w') = heap (base w) -> next_loc (base w') = next_loc (base w) ->
  (tick (base w) <= tick (base w'))%nat -> sendLock w' = sendLock w ->
  serverFd w' = serverFd w -> recvLock w' = recvLock w ->
  loc_of p' = loc_of p -> slept_of p' = slept_of p -> holds_of p' = holds_of p ->
  counted_of p' = counted_of p -> uncounted_of p' = uncounted_of p -> done_of p' = done_of p ->
  idle_of p' = idle_of p -> (fine p -> fine p') ->
  StatusInv (cl (base w')) (p' :: ss) ->
  Inv w' (p' :: ss) rs un an.
Proof.
  intros [(E1 & E2 & E3) Hf Hc Hs Hn Hfi] F1 F2 F3 F4 F5 F6 F7 F8 F9 F10 F11 F12 P1 P2 P3 P4 P5 P6 P7
    P8 Hst.
  split; [by rewrite F1, F2| | |done| |rewrite Forall_cons in *; naive_solver].
  - rewrite F3, F4, F7, F8. simpl. rewrite P1, P2. by eapply Flight_tick.
  - rewrite F3, F5, F6, F10. destruct Hc as [? ? ? ? ? ? ? ? ?].
    split; simpl in *; rewrite ?P3, ?P4, ?P5, ?P6, ?P7; done.
  - destruct Hn. split; rewrite ?F11, ?F12; done.
Qed.

Ltac frame := eapply inv_frame; [eassumption|try reflexivity..]; try done; simpl; try lia.

Lemma inv_SStart w ss rs un an p' w' :
  Inv w (SStart :: ss) rs un an -> sender_op SStart w = Ret p' w' ->
  Inv w' (p' :: ss) rs (un ++ wire_ids SStart p' w) an.
Proof.
  intros HI Hop. simpl in Hop. inv_ret. rewrite app_nil_r.
  pose proof (i_status _ _ _ _ _ _ _ _ _ HI) as Hs. simpl.
  case_bool_decide as E; frame; eapply StatusInv_swap; try exact Hs; try done; auto.
Qed.

Lemma inv_SInit w ss rs un an p' w' s :
  Inv w (SInit s :: ss) rs un an -> sender_op (SInit s) w = Ret p' w' ->
  Inv w' (p' :: ss) rs (un ++ wire_ids (SInit s) p' w) an.
Proof.
  intros HI Hop. simpl in Hop. inv_ret. rewrite app_nil_r.
  pose proof (i_status _ _ _ _ _ _ _ _ _ HI) as Hs.
  unfold startReq_init in *. inv_ret.
  destruct (dist (cl (base w))) as [d|] eqn:Ed; inv_ret.
  - frame. eapply StatusInv_swap; try exact Hs; try done; auto. destruct Hs as [_ Hs]. simpl.
    intros Hi. rewrite Hi in Hs. destruct Hs as (Hd & _). congruence.
  - frame. destruct Hs as [Hb Hs]. destruct (status (cl (base w))) eqn:Est.
    2,3: destruct Hs as [(d & Hd & _) _]; congruence. 2: done.
    destruct Hs as (_ & Hc & _ & Hsm & He).
    assert (Hin : Forall inbar (SBar2 s :: ss)).
    { destruct Hb as [Hb|Hb]; apply Forall_cons in Hb as [Hp Hb]; [by constructor|].
      by destruct Hp. }
    split; [by left|]. simpl. rewrite Hc. destruct (i_cfg _ _ _ _ _ _ _ _ _ HI) as (-> & _).
    split_and!; try done.
    + eexists. split; [reflexivity|]. exact (proj1 (T_range clock _)).
    + eapply Forall_impl; [exact Hin|]. intros []; simpl; tauto.
Qed.

Lemma inv_SQps w ss rs un an p' w' s :
  Inv w (SQps s :: ss) rs un an -> sender_op (SQps s) w = Ret p' w' ->
  Inv w' (p' :: ss) rs (un ++ wire_ids (SQps s) p' w) an.
Proof.
  intros HI Hop. simpl in Hop. inv_ret. rewrite app_nil_r.
  pose proof (i_status _ _ _ _ _ _ _ _ _ HI) as Hs.
  unfold startReq_qps in *. inv_ret.
  destruct (bool_decide _ && _) eqn:Eb; inv_ret.
  2: { frame. eapply StatusInv_swap; try exact Hs; try done; auto. }
  apply andb_true_iff in Eb as [Er%bool_decide_eq_true _].
  assert (Hni : dist (cl (base w)) = None -> False).
  { destruct Hs as [_ Hs]. rewrite Er in Hs. destruct Hs as [(d & Hd & _) _]. congruence. }
  destruct (_ =? _); [destruct (next_qps _) as [q|]; [|done]|]; inv_ret.
  all: frame; eapply StatusInv_swap; try exact Hs; try done; auto; simpl.
  intros _. eexists. split; [reflexivity|]. exact (proj1 (T_range clock _)).
Qed.

Lemma inv_SGen w ss rs un an p' w' s :
  Inv w (SGen s :: ss) rs un an -> sender_op (SGen s) w = Ret p' w' ->
  Inv w' (p' :: ss) rs (un ++ wire_ids (SGen s) p' w) an.
Proof.
  intros [(E1 & E2 & E3) Hf Hc Hs Hn Hfi] Hop. simpl in Hop. inv_ret. rewrite app_nil_r.
  unfold startReq_gen in *. inv_ret.
  destruct (genReq_ok (app (base w))) as [Hd Hl].
  destruct (genReq _) as [[data len] a'] eqn:Eg. simpl in *.
  match goal with H : Ret _ _ = Ret _ _ |- _ => injection H as <- <- end.
  rewrite (proj2 (Z.ltb_ge MAX_REQ_BYTES _)) in * by lia. inv_ret. simpl in *.
  destruct (dist (cl (base w))) as [d|] eqn:Ed; [|done].
  destruct (nextArrivalNs expo d) as [[genNs d']|] eqn:En; [|done]. inv_ret.
  match goal with H : alloc _ _ = Ret _ _ |- _ => injection H as <- <- end.
  assert (Hd0 : 0 <= ed_curNs d).
  { destruct Hs as [_ Hs]. destruct (status (cl (base w))); [|destruct Hs as [(d0 & ? & ?) _]..|done].
    2,3: assert (d0 = d) as -> by congruence; assumption.
    destruct Hs as [Hs _]. congruence. }
  destruct (nextArrivalNs_lt expo expo_nonneg d genNs d' Hd0 En) as [Hg Hd'].
  assert (Hst : 0 <= startedReqs (cl (base w)) < W + M + Z.of_nat N).
  { pose proof (holds_idle ss). destruct Hc as [? ? ? ? ? ? ? ? (L & ? & ? & ?)]. simpl in *. lia. }
  split; simpl; rewrite ?(u64_id (startedReqs _ + 1)) by mach; try done.
  - apply (Flight_tick clock (tick (base w))); [lia|].
    apply (Flight_gen clock _ _ _ _ _ _ _ _ _ Hf); simpl; try (unfold END; lia).
    rewrite MAX_REQ_BYTES_eq in *. rewrite u64_id by mach. lia.
  - solve_counts.
  - eapply StatusInv_swap; try exact Hs; try done; auto; simpl; try tauto.
    + intros _. exists d'. split; [done|lia].
    + congruence.
  - by destruct Hn.
  - by eapply fine_swap.
Qed.

Lemma inv_heap_update (w w' : NWorld App) ss rs un an p p' l r r' :
  Inv w (p :: ss) rs un an -> heap (base w) !! l = Some r ->
  heap (base w') = <[l := r']> (heap (base w)) ->
  loc_of p = Some l -> loc_of p' = Some l -> slept_of p' = slept_of p ->
  req_id r' = req_id r -> req_len r' = req_len r -> req_genNs r' = req_genNs r ->
  cl (base w') = cl (base w) -> next_loc (base w') = next_loc (base w) ->
  (tick (base w) <= tick (base w'))%nat ->
  sendLock w' = sendLock w -> recvLock w' = recvLock w -> serverFd w' = serverFd w ->
  Inv w' (p' :: ss) rs un an.
Proof.
  intros [E Hf Hc Hs Hn Hfi] Hr Hh L1 L2 Hsl H1 H2 H3 Ecl Enl Hk El Erl Es. destruct p, p'; try done.
  all: simpl in *; simplify_eq; split; rewrite ?Ecl, ?El, ?Enl, ?Hh; try done.
  all: lazymatch goal with
    | |- Flight _ _ _ _ _ _ _ _ _ =>
        apply (Flight_tick clock (tick (base w))); [exact Hk|]; by eapply Flight_update
    | |- Counts _ _ _ _ _ _ _ _ _ => solve_counts
    | |- StatusInv _ _ => eapply StatusInv_swap; try exact Hs; try done; auto; simpl; tauto
    | |- NetInv _ _ _ => destruct Hn; split; by rewrite ?Es, ?Erl
    | |- Forall fine _ => by eapply fine_swap
    end.
Qed.

Lemma inv_SLate w ss rs un an p' w' l :
  Inv w (SLate l :: ss) rs un an -> sender_op (SLate l) w = Ret p' w' ->
  Inv w' (p' :: ss) rs (un ++ wire_ids (SLate l) p' w) an.
Proof.
  intros HI Hop. simpl in Hop. inv_ret. rewrite app_nil_r. unfold startReq_late in *. inv_ret.
  match goal with H : load _ _ = _ |- _ => apply load_inv in H as [-> Hr] end.
  match goal with H : store _ _ _ = _ |- _ => apply store_inv in H as -> end.
  eapply inv_heap_update; try exact HI; try exact Hr; try reflexivity; simpl; lia.
Qed.

Lemma inv_SStamp w ss rs un an p' w' l :
  Inv w (SStamp l :: ss) rs un an -> sender_op (SStamp l) w = Ret p' w' ->
  Inv w' (p' :: ss) rs (un ++ wire_ids (SStamp l) p' w) an.
Proof.
  intros HI Hop. simpl in Hop. inv_ret. rewrite app_nil_r. unfold send_stamp in *. inv_ret.
  match goal with H : load _ _ = _ |- _ => apply load_inv in H as [-> Hr] end.
  match goal with H : store _ _ _ = _ |- _ => apply store_inv in H as -> end.
  eapply inv_heap_update; try exact HI; try exact Hr; try reflexivity; simpl; lia.
Qed.

Lemma inv_SSleep w ss rs un an p' w' l :
  Inv w (SSleep l :: ss) rs un an -> sender_op (SSleep l) w = Ret p' w' ->
  Inv w' (p' :: ss) rs (un ++ wire_ids (SSleep l) p' w) an.
Proof.
  intros [E Hf Hc Hs Hn Hfi] Hop. simpl in Hop. inv_ret. rewrite app_nil_r. destruct a.
  match goal with H : startReq_sleep _ _ _ _ = _ |- _ =>
    apply startReq_sleep_ret in H as (r & Hr & Hk & Hg & k & Hb) end.
  destruct (f_locs _ _ _ _ _ _ _ _ _ Hf l) as (r' & Hr' & _ & _ & _ & Hend); [by left|].
  assert (r' = r) as -> by congruence.
  rewrite Hb in Hk, Hg |- *. simpl in Hk, Hg.
  split; simpl; try done.
  - apply (Flight_slept clock _ _ _ _ _ _ _ _ _ r); [|by left|done|].
    + apply (Flight_tick clock (tick (base w))); [lia|exact Hf].
    + eapply T_after; [done|exact Hg|lia|done].
  - solve_counts.
  - eapply StatusInv_swap; try exact Hs; try done; auto; simpl; tauto.
  - by destruct Hn.
  - by eapply fine_swap.
Qed.

Lemma slept_sub (ss : list spc) : omap slept_of ss ⊆ omap loc_of ss.
Proof.
  intros l. rewrite !list_elem_of_omap. intros (p & Hp & E). exists p. split; [done|].
  by destruct p; simplify_eq/=.
Qed.

Lemma inv_STransfer w ss rs un an p' w' l :
  Inv w (STransfer l :: ss) rs un an -> sender_op (STransfer l) w = Ret p' w' ->
  Inv w' (p' :: ss) rs (un ++ wire_ids (STransfer l) p' w) an.
Proof.
  intros [(E1 & E2 & E3) Hf Hc Hs Hn Hfi] Hop. simpl in Hop.
  apply bind_inv in Hop as ([] & w1 & Hlk & Hop). unfold lock_send in Hlk.
  destruct (sendLock w) eqn:El; [done|]. injection Hlk as <-.
  destruct (f_locs _ _ _ _ _ _ _ _ _ Hf l) as (r & Hr & Hfr & Hno & Hlen & Hend); [by left|].
  set (w1 := NetClient.set_sendLock true w) in Hop.
  set (r' := set_req_sentNs_lock_ad (ts_ns (clock (tick (base w)))) r).
  assert (Hf1 : Flight clock (S (tick (base w))) (startedReqs (cl (base w)))
    (inFlightReqs (cl (base w))) (<[l := r']> (heap (base w))) (next_loc (base w))
    (l :: omap loc_of ss) (l :: omap slept_of ss) (outs rs un an)).
  { apply (Flight_tick clock (tick (base w))); [lia|]. by eapply Flight_update. }
  pose proof (slept_sub ss) as Hsub.
  assert (Hq := c_quota _ _ _ _ _ _ _ _ _ Hc). assert (Hse := c_sent _ _ _ _ _ _ _ _ _ Hc).
  destruct (decide (below_quota (cl (base w)))) as [Hb|Hb].
  - destruct (send_transfer_ok clock w1 l r Hr Hb Hlen) as (s' & Et & _ & Hi & He & Hrs & Hss);
      [by destruct Hn|].
    rewrite (bind_Ret _ _ _ _ _ Et) in Hop. injection Hop as <- <-. simpl. rewrite Hr.
    assert (Ho : outs rs (un ++ [req_id r]) an ≡ₚ req_id r :: outs rs un an)
      by (unfold outs; solve_Permutation).
    unfold below_quota in Hb. rewrite E1, E2, u64_id in Hb by mach.
    split; simpl; rewrite ?Ho; try done.
    + by apply (Flight_send clock _ _ _ _ _ _ _ _ l r' Hf1 (lookup_insert_eq _ _ _)).
    + solve_counts.
    + eapply StatusInv_swap; try exact Hs; try done; auto; simpl; tauto.
    + destruct Hn. split; simpl; rewrite ?Hi, ?He, ?Hrs; done.
    + by eapply fine_swap.
  - rewrite (bind_Ret _ _ _ _ _ (send_transfer_full clock w1 l r Hr Hb)) in Hop.
    injection Hop as <- <-. simpl. rewrite app_nil_r.
    unfold below_quota in Hb. rewrite E1, E2, u64_id in Hb by mach.
    split; simpl; try done.
    + by apply (Flight_leak clock _ _ _ _ _ _ _ _ l Hf1).
    + destruct Hc as [? ? ? ? ? ? ? ? (L & ? & ? & ?)]; split; simpl in *; try lia. exists (L + 1). lia.
    + eapply StatusInv_swap; try exact Hs; try done; auto; simpl; tauto.
    + by destruct Hn.
    + by eapply fine_swap.
Qed.

Lemma inv_SCount w ss rs un an p' w' counted len sent :
  Inv w (SCount counted len sent :: ss) rs un an ->
  sender_op (SCount counted len sent) w = Ret p' w' ->
  Inv w' (p' :: ss) rs (un ++ wire_ids (SCount counted len sent) p' w) an.
Proof.
  intros [(E1 & E2 & E3) Hf Hc Hs Hn Hfi] Hop. simpl in Hop. rewrite app_nil_r.
  assert (Hsl : sent = len) by (apply Forall_cons in Hfi as [Hp _]; exact Hp).
  subst sent. rewrite Z.eqb_refl in Hop.
  assert (Hq := c_quota _ _ _ _ _ _ _ _ _ Hc). assert (Hse := c_sent _ _ _ _ _ _ _ _ _ Hc).
  destruct counted; unfold NetClient.send_count, unlock_send in Hop; inv_ret.
  all: split; simpl; rewrite ?u64_id by (simpl in Hq; mach); try done.
  all: lazymatch goal with
    | |- Counts _ _ _ _ _ _ _ _ _ =>
        destruct Hc as [? Hlk ? ? ? ? ? ? (L & ? & ? & ?)]; simpl in *;
        destruct (sendLock w); simpl in Hlk; [|lia]; split; simpl in *; try lia; exists L; lia
    | |- StatusInv _ _ => eapply StatusInv_swap; try exact Hs; try done; auto; simpl; tauto
    | |- NetInv _ _ _ => by destruct Hn
    | |- Forall fine _ => by eapply fine_swap
    end.
Qed.

Lemma inv_sender w ss rs un an p p' w' :
  Inv w (p :: ss) rs un an -> sender_op p w = Ret p' w' ->
  Inv w' (p' :: ss) rs (un ++ wire_ids p p' w) an.
Proof.
  intros HI Hop. destruct p; try done.
  - by apply inv_SCheck.
  - by apply inv_SStart.
  - by apply inv_SInit.
  - by apply inv_SQps.
  - by apply inv_SGen.
  - by apply inv_SLate.
  - by apply inv_SSleep.
  - by apply inv_SStamp.
  - by apply inv_STransfer.
  - by apply inv_SCount.
Qed.

(** ** Receivers *)

Local Notation receiver_op := (receiver_op clock).

Lemma outs_cons_RRecv x rs un an : outs (RRecv x :: rs) un an = outs rs un an.
Proof. done. Qed.

Lemma recv_answer w ss rs un x an resp0 :
  Inv w ss (RRecv resp0 :: rs) un (x :: an) ->
  exists y w', receiver_op (RRecv resp0) w = Ret (RFini y) w' /\ Inv w' ss (RFini y :: rs) un an /\
    numReqsSent (cl (base w')) = numReqsSent (cl (base w)).
Proof.
  intros [(E1 & E2 & E3) Hf Hc Hs Hn Hfi]. destruct Hn as [Hl Hin He Hr Hss Ha Hrc].
  apply Forall_cons in Ha as [(Hwf & Hty & Hlen) Ha].
  destruct (recv_ok clock w x (concat (msg_image <$> an)) resp0)
    as (w' & d & E & _ & Hin' & Hl' & Hb & Hsl & He' & Hr' & Hss'); try done.
  set (y := mkResponse _ _ _ _ _ d) in E. exists y, w'.
  assert (Ho : outs (RFini y :: rs) un an ≡ₚ outs rs un (x :: an))
    by (unfold outs; cbn [omap list_omap held_of fmap list_fmap]; simpl; solve_Permutation).
  split.
  - simpl. rewrite (bind_Ret _ _ _ _ _ E). simpl. by rewrite Hty.
  - split; [|by rewrite Hb]. split; try done; rewrite ?Hb, ?Hsl, ?Ho; simpl; try done.
    + apply (Flight_tick clock (tick (base w))); [lia|exact Hf].
    + split; rewrite ?He', ?Hss', ?Hl', ?Hin'; try done.
      apply Forall_cons in Hrc as [_ Hrc]. by constructor.
Qed.

Lemma recv_no_answer w ss rs un resp0 :
  Inv w ss (RRecv resp0 :: rs) un [] -> exists w', receiver_op (RRecv resp0) w = Blocked w'.
Proof.
  intros [_ _ _ _ [Hl Hin He Hr _ _ _] _].
  destruct (recv_waits clock w resp0 Hl Hin He Hr) as [w' E]. exists w'.
  simpl. unfold mbind, M_bind. by rewrite E.
Qed.

Lemma early_counts ss : Forall early ss -> cnt counted_of ss = 0%nat.
Proof. induction 1 as [|[] ss He _ IH]; simpl; try done. Qed.

Lemma samples_push s n r resp t : samples s n -> samples (measured r resp t s) (n + 1).
Proof.
  unfold samples, push_sample. rewrite !Forall_cons. simpl. rewrite !length_app. simpl.
  intros (?&?&?&?&?&_). do 5 (split; [lia|]). constructor.
Qed.

Lemma samples_full s k : samples s (Z.of_nat k) -> full_stats s k.
Proof. unfold samples. rewrite !Forall_cons. cbv beta. intros (?&?&?&?&?&_). split; lia. Qed.

(** A response in hand means the client has left INIT. *)
Lemma inv_not_init w ss rs un an :
  Inv w ss rs un an -> outs rs un an <> [] -> status (cl (base w)) <> INIT.
Proof.
  intros [_ _ Hc [_ Hs] _ _] Ho Hi. rewrite Hi in Hs. destruct Hs as (_ & H1 & H2 & _ & He).
  apply early_counts in He. destruct Hc as [_ _ Hb _ _ _ _ _ _]. rewrite H1, H2, He in Hb.
  destruct (outs rs un an); [done|]. simpl in Hb. lia.
Qed.

Definition finished (w : NWorld App) : Prop :=
  numReqsCompleted (cl (base w)) = W + M /\
  exists file, lats (base w) = Some file /\ Z.of_nat (length file) = 40 * M.

Section Fini.
Context (w : NWorld App) (ss : list spc) (rs : list rpc) (un : list Z) (an : list Response).
Context (resp : Response) (HI : Inv w ss (RFini resp :: rs) un an).
Let c := cl (base w).

Lemma fini_status : (status c = WARMUP /\ numReqsCompleted c < W /\ samples (stats c) 0) \/
  (status c = ROI /\ W <= numReqsCompleted c /\ samples (stats c) (numReqsCompleted c - W)).
Proof.
  pose proof (inv_not_init _ _ _ _ _ HI ltac:(done)) as Hni. fold c in Hni.
  destruct (i_cfg _ _ _ _ _ _ _ _ _ HI) as (<- & _).
  destruct (i_status _ _ _ _ _ _ _ _ _ HI) as [_ Hs]. fold c in Hs |- *.
  destruct (status c); try done; [left|right]; naive_solver.
Qed.

Lemma fini_request : exists l r, inFlightReqs c !! resp_id resp = Some l /\
  heap (base w) !! l = Some r /\ req_genNs r < T clock (tick (base w)) /\
  Flight clock (tick (base w)) (startedReqs c) (delete (resp_id resp) (inFlightReqs c))
    (delete l (heap (base w))) (next_loc (base w)) (omap loc_of ss) (omap slept_of ss)
    (outs rs un an).
Proof. apply (Flight_finish clock). apply HI. Qed.

(** The invariant after the bookkeeping, for any world that agrees with it. *)
Lemma fini_inv w' l r k :
  inFlightReqs c !! resp_id resp = Some l -> heap (base w) !! l = Some r ->
  req_genNs r < T clock (tick (base w)) ->
  Flight clock (tick (base w)) (startedReqs c) (delete (resp_id resp) (inFlightReqs c))
    (delete l (heap (base w))) (next_loc (base w)) (omap loc_of ss) (omap slept_of ss)
    (outs rs un an) ->
  numReqsCompleted c + 1 < W + M ->
  warmupreqs (cl (base w')) = warmupreqs c -> maxreqs (cl (base w')) = maxreqs c ->
  startedReqs (cl (base w')) = startedReqs c ->
  inFlightReqs (cl (base w')) = delete (resp_id resp) (inFlightReqs c) ->
  numReqsSent (cl (base w')) = numReqsSent c ->
  numReqsCompleted (cl (base w')) = numReqsCompleted c + 1 ->
  heap (base w') = delete l (heap (base w)) -> next_loc (base w') = next_loc (base w) ->
  tick (base w') = (tick (base w) + k)%nat -> sendLock w' = sendLock w ->
  serverFd w' = serverFd w -> recvLock w' = recvLock w ->
  StatusInv (cl (base w')) ss ->
  Inv w' ss (RRecv resp :: rs) un an.
Proof.
  intros Hl Hr Hg Hf Hlt F1 F2 F3 F4 F5 F6 F7 F8 F9 F10 F11 F12 Hst.
  destruct HI as [(E1 & E2 & E3) _ Hc _ Hn Hfi].
  split; [by rewrite F1, F2| | |done| |done].
  - rewrite F3, F4, F7, F8, F9. apply (Flight_tick clock (tick (base w))); [lia|exact Hf].
  - rewrite F3, F5, F6, F10. fold c in Hc. rewrite outs_cons_RRecv.
    destruct Hc as [? ? Hb ? ? ? ? ? ?]. split; try done; try lia.
    change (outs (RFini resp :: rs) un an) with (resp_id resp :: outs rs un an) in Hb.
    cbn [length] in Hb. lia.
  - destruct Hn as [? ? ? ? ? ? Hrc]. split; rewrite ?F11, ?F12; try done.
    apply Forall_cons in Hrc as [_ Hrc]. by constructor.
Qed.

Lemma status_other c' s n :
  status c' = s -> s <> INIT -> s <> FINISHED -> dist c' = dist c ->
  warmupreqs c' = W -> numReqsCompleted c' = n ->
  (s = WARMUP -> n < W /\ samples (stats c') 0) ->
  (s = ROI -> W <= n /\ samples (stats c') (n - W)) -> StatusInv c' ss.
Proof.
  intros Es Hi Hfi Hd Hw Hn H1 H2.
  pose proof (inv_not_init _ _ _ _ _ HI ltac:(done)) as Hni. fold c in Hni.
  destruct (i_status _ _ _ _ _ _ _ _ _ HI) as [Hb Hs]. fold c in Hs.
  assert (Hc : has_dist c /\ Forall (fun p => ~ at_bar1 p) ss) by (destruct (status c); naive_solver).
  destruct Hc as [(d & Hd' & Hp) Hbar].
  assert (has_dist c') by (exists d; by rewrite Hd).
  split; [done|]. rewrite Es, Hw, Hn. destruct s; try done; [destruct H1|destruct H2]; done.
Qed.

Lemma fini_step :
  (exists w', receiver_op (RFini resp) w = Ret (RRecv resp) w' /\ Inv w' ss (RRecv resp :: rs) un an /\
     numReqsSent (cl (base w')) = numReqsSent c) \/
  (exists w', receiver_op (RFini resp) w = Exit 0 w' /\ finished w').
Proof.
  destruct fini_request as (l & r & Hl & Hr & Hg & Hf).
  destruct (i_cfg _ _ _ _ _ _ _ _ _ HI) as (E1 & E2 & _). fold c in E1, E2.
  pose proof (c_comp _ _ _ _ _ _ _ _ _ (i_counts _ _ _ _ _ _ _ _ _ HI)) as Hcomp. fold c in Hcomp.
  set (b1 := settle clock resp l r (base w)).
  assert (Efin : finiReq clock resp (base w) = after_settle clock b1)
    by (by apply finiReq_found).
  assert (Hcc : numReqsCompleted (cl b1) = numReqsCompleted c + 1)
    by (simpl; fold c; rewrite u64_id; [done|mach]).
  assert (Hw1 : warmupreqs (cl b1) = W) by (simpl; by case_bool_decide).
  assert (Hm1 : maxreqs (cl b1) = M) by (simpl; by case_bool_decide).
  assert (Hstat : status (cl b1) = status c) by (simpl; by case_bool_decide).
  assert (Hsame : startedReqs (cl b1) = startedReqs c /\ numReqsSent (cl b1) = numReqsSent c /\
    dist (cl b1) = dist c /\ inFlightReqs (cl b1) = delete (resp_id resp) (inFlightReqs c))
    by (simpl; by case_bool_decide).
  destruct Hsame as (Hst1 & Hse1 & Hd1 & Hfl1).
  assert (Hs1 : stats (cl b1) =
    if bool_decide (status c = ROI) then measured r resp (T clock (tick (base w))) (stats c) else stats c)
    by (unfold c; simpl; case_bool_decide; reflexivity).
  assert (Hh1 : heap b1 = delete l (heap (base w))) by done.
  assert (Hn1 : next_loc b1 = next_loc (base w)) by done.
  assert (Ht1 : tick b1 = (tick (base w) + 1)%nat) by (simpl; lia). clearbody b1.
  simpl receiver_op. unfold on_base, zoom, mbind, M_bind. rewrite Efin.
  unfold after_settle, mbind, M_bind, gets. rewrite Hcc, Hw1, Hm1, (u64_id (W + M)) by mach.
  rewrite (proj2 (Z.eqb_neq W 0)), orb_false_r by lia.
  destruct (Z.eqb_spec (numReqsCompleted c + 1) W) as [HeqW|HneW].
  - left. destruct fini_status as [(Hs & _)|(Hs & Hge & _)]; [|lia].
    rewrite _startRoi_warmup by congruence. eexists. split; [reflexivity|]. split; [|done].
    apply (fini_inv _ l r 2); try done; try lia; simpl; try congruence; [lia|].
    apply (status_other _ ROI (numReqsCompleted c + 1)); try done; try congruence.
    intros _. split; [lia|]. replace (_ - _) with 0 by lia. repeat constructor.
  - destruct (Z.leb_spec (W + M) (numReqsCompleted c + 1)) as [Hge|Hlt].
    + right. destruct fini_status as [(Hs & ? & _)|(Hs & HgeW & Hsm)]; [lia|].
      rewrite Hs, bool_decide_eq_true_2 in Hs1 by done.
      destruct (dumpStats_writes clock b1 (Z.to_nat M)) as (xs & b2 & Hx & Ed & Hla & Hc2 & _).
      { rewrite Hs1. apply samples_full. rewrite Z2Nat.id by lia.
        replace M with (numReqsCompleted c - W + 1) by lia. by apply samples_push. }
      { lia. }
      rewrite Ed. eexists. split; [reflexivity|]. split; simpl.
      * rewrite Hc2, Hcc. lia.
      * eexists. split; [exact Hla|]. rewrite concat_rows_length, (rows_length _ _ _ _ Hx). lia.
    + left. eexists. split; [reflexivity|]. split; [|done].
      apply (fini_inv _ l r 1); try done; try lia; simpl; try congruence.
      apply (status_other _ (status c) (numReqsCompleted c + 1)); try done; try congruence.
      { destruct fini_status as [(-> & _)|(-> & _)]; done. }
      { destruct fini_status as [(-> & _)|(-> & _)]; done. }
      { intros Hs. destruct fini_status as [(_ & ? & Hsm)|(Hs' & _)]; [|congruence].
        rewrite Hs1, bool_decide_eq_false_2 by congruence. split; [lia|done]. }
      { intros Hs. destruct fini_status as [(Hs' & _)|(_ & ? & Hsm)]; [congruence|].
        rewrite Hs1, bool_decide_eq_true_2 by done. split; [lia|].
        replace (_ - W) with (numReqsCompleted c - W + 1) by lia. by apply samples_push. }
Qed.
End Fini.
End Steps.
