(* ===== verification/ClientThreadsSpec.v ===== *)
(** * Safety, progress and termination of the client's threads *)

From stdpp Require Import strings relations.
From S2P Require Import Prelude Msgs Helpers Double Dist Env Client ClientSpec NetClient ServerSpec EndToEnd ClientThreads ClientThreadsInv ClientThreadsSteps.

Open Scope Z_scope.

#[local] Opaque ts_ns u64.

(** The smallest response to a request. *)
Definition answer (id : Z) : Response := mkResponse (ResponseType_val RESPONSE) id 0 0 0 [].
Lemma answer_ok id : is_u64 id -> server_response (answer id).
Proof.
  intros Hid. split; [split; [simpl; lia|]|].
  - simpl. repeat constructor; try apply Hid; lia.
  - split; [done|]. rewrite MAX_RESP_BYTES_eq. simpl. lia.
Qed.

Section Spec.
Context {App : Type} (genReq : App -> (list byte * Z) * App).
Context (clock : nat -> timespec) `{!Advancing clock} (expo : double -> Z -> nat -> double).
Context (fuel : nat) (W M : Z) (N : nat).

Context (HW : 0 < W) (HM : 0 < M < 2 ^ 31) (HN : (0 < N)%nat).
Context (Hfit : W + M + Z.of_nat N < 2 ^ 64).
Context (genReq_ok : forall a, Z.of_nat (length (genReq a).1.1) <= MAX_REQ_BYTES /\
                               0 <= (genReq a).1.2 <= MAX_REQ_BYTES).
Context (expo_nonneg : forall lambda seed k, nonneg (expo lambda seed k)).

Local Notation sender_op := (sender_op genReq clock expo fuel).
Local Notation receiver_op := (receiver_op clock).
Local Notation Inv := (Inv (App := App) clock W M N).
Local Notation step := (step genReq clock expo fuel).
Local Notation finished := (finished W M).

(** ** Barriers *)

Lemma bar1_shape (ss : list spc) : Forall at_bar1 ss ->
  omap loc_of (pass_bar1 <$> ss) = omap loc_of ss /\ omap slept_of (pass_bar1 <$> ss) = omap slept_of ss /\
  (forall f, f ∈ [counted_of; uncounted_of; done_of; holds_of; idle_of] ->
     cnt f (pass_bar1 <$> ss) = cnt f ss) /\
  Forall inbar (pass_bar1 <$> ss) /\ Forall early (pass_bar1 <$> ss) /\ Forall fine (pass_bar1 <$> ss).
Proof.
  induction 1 as [|[] ss Hp _ (IH1 & IH2 & IH3 & IH4 & IH5 & IH6)]; try done.
  cbn [fmap list_fmap pass_bar1]. split_and!; try done; try (by constructor).
  intros f Hf. cbn [cnt]. rewrite (IH3 f Hf).
  repeat (apply elem_of_cons in Hf as [->|Hf]; [done|]). by apply not_elem_of_nil in Hf.
Qed.

Lemma bar2_shape (ss : list spc) : Forall at_bar2 ss ->
  omap loc_of (pass_bar2 <$> ss) = omap loc_of ss /\ omap slept_of (pass_bar2 <$> ss) = omap slept_of ss /\
  (forall f, f ∈ [counted_of; uncounted_of; done_of; holds_of; idle_of] ->
     cnt f (pass_bar2 <$> ss) = cnt f ss) /\
  Forall (fun p => ~ inbar p) (pass_bar2 <$> ss) /\
  Forall (fun p => ~ at_bar1 p) (pass_bar2 <$> ss) /\ Forall fine (pass_bar2 <$> ss).
Proof.
  induction 1 as [|[] ss Hp _ (IH1 & IH2 & IH3 & IH4 & IH5 & IH6)]; try done.
  cbn [fmap list_fmap pass_bar2]. split_and!; try done; try (by constructor; auto).
  intros f Hf. cbn [cnt]. rewrite (IH3 f Hf).
  repeat (apply elem_of_cons in Hf as [->|Hf]; [done|]). by apply not_elem_of_nil in Hf.
Qed.

Lemma Counts_shape sent comp started lock ss ss' n :
  length ss' = length ss ->
  (forall f, f ∈ [counted_of; uncounted_of; done_of; holds_of; idle_of] -> cnt f ss' = cnt f ss) ->
  Counts W M N sent comp started lock ss n -> Counts W M N sent comp started lock ss' n.
Proof.
  intros Hl Hf [? ? ? ? ? ? ? ? ?].
  split; rewrite ?Hl, ?(Hf counted_of), ?(Hf uncounted_of), ?(Hf done_of), ?(Hf holds_of),
    ?(Hf idle_of) by set_solver; done.
Qed.

Lemma inv_barrier1 w ss rs un an :
  ss <> [] -> Forall at_bar1 ss -> Inv w ss rs un an -> Inv w (pass_bar1 <$> ss) rs un an.
Proof.
  intros Hne Hb [E Hf Hc [Hbar Hs] Hn Hfi].
  destruct (bar1_shape ss Hb) as (S1 & S2 & S3 & S4 & S5 & S6).
  split; try done.
  - by rewrite S1, S2.
  - eapply Counts_shape; [by rewrite length_fmap|exact S3|exact Hc].
  - split; [by left|]. destruct (status (cl (base w))); [naive_solver| | |done].
    all: destruct ss as [|p ss]; [done|]; destruct Hs as (_ & _ & _ & Hs);
      apply Forall_cons in Hs as [Hs _]; apply Forall_cons in Hb as [Hb _]; done.
Qed.

Lemma inv_barrier2 w ss rs un an :
  ss <> [] -> Forall at_bar2 ss -> Inv w ss rs un an -> Inv w (pass_bar2 <$> ss) rs un an.
Proof.
  intros Hne Hb [E Hf Hc [Hbar Hs] Hn Hfi].
  destruct (bar2_shape ss Hb) as (S1 & S2 & S3 & S4 & S5 & S6).
  split; try done.
  - by rewrite S1, S2.
  - eapply Counts_shape; [by rewrite length_fmap|exact S3|exact Hc].
  - split; [by right|]. destruct (status (cl (base w))); [|naive_solver..|done].
    destruct ss as [|p ss]; [done|]. destruct Hs as (_ & _ & _ & _ & Hs).
    apply Forall_cons in Hs as [Hs _]. apply Forall_cons in Hb as [Hb _]. by destruct p.
Qed.

Lemma inv_server (w : NWorld App) ss rs un an x :
  server_response x -> Inv w ss rs (resp_id x :: un) an ->
  Inv (client_arrive (msg_image x) w) ss rs un (an ++ [x]).
Proof.
  intros Hx [E Hf Hc Hs Hn Hfi].
  assert (Ho : outs rs un (an ++ [x]) ≡ₚ outs rs (resp_id x :: un) an)
    by (unfold outs; rewrite fmap_app; simpl; solve_Permutation).
  split; simpl; rewrite ?Ho; try done.
  destruct Hn as [? Hin ? ? ? ? ?]. split; simpl; try done.
  - rewrite Hin, fmap_app, concat_app. simpl. by rewrite app_nil_r.
  - by apply Forall_app_2; [|constructor].
Qed.

(** ** A sender that is not waiting can move *)

(** The two conversions from double to integer that the program leaves to the
    configured rates. *)
Definition rate_fault (p : spc) (w : NWorld App) : Prop :=
  match p with
  | SGen _ => exists d, dist (cl (base w)) = Some d /\ nextArrivalNs expo d = None
  | SQps _ => next_qps (qps (cl (base w))) = None
  | _ => False
  end.

Definition moves (p : spc) (w : NWorld App) : Prop :=
  (exists p' w', sender_op p w = Ret p' w') \/ (sender_op p w = UB /\ rate_fault p w).

Lemma moves_SQps w s : moves (SQps s) w.
Proof.
  unfold moves. simpl. unfold mbind, M_bind, on_base, zoom.
  destruct (startReq_qps clock (base w)) as [[] b'| | | |] eqn:E; unfold startReq_qps, gets, mbind, M_bind in E.
  - left. eexists _, _; reflexivity.
  - repeat case_match; done.
  - repeat case_match; done.
  - right. split; [done|]. repeat case_match; done.
  - repeat case_match; done.
Qed.

Lemma moves_SGen w s ss rs un an : Inv w (SGen s :: ss) rs un an -> moves (SGen s) w.
Proof.
  intros HI. destruct (i_status _ _ _ _ _ _ _ _ _ HI) as [_ Hs].
  assert (Hd : exists d, dist (cl (base w)) = Some d).
  { destruct (status (cl (base w))); [|destruct Hs as [(d & Hd & _) _]; by exists d..|done].
    destruct Hs as (_ & _ & _ & _ & Hs). by apply Forall_cons in Hs as [Hs _]. }
  destruct Hd as [d Hd]. unfold moves. simpl. unfold mbind, M_bind, on_base, zoom, startReq_gen.
  destruct (genReq_ok (app (base w))) as [Hl _].
  destruct (nextArrivalNs expo d) as [[t d']|] eqn:En.
  - left. bind_step by reflexivity.
    destruct (genReq (app (base w))) as [[data len] a'] eqn:Eg. simpl in Hl.
    bind_step by (cbn [app set_tick]; rewrite Eg; reflexivity). rewrite (proj2 (Z.ltb_ge MAX_REQ_BYTES _)) by lia.
    bind_step by reflexivity. simpl. rewrite Hd, En. eexists _, _; reflexivity.
  - right. bind_step by reflexivity.
    destruct (genReq (app (base w))) as [[data len] a'] eqn:Eg. simpl in Hl.
    bind_step by (cbn [app set_tick]; rewrite Eg; reflexivity). rewrite (proj2 (Z.ltb_ge MAX_REQ_BYTES _)) by lia.
    bind_step by reflexivity. simpl. rewrite Hd, En. split; [done|by exists d].
Qed.

Lemma sleep_loop_cases f target cur k :
  (exists k', sleepUntil_loop clock f target cur k = Ret () k') \/
  (exists k', sleepUntil_loop clock f target cur k = Blocked k').
Proof.
  revert cur k. induction f as [|f IH]; intros cur k; cbn [sleepUntil_loop];
    destruct (cur <? target); try (by left; eexists); [by right; eexists|].
  destruct (IH (ts_ns (clock k)) (S k)) as [[k' E]|[k' E]]; [left|right]; exists k';
    by bind_step by reflexivity.
Qed.

(** A sender may still be asleep when the fuel for [sleepUntil] is used up. *)
Definition asleep (p : spc) (w : NWorld App) : Prop :=
  exists l w', p = SSleep l /\ sender_op p w = Blocked w'.

Lemma moves_SSleep l r w :
  heap (base w) !! l = Some r -> moves (SSleep l) w \/ asleep (SSleep l) w.
Proof.
  intros Hr.
  enough ((exists b', startReq_sleep clock fuel l (base w) = Ret () b') \/
          (exists b', startReq_sleep clock fuel l (base w) = Blocked b')) as [[b' E]|[b' E]].
  - left. left. simpl. unfold mbind, M_bind, on_base, zoom. rewrite E. eexists _, _; reflexivity.
  - right. eexists l, _. split; [done|]. simpl. unfold mbind, M_bind, on_base, zoom. by rewrite E.
  - unfold startReq_sleep. bind_step by (unfold load; rewrite Hr; reflexivity).
    bind_step by reflexivity. destruct (_ <? _); [|left; by eexists].
    bind_step by reflexivity. cbn [tick set_tick].
    destruct (sleep_loop_cases fuel (req_genNs r `max` u64 (ts_ns (clock (tick (base w))) + minSleepNs (cl (base w))))
      (ts_ns (clock (S (tick (base w))))) (S (S (tick (base w))))) as [[k' E]|[k' E]].
    + left. bind_step by (unfold zoom, sleepUntil; cbn [tick set_tick cl]; bind_step by reflexivity;
        rewrite E; reflexivity). by eexists.
    + right. unfold mbind, M_bind at 1. unfold zoom at 1, sleepUntil. cbn [tick set_tick cl].
      rewrite (bind_Ret (getCurNs clock) _ _ _ _ eq_refl), E. by eexists.
Qed.

Lemma init_returns (b : CWorld (App := App)) : exists b', startReq_init clock b = Ret () b'.
Proof.
  unfold startReq_init. bind_step by reflexivity.
  destruct (dist (cl b)); eexists; reflexivity.
Qed.

Lemma sender_moves w p ss rs un an :
  Inv w (p :: ss) rs un an -> ~ at_bar1 p -> ~ at_bar2 p -> p <> SDone ->
  (forall l, p = STransfer l -> sendLock w = false) -> moves p w \/ asleep p w.
Proof.
  intros HI H1 H2 H3 Hlk.
  assert (Hloc : forall l, loc_of p = Some l -> exists r, heap (base w) !! l = Some r /\
    0 <= req_len r <= MAX_REQ_BYTES /\ req_genNs r < END).
  { intros l Hl. destruct (f_locs _ _ _ _ _ _ _ _ _ (i_flight _ _ _ _ _ _ _ _ _ HI) l) as (r & ? & _ & _ & ? & ?).
    - simpl. rewrite Hl. by left.
    - by exists r. }
  pose proof (n_ss _ _ _ (i_net _ _ _ _ _ _ _ _ _ HI)) as Hss.
  destruct p; try done; try (by left; left; eexists _, _).
  - left. left. destruct (init_returns (base w)) as [b' E]. simpl.
    rewrite (bind_Ret _ _ _ _ _ (on_base_Ret _ _ _ _ E)). eexists _, _; reflexivity.
  - left. apply moves_SQps.
  - left. by eapply moves_SGen.
  - left. left. destruct (Hloc l eq_refl) as (r & Hr & _). simpl. unfold startReq_late.
    bind_step by (apply on_base_Ret; bind_step by (unfold load; rewrite Hr; reflexivity);
      unfold store; rewrite Hr; reflexivity).
    eexists _, _; reflexivity.
  - destruct (Hloc l eq_refl) as (r & Hr & _). by eapply moves_SSleep.
  - left. left. destruct (Hloc l eq_refl) as (r & Hr & _). simpl. unfold send_stamp.
    bind_step by (apply on_base_Ret; bind_step by reflexivity;
      bind_step by (unfold load; cbn; rewrite Hr; reflexivity);
      unfold store; cbn; rewrite Hr; reflexivity).
    eexists _, _; reflexivity.
  - left. left. destruct (Hloc l eq_refl) as (r & Hr & Hlen & _). simpl.
    bind_step by (unfold lock_send; rewrite (Hlk l eq_refl); reflexivity).
    destruct (decide (below_quota (cl (base w)))) as [Hq|Hq].
    + destruct (send_transfer_ok clock (NetClient.set_sendLock true w) l r Hr Hq Hlen Hss) as (s' & E & _).
      rewrite (bind_Ret _ _ _ _ _ E). eexists _, _; reflexivity.
    + rewrite (bind_Ret _ _ _ _ _ (send_transfer_full clock (NetClient.set_sendLock true w) l r Hr Hq)).
      eexists _, _; reflexivity.
  - left. left. simpl. destruct counted; eexists _, _; reflexivity.
  - destruct HI as [_ _ _ _ _ Hfi]. by apply Forall_cons in Hfi as [[] _].
Qed.

(** ** Every step consumes work *)

Definition weight (open : bool) (p : spc) : nat :=
  match p with
  | SCheck => if open then 13 else 1
  | SStart => 12 | SBar1 _ => 11 | SInit _ => 10 | SBar2 _ => 9 | SQps _ => 8 | SGen _ => 7
  | SLate _ => 6 | SSleep _ => 5 | SStamp _ => 4 | STransfer _ => 3
  | SCount false _ _ => 2 | SCount true _ _ => 14
  | SDone | SFailed => 0
  end.

Definition work (sent : Z) (ss : list spc) (rs : list rpc) (un : list Z) (an : list Response) : Z :=
  20 * (W + M - sent - Z.of_nat (cnt counted_of ss)) + Z.of_nat (cnt (weight (sent <? W + M)) ss) +
  3 * Z.of_nat (length un) + 2 * Z.of_nat (length an) + Z.of_nat (length (omap held_of rs)).

#[local] Instance work_proper sent : Proper ((≡ₚ) ==> (≡ₚ) ==> (≡ₚ) ==> (=) ==> (=)) (work sent).
Proof. intros s1 s2 Hs r1 r2 Hr u1 u2 Hu a ? <-. unfold work. by rewrite Hs, Hr, Hu. Qed.

Lemma weight_le ss : (cnt (weight false) ss <= cnt (weight true) ss)%nat.
Proof. induction ss as [|p ss IH]; [done|]. cbn [cnt]. destruct p; simpl; lia. Qed.

Lemma keeps_on_base {A B} (pr : CWorld (App := App) -> B) (m : Prelude.M (CWorld (App := App)) A) :
  keeps pr m -> keeps (fun w : NWorld App => pr (base w)) (on_base m).
Proof. intros Hm w a w' (b & Hb & ->)%on_base_inv. simpl. by eapply Hm. Qed.

Definition bsent (b : CWorld (App := App)) : Z := numReqsSent (cl b).

Lemma keeps_load l : keeps bsent (load l).
Proof. intros b r b'. unfold load. case_match; [|done]. by intros [= _ <-]. Qed.
Lemma keeps_store l r : keeps bsent (store l r).
Proof. intros b u b'. unfold store. case_match; [|done]. by intros [= _ <-]. Qed.
Lemma keeps_alloc r : keeps bsent (alloc r).
Proof. by intros b u b' [= _ <-]. Qed.
Lemma keeps_now : keeps bsent (now clock).
Proof. by intros b u b' [= _ <-]. Qed.
Lemma keeps_upd f : (forall c, numReqsSent (f c) = numReqsSent c) -> keeps bsent (upd_cl f).
Proof. intros Hf b u b' [= _ <-]. apply Hf. Qed.
Lemma keeps_gen : keeps bsent (fun w => let '(r, a) := genReq (app w) in Ret r (set_app a w)).
Proof. intros b u b'. destruct (genReq _). by intros [= _ <-]. Qed.

#[local] Hint Resolve keeps_load keeps_store keeps_alloc keeps_now keeps_gen : keeps.

Ltac keep_sent :=
  repeat first [ progress intros | solve [eauto with keeps] | apply keeps_on_base
               | apply keeps_upd; reflexivity | apply keeps_zoom; reflexivity
               | apply keeps_modify; reflexivity | apply keeps_bind | progress cbv zeta
               | case_match ].

Lemma sender_sent p :
  (forall c len s, p <> SCount c len s) -> keeps (fun w => bsent (base w)) (sender_op p).
Proof.
  intros Hp. destruct p; try done; cbn [ClientThreads.sender_op]; try (by keep_sent).
  - apply keeps_bind; [|intros _; unfold send_transfer; keep_sent].
    intros w a w'. unfold lock_send. case_match; [done|]. by intros [= _ <-].
  - by destruct (Hp counted len sent).
Qed.

Lemma weight_pos o p : p <> SDone -> p <> SFailed -> (0 < weight o p)%nat.
Proof. destruct p as [ | | | | | | | | | | |[]| |]; destruct o; simpl; try done; lia. Qed.

(** One transition of a sender outside [sendLock]. *)
Lemma sender_edge w p p' w' ss rs un an :
  Inv w (p :: ss) rs un an -> sender_op p w = Ret p' w' -> (forall c len s, p <> SCount c len s) ->
  counted_of p = 0%nat /\
  Z.of_nat (weight (bsent (base w) <? W + M) p') + 3 * Z.of_nat (length (wire_ids p p' w))
    - 20 * Z.of_nat (counted_of p') < Z.of_nat (weight (bsent (base w) <? W + M) p).
Proof.
  intros HI Hop Hp. pose proof (i_counts _ _ _ _ _ _ _ _ _ HI) as Hc.
  destruct (i_cfg _ _ _ _ _ _ _ _ _ HI) as (EW & EM & _).
  destruct p; try done; cbn [ClientThreads.sender_op] in Hop.
  all: repeat (apply bind_inv in Hop as (? & ? & ? & Hop)).
  9: match type of Hop with context [let '(_, _) := ?y in _] => destruct y as [[counted len] sent] end.
  all: try (injection Hop as <- _; clear; simpl; lia).
  - inv_ret. rewrite EW, EM, u64_id by mach. unfold bsent. split; [done|].
    destruct (Z.leb_spec (W + M) (numReqsSent (cl (base w)))); simpl;
      [rewrite (proj2 (Z.ltb_ge _ _)) by lia|rewrite (proj2 (Z.ltb_lt _ _)) by lia]; lia.
  - inv_ret. split; [done|]. case_bool_decide; simpl; lia.
  - injection Hop as <- _. split; [done|].
    destruct counted; simpl; [destruct (heap (base w) !! l); simpl|]; lia.
  - by destruct (Hp counted len sent).
Qed.

Lemma sender_works w p p' w' ss rs un an :
  Inv w (p :: ss) rs un an -> sender_op p w = Ret p' w' ->
  work (bsent (base w')) (p' :: ss) rs (un ++ wire_ids p p' w) an < work (bsent (base w)) (p :: ss) rs un an.
Proof.
  intros HI Hop.
  assert (Hd : (exists c len s, p = SCount c len s) \/ (forall c len s, p <> SCount c len s))
    by (destruct p; [right; done..|left; eauto|right; done|right; done]).
  unfold work. rewrite length_app. destruct Hd as [(counted & len & sent & ->)|Hp].
  - pose proof (i_counts _ _ _ _ _ _ _ _ _ HI) as Hc.
    pose proof (c_quota _ _ _ _ _ _ _ _ _ Hc) as Hq. pose proof (c_sent _ _ _ _ _ _ _ _ _ Hc) as Hs0.
    pose proof (c_unc _ _ _ _ _ _ _ _ _ Hc) as Hu. pose proof (weight_le ss) as Hwl.
    pose proof (i_fine _ _ _ _ _ _ _ _ _ HI) as Hfi. apply Forall_cons in Hfi as [Hfi _].
    simpl in Hfi. subst sent. cbn [ClientThreads.sender_op] in Hop. rewrite Z.eqb_refl in Hop.
    unfold NetClient.send_count, unlock_send in Hop. destruct counted; inv_ret.
    all: unfold bsent; simpl in *.
    + rewrite (u64_id (_ + 1)) by mach.
      destruct (Z.ltb_spec (numReqsSent (cl (base w))) (W + M)); [|lia].
      destruct (Z.ltb_spec (numReqsSent (cl (base w)) + 1) (W + M)); lia.
    + rewrite (proj2 (Z.ltb_ge _ _)) by lia. lia.
  - rewrite (sender_sent p Hp w p' w' Hop).
    destruct (sender_edge w p p' w' ss rs un an HI Hop Hp) as [E1 E2]. cbn [cnt]. lia.
Qed.

(** ** Configurations *)

Lemma inv_perm w ss ss' rs rs' un un' an :
  ss ≡ₚ ss' -> rs ≡ₚ rs' -> un ≡ₚ un' -> Inv w ss rs un an -> Inv w ss' rs' un' an.
Proof. intros Hs Hr Hu HI. by rewrite <- Hs, <- Hr, <- Hu. Qed.

Definition cinv (c : conf (App := App)) : Prop :=
  match c with
  | Running s => Inv (world s) (senders s) (receivers s) (unanswered s) (answers s)
  | Exited code w => code = 0 /\ finished w
  | SenderFault p w => rate_fault p w
  | ReceiverFault _ _ => False
  end.

Definition mu (c : conf (App := App)) : Z :=
  match c with
  | Running s =>
      1 + work (bsent (base (world s))) (senders s) (receivers s) (unanswered s) (answers s)
  | _ => 0
  end.

Lemma work_nonneg w ss rs un an : Inv w ss rs un an -> 0 <= work (bsent (base w)) ss rs un an.
Proof.
  intros HI. pose proof (c_quota _ _ _ _ _ _ _ _ _ (i_counts _ _ _ _ _ _ _ _ _ HI)).
  unfold work, bsent. lia.
Qed.

(** The receiver's next move, by the shape of the state. *)
Lemma receiver_cases w ss p rs un an :
  Inv w ss (p :: rs) un an ->
  (exists p' w', receiver_op p w = Ret p' w' /\ Inv w' ss (p' :: rs) un (received p p' an) /\
     bsent (base w') = bsent (base w) /\
     2 * Z.of_nat (length (received p p' an)) + Z.of_nat (length (omap held_of (p' :: rs))) <
       2 * Z.of_nat (length an) + Z.of_nat (length (omap held_of (p :: rs)))) \/
  (exists w', receiver_op p w = Exit 0 w' /\ finished w') \/
  (exists w' x, receiver_op p w = Blocked w' /\ p = RRecv x /\ an = []).
Proof.
  intros HI. destruct p as [x|x|].
  - destruct an as [|y an].
    + right. right. destruct (recv_no_answer clock W M N w ss rs un x HI) as [w' E]. eauto.
    + left. destruct (recv_answer clock W M N HN w ss rs un y an x HI) as (z & w' & E & HI' & Hs).
      exists (RFini z), w'. split; [done|]. split; [exact HI'|]. split; [exact Hs|simpl; lia].
  - destruct (fini_step genReq clock W M N HW HM HN Hfit genReq_ok w ss rs un an x HI)
      as [(w' & E & HI' & Hs)|(w' & E & Hf)].
    + left. exists (RRecv x), w'. split; [done|]. split; [exact HI'|]. split; [exact Hs|simpl; lia].
    + right. left. eauto.
  - destruct HI as [_ _ _ _ [_ _ _ _ _ _ Hr] _]. by apply Forall_cons in Hr as [Hr _].
Qed.

Lemma sender_cases w p ss rs un an :
  Inv w (p :: ss) rs un an ->
  at_bar1 p \/ at_bar2 p \/ p = SDone \/ (exists l, p = STransfer l /\ sendLock w = true) \/
  (moves p w \/ asleep p w).
Proof.
  intros HI.
  assert (Hm : ~ at_bar1 p -> ~ at_bar2 p -> p <> SDone ->
    (forall l, p = STransfer l -> sendLock w = false) -> moves p w \/ asleep p w) by (by eapply sender_moves).
  destruct p; try (by left); try (by right; left); try (by do 2 right; left).
  all: try (do 4 right; apply Hm; [intros []|intros []|done|intros ? [=]]; fail).
  destruct (sendLock w); [do 3 right; left; eauto|].
  do 4 right. apply Hm; [intros []|intros []|done|done].
Qed.

Lemma sender_fault_rate w p ss rs un an :
  Inv w (p :: ss) rs un an -> fault (sender_op p w) -> rate_fault p w.
Proof.
  intros HI Hft. pose proof (sender_cases w p ss rs un an HI) as Hm.
  destruct Hft as [Hf|Hf], Hm as [Hb|[Hb|[->|[(l & -> & Hl)|[[(p' & w' & E)|[E Hr]]|(l & w' & _ & E)]]]]];
    try (by destruct p); try congruence; try done.
  all: simpl in Hf; unfold lock_send, mbind, M_bind in Hf; by rewrite Hl in Hf.
Qed.

Lemma bar1_weight o (ss : list spc) : Forall at_bar1 ss ->
  (cnt (weight o) (pass_bar1 <$> ss) + length ss = cnt (weight o) ss)%nat.
Proof.
  induction 1 as [|[] ss Hp _ IH]; try done. rewrite fmap_cons.
  cbn [sum_list_with weight length pass_bar1 pass_bar2]. lia.
Qed.
Lemma bar2_weight o (ss : list spc) : Forall at_bar2 ss ->
  (cnt (weight o) (pass_bar2 <$> ss) + length ss = cnt (weight o) ss)%nat.
Proof.
  induction 1 as [|[] ss Hp _ IH]; try done. rewrite fmap_cons.
  cbn [sum_list_with weight length pass_bar1 pass_bar2]. lia.
Qed.

Lemma step_inv c c' : cinv c -> step c c' -> cinv c' /\ mu c' < mu c.
Proof.
  intros HI Hst. destruct Hst as [w ss rs un an i p p' w' Hi Hop|w ss rs un an i p Hi Hft
    |w ss rs un an Hne Hb|w ss rs un an Hne Hb|w ss rs un an i p p' w' Hi Hop
    |w ss rs un an i p code w' Hi Hop|w ss rs un an i p Hi Hft|w ss rs un un' an x Hu Hx|w ss rs un an _ Hr]; simpl in *.
  - destruct (insert_Permutation ss i p Hi) as (rest & Hp & Hp').
    apply (inv_perm w ss (p :: rest) rs rs un un an Hp) in HI; [|done..]. split.
    + apply (inv_perm _ (p' :: rest) _ rs rs (un ++ wire_ids p p' w) _ an); [by rewrite Hp'|done..|].
      by apply (inv_sender genReq clock expo fuel W M N).
    + rewrite Hp', Hp. pose proof (sender_works w p p' w' rest rs un an HI Hop). lia.
  - destruct (insert_Permutation ss i p Hi) as (rest & Hp & _).
    pose proof (work_nonneg _ _ _ _ _ HI). split; [|lia].
    apply (inv_perm w ss (p :: rest) rs rs un un an Hp) in HI; [|done..]. by eapply sender_fault_rate.
  - split; [by apply inv_barrier1|]. unfold work.
    destruct (bar1_shape ss Hb) as (_ & _ & S3 & _). rewrite (S3 counted_of) by set_solver.
    pose proof (bar1_weight (bsent (base w) <? W + M) ss Hb).
    assert (0 < length ss)%nat by (destruct ss; [done|simpl; lia]). lia.
  - split; [by apply inv_barrier2|]. unfold work.
    destruct (bar2_shape ss Hb) as (_ & _ & S3 & _). rewrite (S3 counted_of) by set_solver.
    pose proof (bar2_weight (bsent (base w) <? W + M) ss Hb).
    assert (0 < length ss)%nat by (destruct ss; [done|simpl; lia]). lia.
  - destruct (insert_Permutation rs i p Hi) as (rest & Hp & Hp').
    apply (inv_perm w ss ss rs (p :: rest) un un an) in HI; [|done..].
    destruct (receiver_cases w ss p rest un an HI) as
      [(p1 & w1 & E & HI' & Hs & Hl)|[(w1 & E & _)|(w1 & x & E & _)]]; rewrite E in Hop; try done.
    injection Hop as <- <-. split.
    + apply (inv_perm _ ss ss (p1 :: rest) _ un un _); [done|by rewrite Hp'|done|done].
    + rewrite Hp', Hp, Hs. unfold work. lia.
  - destruct (insert_Permutation rs i p Hi) as (rest & Hp & _).
    pose proof (work_nonneg _ _ _ _ _ HI). split; [|lia].
    apply (inv_perm w ss ss rs (p :: rest) un un an) in HI; [|done..].
    destruct (receiver_cases w ss p rest un an HI) as
      [(p1 & w1 & E & _)|[(w1 & E & Hf)|(w1 & x & E & _)]]; rewrite E in Hop; try done.
    by injection Hop as <- <-.
  - destruct (insert_Permutation rs i p Hi) as (rest & Hp & _).
    apply (inv_perm w ss ss rs (p :: rest) un un an) in HI; [|done..]. exfalso.
    destruct Hft as [Hf|Hf]; destruct (receiver_cases w ss p rest un an HI) as
      [(p1 & w1 & E & _)|[(w1 & E & _)|(w1 & x & E & _)]]; by rewrite E in Hf.
  - apply (inv_perm w ss ss rs rs un (resp_id x :: un') an) in HI; [|done..].
    split; [by apply inv_server|]. rewrite Hu. unfold work, client_arrive. simpl.
    rewrite length_app. simpl. lia.
  - exfalso. destruct rs as [|p rs]; [destruct (i_cfg _ _ _ _ _ _ _ _ _ HI) as (_ & _ & E); simpl in E; lia|].
    pose proof (n_rcv _ _ _ (i_net _ _ _ _ _ _ _ _ _ HI)) as Hn. apply Forall_cons in Hn as [Hn _], Hr as [-> _]. done.
Qed.

Lemma steps_inv n c c' : nsteps step n c c' -> cinv c -> cinv c' /\ Z.of_nat n + mu c' <= mu c.
Proof.
  induction 1 as [c|n c1 c2 c3 H1 _ IH]; intros HI; [split; [done|lia]|].
  destruct (step_inv _ _ HI H1) as [HI2 Hmu]. destruct (IH HI2) as [HI3 Hmu3]. split; [done|lia].
Qed.

(** ** Some step is always possible *)

(** No sleep takes more readings of the clock than there are times. *)
Context (Hfuel : 2 ^ 64 <= Z.of_nat fuel).

Lemma exists_or_all {A} (P Q : A -> Prop) l :
  (forall x, x ∈ l -> P x \/ Q x) -> (exists x, x ∈ l /\ Q x) \/ Forall P l.
Proof.
  induction l as [|x l IH]; intros H; [by right|].
  destruct (H x ltac:(by left)) as [Hp|Hq]; [|left; exists x; split; [by left|done]].
  destruct IH as [(y & Hy & Hq)|Hl]; [intros y Hy; apply H; by right|left; exists y; split; [by right|done]|].
  right. by constructor.
Qed.

Lemma cnt_pos {A} (f : A -> nat) l : (0 < cnt f l)%nat -> exists x, x ∈ l /\ (0 < f x)%nat.
Proof.
  induction l as [|x l IH]; simpl; [lia|]. intros H.
  destruct (decide (0 < f x)%nat); [exists x; split; [by left|done]|].
  destruct IH as (y & Hy & ?); [lia|]. exists y. split; [by right|done].
Qed.

Lemma elem_head (w : NWorld App) ss rs un an p :
  Inv w ss rs un an -> p ∈ ss -> exists rest, Inv w (p :: rest) rs un an.
Proof.
  intros HI [i Hi]%list_elem_of_lookup. destruct (insert_Permutation ss i p Hi) as (rest & Hp & _).
  exists rest. by eapply inv_perm.
Qed.

Definition waiting (p : spc) : Prop := at_bar1 p \/ at_bar2 p \/ p = SDone.

(** All senders wait at a barrier or have finished, unless one can move. *)
Lemma sleep_returns l r (b : CWorld (App := App)) :
  heap b !! l = Some r -> req_genNs r < END -> exists b', startReq_sleep clock fuel l b = Ret () b'.
Proof.
  intros Hr Hg. unfold startReq_sleep. bind_step by (unfold load; rewrite Hr; reflexivity).
  bind_step by reflexivity. destruct (_ <? _); [|by eexists].
  bind_step by reflexivity. set (target := _ `max` _). cbn [tick set_tick].
  assert (Ht : target <= END).
  { unfold target, END. pose proof (u64_range (ts_ns (clock (tick b)) + minSleepNs (cl (set_tick (S (tick b)) b)))).
    unfold is_u64, END in *. lia. }
  destruct (sleepUntil_loop_spec clock fuel target (S (tick b)) (Z.to_nat END)) as (k' & E & _).
  { unfold END. lia. }
  { pose proof (T_reaches clock (S (tick b)) (Z.to_nat END)) as Hre.
    pose proof (T_range clock (S (tick b))). unfold T in *.
    rewrite Z2Nat.id in Hre by (unfold END; lia). lia. }
  bind_step by (unfold zoom, sleepUntil; cbn [tick set_tick]; bind_step by reflexivity;
    rewrite E; reflexivity).
  by eexists.
Qed.

Lemma not_asleep w p ss rs un an : Inv w (p :: ss) rs un an -> ~ asleep p w.
Proof.
  intros HI (l & w' & -> & E).
  destruct (f_locs _ _ _ _ _ _ _ _ _ (i_flight _ _ _ _ _ _ _ _ _ HI) l) as (r & Hr & _ & _ & _ & Hg);
    [by left|].
  destruct (sleep_returns l r (base w) Hr Hg) as [b' E']. simpl in E.
  unfold mbind, M_bind, on_base, zoom in E. by rewrite E' in E.
Qed.

Lemma senders_wait w ss rs un an :
  Inv w ss rs un an -> (exists p, p ∈ ss /\ moves p w) \/ Forall waiting ss.
Proof.
  intros HI.
  assert (Hc : forall p, p ∈ ss -> (waiting p \/ exists l, p = STransfer l /\ sendLock w = true) \/ moves p w).
  { intros p Hp. destruct (elem_head _ _ _ _ _ _ HI Hp) as [rest HI'].
    destruct (sender_cases w p rest rs un an HI') as [?|[?|[?|[?|[?|Hsl]]]]];
      [unfold waiting; tauto..|]. by destruct (not_asleep _ _ _ _ _ _ HI'). }
  apply exists_or_all in Hc as [?|Hall]; [by left|].
  destruct (sendLock w) eqn:El.
  - exfalso. pose proof (c_lock _ _ _ _ _ _ _ _ _ (i_counts _ _ _ _ _ _ _ _ _ HI)) as Hl.
    rewrite El in Hl. simpl in Hl.
    assert (Hx : exists p, p ∈ ss /\ (0 < counted_of p + uncounted_of p)%nat).
    { destruct (decide (0 < cnt counted_of ss)%nat) as [Hp|Hp].
      - apply cnt_pos in Hp as (p & ? & ?). exists p. split; [done|lia].
      - destruct (cnt_pos uncounted_of ss) as (p & ? & ?); [lia|]. exists p. split; [done|lia]. }
    destruct Hx as (p & Hp & Hpos). rewrite Forall_forall in Hall.
    destruct (Hall p Hp) as [[?|[?|?]]|(l & -> & _)]; [..|simpl in Hpos; lia].
    all: destruct p; simpl in *; try done; lia.
  - right. eapply Forall_impl; [exact Hall|]. intros p [?|(l & _ & ?)]; [done|congruence].
Qed.

(** Waiting senders are all at the same barrier, or all finished. *)
Lemma senders_barrier w ss rs un an :
  Inv w ss rs un an -> Forall waiting ss ->
  Forall at_bar1 ss \/ Forall at_bar2 ss \/ Forall (fun p => p = SDone) ss.
Proof.
  intros HI Hw. destruct (i_status _ _ _ _ _ _ _ _ _ HI) as [Hb Hs]. rewrite Forall_forall in Hw.
  assert (H2 : forall p, p ∈ ss -> (at_bar1 p \/ p = SDone) \/ at_bar2 p)
    by (intros p Hp; destruct (Hw p Hp) as [?|[?|?]]; tauto).
  apply exists_or_all in H2 as [(p & Hp & H2)|H2].
  - right. left. destruct Hb as [Hb|Hb]; rewrite Forall_forall in Hb.
    + apply Forall_forall. intros q Hq. specialize (Hb q Hq).
      destruct (Hw q Hq) as [?|[?|?]]; [by destruct q|done|by destruct q].
    + destruct (Hb p Hp). by destruct p.
  - rewrite Forall_forall in H2.
    assert (H3 : forall p, p ∈ ss -> p = SDone \/ at_bar1 p) by (intros p Hp; destruct (H2 p Hp); tauto).
    apply exists_or_all in H3 as [(p & Hp & H3)|H3]; [|by do 2 right].
    left. apply Forall_forall. intros q Hq. destruct (H2 q Hq) as [?| ->]; [done|].
    destruct (status (cl (base w))); try done.
    + destruct Hs as (_ & _ & _ & _ & He). rewrite Forall_forall in He. by destruct (He SDone Hq).
    + destruct Hs as (_ & _ & _ & Hs). rewrite Forall_forall in Hs. by destruct (Hs p Hp).
    + destruct Hs as (_ & _ & _ & Hs). rewrite Forall_forall in Hs. by destruct (Hs p Hp).
Qed.

(** When all senders have finished there is still a response to come. *)
Lemma senders_done w ss rs un an :
  Inv w ss rs un an -> Forall (fun p => p = SDone) ss -> outs rs un an <> [].
Proof.
  intros HI Hd Ho. pose proof (i_counts _ _ _ _ _ _ _ _ _ HI) as [Hn _ Hb _ _ Hdone Hc _ _].
  rewrite Ho in Hb. destruct ss as [|p ss]; [simpl in Hn; lia|].
  assert (Hz : cnt counted_of (p :: ss) = 0%nat)
    by (clear -Hd; induction Hd as [|? ? -> _ IH]; [done|exact IH]).
  apply Forall_cons in Hd as [-> _]. specialize (Hdone ltac:(simpl; lia)).
  rewrite Hz in Hb. simpl in Hb. lia.
Qed.

Lemma out_u64 w ss rs un an id : Inv w ss rs un an -> id ∈ outs rs un an -> is_u64 id.
Proof.
  intros HI Hin. destruct (i_flight _ _ _ _ _ _ _ _ _ HI) as [_ Hm _ Ho _ _ _ _].
  destruct (Ho id Hin) as (l & _ & Hl & _). destruct (Hm id l Hl) as [Hid _].
  pose proof (holds_idle ss). pose proof (i_counts _ _ _ _ _ _ _ _ _ HI) as [? ? ? ? ? ? ? ? (L & ? & ? & ?)].
  unfold is_u64. lia.
Qed.

Lemma running_steps s : cinv (Running s) -> exists c', step (Running s) c'.
Proof.
  destruct s as [w ss rs un an]. simpl. intros HI.
  destruct (senders_wait w ss rs un an HI) as [(p & [i Hi]%list_elem_of_lookup & Hm)|Hw].
  { destruct Hm as [(p' & w' & E)|[E _]]; eexists; [by eapply step_sender|].
    eapply step_sender_fault; [done|by left]. }
  assert (Hne : ss <> []).
  { intros ->. pose proof (c_n _ _ _ _ _ _ _ _ _ (i_counts _ _ _ _ _ _ _ _ _ HI)). simpl in *. lia. }
  destruct (senders_barrier w ss rs un an HI Hw) as [Hb|[Hb|Hd]];
    [eexists; by apply step_barrier1|eexists; by apply step_barrier2|].
  assert (Hr : forall p, p ∈ rs -> ((exists x, p = RRecv x) /\ an = []) \/
    ((exists p' w', receiver_op p w = Ret p' w') \/ (exists w', receiver_op p w = Exit 0 w'))).
  { intros p [i Hi]%list_elem_of_lookup. destruct (insert_Permutation rs i p Hi) as (rest & Hp & _).
    apply (inv_perm w ss ss rs (p :: rest) un un an) in HI; [|done..].
    destruct (receiver_cases w ss p rest un an HI) as
      [(p1 & w1 & E & _)|[(w1 & E & _)|(w1 & x & E & -> & ->)]]; eauto 10. }
  apply exists_or_all in Hr as [(p & [i Hi]%list_elem_of_lookup & [(p' & w' & E)|(w' & E)])|Hr].
  - eexists. by eapply step_receiver.
  - eexists. by eapply step_exit.
  - assert (Hin : exists id, id ∈ un).
    { pose proof (senders_done w ss rs un an HI Hd) as Ho. destruct rs as [|p rs].
      { destruct (i_cfg _ _ _ _ _ _ _ _ _ HI) as (_ & _ & E). simpl in E. lia. }
      apply Forall_cons in Hr as H1. destruct H1 as [[_ ->] _].
      assert (Hh : omap held_of (p :: rs) = []).
      { clear -Hr. induction Hr as [|q l [(x & ->) _] _ IH]; [done|exact IH]. }
      unfold outs in Ho. rewrite Hh in Ho. destruct un as [|id un]; [done|]. exists id. by left. }
    destruct Hin as [id [k Hk]%list_elem_of_lookup].
    destruct (insert_Permutation un k id Hk) as (un' & Hu & _).
    eexists. apply (step_server _ _ _ _ w ss rs un un' an (answer id)); [done|].
    apply answer_ok. eapply out_u64; [exact HI|]. unfold outs. rewrite !elem_of_app.
    right. left. apply list_elem_of_lookup. by exists k.
Qed.

End Spec.

(** ** Runs of the whole client *)

(** What a run takes for granted: positive request numbers that fit, a connection
    that stays up, a generator that respects the request buffer, samples of an
    exponential distribution, and a clock that advances between readings. *)
Record run_ok {App} (genReq : App -> (list byte * Z) * App) (clock : nat -> timespec)
  (expo : double -> Z -> nat -> double) (env : gmap string string) (fd : sock)
  (W M : Z) (N : nat) : Prop := {
  ro_threads : getInt env "TBENCH_CLIENT_THREADS" 1 = Z.of_nat N;
  ro_warmup : getOpt_val env "TBENCH_WARMUPREQS" 10 = W;
  ro_max : getOpt_val env "TBENCH_MAXREQS" 100 = M;
  ro_N : (0 < N)%nat;
  ro_W : 0 < W;
  ro_M : 0 < M < 2 ^ 31;
  ro_fit : W + M + Z.of_nat N < 2 ^ 64;
  ro_sock : s_in fd = [] /\ s_eof fd = false /\ no_fail (s_rsched fd) /\ no_fail (s_ssched fd);
  ro_gen : forall a, Z.of_nat (length (genReq a).1.1) <= MAX_REQ_BYTES /\
                     0 <= (genReq a).1.2 <= MAX_REQ_BYTES;
  ro_expo : forall lambda seed k, nonneg (expo lambda seed k);
  ro_clock : Advancing clock
}.

Section Runs.
Context {App : Type} (genReq : App -> (list byte * Z) * App).
Context (clock : nat -> timespec) (expo : double -> Z -> nat -> double) (fuel : nat).
Context (env : gmap string string) (a : App) (fd : sock) (W M : Z) (N : nat).

Lemma cnt_replicate n : cnt counted_of (replicate n SCheck) = 0%nat /\
  cnt uncounted_of (replicate n SCheck) = 0%nat /\ cnt done_of (replicate n SCheck) = 0%nat /\
  cnt holds_of (replicate n SCheck) = 0%nat /\ (cnt (weight true) (replicate n SCheck) = 13 * n)%nat /\
  omap loc_of (replicate n SCheck) = [] /\ omap slept_of (replicate n SCheck) = [] /\
  omap held_of (replicate n (RRecv new_Response)) = [].
Proof. induction n as [|n (?&?&?&?&?&?&?&?)]; [done|]. cbn. split_and!; try done. lia. Qed.

Lemma client_main_inv s :
  run_ok genReq clock expo env fd W M N -> client_main env a fd = Some s ->
  cinv clock expo W M N (Running s) /\ mu W M (Running s) = 1 + 20 * (W + M) + 13 * Z.of_nat N.
Proof.
  intros [Ht Hw Hm HN HW HM Hfit (Si & Se & Sr & Ss) Hg He Hc]. unfold client_main.
  rewrite Hw, Hm, Ht, Nat2Z.id, (proj2 (Z.eqb_neq W 0)), (proj2 (Z.eqb_neq M 0)) by lia.
  cbn [orb]. intros [= <-]. destruct (cnt_replicate N) as (C1 & C2 & C3 & C4 & C5 & C6 & C7 & C8).
  split.
  - simpl. split; simpl; rewrite ?C6, ?C7.
    + rewrite length_replicate. done.
    + unfold outs. rewrite C8. split; try done; try constructor; try (by intros ? ?%not_elem_of_nil);
        try set_solver.
      all: by intros ? ? ?%lookup_empty_Some.
    + unfold outs. rewrite C8. split; rewrite ?C1, ?C2, ?C3, ?C4; simpl; try lia.
      { apply length_replicate. }
      exists 0. lia.
    + split; [right|]; simpl.
      * apply Forall_replicate. intros [].
      * split_and!; try done; [repeat constructor|]. by apply Forall_replicate.
    + split; simpl; try done. by apply Forall_replicate.
    + by apply Forall_replicate.
  - unfold mu, work, bsent. simpl. rewrite C1, C8. rewrite (proj2 (Z.ltb_lt 0 (W + M))) by lia.
    rewrite C5. simpl. lia.
Qed.

Lemma runs_inv s c :
  run_ok genReq clock expo env fd W M N -> client_main env a fd = Some s ->
  rtc (step genReq clock expo fuel) (Running s) c -> cinv clock expo W M N c.
Proof.
  intros Hok Hs Hr. destruct (client_main_inv s Hok Hs) as [HI _].
  apply rtc_nsteps in Hr as [n Hr]. destruct Hok.
  by destruct (steps_inv genReq clock expo fuel W M N ro_W0 ro_M0 ro_N0 ro_fit0 ro_gen0 ro_expo0 n _ _ Hr HI).
Qed.

(** C1: memory and assertion safety of the threaded client.  Given a clock whose
    successive readings increase, a connection that stays up and a server that
    answers every request once, in every interleaving of the sending and receiving
    threads: no receiver fails an assertion of [finiReq] or [_startRoi] or uses a
    deleted request, and the only fault a sender can have is the conversion of a
    double that is out of range to an integer, when the configured rates or the
    samples put an arrival time or an interval out of the range of [uint64_t]
    ([rate_fault]); no sender uses a deleted request or a missing distribution.  (A
    clock that stands still makes [finiReq] fail its assertion: [finiReq_spec].) *)
Theorem client_safety s c :
  run_ok genReq clock expo env fd W M N -> client_main env a fd = Some s ->
  rtc (step genReq clock expo fuel) (Running s) c ->
  match c with
  | SenderFault p w => rate_fault expo p w
  | ReceiverFault _ _ => False
  | _ => True
  end.
Proof. intros Hok Hs Hr. pose proof (runs_inv s c Hok Hs Hr). by destruct c. Qed.

(** C2: the client ends its run exactly when the configured number of responses
    has arrived.  As long as it runs, fewer than [warmupreqs + maxreqs] requests are
    completed; when the process has exited, it has done so with code 0 and with
    exactly [warmupreqs + maxreqs] completions, having written a statistics file of
    one 40-byte record for each of the [maxreqs] measured requests.  The only other
    end is a sender's fault on a rate out of range. *)
Theorem client_exit_complete s c :
  run_ok genReq clock expo env fd W M N -> client_main env a fd = Some s ->
  rtc (step genReq clock expo fuel) (Running s) c ->
  match c with
  | Running s' => numReqsCompleted (cl (base (world s'))) < W + M
  | Exited code w => code = 0 /\ numReqsCompleted (cl (base w)) = W + M /\
      exists file, lats (base w) = Some file /\ Z.of_nat (length file) = 40 * M
  | SenderFault p w => rate_fault expo p w
  | ReceiverFault _ _ => False
  end.
Proof.
  intros Hok Hs Hr. pose proof (runs_inv s c Hok Hs Hr) as HI. destruct c as [s'|code w|p w|p w]; try exact HI.
  apply (c_comp _ _ _ _ _ _ _ _ _ (i_counts _ _ _ _ _ _ _ _ _ HI)).
Qed.

(** C6: the counters of the running client.  It never has more than [warmupreqs +
    maxreqs] requests sent.  The completed requests and those whose ids are on the
    way (at the server, in the socket, or held by a receiver) are exactly the ones
    counted as sent, and the one, if any, that a sender holding [sendLock] has put on
    the wire and not yet counted: so one response may be completed before its
    request is counted, but never two.  Every id on the way is there once and
    belongs to a live request, and at most one request per sender was generated
    beyond those sent. *)
Theorem client_counters s s' :
  run_ok genReq clock expo env fd W M N -> client_main env a fd = Some s ->
  rtc (step genReq clock expo fuel) (Running s) (Running s') ->
  let c := cl (base (world s')) in
  let out := outs (receivers s') (unanswered s') (answers s') in
  let uncounted := Z.of_nat (cnt counted_of (senders s')) in
  numReqsSent c + uncounted <= W + M /\ numReqsCompleted c < W + M /\
  numReqsCompleted c + Z.of_nat (length out) = numReqsSent c + uncounted /\
  uncounted <= (if sendLock (world s') then 1 else 0) /\
  startedReqs c <= W + M + Z.of_nat N /\ NoDup out /\
  forall id, id ∈ out -> exists l r, inFlightReqs c !! id = Some l /\
    heap (base (world s')) !! l = Some r /\ req_id r = id.
Proof.
  intros Hok Hs Hr. pose proof (runs_inv s _ Hok Hs Hr) as [_ Hf Hc _ _ _].
  pose proof (holds_idle (senders s')). destruct Hf as [_ Hm Hnd Ho _ _ _ _].
  destruct Hc as [? Hl ? ? ? ? ? ? (L & ? & ? & ?)].
  cbv zeta. split_and!; try lia; try done; [destruct (sendLock _); simpl in Hl; lia|].
  intros id Hid. destruct (Ho id Hid) as (l & r & Hfl & Hh & _). exists l, r.
  destruct (Hm id l Hfl) as (_ & r' & Hr' & <-). split_and!; congruence.
Qed.


End Runs.
