(* ===== verification/ClientRun.v ===== *)
(** * Concrete runs of the client's threads

    An executable scheduler for [ClientThreads.step], and the runs that show the
    hypotheses of the theorems on the client to hold together. *)

From stdpp Require Import strings relations.
From S2P Require Import Prelude Msgs Helpers Double Dist Env Client NetClient ServerSpec EndToEnd ClientThreads ClientThreadsInv ClientThreadsSpec.

Open Scope Z_scope.

Inductive choice := CSender (i : nat) | CBar1 | CBar2 | CReceiver (i : nat) | CServer.

Section Exec.
Context {App : Type} (genReq : App -> (list byte * Z) * App).
Context (clock : nat -> timespec) (expo : double -> Z -> nat -> double) (fuel : nat).

Definition exec1 (ch : choice) (s : TState (App := App)) : option (conf (App := App)) :=
  let '(mkT w ss rs un an) := s in
  match ch with
  | CSender i =>
      p ← ss !! i;
      match sender_op genReq clock expo fuel p w with
      | Ret p' w' => Some (Running (mkT w' (<[i := p']> ss) rs (un ++ wire_ids p p' w) an))
      | UB | Abort => Some (SenderFault p w)
      | _ => None
      end
  | CBar1 => if (0 <? length ss)%nat && forallb (fun p => match p with SBar1 _ => true | _ => false end) ss
             then Some (Running (mkT w (pass_bar1 <$> ss) rs un an)) else None
  | CBar2 => if (0 <? length ss)%nat && forallb (fun p => match p with SBar2 _ => true | _ => false end) ss
             then Some (Running (mkT w (pass_bar2 <$> ss) rs un an)) else None
  | CReceiver i =>
      p ← rs !! i;
      match receiver_op clock p w with
      | Ret p' w' => Some (Running (mkT w' ss (<[i := p']> rs) un (received p p' an)))
      | Exit code w' => Some (Exited code w')
      | UB | Abort => Some (ReceiverFault p w)
      | Blocked _ => None
      end
  | CServer =>
      match un with
      | [] => None
      | id :: un' =>
          if (0 <=? id) && (id <? 2 ^ 64)
          then Some (Running (mkT (client_arrive (msg_image (answer id)) w) ss rs un' (an ++ [answer id])))
          else None
      end
  end.

Fixpoint exec (chs : list choice) (c : conf) : option conf :=
  match chs, c with
  | [], _ => Some c
  | ch :: chs', Running s => c' ← exec1 ch s; exec chs' c'
  | _ :: _, _ => None
  end.

Lemma exec1_step ch s c : exec1 ch s = Some c -> step genReq clock expo fuel (Running s) c.
Proof.
  destruct s as [w ss rs un an], ch as [i| | |i|]; cbn [exec1].
  - destruct (ss !! i) as [p|] eqn:Ei; [|done]. cbn [mbind option_bind].
    destruct (sender_op _ _ _ _ p w) eqn:E; try done; intros [= <-].
    + by apply step_sender with (i := i) (p := p).
    + apply step_sender_fault with (i := i); [done|by right].
    + apply step_sender_fault with (i := i); [done|by left].
  - destruct ss as [|p ss]; [done|]. destruct (forallb _ _) eqn:E; [|done]. intros [= <-].
    apply step_barrier1; [done|]. apply Forall_forall. rewrite forallb_forall in E.
    intros q Hq%list_elem_of_In%E. by destruct q.
  - destruct ss as [|p ss]; [done|]. destruct (forallb _ _) eqn:E; [|done]. intros [= <-].
    apply step_barrier2; [done|]. apply Forall_forall. rewrite forallb_forall in E.
    intros q Hq%list_elem_of_In%E. by destruct q.
  - destruct (rs !! i) as [p|] eqn:Ei; [|done]. cbn [mbind option_bind].
    destruct (receiver_op _ p w) eqn:E; try done; intros [= <-].
    + by apply step_receiver with (i := i) (p := p).
    + by apply step_exit with (i := i) (p := p).
    + apply step_receiver_fault with (i := i); [done|by right].
    + apply step_receiver_fault with (i := i); [done|by left].
  - destruct un as [|id un]; [done|]. destruct (Z.leb_spec 0 id), (Z.ltb_spec id (2 ^ 64)); try done.
    intros [= <-]. apply step_server; [done|]. apply answer_ok. unfold is_u64. lia.
Qed.

Lemma exec_rtc chs c c' : exec chs c = Some c' -> nsteps (step genReq clock expo fuel) (length chs) c c'.
Proof.
  revert c. induction chs as [|ch chs IH]; intros c; cbn [exec length].
  { intros [= <-]. constructor. }
  destruct c as [s| | |]; try done. destruct (exec1 ch s) as [c1|] eqn:E; [|done]. intros H.
  econstructor; [by apply exec1_step in E|]. by apply IH.
Qed.
End Exec.

(** ** An example run: one thread of each kind, one warm-up and two measured
    requests. *)

Definition ex_gen (_ : ()) : (list byte * Z) * () := (([x61; x62], 2), ()).
(** One reading per millisecond, from some time on, until the counter is full. *)
Definition ex_clock (k : nat) : timespec := mkTimespec 0 (Z.min (2000000000 + 1000000 * Z.of_nat k) END).
Definition ex_env : gmap string string :=
  <["TBENCH_CLIENT_THREADS" := "1"]> (<["TBENCH_WARMUPREQS" := "1"]> (<["TBENCH_MAXREQS" := "2"]>
  (<["TBENCH_QPS" := "500"]> ∅))).
Definition ex_fd : sock := mkSock [] false [] [Chunk 7] [Chunk 30].

Lemma ex_T k : T ex_clock k = Z.min (2000000000 + 1000000 * Z.of_nat k) END.
Proof.
  unfold T, ts_ns, ex_clock. cbn [tv_sec tv_nsec].
  set (x := Z.min _ _). assert (0 <= x < 2 ^ 64) by (unfold x, END; lia).
  change (i64 (i64 (i64 (0 * 1000) * 1000) * 1000)) with 0. unfold u64, i64, END in *.
  rewrite Z.add_0_l. rewrite Zminus_mod_idemp_l. replace (x + 2 ^ 63 - 2 ^ 63) with x by lia.
  apply Z.mod_small. lia.
Qed.

#[export] Instance ex_advancing : Advancing ex_clock.
Proof. split; intros k; rewrite !ex_T; unfold END; lia. Qed.

Lemma ex_run_ok : run_ok ex_gen ex_clock example_expo ex_env ex_fd 1 2 1.
Proof.
  split; [vm_compute; reflexivity|vm_compute; reflexivity|vm_compute; reflexivity|lia|lia|lia|lia| | | |].
  - split_and!; try done; unfold no_fail; simpl; set_solver.
  - intros []. rewrite MAX_REQ_BYTES_eq. simpl. lia.
  - apply example_expo_nonneg.
  - apply _.
Qed.

Definition ex_start : option (TState (App := ())) := client_main ex_env () ex_fd.

(** A request from the top of the sender's loop to the end of [finiReq]. *)
Definition one_request : list choice := replicate 9 (CSender 0) ++ [CServer; CReceiver 0; CReceiver 0].
Definition first_request : list choice :=
  [CSender 0; CSender 0; CBar1; CSender 0; CBar2] ++ replicate 8 (CSender 0) ++
  [CServer; CReceiver 0; CReceiver 0].
Definition ex_run (chs : list choice) : option (conf (App := ())) :=
  s ← ex_start; exec ex_gen ex_clock example_expo 5 chs (Running s).

Lemma ex_reaches chs c :
  ex_run chs = Some c ->
  exists s, client_main ex_env () ex_fd = Some s /\
    nsteps (step ex_gen ex_clock example_expo 5) (length chs) (Running s) c.
Proof.
  unfold ex_run, ex_start. destruct (client_main ex_env () ex_fd) as [s|]; [|done].
  intros H. exists s. split; [done|]. by apply exec_rtc.
Qed.

(** After two of three requests the client runs, after the third it has exited. *)
Lemma client_exit_complete_witness :
  (exists s', ex_run (first_request ++ one_request) = Some (Running s') /\ numReqsCompleted (cl (base (world s'))) < 1 + 2) /\
  exists w, ex_run (first_request ++ one_request ++ one_request) = Some (Exited 0 w) /\
    numReqsCompleted (cl (base w)) = 1 + 2 /\
    exists file, lats (base w) = Some file /\ Z.of_nat (length file) = 40 * 2.
Proof.
  split.
  - destruct (ex_run (first_request ++ one_request)) as [c|] eqn:E.
    2: { vm_compute in E. discriminate. }
    assert (Hc : match c with Running _ => true | _ => false end = true).
    { assert (match ex_run (first_request ++ one_request) with Some (Running _) => true | _ => false end = true) as Hv by (vm_compute; reflexivity).
      rewrite E in Hv. exact Hv. }
    destruct c as [s'| | |]; try discriminate Hc. exists s'. split; [reflexivity|].
    destruct (ex_reaches _ _ E) as (s & Hs & Hr).
    exact (client_exit_complete ex_gen ex_clock example_expo 5 ex_env () ex_fd 1 2 1 s (Running s') ex_run_ok Hs (rtc_nsteps_2 _ _ _ Hr)).
  - destruct (ex_run (first_request ++ one_request ++ one_request)) as [c|] eqn:E.
    2: { vm_compute in E. discriminate. }
    assert (Hc : match c with Exited 0 _ => true | _ => false end = true).
    { assert (match ex_run (first_request ++ one_request ++ one_request) with
              | Some (Exited 0 _) => true | _ => false end = true) as Hv by (vm_compute; reflexivity).
      rewrite E in Hv. exact Hv. }
    destruct c as [|[] w| |]; try discriminate Hc. exists w. split; [reflexivity|].
    destruct (ex_reaches _ _ E) as (s & Hs & Hr).
    exact (proj2 (client_exit_complete ex_gen ex_clock example_expo 5 ex_env () ex_fd 1 2 1 s (Exited 0 w)
      ex_run_ok Hs (rtc_nsteps_2 _ _ _ Hr))).
Defined.

(** The first request is on the wire and answered, but not yet counted: its response
    is completed all the same. *)
Definition overtaking : list choice :=
  [CSender 0; CSender 0; CBar1; CSender 0; CBar2] ++ replicate 6 (CSender 0) ++ [CServer; CReceiver 0; CReceiver 0].
Lemma client_counters_witness :
  exists s', ex_run overtaking = Some (Running s') /\
    let c := cl (base (world s')) in
    let out := outs (receivers s') (unanswered s') (answers s') in
    let uncounted := Z.of_nat (cnt counted_of (senders s')) in
    (numReqsSent c = 0 /\ numReqsCompleted c = 1 /\ uncounted = 1) /\
    numReqsSent c + uncounted <= 1 + 2 /\ numReqsCompleted c < 1 + 2 /\
    numReqsCompleted c + Z.of_nat (length out) = numReqsSent c + uncounted /\
    uncounted <= (if sendLock (world s') then 1 else 0) /\
    startedReqs c <= 1 + 2 + Z.of_nat 1 /\ NoDup out /\
    forall id, id ∈ out -> exists l r, inFlightReqs c !! id = Some l /\
      heap (base (world s')) !! l = Some r /\ req_id r = id.
Proof.
  destruct (ex_run overtaking) as [c|] eqn:E.
  2: { vm_compute in E. discriminate. }
  assert (Hc : match c with Running s' => Some (numReqsSent (cl (base (world s'))), numReqsCompleted (cl (base (world s'))), Z.of_nat (cnt counted_of (senders s')))
    | _ => None end = Some (0, 1, 1)).
  { assert (match ex_run overtaking with Some (Running s') => Some (numReqsSent (cl (base (world s'))), numReqsCompleted (cl (base (world s'))), Z.of_nat (cnt counted_of (senders s')))
      | _ => None end = Some (0, 1, 1)) as Hv by (vm_compute; reflexivity).
    rewrite E in Hv. exact Hv. }
  destruct c as [s'| | |]; try discriminate Hc. exists s'. split; [reflexivity|].
  destruct (ex_reaches _ _ E) as (s & Hs & Hr). injection Hc as H1 H2 H3. split; [auto|].
  exact (client_counters ex_gen ex_clock example_expo 5 ex_env () ex_fd 1 2 1 s s'
    ex_run_ok Hs (rtc_nsteps_2 _ _ _ Hr)).
Defined.


Definition long_fuel : nat := Z.to_nat (2 ^ 64).
Lemma long_fuel_enough : 2 ^ 64 <= Z.of_nat long_fuel.
Proof. unfold long_fuel. rewrite Z2Nat.id; lia. Qed.


(** Samples so large that the next arrival does not fit into a [uint64_t]. *)
Definition huge_expo (_ : double) (_ : Z) (_ : nat) : double := dZ (2 ^ 70).

Lemma huge_run_ok : run_ok ex_gen ex_clock huge_expo ex_env ex_fd 1 2 1.
Proof.
  destruct ex_run_ok as [H1 H2 H3 H4 H5 H6 H7 H8 H9 _ H11].
  split; try assumption. intros ? ? ?. vm_compute. split; [reflexivity|discriminate].
Qed.

Definition huge_run (chs : list choice) : option (conf (App := ())) :=
  s ← ex_start; exec ex_gen ex_clock huge_expo 5 chs (Running s).

Lemma client_safety_witness :
  exists p w, huge_run [CSender 0; CSender 0; CBar1; CSender 0; CBar2; CSender 0; CSender 0]
    = Some (SenderFault p w) /\ rate_fault huge_expo p w.
Proof.
  unfold huge_run, ex_start.
  destruct (client_main ex_env () ex_fd) as [s|] eqn:Hs; [|vm_compute in Hs; discriminate].
  cbn [mbind option_bind].
  destruct (exec ex_gen ex_clock huge_expo 5
    [CSender 0; CSender 0; CBar1; CSender 0; CBar2; CSender 0; CSender 0] (Running s)) as [c|] eqn:E.
  2: { vm_compute in Hs. injection Hs as <-. vm_compute in E. discriminate. }
  assert (Hc : match c with SenderFault _ _ => true | _ => false end = true).
  { clear -Hs E. vm_compute in Hs. injection Hs as <-. vm_compute in E. injection E as <-. reflexivity. }
  destruct c as [| |p w|]; try discriminate Hc. exists p, w. split; [reflexivity|].
  exact (client_safety ex_gen ex_clock huge_expo 5 ex_env () ex_fd 1 2 1 s (SenderFault p w)
    huge_run_ok Hs (rtc_nsteps_2 _ _ _ (exec_rtc _ _ _ _ _ _ _ E))).
Defined.
