(* ===== verification/Integrated.v ===== *)
(** * The integrated server (src/harness/server.h,
    src/harness/tbench_server_integrated.cpp)

    Client and server in one process: [recvReq] is [startReq] and [sendResp] is
    [finiReq].  The object is a [Server] and a [Client] at once. *)

From stdpp Require Import strings.
From S2P Require Import Prelude Msgs Helpers Double Dist Env Client ClientSpec NetClient NetServer.

Open Scope Z_scope.

#[local] Opaque ts_ns u64.

Section IntegratedServer.
Context {App : Type} (genReq : App -> (list byte * Z) * App).
Context (clock : nat -> timespec) (expo : double -> Z -> nat -> double) (fuel : nat).

(** The [Client] base and the fields of [Server]. *)
Record IWorld := mkIWorld {
  ibase : CWorld (App := App);
  i_finishedReqs : Z;
  i_maxReqs : Z;
  i_warmupReqs : Z;
  i_reqInfo : list ReqInfo
}.

Definition set_ibase b (w : IWorld) : IWorld :=
  mkIWorld b (i_finishedReqs w) (i_maxReqs w) (i_warmupReqs w) (i_reqInfo w).
Definition set_i_finishedReqs n (w : IWorld) : IWorld :=
  mkIWorld (ibase w) n (i_maxReqs w) (i_warmupReqs w) (i_reqInfo w).
Definition set_i_reqInfo l (w : IWorld) : IWorld :=
  mkIWorld (ibase w) (i_finishedReqs w) (i_maxReqs w) (i_warmupReqs w) l.
Definition on_ibase {A} (m : M (CWorld (App := App)) A) : M IWorld A := zoom ibase set_ibase m.

(** [Server(nthreads), Client(nthreads, 0, 0, 0)]. *)
Definition new_IntegratedServer (env : gmap string string) (nthreads : nat) (a : App) : IWorld :=
  mkIWorld (mkCWorld (new_Client env (Z.of_nat nthreads) 0 0 0) ∅ 0 0 a [] None)
    0 (u64 (int_val (getOpt_val env "TBENCH_MAXREQS" (Int 0))))
    (u64 (int_val (getOpt_val env "TBENCH_WARMUPREQS" (Int 0))))
    (replicate nthreads (mkReqInfo 0 0)).

(** The returned length and the object [*data] points into. *)
Definition recvReq (id : nat) : M IWorld (Z * loc) :=
  l ← on_ibase (startReq genReq clock expo fuel);
  curNs ← on_ibase (now clock);
  r ← on_ibase (load l);
  infos ← gets i_reqInfo;
  match infos !! id with
  | None => undefined
  | Some _ =>
      modify (set_i_reqInfo (<[id := mkReqInfo (req_id r) curNs]> infos));;
      mret (req_len r, l)
  end.

Definition sendResp (id : nat) (data : list byte) (len : Z) : M IWorld () :=
  infos ← gets i_reqInfo;
  match infos !! id with
  | None => undefined
  | Some info =>
      if (MAX_RESP_BYTES <? len) || (Z.of_nat (length data) <? len) then undefined else
      curNs ← on_ibase (now clock);
      assert_ (ri_startNs info <? curNs);;
      on_ibase (finiReq clock (mkResponse (ResponseType_val RESPONSE) (ri_id info)
                  (u64 (curNs - ri_startNs info)) len 0 (buf_write (take (Z.to_nat len) data) [])));;
      modify (fun w => set_i_finishedReqs (u64 (i_finishedReqs w + 1)) w);;
      w ← get;
      if i_finishedReqs w =? i_warmupReqs w then on_ibase (_startRoi clock)
      else if i_finishedReqs w =? u64 (i_warmupReqs w + i_maxReqs w) then
        on_ibase (dumpStats clock);; exit_ 0
      else mret ()
  end.

(** tBenchServerFinish. *)
Definition finish : M IWorld () := on_ibase (dumpStats clock).

(** ** Facts *)

Lemma on_ibase_inv {A} (m : M (CWorld (App := App)) A) w a w' :
  on_ibase m w = Ret a w' -> exists b', m (ibase w) = Ret a b' /\ w' = set_ibase b' w.
Proof. unfold on_ibase, zoom. destruct (m (ibase w)); try done. intros [= <- <-]. eauto. Qed.

Lemma on_ibase_Ret {A} (m : M (CWorld (App := App)) A) w a b' :
  m (ibase w) = Ret a b' -> on_ibase m w = Ret a (set_ibase b' w).
Proof. intros H. unfold on_ibase, zoom. by rewrite H. Qed.

(** Two facts that survive [startReq]: the quota fields and the open region. *)
Definition roi_forever (b : CWorld (App := App)) : Prop :=
  warmupreqs (cl b) = 0 /\ status (cl b) = ROI.

Lemma finiReq_roi_again resp (b : CWorld (App := App)) l r :
  roi_forever b -> inFlightReqs (cl b) !! resp_id resp = Some l -> heap b !! l = Some r ->
  finiReq clock resp b = Abort.
Proof.
  intros [Hw Hs] Hl Hr. destruct (Z.lt_ge_cases (req_genNs r) (ts_ns (clock (tick b)))) as [Hg|Hg].
  - rewrite (finiReq_found clock resp b l r Hl Hr Hg). unfold after_settle. bind_step by reflexivity.
    assert (Ew : warmupreqs (cl (settle clock resp l r b)) = 0) by (simpl; by case_bool_decide).
    rewrite Ew, orb_true_r. apply _startRoi_twice. simpl. case_bool_decide; simpl; congruence.
  - unfold finiReq. bind_step by reflexivity. rewrite Hl.
    bind_step by (unfold load; rewrite Hr; reflexivity). bind_step by reflexivity.
    by rewrite (proj2 (Z.ltb_ge _ _)).
Qed.

Lemma finiReq_ret_roi resp (b : CWorld (App := App)) b' :
  warmupreqs (cl b) = 0 -> finiReq clock resp b = Ret () b' -> roi_forever b'.
Proof.
  intros Hw H. destruct (inFlightReqs (cl b) !! resp_id resp) as [l|] eqn:Hl.
  2: { unfold finiReq in H. apply bind_inv in H as (c & b1 & [= <- <-] & H). by rewrite Hl in H. }
  destruct (heap b !! l) as [r|] eqn:Hr.
  2: { unfold finiReq in H. apply bind_inv in H as (c & b1 & [= <- <-] & H). rewrite Hl in H.
       apply bind_inv in H as (r & b2 & H1 & _). unfold load in H1. by rewrite Hr in H1. }
  destruct (Z.lt_ge_cases (req_genNs r) (ts_ns (clock (tick b)))) as [Hg|Hg].
  - rewrite (finiReq_found clock resp b l r Hl Hr Hg) in H. set (b1 := settle clock resp l r b) in H.
    assert (Ew : warmupreqs (cl b1) = 0) by (simpl; by case_bool_decide).
    unfold after_settle in H. rewrite (bind_Ret (gets cl) _ b1 (cl b1) b1 eq_refl) in H.
    rewrite Ew, orb_true_r in H. destruct (decide (status (cl b1) = WARMUP)) as [Hs|Hs].
    + rewrite (_startRoi_warmup clock b1 Hs) in H. injection H as <-. by split.
    + by rewrite (_startRoi_twice clock b1 Hs) in H.
  - unfold finiReq in H. apply bind_inv in H as (c & b1 & [= <- <-] & H). rewrite Hl in H.
    apply bind_inv in H as (r' & b2 & H1 & H). apply load_inv in H1 as [-> Hr'].
    assert (r' = r) as -> by congruence. apply bind_inv in H as (t & b3 & [= <- <-] & H).
    by rewrite (proj2 (Z.ltb_ge _ _)) in H.
Qed.

(** [startReq] registers the object it returns. *)
Lemma startReq_registers (b : CWorld (App := App)) l b' :
  startReq genReq clock expo fuel b = Ret l b' ->
  warmupreqs (cl b') = warmupreqs (cl b) /\ (status (cl b) = ROI -> status (cl b') = ROI) /\
  exists r, heap b' !! l = Some r /\ inFlightReqs (cl b') !! req_id r = Some l.
Proof.
  unfold startReq. intros H.
  apply bind_inv in H as (startNs & b1 & [= <- <-] & H).
  apply bind_inv in H as (c & b2 & [= <- <-] & H).
  apply bind_inv in H as ([] & b3 & Hinit & H).
  apply bind_inv in H as ([] & b4 & Hqps & H).
  apply bind_inv in H as (l1 & b5 & Hgen & H).
  apply bind_inv in H as ([] & b6 & Hlate & H).
  apply bind_inv in H as ([] & b7 & Hsleep & H). injection H as -> <-.
  assert (H3 : warmupreqs (cl b3) = warmupreqs (cl b) /\ (status (cl b) = ROI -> status (cl b3) = ROI)).
  { cbn [cl set_tick] in Hinit. case_bool_decide as Hi; [|injection Hinit as <-; done].
    split; [|congruence]. unfold startReq_init in Hinit. inv_base.
    destruct (dist _); inv_base; done. }
  assert (H4 : warmupreqs (cl b4) = warmupreqs (cl b3) /\ status (cl b4) = status (cl b3)).
  { unfold startReq_qps in Hqps. inv_base. repeat case_match; inv_base; done. }
  assert (H5 : warmupreqs (cl b5) = warmupreqs (cl b4) /\ status (cl b5) = status (cl b4) /\
    exists r, heap b5 !! l = Some r /\ inFlightReqs (cl b5) !! req_id r = Some l).
  { clear -Hgen. unfold startReq_gen in Hgen. inv_base. destruct (genReq _) as [[data len] a'].
    match goal with E : Ret _ _ = Ret _ _ |- _ => injection E as <- <- end.
    destruct (_ <? _); [done|]. inv_base. destruct (dist _); [|done].
    destruct (nextArrivalNs expo _) as [[t d']|]; [|done]. inv_base.
    match goal with E : alloc _ _ = Ret _ _ |- _ => injection E as <- <- end.
    split; [done|]. split; [done|]. eexists.
    split; [exact (lookup_insert_eq _ _ _)|exact (lookup_insert_eq _ _ _)]. }
  assert (H6 : cl b6 = cl b5 /\ exists r0, heap b5 !! l = Some r0 /\
    heap b6 !! l = Some (set_req_late (req_genNs r0 <? req_startNs r0) r0)).
  { unfold startReq_late in Hlate. apply bind_inv in Hlate as (r0 & b' & Hl & Hs).
    apply load_inv in Hl as [-> Hl]. apply store_inv in Hs as ->. split; [done|].
    exists r0. split; [done|]. simpl. by rewrite lookup_insert_eq. }
  destruct (startReq_sleep_ret clock fuel l b6 b7 Hsleep) as (r6 & Hr6 & _ & _ & k & ->).
  destruct H5 as (W5 & S5 & r & Hr & Hf), H6 as (Ec & r0 & Hr0 & Hr6'), H3 as [W3 S3], H4 as [W4 S4].
  simpl. rewrite Ec. split; [congruence|]. split; [intros Hs; rewrite S5, S4; auto|].
  exists r6. split; [done|]. rewrite Hr6' in Hr6. injection Hr6 as <-. simpl. congruence.
Qed.

Lemma recvReq_registers id w len l w' :
  recvReq id w = Ret (len, l) w' ->
  warmupreqs (cl (ibase w')) = warmupreqs (cl (ibase w)) /\
  (status (cl (ibase w)) = ROI -> status (cl (ibase w')) = ROI) /\
  exists info r, i_reqInfo w' !! id = Some info /\ heap (ibase w') !! l = Some r /\
    inFlightReqs (cl (ibase w')) !! ri_id info = Some l.
Proof.
  unfold recvReq. intros H.
  apply bind_inv in H as (l1 & w1 & H1 & H). apply on_ibase_inv in H1 as (b1 & H1 & ->).
  apply bind_inv in H as (t & w2 & H2 & H). apply on_ibase_inv in H2 as (b2 & [= <- <-] & ->).
  apply bind_inv in H as (r & w3 & H3 & H). apply on_ibase_inv in H3 as (b3 & H3 & ->).
  apply load_inv in H3 as [-> Hr]. apply bind_inv in H as (infos & w4 & [= <- <-] & H).
  destruct (i_reqInfo _ !! id) as [info|] eqn:Hi; [|done].
  apply bind_inv in H as (u & w5 & [= <- <-] & H). injection H as _ <- <-.
  destruct (startReq_registers _ _ _ H1) as (HW & HS & r' & Hr' & Hf). simpl in *.
  split; [done|]. split; [done|]. exists (mkReqInfo (req_id r) (ts_ns (clock (tick b1)))), r.
  split; [apply list_lookup_insert_eq; by eapply lookup_lt_Some|]. split; [done|]. simpl. congruence.
Qed.

Lemma sendResp_ret_roi id data len w w' :
  warmupreqs (cl (ibase w)) = 0 -> sendResp id data len w = Ret () w' -> roi_forever (ibase w').
Proof.
  intros Hw H. unfold sendResp in H. apply bind_inv in H as (infos & w1 & [= <- <-] & H).
  destruct (i_reqInfo w !! id) as [info|]; [|done]. destruct (_ || _); [done|].
  apply bind_inv in H as (t & w2 & H2 & H). apply on_ibase_inv in H2 as (b2 & [= <- <-] & ->).
  apply bind_inv in H as (u & w3 & H3 & H).
  assert (w3 = set_ibase (set_tick (S (tick (ibase w))) (ibase w)) w) as ->
    by (destruct (_ <? _); [by injection H3|done]).
  apply bind_inv in H as (u2 & w4 & H4 & H). apply on_ibase_inv in H4 as (b4 & H4 & ->).
  destruct u2. apply finiReq_ret_roi in H4; [|done].
  apply bind_inv in H as (u3 & w5 & [= <- <-] & H). apply bind_inv in H as (w6 & w7 & [= <- <-] & H).
  cbn [i_finishedReqs i_warmupReqs i_maxReqs set_i_finishedReqs set_ibase] in H.
  destruct (_ =? _); [|destruct (_ =? _)].
  - apply on_ibase_inv in H as (b5 & H & ->). simpl in H.
    rewrite (_startRoi_twice clock b4) in H; [done|]. destruct H4 as [_ ->]. done.
  - apply bind_inv in H as (u4 & w8 & _ & H). done.
  - by injection H as <-.
Qed.

(** The integrated server cannot answer two requests.  It is built with the
    client's [warmupreqs] and [maxreqs] both 0, so every [finiReq] starts the
    region of interest, and the second one fails the assertion of [_startRoi],
    whatever the configured numbers of requests. *)
Theorem integrated_second_response_aborts env nthreads a id data1 len1 data2 len2 r1 w1 w2 r2 w3 :
  recvReq id (new_IntegratedServer env nthreads a) = Ret r1 w1 ->
  sendResp id data1 len1 w1 = Ret () w2 ->
  recvReq id w2 = Ret r2 w3 ->
  0 <= len2 <= MAX_RESP_BYTES -> len2 <= Z.of_nat (length data2) ->
  sendResp id data2 len2 w3 = Abort.
Proof.
  intros H1 H2 H3 Hl Hd. destruct r1 as [n1 l1], r2 as [n2 l2].
  destruct (recvReq_registers _ _ _ _ _ H1) as (W1 & _).
  assert (R2 : roi_forever (ibase w2)) by (eapply sendResp_ret_roi; [|exact H2]; by rewrite W1).
  destruct (recvReq_registers _ _ _ _ _ H3) as (W3 & S3 & info & r & Hi & Hr & Hf).
  destruct R2 as [RW RS]. unfold sendResp. bind_step by reflexivity. rewrite Hi.
  rewrite (proj2 (Z.ltb_ge MAX_RESP_BYTES len2)), (proj2 (Z.ltb_ge _ len2)) by lia. cbn [orb].
  bind_step by (apply on_ibase_Ret; reflexivity).
  destruct (Z.ltb_spec (ri_startNs info) (ts_ns (clock (tick (ibase w3))))); [|done].
  bind_step by reflexivity. unfold mbind, M_bind, on_ibase, zoom. cbn [ibase set_ibase].
  erewrite finiReq_roi_again; [reflexivity| |exact Hf|exact Hr].
  split; simpl; [congruence|auto].
Qed.

End IntegratedServer.

Definition int_run (k : nat) : option (IWorld (App := ())) :=
  let w0 := new_IntegratedServer ∅ 1 () in
  let gen := fun _ : () => (([x61], 1), ()) in
  let clk := fun k => mkTimespec 1 (Z.of_nat k * 1000) in
  match recvReq gen clk example_expo 9 0 w0 with
  | Ret _ w1 => match sendResp clk 0 [x62] 1 w1 with
                | Ret _ w2 => match recvReq gen clk example_expo 9 0 w2 with
                              | Ret _ w3 => match k with 1 => Some w1 | 2 => Some w2 | _ => Some w3 end%nat
                              | _ => None end
                | _ => None end
  | _ => None end.

Lemma integrated_second_response_aborts_witness :
  exists w3, int_run 3 = Some w3 /\
    sendResp (fun k => mkTimespec 1 (Z.of_nat k * 1000)) 0 [x62] 1 w3 = Abort.
Proof.
  destruct (int_run 3) as [w|] eqn:E; [|vm_compute in E; discriminate].
  exists w. split; [reflexivity|]. unfold int_run in E.
  destruct (recvReq _ _ _ _ _ (new_IntegratedServer _ _ _)) as [r1 w1| | | |] eqn:E1; try discriminate.
  destruct (sendResp _ _ _ _ w1) as [[] w2| | | |] eqn:E2; try discriminate.
  destruct (recvReq _ _ _ _ _ w2) as [r2 w3| | | |] eqn:E3; try discriminate.
  injection E as <-.
  apply (integrated_second_response_aborts _ _ _ _ _ _ _ _ _ _ _ _ _ _ _ _ _ E1 E2 E3).
  - split; vm_compute; congruence.
  - vm_compute. congruence.
Defined.
