(* ===== verification/TBench.v ===== *)
(** * The server-side API (src/harness/tbench_server.h)

    [tBenchServerThreadStart], [tBenchRecvReq], [tBenchSendResp] and
    [tBenchServerFinish] over the virtual methods of class Server, for the
    networked and the integrated server, and the JNI wrappers of
    src/harness/tbench_jni.cpp on top of them. *)

From stdpp Require Import strings.
From S2P Require Import Prelude Msgs Helpers Double Dist Env Client NetClient NetServer Integrated.

Open Scope Z_scope.

(** ** The abstract class Server *)

(** [recvReq] returns the length and the bytes of the buffer [*data] points to. *)
Class Server (W : Type) := {
  recvReq : nat -> M W (Z * list byte);
  sendResp : nat -> list byte -> Z -> M W ();
  server_finish : M W ()
}.

Definition NetworkedServer (clock : nat -> timespec) : Server SWorld := {|
  recvReq := NetServer.recvReq clock;
  sendResp := NetServer.sendResp clock;
  server_finish := NetServer.finish
|}.

Definition IntegratedServer {App} (genReq : App -> (list byte * Z) * App) (clock : nat -> timespec)
    (expo : double -> Z -> nat -> double) (fuel : nat) : Server (IWorld (App := App)) := {|
  recvReq := fun id =>
    '(len, l) ← Integrated.recvReq genReq clock expo fuel id;
    r ← on_ibase (load l);
    mret (len, req_data r);
  sendResp := Integrated.sendResp clock;
  server_finish := Integrated.finish clock
|}.

Section API.
Context {W : Type} `{!Server W}.

(** The globals [curTid] and [server]; each thread's [tid] is passed to its calls. *)
Record Globals := mkGlobals { curTid : Z; server : W }.

Definition on_server {A} (m : M W A) : M Globals A :=
  zoom server (fun s g => mkGlobals (curTid g) s) m.

Definition tBenchServerInit (s : W) : Globals := mkGlobals 0 s.

(** [tid = curTid++]. *)
Definition tBenchServerThreadStart : M Globals Z := fun g =>
  Ret (curTid g) (mkGlobals (i32 (curTid g + 1)) (server g)).

(** A negative or out-of-range [tid] indexes outside the per-thread vectors. *)
Definition tBenchRecvReq (tid : Z) : M Globals (Z * list byte) :=
  if tid <? 0 then undefined else on_server (recvReq (Z.to_nat tid)).
Definition tBenchSendResp (tid : Z) (data : list byte) (size : Z) : M Globals () :=
  if tid <? 0 then undefined else on_server (sendResp (Z.to_nat tid) data size).
Definition tBenchServerFinish : M Globals () := on_server server_finish.

(** The ids of [n] threads that start one after another. *)
Fixpoint start_threads (n : nat) : M Globals (list Z) :=
  match n with
  | O => mret []
  | S n' => t ← tBenchServerThreadStart; ts ← start_threads n'; mret (t :: ts)
  end.

Lemma start_threads_from n g :
  0 <= curTid g -> curTid g + Z.of_nat n < 2 ^ 31 ->
  start_threads n g =
    Ret ((fun i => curTid g + Z.of_nat i) <$> seq 0 n) (mkGlobals (curTid g + Z.of_nat n) (server g)).
Proof.
  revert g. induction n as [|n IH]; intros g H0 Hn.
  { simpl. destruct g. by rewrite Z.add_0_r. }
  cbn [start_threads]. bind_step by reflexivity.
  rewrite i32_id by (unfold is_i32; lia).
  bind_step by (apply IH; simpl; lia). cbn [curTid server]. unfold mret, M_ret.
  f_equal; [|f_equal; lia]. cbn [seq fmap list_fmap]. f_equal; [lia|].
  rewrite <- fmap_S_seq, <- list_fmap_compose. apply list_fmap_ext. intros i x _. simpl. lia.
Qed.

(** ** JNI *)

(** [jdata[i] = cdata[i]] for the [len] bytes, handed to a Java byte array. *)
Definition Java_tBenchRecvReq (tid : Z) : M Globals (list byte) :=
  '(len, cdata) ← tBenchRecvReq tid;
  mret (buf_read (Z.to_nat len) cdata).

(** The [size] argument is ignored: the array's own length is used. *)
Definition Java_tBenchSendResp (tid : Z) (arr : list byte) (size : Z) : M Globals () :=
  tBenchSendResp tid arr (Z.of_nat (length arr)).
End API.

(** Worker threads get distinct slots.  The [n] threads that call
    [tBenchServerThreadStart] after [tBenchServerInit] get the ids 0 .. n-1, each
    once; so with [n <= nthreads] every thread has its own entry in the server's
    per-thread vectors, whatever the implementation of the server. *)
Theorem thread_ids_distinct {W} (s : W) (n nthreads : nat) :
  Z.of_nat n < 2 ^ 31 -> (n <= nthreads)%nat ->
  exists ids g, start_threads n (tBenchServerInit s) = Ret ids g /\ length ids = n /\ NoDup ids /\
    Forall (fun t => 0 <= t < Z.of_nat nthreads) ids /\ server g = s.
Proof.
  intros Hn Hle. eexists _, _. split; [apply start_threads_from; simpl; lia|].
  rewrite length_fmap, length_seq. split; [done|]. split; [|split; [|done]].
  - apply NoDup_fmap_2; [|apply NoDup_seq]. intros x y. simpl. lia.
  - apply Forall_forall. intros t (i & -> & Hi)%list_elem_of_fmap. apply elem_of_seq in Hi. simpl. lia.
Qed.

Lemma thread_ids_distinct_witness :
  exists ids g, start_threads 4 (tBenchServerInit ()) = Ret ids g /\ length ids = 4%nat /\ NoDup ids /\
    Forall (fun t => 0 <= t < 4) ids /\ server g = ().
Proof. apply (thread_ids_distinct () 4 4); lia. Defined.
