(* ===== verification/Setup.v ===== *)
(** * Opening the sockets (constructors of NetworkedServer and NetworkedClient)

    Both constructors are a sequence of system calls, each of which ends the
    program with a message if it fails.  The operating system is a parameter:
    it answers each call knowing the calls before it. *)

From stdpp Require Import strings pretty.
From S2P Require Import Prelude Msgs Helpers Double Dist Env Client NetClient NetServer.

Open Scope Z_scope.

(** The calls, with the arguments the program chooses.  The family, type and
    protocol for [Socket] and the address for [Bind] and [Connect] are those of
    the first entry getaddrinfo returned. *)
Inductive sockopt := SO_REUSEADDR | TCP_NODELAY.
Inductive call :=
  | GetAddrInfo (node : option string) (service : string)
  | Socket
  | SetSockOpt (fd : Z) (opt : sockopt) (val : Z)
  | Bind (fd : Z)
  | Listen (fd backlog : Z)
  | Connect (fd : Z)
  | Sleep (seconds : Z).
#[export] Instance sockopt_eq_dec : EqDecision sockopt.
Proof. solve_decision. Defined.
#[export] Instance call_eq_dec : EqDecision call.
Proof. solve_decision. Defined.

(** The calls made, the latest first, and the failure reported on std::cerr. *)
Record SysWorld := mkSys { calls : list call; cerr : list string }.

Section Setup.
Context (os : list call -> call -> Z).

Definition syscall (c : call) : M SysWorld Z :=
  fun w => Ret (os (calls w) c) (mkSys (c :: calls w) (cerr w)).

(** [if (failed) { std::cerr << msg ...; exit(-1); }] *)
Definition check (failed : bool) (msg : string) : M SysWorld () :=
  if failed then modify (fun w => mkSys (calls w) (cerr w ++ [msg])) ;; exit_ (-1) else mret ().

(** [ip.size() > 0 ? ip.c_str() : nullptr] *)
Definition c_str_or_null (ip : string) : option string := if bool_decide (ip = ""%string) then None else Some ip.

(** The part of NetworkedServer's constructor that opens the listening socket. *)
Definition open_listener (ip : string) (port : Z) : M SysWorld Z :=
  status ← syscall (GetAddrInfo (c_str_or_null ip) (pretty port));
  check (negb (status =? 0)) "getaddrinfo() failed: " ;;
  listener ← syscall Socket;
  check (listener =? -1) "socket() failed: " ;;
  r ← syscall (SetSockOpt listener SO_REUSEADDR 1);
  check (r =? -1) "setsockopt() failed: " ;;
  r ← syscall (Bind listener);
  check (r =? -1) "bind() failed: " ;;
  r ← syscall (Listen listener 10);
  check (r =? -1) "listen() failed: " ;;
  mret listener.

(** The whole constructor; [sk], [sel] and [acc] are the environment's part of
    the server's state. *)
Definition construct_NetworkedServer (env : gmap string string) (nthreads : nat) (ip : string) (port : Z)
    (str_file_name : string) (sk : gmap Z sock) (sel : list (option (list Z))) (acc : list accept_res)
  : M SysWorld SWorld :=
  listener ← open_listener ip port;
  mret (new_NetworkedServer env nthreads listener str_file_name sk sel acc).

(** The part of NetworkedClient's constructor that connects to the server. *)
Definition connect_server (serverip : string) (serverport : Z) : M SysWorld Z :=
  status ← syscall (GetAddrInfo (c_str_or_null serverip) (pretty serverport));
  check (negb (status =? 0)) "getaddrinfo() failed: " ;;
  serverFd ← syscall Socket;
  check (serverFd =? -1) "socket() failed: " ;;
  r ← syscall (Connect serverFd);
  check (r =? -1) "connect() failed: " ;;
  r ← syscall (SetSockOpt serverFd TCP_NODELAY 1);
  check (r =? -1) "setsockopt(TCP_NODELAY) failed: " ;;
  _ ← syscall (Sleep 5);
  mret serverFd.

(** The whole constructor around the base object [b]; [sock_of] is the
    connection behind a descriptor. *)
Definition construct_NetworkedClient {App} (b : CWorld (App := App)) (sock_of : Z -> sock) (serverip : string) (serverport : Z)
  : M SysWorld (NWorld App) :=
  fd ← connect_server serverip serverport;
  mret (mkNWorld b (sock_of fd) false false false).

(** ** Facts *)

Ltac setup_steps :=
  unfold open_listener, connect_server, check, syscall, exit_, modify, mbind, M_bind, mret, M_ret; cbn [calls cerr app];
  repeat (match goal with
  | |- context [if ?b then _ else _] => lazymatch b with context [if _ then _ else _] => fail | _ => destruct b eqn:? end
  end; cbn [calls cerr app]).

(** A listener is a socket that was bound before it listens; a failure is reported
    once and ends the program before it listens. *)
Lemma open_listener_ends ip port :
  match open_listener ip port (mkSys [] []) with
  | Ret fd w => fd <> -1 /\ take 2 (calls w) = [Listen fd 10; Bind fd] /\ length (calls w) = 5%nat /\ cerr w = []
  | Exit c w => c = -1 /\ length (cerr w) = 1%nat
  | _ => False
  end.
Proof. setup_steps; first [done | split; [lia|done]]. Qed.

(** The client waits for the server after it has connected. *)
Lemma connect_server_ends ip port :
  match connect_server ip port (mkSys [] []) with
  | Ret fd w => fd <> -1 /\ head (calls w) = Some (Sleep 5) /\ Connect fd ∈ calls w /\ cerr w = []
  | Exit c w => c = -1 /\ length (cerr w) = 1%nat /\ Sleep 5 ∉ calls w
  | _ => False
  end.
Proof. setup_steps; first [done | split; [lia|]; split; [done|]; split; [set_solver|done] | split; [done|]; split; [done|set_solver]]. Qed.

End Setup.

(** Port 8080 in use: bind fails, listen is never called. *)
Example bind_failure :
  let os := fun (_ : list call) c => match c with Socket => 3 | Bind _ => -1 | _ => 0 end in
  open_listener os "" 8080 (mkSys [] []) =
  Exit (-1) (mkSys [Bind 3; SetSockOpt 3 SO_REUSEADDR 1; Socket; GetAddrInfo None "8080"] ["bind() failed: "%string]).
Proof. vm_compute. reflexivity. Qed.
