(* ===== verification/Workers.v ===== *)
(** * Worker threads of the benchmarks

    The two ways in which the benchmark servers share a budget of requests
    between their threads: src/xapian/server.cpp tests a counter and increments
    it after the request, src/img-dnn/img-dnn.cpp takes a ticket before it. *)

From stdpp Require Import relations.
From S2P Require Import Prelude.

(** An invariant of a step relation holds in every reachable state. *)
Lemma rtc_preserves {A} (R : A -> A -> Prop) (P : A -> Prop) :
  (forall x y, P x -> R x y -> P y) -> forall x y, P x -> rtc R x y -> P y.
Proof. intros HR x y Hx Hr. induction Hr as [|x y z Hxy _ IH]; [done|]. eauto. Qed.

(** ** Xapian: [while (numReqsProcessed < numReqsToProcess) { processRequest(); ++numReqsProcessed; }] *)
Module Xapian.

Inductive wpc := Check | Process | Count | Done.

(** [served] counts the calls of [processRequest] that returned. *)
Record state := mk { numReqsProcessed : Z; served : Z; threads : list wpc }.

Section Run.
Context (numReqsToProcess : Z) (K : nat).

(** The thread's next action on the shared counter. *)
Definition run_step (p : wpc) (n : Z) : option (wpc * Z * Z) :=
  match p with
  | Check => Some (if n <? numReqsToProcess then Process else Done, n, 0)
  | Process => Some (Count, n, 1)
  | Count => Some (Check, u64 (n + 1), 0)
  | Done => None
  end.

Inductive step : state -> state -> Prop :=
| step_thread n sv ts i p p' n' d :
    ts !! i = Some p -> run_step p n = Some (p', n', d) ->
    step (mk n sv ts) (mk n' (sv + d) (<[i := p']> ts)).

Definition start : state := mk 0 0 (replicate K Check).

Definition busy (p : wpc) : nat := match p with Process | Count => 1 | _ => 0 end.
Definition counting (p : wpc) : nat := match p with Count => 1 | _ => 0 end.
Definition done_ (p : wpc) : nat := match p with Done => 1 | _ => 0 end.

Record inv (s : state) : Prop := {
  i_threads : length (threads s) = K;
  i_served : served s = numReqsProcessed s + Z.of_nat (sum_list_with counting (threads s));
  i_bound : numReqsProcessed s + Z.of_nat (sum_list_with busy (threads s))
              <= numReqsToProcess + Z.of_nat K - 1;
  i_done : (0 < sum_list_with done_ (threads s))%nat -> numReqsToProcess <= numReqsProcessed s;
  i_nonneg : 0 <= numReqsProcessed s
}.

Context (HK : (0 < K)%nat) (Hn : 0 <= numReqsToProcess) (Hfit : numReqsToProcess + Z.of_nat K < 2 ^ 64).

Lemma busy_le ts : (sum_list_with busy ts <= length ts)%nat.
Proof. induction ts as [|[] ts IH]; simpl; lia. Qed.

Lemma xapian_inv_start : inv start.
Proof.
  assert (sum_list_with busy (replicate K Check) = 0 /\ sum_list_with counting (replicate K Check) = 0 /\
    sum_list_with done_ (replicate K Check) = 0)%nat as (E1 & E2 & E3).
  { generalize K. intros k. by induction k as [|k (?&?&?)]. }
  split; simpl; rewrite ?E1, ?E2, ?E3; try lia. apply length_replicate.
Qed.

Lemma xapian_inv_step s s' : inv s -> step s s' -> inv s'.
Proof.
  intros HI Hst. destruct Hst as [n sv ts i p p' n' d Hi Hs]. destruct HI as [H1 H2 H3 H4 H5]. simpl in *.
  destruct (insert_Permutation ts i p Hi) as (rest & Hp & Hp'). rewrite Hp in H1, H2, H3, H4.
  pose proof (busy_le rest) as Hb. simpl in *.
  destruct p; simplify_eq/=; try destruct (Z.ltb_spec n' numReqsToProcess) as [Hlt|Hge].
  all: try (rewrite u64_id by (unfold is_u64; lia)).
  all: split; simpl; rewrite ?Hp'; simpl; lia.
Qed.

Lemma xapian_inv_reachable s : rtc step start s -> inv s.
Proof.
  intros Hr. exact (rtc_preserves step inv xapian_inv_step start s xapian_inv_start Hr).
Qed.
End Run.

(** C20: Xapian's servers never process fewer requests than asked for, and never
    more than one extra per additional thread; the counter is tested before and
    incremented after a request, so the excess does occur (see the witness). *)
Theorem xapian_overshoot numReqsToProcess K s :
  (0 < K)%nat -> 0 <= numReqsToProcess -> numReqsToProcess + Z.of_nat K < 2 ^ 64 ->
  rtc (step numReqsToProcess) (start K) s ->
  served s <= numReqsToProcess + Z.of_nat K - 1 /\
  (Forall (fun p => p = Done) (threads s) -> numReqsToProcess <= served s).
Proof.
  intros HK Hn Hfit Hr.
  destruct (xapian_inv_reachable numReqsToProcess K HK Hn Hfit s Hr) as [H1 H2 H3 H4 H5].
  assert (Hle : (sum_list_with counting (threads s) <= sum_list_with busy (threads s))%nat).
  { generalize (threads s). intros ts. induction ts as [|[] ts IH]; simpl; lia. }
  split; [lia|]. intros Hd.
  destruct (threads s) as [|p ts]; [simpl in H1; lia|].
  apply Forall_cons in Hd as [-> _]. simpl in *. lia.
Qed.

Ltac thread k := eapply rtc_l; [eapply (step_thread _ _ _ _ k); reflexivity|]; simpl.

(** Two threads pass the test for the only request. *)
Lemma xapian_overshoot_witness :
  rtc (step 1) (start 2) (mk 2 2 [Done; Done]) /\
  (2 <= 1 + Z.of_nat 2 - 1 /\ (Forall (fun p => p = Done) [Done; Done] -> 1 <= 2)).
Proof.
  assert (H : rtc (step 1) (start 2) (mk 2 2 [Done; Done])).
  { thread 0%nat. thread 1%nat. thread 0%nat. thread 1%nat. thread 0%nat. thread 1%nat.
    thread 0%nat. thread 1%nat. apply rtc_refl. }
  split; [exact H|]. apply (xapian_overshoot 1 2 _ ltac:(lia) ltac:(lia) ltac:(lia) H).
Defined.
End Xapian.

(** ** Img-dnn: [while (++nReqsTotal <= maxReqs) { ... }] *)
Module ImgDnn.

Inductive wpc := Ticket | Work | Done.

(** [served] counts completed iterations, [nReqs] of all workers together. *)
Record state := mk { nReqsTotal : Z; served : Z; threads : list wpc }.

Section Run.
Context (maxReqs : Z) (K : nat).

Definition run_step (p : wpc) (n : Z) : option (wpc * Z * Z) :=
  match p with
  | Ticket => let n' := i64 (n + 1) in Some (if n' <=? maxReqs then Work else Done, n', 0)
  | Work => Some (Ticket, n, 1)
  | Done => None
  end.

Inductive step : state -> state -> Prop :=
| step_thread n sv ts i p p' n' d :
    ts !! i = Some p -> run_step p n = Some (p', n', d) ->
    step (mk n sv ts) (mk n' (sv + d) (<[i := p']> ts)).

Definition start : state := mk 0 0 (replicate K Ticket).

Definition working (p : wpc) : nat := match p with Work => 1 | _ => 0 end.
Definition done_ (p : wpc) : nat := match p with Done => 1 | _ => 0 end.

(** Every ticket is being served, was served, or ended a thread. *)
Record inv (s : state) : Prop := {
  i_threads : length (threads s) = K;
  i_total : nReqsTotal s = served s + Z.of_nat (sum_list_with working (threads s))
                           + Z.of_nat (sum_list_with done_ (threads s));
  i_bound : served s + Z.of_nat (sum_list_with working (threads s)) <= maxReqs;
  i_done : (0 < sum_list_with done_ (threads s))%nat ->
             served s + Z.of_nat (sum_list_with working (threads s)) = maxReqs;
  i_nonneg : 0 <= served s
}.

Context (Hn : 0 <= maxReqs) (Hfit : maxReqs + Z.of_nat K < 2 ^ 63).

Lemma done_le ts : (sum_list_with working ts + sum_list_with done_ ts <= length ts)%nat.
Proof. induction ts as [|[] ts IH]; simpl; lia. Qed.

Lemma imgdnn_inv_start : inv start.
Proof.
  assert (sum_list_with working (replicate K Ticket) = 0 /\
    sum_list_with done_ (replicate K Ticket) = 0)%nat as (E1 & E2).
  { generalize K. intros k. by induction k as [|k (?&?)]. }
  split; simpl; rewrite ?E1, ?E2; try lia. apply length_replicate.
Qed.

Lemma imgdnn_inv_step s s' : inv s -> step s s' -> inv s'.
Proof.
  intros HI Hst. destruct Hst as [n sv ts i p p' n' d Hi Hs]. destruct HI as [H1 H2 H3 H4 H5].
  simpl in *. destruct (insert_Permutation ts i p Hi) as (rest & Hp & Hp').
  rewrite Hp in H1, H2, H3, H4. pose proof (done_le rest) as Hb. simpl in *.
  destruct p; simpl in *.
  - rewrite i64_id in Hs by lia.
    destruct (Z.leb_spec (n + 1) maxReqs); simplify_eq/=; split; simpl; rewrite ?Hp'; simpl; lia.
  - simplify_eq/=. split; simpl; rewrite ?Hp'; simpl; lia.
  - done.
Qed.

Lemma imgdnn_inv_reachable s : rtc step start s -> inv s.
Proof.
  intros Hr. exact (rtc_preserves step inv imgdnn_inv_step start s imgdnn_inv_start Hr).
Qed.
End Run.

(** Img-dnn's workers serve exactly the configured number of requests: never
    more, and all of them once every worker has left its loop, for any number of
    workers and any interleaving of the atomic increments. *)
Theorem imgdnn_exact maxReqs K s :
  0 <= maxReqs -> maxReqs + Z.of_nat K < 2 ^ 63 -> rtc (step maxReqs) (start K) s ->
  served s <= maxReqs /\
  ((0 < K)%nat -> Forall (fun p => p = Done) (threads s) -> served s = maxReqs).
Proof.
  intros Hn Hfit Hr. destruct (imgdnn_inv_reachable maxReqs K Hn Hfit s Hr) as [H1 H2 H3 H4 H5].
  split; [lia|]. intros HK Hd.
  assert (Hz : sum_list_with working (threads s) = 0%nat).
  { clear -Hd. by induction Hd as [|p ts -> _ IH]. }
  destruct (threads s) as [|p ts]; [simpl in H1; lia|]. apply Forall_cons in Hd as [-> _].
  rewrite Hz in H4. specialize (H4 ltac:(simpl; lia)). lia.
Qed.

Ltac thread k := eapply rtc_l; [eapply (step_thread _ _ _ _ k); reflexivity|]; simpl.

Lemma imgdnn_exact_witness :
  rtc (step 1) (start 2) (mk 3 1 [Done; Done]) /\
  (1 <= 1 /\ ((0 < 2)%nat -> Forall (fun p => p = Done) [Done; Done] -> 1 = 1)).
Proof.
  assert (H : rtc (step 1) (start 2) (mk 3 1 [Done; Done])).
  { thread 0%nat. thread 1%nat. thread 0%nat. thread 0%nat. apply rtc_refl. }
  split; [exact H|]. exact (imgdnn_exact 1 2 _ ltac:(lia) ltac:(lia) H).
Defined.
End ImgDnn.
