(* ===== verification/Xapian.v ===== *)
(** * The Xapian search benchmark (src/xapian)

    The client's term file and requests (client.cpp), the generator of that file
    (genTerms.cpp), and the server's handling of one request (server.cpp).  The
    search engine itself is a parameter. *)

From stdpp Require Import strings.
From S2P Require Import Prelude Msgs Helpers TBench.

Open Scope Z_scope.

Definition newline : byte := x0a.

(** [std::string] made from a C string: up to the first NUL. *)
Fixpoint c_string (bs : list byte) : list byte :=
  match bs with
  | [] => []
  | b :: bs' => if bool_decide (b = x00) then [] else b :: c_string bs'
  end.

(** ** Input streams *)

Record istream := mkIstream { is_rest : list byte; is_eof : bool; is_fail : bool; is_gcount : Z }.

(** The extraction loop of [getline(s, n)]: [room] more characters fit.  End of
    file is tested first, then the delimiter, then the room. *)
Fixpoint getline_loop (room : nat) (acc rest : list byte) {struct rest} : list byte * istream :=
  match rest with
  | [] => (acc, mkIstream [] true (bool_decide (acc = [])) (Z.of_nat (length acc)))
  | c :: rest' =>
      if bool_decide (c = newline) then (acc, mkIstream rest' false false (Z.of_nat (length acc) + 1))
      else match room with
           | O => (acc, mkIstream rest false true (Z.of_nat (length acc)))
           | S room' => getline_loop room' (acc ++ [c]) rest'
           end
  end.

(** A stream that is not good extracts nothing and stores an empty string. *)
Definition getline (n : nat) (s : istream) : list byte * istream :=
  if is_eof s || is_fail s then ([], mkIstream (is_rest s) (is_eof s) true 0)
  else getline_loop (n - 1) [] (is_rest s).

(** ** TermSet *)

Definition MAX_TERM_LEN : nat := 128.

(** The [while (true)] of the constructor; [None] while it still runs. *)
Fixpoint TermSet_loop (fuel : nat) (terms : list (list byte)) (s : istream)
  : option (outcome () (list (list byte))) :=
  match fuel with
  | O => None
  | S f =>
      let '(term, s') := getline MAX_TERM_LEN s in
      if is_eof s' then Some (Ret terms ())
      else if is_fail s' && (is_gcount s' =? Z.of_nat MAX_TERM_LEN) then Some (Exit (-1) ())
      else TermSet_loop f (terms ++ [c_string term]) s'
  end.

(** The constructor on the contents of the file, if it could be opened. *)
Definition TermSet (fuel : nat) (file : option (list byte)) : option (outcome () (list (list byte))) :=
  match file with
  | None => Some (Exit (-1) ())
  | Some bs => TermSet_loop fuel [] (mkIstream bs false false 0)
  end.

(** [getTerm] with the sampled index, and [tBenchClientGenReq]: the term and its
    terminating NUL. *)
Definition getTerm (terms : list (list byte)) (idx : nat) : option (list byte) := terms !! idx.
Definition tBenchClientGenReq (terms : list (list byte)) (idx : nat) : option (list byte * Z) :=
  term ← getTerm terms idx; Some (term ++ [x00], Z.of_nat (length term) + 1).

(** ** genTerms *)

Definition lowercase (b : byte) : bool := (97 <=? Z_of_byte b) && (Z_of_byte b <=? 122).

(** [find_first_of(lowercase) == 0 && find_first_not_of(lowercase) == npos], and
    the number of matches within the limits. *)
Definition keep_term (msize : list byte -> Z) (term : list byte) : bool :=
  match term with
  | [] => false
  | b :: _ => lowercase b && forallb lowercase term && (100 <=? msize term) && (msize term <=? 1000)
  end.

(** The file written for the terms of the database, [msize] giving [mset.size()]. *)
Definition genTerms (msize : list byte -> Z) (allterms : list (list byte)) : list byte :=
  concat ((fun t => t ++ [newline]) <$> filter (fun t => keep_term msize t = true) allterms).

(** ** Facts *)

Definition plain (l : list byte) : Prop := Forall (fun b => b <> newline /\ b <> x00) l.

Lemma c_string_plain l : plain l -> c_string l = l.
Proof.
  induction 1 as [|b l [_ Hb] _ IH]; [done|]. simpl. by rewrite bool_decide_eq_false_2, IH.
Qed.

Lemma getline_loop_line room acc l rest :
  Forall (fun b => b <> newline) l -> (length l <= room)%nat ->
  getline_loop room acc (l ++ newline :: rest) =
    (acc ++ l, mkIstream rest false false (Z.of_nat (length acc + length l) + 1)).
Proof.
  intros Hl. revert room acc. induction Hl as [|b l Hb _ IH]; intros room acc Hr; simpl.
  - by rewrite app_nil_r, Nat.add_0_r.
  - rewrite bool_decide_eq_false_2 by done. destruct room as [|room]; [simpl in Hr; lia|].
    rewrite IH by (simpl in Hr; lia). rewrite <- app_assoc, length_app. simpl. do 2 f_equal. lia.
Qed.

Lemma getline_loop_end room acc l :
  Forall (fun b => b <> newline) l -> (length l <= room)%nat ->
  is_eof (getline_loop room acc l).2 = true.
Proof.
  intros Hl. revert room acc. induction Hl as [|b l Hb _ IH]; intros room acc Hr; simpl; [done|].
  rewrite bool_decide_eq_false_2 by done. destruct room as [|room]; [simpl in Hr; lia|].
  apply IH. simpl in Hr. lia.
Qed.

Lemma getline_loop_long room acc l rest :
  Forall (fun b => b <> newline) l -> length l = S room ->
  exists t, getline_loop room acc (l ++ rest) =
    (t, mkIstream (drop room l ++ rest) false true (Z.of_nat (length acc + room))).
Proof.
  intros Hl. revert room acc. induction Hl as [|b l Hb _ IH]; intros room acc Hr; [done|]. simpl.
  rewrite bool_decide_eq_false_2 by done. destruct room as [|room].
  - eexists. by rewrite Nat.add_0_r.
  - destruct (IH room (acc ++ [b]) ltac:(simpl in Hr; lia)) as [t ->]. exists t.
    rewrite length_app. simpl. do 2 f_equal. lia.
Qed.

Lemma getline_short s : (length (getline MAX_TERM_LEN s).1 < MAX_TERM_LEN)%nat.
Proof.
  assert (Hl : forall room acc rest, (length (getline_loop room acc rest).1 <= length acc + room)%nat).
  { intros room acc rest. revert room acc.
    induction rest as [|c rest IH]; intros room acc; simpl; [lia|].
    case_bool_decide; simpl; [lia|]. destruct room as [|room]; simpl; [lia|].
    specialize (IH room (acc ++ [c])). rewrite length_app in IH. simpl in IH. lia. }
  unfold getline. destruct (_ || _); [simpl; unfold MAX_TERM_LEN; lia|].
  specialize (Hl (MAX_TERM_LEN - 1)%nat [] (is_rest s)). unfold MAX_TERM_LEN in *. simpl in *. lia.
Qed.

Lemma TermSet_loop_lines lines tail n terms g :
  Forall (fun l => plain l /\ (length l < MAX_TERM_LEN)%nat) lines ->
  Forall (fun b => b <> newline) tail -> (length tail < MAX_TERM_LEN)%nat ->
  (length lines < n)%nat ->
  TermSet_loop n terms
    (mkIstream (concat ((fun t => t ++ [newline]) <$> lines) ++ tail) false false g)
  = Some (Ret (terms ++ lines) ()).
Proof.
  intros Hl Ht Htl. revert n terms g.
  induction Hl as [|l lines [Hp Hlen] _ IH]; intros n terms g Hn; (destruct n as [|n]; [simpl in Hn; lia|]).
  - cbn [TermSet_loop fmap list_fmap concat app]. unfold getline. cbn [is_eof is_fail is_rest orb].
    pose proof (getline_loop_end (MAX_TERM_LEN - 1) [] tail Ht ltac:(lia)) as He.
    destruct (getline_loop _ _ _) as [t s']. simpl in He. by rewrite He, app_nil_r.
  - cbn [TermSet_loop fmap list_fmap concat]. unfold getline. cbn [is_eof is_fail is_rest orb].
    rewrite <- !app_assoc. cbn [app].
    rewrite getline_loop_line; [|by eapply Forall_impl; [exact Hp|intros ? []]|lia].
    cbn [is_eof is_fail is_gcount andb app]. rewrite c_string_plain by done.
    rewrite IH by (simpl in Hn; lia). by rewrite <- app_assoc.
Qed.

(** C21: the terms survive the file.  TermSet reads back, in order, exactly the
    terms genTerms kept, when they are shorter than 128 characters; a last line
    without its newline is ignored.  The loop ends after one round per line. *)
Theorem terms_roundtrip msize allterms tail :
  Forall (fun t => (length t < MAX_TERM_LEN)%nat) allterms ->
  Forall (fun b => b <> newline) tail -> (length tail < MAX_TERM_LEN)%nat ->
  let kept := filter (fun t => keep_term msize t = true) allterms in
  TermSet (S (length kept)) (Some (genTerms msize allterms ++ tail)) = Some (Ret kept ()).
Proof.
  intros Hlen Ht Htl kept. unfold TermSet, genTerms. apply (TermSet_loop_lines _ tail (S (length kept)) []); try done;
    [|apply Nat.lt_succ_diag_r].
  apply Forall_forall. intros t [Hk Hin]%list_elem_of_filter. rewrite Forall_forall in Hlen.
  split; [|by apply Hlen]. unfold keep_term in Hk. destruct t as [|b t]; [constructor|].
  rewrite !andb_true_iff in Hk. destruct Hk as [[[_ Hall] _] _].
  apply Forall_forall. intros c Hc%list_elem_of_In. rewrite forallb_forall in Hall.
  specialize (Hall c Hc). split; intros ->; vm_compute in Hall; discriminate.
Qed.

Lemma terms_roundtrip_witness :
  TermSet 2 (Some (genTerms (fun _ => 500) [[x61; x62]; [x5a]; []] ++ [x61]))
    = Some (Ret [[x61; x62]] ()).
Proof.
  refine (terms_roundtrip (fun _ => 500) [[x61; x62]; [x5a]; []] [x61] _ _ _).
  - repeat constructor; vm_compute; lia.
  - repeat constructor. discriminate.
  - vm_compute. lia.
Defined.

(** Once the stream has failed, the loop only ever appends empty terms. *)
Lemma TermSet_loop_failed n terms r g : TermSet_loop n terms (mkIstream r false true g) = None.
Proof.
  revert terms g. induction n as [|n IH]; intros terms g; [done|]. cbn [TermSet_loop].
  unfold getline. cbn [is_eof is_fail is_rest orb andb is_gcount]. apply IH.
Qed.

(** C22: a term of 128 or more characters makes the constructor run forever: the
    test for a term that is too long compares [gcount()] with 128, but the count
    is 127 when the buffer is full, and the failed stream never reports its end. *)
Theorem long_term_diverges lines long rest n :
  Forall (fun l => plain l /\ (length l < MAX_TERM_LEN)%nat) lines ->
  Forall (fun b => b <> newline) long -> length long = MAX_TERM_LEN ->
  TermSet n (Some (concat ((fun t => t ++ [newline]) <$> lines) ++ long ++ rest)) = None.
Proof.
  intros Hl Hlong Hlen. unfold TermSet. generalize (@nil (list byte)) as terms, 0 as g. revert n.
  induction Hl as [|l lines [Hp Hll] _ IH]; intros n terms g; (destruct n as [|n]; [done|]).
  - cbn [TermSet_loop fmap list_fmap concat app]. unfold getline. cbn [is_eof is_fail is_rest orb].
    destruct (getline_loop_long (MAX_TERM_LEN - 1) [] long rest Hlong Hlen) as [t ->].
    cbn [is_eof is_fail is_gcount andb]. rewrite (proj2 (Z.eqb_neq _ _)) by done.
    apply TermSet_loop_failed.
  - cbn [TermSet_loop fmap list_fmap concat]. unfold getline. cbn [is_eof is_fail is_rest orb].
    rewrite <- !app_assoc. cbn [app].
    rewrite getline_loop_line; [|by eapply Forall_impl; [exact Hp|intros ? []]|lia].
    cbn [is_eof is_fail is_gcount andb app]. apply IH.
Qed.

Lemma long_term_diverges_witness :
  TermSet 1000 (Some (concat ((fun t => t ++ [newline]) <$> [[x61]]) ++ replicate 128 x62 ++ [newline])) = None.
Proof.
  refine (long_term_diverges [[x61]] (replicate 128 x62) [newline] 1000 _ _ _).
  - repeat constructor; vm_compute; try discriminate; lia.
  - apply Forall_replicate. discriminate.
  - reflexivity.
Defined.

(** ** The server: processRequest *)

Definition SERVER_TERM_LEN : Z := 256.
Definition MAX_RES_LEN : Z := Z.shiftl 1 20.
Definition MAX_DOC_COUNT : nat := 25.

Definition u32 (z : Z) : Z := Prelude.u32 z.

(** [memcpy(&res[off], bs, size)]. *)
Definition write_at (off : nat) (bs buf : list byte) : list byte :=
  take off buf ++ bs ++ drop (off + length bs) buf.

(** The loop over the result set: each description is copied behind the space
    [resLen] already counts for it. *)
Fixpoint result_loop {S} (docs : list (list byte)) (resLen : Z) (res : list byte)
  : M S (Z * list byte) :=
  match docs with
  | [] => mret (resLen, res)
  | desc :: docs' =>
      let resLen' := u32 (resLen + Z.of_nat (length desc)) in
      assert_ (resLen' <=? MAX_RES_LEN);;
      if MAX_RES_LEN <? resLen' + Z.of_nat (length desc) then undefined
      else result_loop docs' resLen' (write_at (Z.to_nat resLen') desc res)
  end.

Lemma write_at_end off bs l rest :
  length l = off -> write_at off bs (l ++ rest) = l ++ bs ++ drop (length bs) rest.
Proof.
  intros Hl. unfold write_at. rewrite take_app_exact by done. rewrite drop_app, Hl.
  rewrite drop_ge by lia. by replace (off + length bs - off)%nat with (length bs) by lia.
Qed.

Section Server.
Context {W : Type} `{!Server W}.
(** The documents' descriptions for a query, best first; what the stack holds
    where [res] is allocated. *)
Context (search : list byte -> list (list byte)) (junk : list byte).

Definition processRequest (tid : Z) : M (Globals (W := W)) () :=
  '(len, data) ← tBenchRecvReq tid;
  if SERVER_TERM_LEN <=? len then undefined
  else
    let term := c_string (buf_read (Z.to_nat len) data) in
    '(resLen, res) ← result_loop (take MAX_DOC_COUNT (search term)) 0 junk;
    tBenchSendResp tid res resLen.

(** What the loop leaves when all descriptions have the same length [n]. *)
Lemma result_loop_equal (S : Type) (n : nat) docs done_ (w : S) :
  Forall (fun d => length d = n) docs -> Forall (fun d => length d = n) done_ ->
  Z.of_nat ((length done_ + length docs + 1) * n) <= MAX_RES_LEN ->
  (Z.to_nat MAX_RES_LEN = length junk) ->
  result_loop docs (Z.of_nat (length done_ * n))
    (take n junk ++ concat done_ ++ drop (n + length done_ * n) junk) w
  = Ret (Z.of_nat ((length done_ + length docs) * n),
         take n junk ++ concat (done_ ++ docs) ++ drop (n + (length done_ + length docs) * n) junk) w.
Proof.
  intros Hd. revert done_. induction Hd as [|d docs Hdn _ IH]; intros done_ Hdone Hfit Hj.
  { simpl. by rewrite app_nil_r, !Nat.add_0_r. }
  assert (Hc : length (concat done_) = (length done_ * n)%nat).
  { clear -Hdone. induction Hdone as [|x l Hx _ IH]; [done|]. simpl. by rewrite length_app, Hx, IH. }
  cbn [length] in Hfit. cbn [result_loop]. rewrite Hdn. cbv zeta.
  unfold MAX_RES_LEN in *. change (Z.shiftl 1 20) with 1048576 in *.
  assert (E : u32 (Z.of_nat (length done_ * n) + Z.of_nat n) = Z.of_nat (Datatypes.S (length done_) * n)).
  { unfold u32. rewrite u32_id by nia. lia. }
  rewrite E. unfold mbind, M_bind. rewrite (proj2 (Z.leb_le _ _)) by nia.
  cbn [assert_]. unfold mret, M_ret. rewrite (proj2 (Z.ltb_ge _ _)) by nia.
  replace (write_at _ d _) with
    (take n junk ++ concat (done_ ++ [d]) ++ drop (n + length (done_ ++ [d]) * n) junk).
  - replace (Datatypes.S (length done_) * n)%nat with (length (done_ ++ [d]) * n)%nat
      by (rewrite length_app; simpl; lia).
    rewrite IH; [|apply Forall_app; by repeat constructor|rewrite length_app; simpl; nia|done].
    rewrite <- app_assoc. rewrite length_app. cbn [length app]. f_equal.
    replace (length done_ + 1 + length docs)%nat with (length done_ + Datatypes.S (length docs))%nat by lia.
    done.
  - rewrite Nat2Z.id, !(app_assoc (take n junk)), write_at_end.
    + rewrite concat_app, drop_drop, length_app, Hdn. cbn [concat length].
      rewrite app_nil_r, <- !app_assoc. do 4 f_equal. lia.
    + rewrite length_app, length_take, Hc. nia.
Qed.

(** What Xapian's server answers.  For a request within the term buffer whose
    [k] results have descriptions of equal length [n], the response has [k * n]
    bytes, of which the first [n] are whatever the stack held and the others are
    all descriptions but the last: every description is copied after the offset
    has moved past its place. *)
Theorem xapian_response_shifted tid g len data g1 n docs d :
  tBenchRecvReq tid g = Ret (len, data) g1 -> len < SERVER_TERM_LEN ->
  take MAX_DOC_COUNT (search (c_string (buf_read (Z.to_nat len) data))) = docs ++ [d] ->
  Forall (fun x => length x = n) (docs ++ [d]) ->
  Z.of_nat ((length docs + 2) * n) <= MAX_RES_LEN -> Z.to_nat MAX_RES_LEN = length junk ->
  exists res, processRequest tid g = tBenchSendResp tid res (Z.of_nat ((length docs + 1) * n)) g1 /\
    take ((length docs + 1) * n) res = take n junk ++ concat docs.
Proof.
  intros Hr Hlen Hs Hall Hfit Hj. unfold processRequest. rewrite (bind_Ret _ _ _ _ _ Hr).
  rewrite (proj2 (Z.leb_gt _ _) Hlen). rewrite Hs.
  pose proof (result_loop_equal (Globals (W := W)) n (docs ++ [d]) [] g1 Hall
    (Forall_nil_2 _)) as Hloop.
  rewrite !length_app in Hloop. cbn [length concat app Nat.add Nat.mul] in Hloop.
  rewrite !Nat.add_0_r, take_drop in Hloop.
  rewrite (bind_Ret _ _ _ _ _ (Hloop ltac:(lia) Hj)). eexists. split; [done|].
  apply Forall_app in Hall as [Hdocs Hd]. apply Forall_cons in Hd as [Hd _].
  assert (Hc : length (concat docs) = (length docs * n)%nat).
  { clear -Hdocs. induction Hdocs as [|x l Hx _ IH]; [done|]. simpl. by rewrite length_app, Hx, IH. }
  rewrite concat_app, <- !app_assoc, app_assoc, take_app_exact; [done|].
  rewrite length_app, length_take, Hc. unfold MAX_RES_LEN in *. change (Z.shiftl 1 20) with 1048576 in *. nia.
Qed.
End Server.

(** A server that answers one request. *)
Definition echo_server : Server (list byte) := {|
  recvReq := fun _ w => Ret (Z.of_nat (length w), w) w;
  sendResp := fun _ data len w => Ret () (take (Z.to_nat len) data);
  server_finish := mret ()
|}.

Lemma xapian_response_shifted_witness :
  exists res, processRequest (Server0 := echo_server) (fun _ => [[x61; x62]; [x63; x64]])
      (replicate (Z.to_nat MAX_RES_LEN) x3f) 0 (mkGlobals 1 [x71; x00])
    = tBenchSendResp (Server0 := echo_server) 0 res 4 (mkGlobals 1 [x71; x00]) /\
    take 4 res = [x3f; x3f] ++ [x61; x62].
Proof.
  assert (E : [x3f; x3f] = take 2 (replicate (Z.to_nat MAX_RES_LEN) x3f)) by (vm_compute; reflexivity).
  rewrite E.
  refine (xapian_response_shifted (Server0 := echo_server) (fun _ => [[x61; x62]; [x63; x64]])
    (replicate (Z.to_nat MAX_RES_LEN) x3f) 0 (mkGlobals 1 [x71; x00]) 2 [x71; x00] (mkGlobals 1 [x71; x00])
    2 [[x61; x62]] [x63; x64] eq_refl _ eq_refl _ _ _).
  - reflexivity.
  - repeat constructor.
  - vm_compute. discriminate.
  - symmetry. apply length_replicate.
Defined.

(** The client's terms fit the server's buffers: every request generated from
    a term file that could be read is shorter than the 256 bytes the server
    reserves, and within the harness's request buffer. *)
Theorem xapian_request_fits n file terms idx data len :
  TermSet n file = Some (Ret terms ()) -> tBenchClientGenReq terms idx = Some (data, len) ->
  Z.of_nat (length data) = len /\ 0 < len <= 128 /\ len < SERVER_TERM_LEN.
Proof.
  intros Ht Hg. destruct file as [bs|]; [|done]. unfold TermSet in Ht.
  assert (Hb : Forall (fun t => (length t < MAX_TERM_LEN)%nat) terms).
  { revert Ht. assert (H0 : Forall (fun t : list byte => (length t < MAX_TERM_LEN)%nat) []) by done.
    revert H0. generalize (@nil (list byte)) as ts, (mkIstream bs false false 0) as s.
    induction n as [|n IH]; intros ts s Hts; cbn [TermSet_loop]; [done|].
    destruct (getline MAX_TERM_LEN s) as [term s'] eqn:E.
    assert (Hterm : (length (c_string term) < MAX_TERM_LEN)%nat).
    { eapply Nat.le_lt_trans; [|apply (getline_short s)]. rewrite E. simpl.
      clear. induction term as [|b l IHl]; simpl; [lia|]. case_bool_decide; simpl; lia. }
    destruct (is_eof s'); [intros [= <-]; done|]. destruct (_ && _); [done|].
    apply IH. apply Forall_app_2; [done|]. apply Forall_singleton. done. }
  unfold tBenchClientGenReq, getTerm in Hg. destruct (terms !! idx) as [t|] eqn:Et; [|done].
  injection Hg as <- <-. pose proof (Forall_lookup_1 _ _ _ _ Hb Et) as Hlt.
  unfold MAX_TERM_LEN, SERVER_TERM_LEN in *. rewrite length_app. simpl. lia.
Qed.


Lemma xapian_request_fits_witness :
  exists terms data len, TermSet 3 (Some [x61; x62; x0a; x63; x0a]) = Some (Ret terms ()) /\
    tBenchClientGenReq terms 0 = Some (data, len) /\
    Z.of_nat (length data) = len /\ 0 < len <= 128 /\ len < SERVER_TERM_LEN.
Proof.
  exists [[x61; x62]; [x63]], [x61; x62; x00], 3.
  assert (E1 : TermSet 3 (Some [x61; x62; x0a; x63; x0a]) = Some (Ret [[x61; x62]; [x63]] ()))
    by (vm_compute; reflexivity).
  split; [exact E1|]. split; [reflexivity|].
  exact (xapian_request_fits 3 _ _ 0 [x61; x62; x00] 3 E1 eq_refl).
Defined.
