(* ===== verification/ImgDnn.v ===== *)
(** * The image-recognition benchmark (src/img-dnn)

    Reading the MNIST files (common.cpp), the request format (common.h), the
    client's choice of an image (client.cpp) and the decision of the classifier
    (img-dnn.cpp).  Matrix algebra is OpenCV's and is not modelled; a matrix of
    doubles is a list of rows of 64-bit patterns. *)

From stdpp Require Import strings.
From S2P Require Import Prelude Msgs Double.

Open Scope Z_scope.

(** ** MNIST files *)

(** [ReverseInt]: the four bytes of an [int] in the opposite order. *)
Definition ReverseInt (i : Z) : Z :=
  let ch1 := Z.land i 255 in
  let ch2 := Z.land (Z.shiftr i 8) 255 in
  let ch3 := Z.land (Z.shiftr i 16) 255 in
  let ch4 := Z.land (Z.shiftr i 24) 255 in
  i32 (i32 (i32 (i32 (Z.shiftl ch1 24) + Z.shiftl ch2 16) + Z.shiftl ch3 8) + ch4).

(** [file.read((char* )&v, 4)] into a zeroed [int]: at the end of the file only the
    bytes that are left are stored. *)
Definition read_int (f : list byte) : Z * list byte := (i32 (le_value (take 4 f)), drop 4 f).
Definition read_uchar (f : list byte) : byte * list byte :=
  match f with [] => (x00, []) | b :: f' => (b, f') end.

(** One row, one image, all images: the nested loops. *)
Fixpoint read_row (n_cols : nat) (f : list byte) : list byte * list byte :=
  match n_cols with
  | O => ([], f)
  | S n => let '(b, f1) := read_uchar f in let '(bs, f2) := read_row n f1 in (b :: bs, f2)
  end.
Fixpoint read_image (n_rows n_cols : nat) (f : list byte) : list (list byte) * list byte :=
  match n_rows with
  | O => ([], f)
  | S n => let '(r, f1) := read_row n_cols f in let '(rs, f2) := read_image n n_cols f1 in (r :: rs, f2)
  end.
Fixpoint read_images (n n_rows n_cols : nat) (f : list byte) : list (list (list byte)) :=
  match n with
  | O => []
  | S n' => let '(im, f1) := read_image n_rows n_cols f in im :: read_images n' n_rows n_cols f1
  end.

(** A negative count or size makes the loops run zero times. *)
Definition read_Mnist (file : option (list byte)) : outcome () (list (list (list byte))) :=
  match file with
  | None => Exit (-1) ()
  | Some f =>
      let '(magic, f1) := read_int f in
      let '(n, f2) := read_int f1 in
      let '(rows, f3) := read_int f2 in
      let '(cols, f4) := read_int f3 in
      Ret (read_images (Z.to_nat (ReverseInt n)) (Z.to_nat (ReverseInt rows))
             (Z.to_nat (ReverseInt cols)) f4) ()
  end.

(** [mat] has [size] columns: a label beyond them is written outside. *)
Definition read_Mnist_Label (size : nat) (file : option (list byte)) : option (list byte) :=
  match file with
  | None => Some (replicate size x00)
  | Some f =>
      let '(magic, f1) := read_int f in
      let '(n, f2) := read_int f1 in
      let cnt := Z.to_nat (ReverseInt n) in
      if (size <? cnt)%nat then None
      else Some ((read_row cnt f2).1 ++ replicate (size - cnt) x00)
  end.

(** A file in the format: big-endian header and pixels in order. *)
Definition be4 (z : Z) : list byte := rev (le_bytes 4 z).
Definition mnist_file (magic : Z) (n_rows n_cols : nat) (imgs : list (list (list byte))) : list byte :=
  be4 magic ++ be4 (Z.of_nat (length imgs)) ++ be4 (Z.of_nat n_rows) ++ be4 (Z.of_nat n_cols) ++
  concat ((fun im => concat im) <$> imgs).

(** ** Facts *)

Lemma i32_byte0 y : i32 y mod 2 ^ 8 = y mod 256.
Proof. unfold i32. change (2 ^ 8) with 256. Z.div_mod_to_equations. lia. Qed.
Lemma i32_byte1 y : (i32 y / 2 ^ 8) mod 2 ^ 8 = (y / 256) mod 256.
Proof. unfold i32. change (2 ^ 8) with 256. Z.div_mod_to_equations. lia. Qed.
Lemma i32_byte2 y : (i32 y / 2 ^ 16) mod 2 ^ 8 = (y / 65536) mod 256.
Proof. unfold i32. change (2 ^ 16) with 65536. change (2 ^ 8) with 256. Z.div_mod_to_equations. lia. Qed.
Lemma i32_byte3 y : (i32 y / 2 ^ 24) mod 2 ^ 8 = (y / 16777216) mod 256.
Proof. unfold i32. change (2 ^ 24) with 16777216. change (2 ^ 8) with 256. Z.div_mod_to_equations. lia. Qed.

Lemma ReverseInt_be z : 0 <= z < 2 ^ 31 -> ReverseInt (i32 (le_value (be4 z))) = z.
Proof.
  intros Hz. unfold be4. cbn [le_bytes rev app le_value]. rewrite !Z_of_byte_of_Z.
  unfold ReverseInt. cbv zeta.
  change 255 with (Z.ones 8). rewrite !Z.land_ones, !Z.shiftr_div_pow2 by lia.
  rewrite i32_byte0, i32_byte1, i32_byte2, i32_byte3.
  rewrite !Z.shiftl_mul_pow2 by lia.
  set (b0 := z mod 256). set (b1 := (z / 256) mod 256). set (b2 := (z / 256 / 256) mod 256).
  set (b3 := (z / 256 / 256 / 256) mod 256).
  assert (H0 : 0 <= b0 < 256) by (apply Z.mod_pos_bound; lia).
  assert (H1 : 0 <= b1 < 256) by (apply Z.mod_pos_bound; lia).
  assert (H2 : 0 <= b2 < 256) by (apply Z.mod_pos_bound; lia).
  assert (H3 : 0 <= b3 < 128) by (unfold b3; Z.div_mod_to_equations; lia).
  assert (Hzz : z = b0 + 256 * b1 + 65536 * b2 + 16777216 * b3)
    by (unfold b0, b1, b2, b3; Z.div_mod_to_equations; lia).
  set (y := b3 + _).
  assert (E0 : y mod 256 = b3) by (unfold y; Z.div_mod_to_equations; lia).
  assert (E1 : (y / 256) mod 256 = b2) by (unfold y; Z.div_mod_to_equations; lia).
  assert (E2 : (y / 65536) mod 256 = b1) by (unfold y; Z.div_mod_to_equations; lia).
  assert (E3 : (y / 16777216) mod 256 = b0) by (unfold y; Z.div_mod_to_equations; lia).
  rewrite E0, E1, E2, E3. rewrite (i32_id (b3 * 2 ^ 24)) by (unfold is_i32; lia).
  rewrite (i32_id (b3 * 2 ^ 24 + b2 * 2 ^ 16)) by (unfold is_i32; lia).
  rewrite (i32_id (_ + b1 * 2 ^ 8)) by (unfold is_i32; lia).
  rewrite i32_id by (unfold is_i32; lia). lia.
Qed.

Lemma read_int_be z f : 0 <= z < 2 ^ 31 -> exists v, read_int (be4 z ++ f) = (v, f) /\ ReverseInt v = z.
Proof.
  intros Hz. assert (Hl : length (be4 z) = 4%nat) by (unfold be4; by rewrite length_rev, length_le_bytes).
  eexists. split; [unfold read_int; by rewrite take_app_exact, drop_app_exact|]. by apply ReverseInt_be.
Qed.

Lemma read_row_app row f : read_row (length row) (row ++ f) = (row, f).
Proof. induction row as [|b row IH]; [done|]. simpl. by rewrite IH. Qed.

Lemma read_image_app rows c f :
  Forall (fun r => length r = c) rows -> read_image (length rows) c (concat rows ++ f) = (rows, f).
Proof.
  induction 1 as [|r rows Hr _ IH]; [done|]. simpl. rewrite <- app_assoc, <- Hr, read_row_app.
  by rewrite Hr, IH.
Qed.

Lemma read_images_app imgs nr nc :
  Forall (fun im => length im = nr /\ Forall (fun r => length r = nc) im) imgs ->
  read_images (length imgs) nr nc (concat ((fun im => concat im) <$> imgs)) = imgs.
Proof.
  induction 1 as [|im imgs [Hn Hr] _ IH]; [done|]. rewrite fmap_cons.
  cbn [concat length read_images]. rewrite <- Hn, read_image_app by done.
  by rewrite Hn, IH.
Qed.

(** [read_Mnist] inverts the MNIST format: whatever the magic number, the
    images of a well-formed file come back with every pixel in its row and
    column, in order. *)
Theorem read_Mnist_roundtrip magic nr nc imgs :
  0 <= magic < 2 ^ 31 -> Z.of_nat nr < 2 ^ 31 -> Z.of_nat nc < 2 ^ 31 -> Z.of_nat (length imgs) < 2 ^ 31 ->
  Forall (fun im => length im = nr /\ Forall (fun r => length r = nc) im) imgs ->
  read_Mnist (Some (mnist_file magic nr nc imgs)) = Ret imgs ().
Proof.
  intros Hm Hr Hc Hn Hall. unfold read_Mnist, mnist_file.
  destruct (read_int_be magic (be4 (Z.of_nat (length imgs)) ++ be4 (Z.of_nat nr) ++ be4 (Z.of_nat nc) ++
    concat ((fun im => concat im) <$> imgs)) Hm) as (v1 & -> & _).
  destruct (read_int_be (Z.of_nat (length imgs)) (be4 (Z.of_nat nr) ++ be4 (Z.of_nat nc) ++
    concat ((fun im => concat im) <$> imgs)) ltac:(lia)) as (v2 & -> & ->).
  destruct (read_int_be (Z.of_nat nr) (be4 (Z.of_nat nc) ++
    concat ((fun im => concat im) <$> imgs)) ltac:(lia)) as (v3 & -> & ->).
  destruct (read_int_be (Z.of_nat nc) (concat ((fun im => concat im) <$> imgs)) ltac:(lia)) as (v4 & -> & ->).
  rewrite !Nat2Z.id. by rewrite read_images_app.
Qed.

Lemma read_Mnist_roundtrip_witness :
  read_Mnist (Some (mnist_file 2051 1 2 [[[x01; xff]]; [[x02; x80]]]))
    = Ret [[[x01; xff]]; [[x02; x80]]] ().
Proof.
  apply (read_Mnist_roundtrip 2051 1 2 [[[x01; xff]]; [[x02; x80]]]); try (simpl; lia).
  repeat constructor.
Defined.

(** ** Requests *)

Definition smat_rows : nat := 784.
Definition smat_cols : nat := 1.

Abbreviation mat := (list (list Z)).
Definition mat_at (m : mat) (r c : nat) : option Z := row ← m !! r; row !! c.

(** The nested loops of [SerializedMat::serialize]; [None] outside the matrix. *)
Definition serialize (m : mat) : option (list Z) :=
  vs ← mapM (fun r => mapM (fun c => mat_at m r c) (seq 0 smat_cols)) (seq 0 smat_rows);
  Some (concat vs).

(** [SerializedMat::deserialize] of the [data] array. *)
Fixpoint take_rows (n c : nat) (data : list Z) : option mat :=
  match n with
  | O => Some []
  | S n' => if (length data <? c)%nat then None
            else rows ← take_rows n' c (drop c data); Some (take c data :: rows)
  end.
Definition deserialize (data : list Z) : option mat := take_rows smat_rows smat_cols data.

(** The bytes of the [data] array, and the array in received bytes. *)
Definition smat_image (data : list Z) : list byte := concat (le_bytes 8 <$> data).
Fixpoint smat_words (n : nat) (bs : list byte) : list Z :=
  match n with O => [] | S n' => le_value (take 8 bs) :: smat_words n' (drop 8 bs) end.

(** [testX(Rect(req, 0, 1, testX.rows))]. *)
Definition column (req : nat) (m : mat) : option mat := mapM (fun row => v ← row !! req; Some [v]) m.

(** [Client::get]: the bytes and the length [sizeof(smat)]. *)
Definition get (testX : mat) (req : nat) : option (list byte * Z) :=
  single ← column req testX;
  data ← serialize single;
  Some (smat_image data, Z.of_nat (8 * smat_rows * smat_cols)).

(** What the worker makes of the request's bytes. *)
Definition receive (bs : list byte) : option mat := deserialize (smat_words (smat_rows * smat_cols) bs).

Lemma smat_words_image data rest :
  Forall is_u64 data -> smat_words (length data) (smat_image data ++ rest) = data.
Proof.
  induction 1 as [|v data Hv _ IH]; [done|]. unfold smat_image in *. cbn [fmap list_fmap concat length smat_words].
  rewrite <- app_assoc, take_app_exact, drop_app_exact by apply length_le_bytes.
  by rewrite IH, le_value_u64.
Qed.

Lemma take_rows_singletons (data : list Z) : take_rows (length data) 1 data = Some ((fun v => [v]) <$> data).
Proof. induction data as [|v data IH]; [done|]. simpl. by rewrite drop_0, IH. Qed.

Lemma serialize_rows m k vs :
  (forall r, (r < length vs)%nat -> mat_at m (k + r) 0 = vs !! r) ->
  mapM (fun r => mapM (fun c => mat_at m r c) (seq 0 smat_cols)) (seq k (length vs))
    = Some ((fun v => [v]) <$> vs).
Proof.
  intros H. apply mapM_Some, Forall2_same_length_lookup_2.
  { by rewrite length_seq, length_fmap. }
  intros i x y Hx Hy. apply lookup_seq in Hx as [-> Hi].
  rewrite list_lookup_fmap in Hy. destruct (vs !! i) as [v|] eqn:Ev; [|done]. injection Hy as <-.
  rewrite <- H in Ev by done. unfold smat_cols. simpl. by rewrite Ev.
Qed.

Lemma column_singletons req m s :
  column req m = Some s -> exists vs, s = (fun v => [v]) <$> vs /\ length vs = length m /\
    (Forall (Forall is_u64) m -> Forall is_u64 vs).
Proof.
  unfold column. intros H. apply mapM_Some in H. induction H as [|row x m s Hx _ IH].
  - by exists [].
  - destruct IH as (vs & -> & Hl & Hu). destruct (row !! req) as [v|] eqn:E; [|done].
    injection Hx as <-. exists (v :: vs). split; [done|]. split; [simpl; congruence|].
    intros [Hrow Hm]%Forall_cons. constructor; [|auto]. by eapply Forall_lookup_1.
Qed.

(** An image travels intact.  The request the client builds from image [req]
    of the test set is 6272 bytes, fits the request buffer, and the worker
    deserialises from it (whatever follows in its buffer) exactly that column of
    the test matrix, bit for bit. *)
Theorem image_request_roundtrip testX req bs len rest :
  length testX = smat_rows -> Forall (Forall is_u64) testX -> get testX req = Some (bs, len) ->
  Z.of_nat (length bs) = len /\ len = 6272 /\ len <= MAX_REQ_BYTES /\
  receive (bs ++ rest) = column req testX.
Proof.
  intros Hrows Hu Hg. unfold get in Hg. destruct (column req testX) as [s|] eqn:Ec; [|done].
  destruct (column_singletons req testX s Ec) as (vs & -> & Hl & Huv). cbn [mbind option_bind] in Hg.
  assert (Es : serialize ((fun v => [v]) <$> vs) = Some vs).
  { unfold serialize. rewrite <- Hrows, <- Hl, (serialize_rows _ 0 vs).
    - cbn [mbind option_bind]. f_equal. clear. induction vs as [|v vs IH]; [done|].
      rewrite fmap_cons. cbn [concat app]. by rewrite IH.
    - intros r Hr. unfold mat_at. rewrite Nat.add_0_l, list_lookup_fmap.
      destruct (lookup_lt_is_Some_2 vs r Hr) as [v ->]. done. }
  rewrite Es in Hg. cbn [mbind option_bind] in Hg. injection Hg as <- <-.
  assert (Hlen : forall vs, length (smat_image vs) = (8 * length vs)%nat).
  { clear. intros vs. induction vs as [|v vs IH]; [done|]. unfold smat_image in *.
    rewrite fmap_cons. cbn [concat length]. rewrite length_app, length_le_bytes, IH. lia. }
  split; [rewrite Hlen; unfold smat_rows, smat_cols in *; lia|]. split; [done|].
  split; [vm_compute; discriminate|].
  unfold receive, deserialize. replace (smat_rows * smat_cols)%nat with (length vs)
    by (unfold smat_cols; lia).
  rewrite smat_words_image by auto. rewrite <- Hrows, <- Hl. apply take_rows_singletons.
Qed.

Lemma image_request_roundtrip_witness :
  exists bs, get (replicate 784 [5; 4611686018427387904]) 1 = Some (bs, 6272) /\
    Z.of_nat (length bs) = 6272 /\ 6272 = 6272 /\ 6272 <= MAX_REQ_BYTES /\
    receive (bs ++ [x00]) = column 1 (replicate 784 [5; 4611686018427387904]).
Proof.
  destruct (get (replicate 784 [5; 4611686018427387904]) 1) as [[bs len]|] eqn:E.
  2: { vm_compute in E. discriminate. }
  assert (Hl : len = 6272).
  { assert (forall x, get (replicate 784 [5; 4611686018427387904]) 1 = Some x -> x.2 = 6272) as Hx.
    { intros [b l]. unfold get. destruct (column _ _); [|done]. simpl. destruct (serialize _); [|done].
      simpl. by intros [= _ <-]. }
    exact (Hx _ E). }
  subst len. exists bs. split; [reflexivity|].
  refine (image_request_roundtrip (replicate 784 [5; 4611686018427387904]) 1 bs 6272 [x00] _ _ E).
  - reflexivity.
  - apply Forall_replicate. repeat constructor; vm_compute; discriminate.
Defined.
