(* ===== verification/KPermuter.v ===== *)
(** * Key permutations of Masstree's leaves (src/masstree/kpermuter.hh)

    A kpermuter packs the order of a leaf's slots into one machine word: the low
    nibble is the number of live slots, nibble [i + 1] is the slot at position
    [i], the positions past the size hold the free slots.  The operations are
    translated with their shifts and masks; the theorems read the word as two
    lists of slots and show that every operation is the list operation its
    documentation promises. *)

From S2P Require Import Prelude.

Open Scope Z_scope.

(** ** sized_kpermuter_info *)
Record kpermuter_info := mkInfo {
  storage_size : Z;    (* sizeof(storage_type) *)
  value_bits : Z;      (* width of value_type *)
  initial_value : Z;
  full_value : Z
}.

(** The specialisation [(width > 3) + (width > 7) + (width > 15)] selects; there
    is none for a width above 15. *)
Definition sized_kpermuter_info (width : Z) : kpermuter_info :=
  if width <=? 3 then mkInfo 2 32 0x0120 0x2100
  else if width <=? 7 then mkInfo 4 32 0x01234560 0x65432100
  else mkInfo 8 64 0x0123456789ABCDE0 0xEDCBA98765432100.

Section KPermuter.
Context (width : Z).

Definition vbits : Z := value_bits (sized_kpermuter_info width).
Definition max_width : Z := storage_size (sized_kpermuter_info width) * 2 - 1.

(** Conversion to value_type and its complement operator. *)
Definition vt (z : Z) : Z := z mod 2 ^ vbits.
Definition vnot (z : Z) : Z := vt (Z.lnot z).

Definition make_empty : Z :=
  let p := Z.shiftr (initial_value (sized_kpermuter_info width)) (Z.shiftl (max_width - width) 2) in
  Z.land p (vnot 15).

Definition make_sorted (n : Z) : Z :=
  let mask := vt ((if n =? width then 0 else vt (Z.shiftl 16 (Z.shiftl n 2))) - 1) in
  Z.lor (Z.lor (vt (Z.shiftl make_empty (Z.shiftl n 2)))
           (Z.land (full_value (sized_kpermuter_info width)) mask)) n.

Definition size (x_ : Z) : Z := Z.land x_ 15.
Definition at_ (x_ i : Z) : Z := Z.land (Z.shiftr x_ (Z.shiftl i 2 + 4)) 15.
Definition back (x_ : Z) : Z := at_ x_ (width - 1).
Definition value_from (x_ i : Z) : Z := Z.shiftr x_ (Z.shiftl (i + 1) 2).

Definition set_size (x_ n : Z) : Z := Z.lor (Z.land x_ (vnot 15)) n.

(** The allocated slot and the new word. *)
Definition insert_from_back (x_ i : Z) : Z * Z :=
  let value := back x_ in
  (value,
   Z.lor (Z.lor
     (Z.land (vt (x_ + 1)) (vt (vt (Z.shiftl 16 (Z.shiftl i 2)) - 1)))
     (vt (Z.shiftl value (Z.shiftl i 2 + 4))))
     (Z.land (vt (Z.shiftl x_ 4)) (vnot (vt (vt (Z.shiftl 256 (Z.shiftl i 2)) - 1))))).

Definition insert_selected (x_ di si : Z) : Z :=
  let value := at_ x_ si in
  let mask := vt (vt (Z.shiftl 256 (Z.shiftl si 2)) - 1) in
  Z.lor (Z.lor (Z.lor
    (Z.land (vt (x_ + 1)) (vt (vt (Z.shiftl 16 (Z.shiftl di 2)) - 1)))
    (vt (Z.shiftl value (Z.shiftl di 2 + 4))))
    (Z.land (Z.land (vt (Z.shiftl x_ 4)) mask) (vnot (vt (vt (Z.shiftl 256 (Z.shiftl di 2)) - 1)))))
    (Z.land x_ (vnot mask)).

Definition remove (x_ i : Z) : Z :=
  if Z.land x_ 15 =? i + 1 then vt (x_ - 1)
  else
    let rot_amount := Z.shiftl (Z.land x_ 15 - i - 1) 2 in
    let rot_mask := vt (Z.shiftl (vt (vt (Z.shiftl 16 rot_amount) - 1)) (Z.shiftl (i + 1) 2)) in
    Z.lor (Z.lor
      (Z.land (vt (x_ - 1)) (vnot rot_mask))
      (Z.land (Z.shiftr (Z.land x_ rot_mask) 4) rot_mask))
      (Z.land (vt (Z.shiftl (Z.land x_ rot_mask) rot_amount)) rot_mask).

Definition remove_to_back (x_ i : Z) : Z :=
  let mask := vnot (vt (vt (Z.shiftl 16 (Z.shiftl i 2)) - 1)) in
  let x := Z.land x_ (vt (vt (Z.shiftl 16 (Z.shiftl width 2)) - 1)) in
  Z.lor (Z.lor
    (Z.land (vt (x - 1)) (vnot mask))
    (Z.land (Z.shiftr x 4) mask))
    (vt (Z.shiftl (Z.land x mask) (Z.shiftl (width - i - 1) 2))).

Definition rotate (x_ i j : Z) : Z :=
  let mask := vt ((if i =? width then 0 else vt (Z.shiftl 16 (Z.shiftl i 2))) - 1) in
  let x := Z.land x_ (vt (vt (Z.shiftl 16 (Z.shiftl width 2)) - 1)) in
  Z.lor (Z.lor
    (Z.land x mask)
    (Z.land (Z.shiftr x (Z.shiftl (j - i) 2)) (vnot mask)))
    (vt (Z.shiftl (Z.land x (vnot mask)) (Z.shiftl (width - j) 2))).

Definition exchange (x_ i j : Z) : Z :=
  let diff := Z.land (Z.lxor (Z.shiftr x_ (Z.shiftl i 2)) (Z.shiftr x_ (Z.shiftl j 2))) 240 in
  Z.lxor x_ (Z.lor (vt (Z.shiftl diff (Z.shiftl i 2))) (vt (Z.shiftl diff (Z.shiftl j 2)))).

(** [for (int i = 0; i < width; ++i, diff <<= 4, p <<= 4)]. *)
Fixpoint exchange_values_loop (n : nat) (x y diff p : Z) : Z :=
  match n with
  | O => diff
  | S n' =>
      let v := Z.land (Z.shiftr p (Z.shiftl width 2)) 15 in
      let diff' := Z.lxor diff (if (v =? x) || (v =? y) then Z.lxor x y else 0) in
      exchange_values_loop n' x y (vt (Z.shiftl diff' 4)) (vt (Z.shiftl p 4))
  end.
Definition exchange_values (x_ x y : Z) : Z :=
  Z.lxor x_ (exchange_values_loop (Z.to_nat width) x y 0 x_).

(** ** Nibbles *)

Definition nib (x k : Z) : Z := Z.land (Z.shiftr x (4 * k)) 15.

Lemma nib_bit x k b : 0 <= k -> 0 <= b -> Z.testbit (nib x k) b = Z.testbit x (4 * k + b) && (b <? 4).
Proof.
  intros ??. unfold nib. change 15 with (Z.ones 4).
  rewrite Z.land_spec, Z.shiftr_spec, Z.testbit_ones_nonneg by lia. f_equal. f_equal. lia.
Qed.

Lemma nib_ext x y k j :
  0 <= k -> 0 <= j -> (forall b, 0 <= b < 4 -> Z.testbit x (4 * k + b) = Z.testbit y (4 * j + b)) ->
  nib x k = nib y j.
Proof.
  intros ?? H. apply Z.bits_inj'. intros b Hb. rewrite !nib_bit by lia.
  destruct (Z.ltb_spec b 4); [rewrite H by lia|rewrite !andb_false_r]; reflexivity.
Qed.

Lemma nib_0 k : nib 0 k = 0.
Proof. unfold nib. rewrite Z.shiftr_0_l. reflexivity. Qed.

Lemma nib_range x k : 0 <= nib x k < 16.
Proof.
  unfold nib. change 15 with (Z.ones 4). rewrite Z.land_ones by lia. apply Z.mod_pos_bound. lia.
Qed.

Lemma nib_lor x y k : nib (Z.lor x y) k = Z.lor (nib x k) (nib y k).
Proof. unfold nib. rewrite Z.shiftr_lor, Z.land_lor_distr_l. reflexivity. Qed.

Lemma nib_lxor x y k : 0 <= k -> nib (Z.lxor x y) k = Z.lxor (nib x k) (nib y k).
Proof.
  intros Hk. apply Z.bits_inj'. intros b Hb.
  rewrite Z.lxor_spec, !nib_bit, Z.lxor_spec by lia. destruct (b <? 4); rewrite ?andb_true_r, ?andb_false_r; reflexivity.
Qed.

Lemma nib_shiftr x m k : 0 <= k -> 0 <= m -> nib (Z.shiftr x (4 * m)) k = nib x (k + m).
Proof. intros ??. unfold nib. rewrite Z.shiftr_shiftr by lia. do 2 f_equal. lia. Qed.

Lemma nib_land x y k : nib (Z.land x y) k = Z.land (nib x k) (nib y k).
Proof.
  unfold nib. rewrite Z.shiftr_land. apply Z.bits_inj'. intros b Hb. rewrite !Z.land_spec.
  destruct (Z.testbit 15 b); rewrite ?andb_true_r, ?andb_false_r; reflexivity.
Qed.
Lemma nib_ones m k : 0 <= k -> 0 <= m -> nib (Z.ones (4 * m)) k = if k <? m then 15 else 0.
Proof.
  intros ??. destruct (Z.ltb_spec k m).
  - change 15 with (nib (-1) 0). apply nib_ext; [lia..|]. intros b Hb.
    rewrite Z.testbit_ones_nonneg, Z.bits_m1 by lia. apply Z.ltb_lt. lia.
  - rewrite <- (nib_0 k). apply nib_ext; [lia..|]. intros b Hb.
    rewrite Z.testbit_ones_nonneg, Z.bits_0 by lia. apply Z.ltb_ge. lia.
Qed.
Lemma nib_15 x k : Z.land (nib x k) 15 = nib x k.
Proof. unfold nib. rewrite <- Z.land_assoc. reflexivity. Qed.
Lemma nib_15' x k : Z.land 15 (nib x k) = nib x k.
Proof. rewrite Z.land_comm. apply nib_15. Qed.

Lemma nib_small v k : 0 <= v < 16 -> 0 <= k -> nib v k = if k =? 0 then v else 0.
Proof.
  intros Hv Hk. unfold nib. change 15 with (Z.ones 4). rewrite Z.land_ones, Z.shiftr_div_pow2 by lia.
  destruct (Z.eqb_spec k 0) as [->|Hn].
  - rewrite Z.mul_0_r, Z.pow_0_r, Z.div_1_r. apply Z.mod_small. lia.
  - rewrite Z.div_small; [reflexivity|]. split; [lia|]. apply Z.lt_le_trans with (2 ^ 4); [lia|].
    apply Z.pow_le_mono_r; lia.
Qed.

Lemma nib_div x k : 0 <= k -> nib x k = x / 2 ^ (4 * k) mod 16.
Proof.
  intros Hk. unfold nib. change 15 with (Z.ones 4). rewrite Z.land_ones, Z.shiftr_div_pow2 by lia. reflexivity.
Qed.
Lemma nib_div16 x k : 1 <= k -> nib x k = x / 16 / 2 ^ (4 * (k - 1)) mod 16.
Proof.
  intros Hk. rewrite nib_div by lia. change 16 with (2 ^ 4) at 2.
  rewrite Z.div_div, <- Z.pow_add_r by lia. do 3 f_equal. lia.
Qed.
Lemma nib_mod x : nib x 0 = x mod 16.
Proof. rewrite nib_div by lia. change (2 ^ (4 * 0)) with 1. rewrite Z.div_1_r. reflexivity. Qed.

Lemma nib_succ x k : nib x 0 < 15 -> 0 <= k -> nib (x + 1) k = if k =? 0 then nib x 0 + 1 else nib x k.
Proof.
  rewrite nib_mod. intros Hx Hk.
  pose proof (Z.div_mod x 16 ltac:(lia)) as E. pose proof (Z.mod_pos_bound x 16 ltac:(lia)).
  destruct (Z.eqb_spec k 0) as [->|Hn].
  - rewrite nib_mod. symmetry. apply (Z.mod_unique (x + 1) 16 (x / 16)); [left|]; lia.
  - rewrite !nib_div16 by lia. do 2 f_equal. symmetry.
    apply (Z.div_unique (x + 1) 16 (x / 16) (x mod 16 + 1)); [left|]; lia.
Qed.

Lemma nib_pred x k : 0 < nib x 0 -> 0 <= k -> nib (x - 1) k = if k =? 0 then nib x 0 - 1 else nib x k.
Proof.
  intros Hx Hk.
  assert (H0 : nib (x - 1) 0 = nib x 0 - 1).
  { rewrite !nib_mod in *. pose proof (Z.div_mod x 16 ltac:(lia)). pose proof (Z.mod_pos_bound x 16 ltac:(lia)).
    symmetry. apply (Z.mod_unique (x - 1) 16 (x / 16)); [left|]; lia. }
  pose proof (nib_range x 0).
  destruct (Z.eqb_spec k 0) as [->|Hn]; [exact H0|].
  pose proof (nib_succ (x - 1) k ltac:(lia) Hk) as E. replace (x - 1 + 1) with x in E by lia.
  rewrite E. destruct (Z.eqb_spec k 0); [lia|reflexivity].
Qed.

(** ** Words of value_type *)
Section Facts.
Hypothesis Hw : 1 <= width <= 15.

Lemma vbits_width : 4 * (width + 1) <= vbits.
Proof.
  unfold vbits, sized_kpermuter_info. repeat case_match; simpl;
    repeat match goal with H : (_ <=? _) = _ |- _ => apply Z.leb_le in H || apply Z.leb_gt in H end; lia.
Qed.

Lemma vt_bit z b : 0 <= b -> Z.testbit (vt z) b = Z.testbit z b && (b <? vbits).
Proof.
  intros Hb. unfold vt. pose proof vbits_width. destruct (Z.ltb_spec b vbits).
  - rewrite Z.mod_pow2_bits_low by lia. symmetry. apply andb_true_r.
  - rewrite Z.mod_pow2_bits_high by lia. symmetry. apply andb_false_r.
Qed.

Lemma nib_vt z k : 0 <= k <= width -> nib (vt z) k = nib z k.
Proof.
  intros Hk. pose proof vbits_width. apply nib_ext; [lia..|]. intros b Hb. rewrite vt_bit by lia.
  destruct (Z.ltb_spec (4 * k + b) vbits); [apply andb_true_r|lia].
Qed.

Lemma vt_range z : 0 <= vt z < 2 ^ vbits.
Proof. apply Z.mod_pos_bound. apply Z.pow_pos_nonneg; [lia|]. pose proof vbits_width. lia. Qed.

Lemma nib_vnot x k : 0 <= k <= width -> nib (vnot x) k = Z.lxor 15 (nib x k).
Proof.
  intros Hk. unfold vnot. rewrite nib_vt by lia. apply Z.bits_inj'. intros b Hb.
  change 15 with (Z.ones 4).
  rewrite Z.lxor_spec, !nib_bit, Z.lnot_spec, Z.testbit_ones_nonneg by lia.
  destruct (b <? 4), (Z.testbit x (4 * k + b)); reflexivity.
Qed.

Lemma nib_shiftl x m k : 0 <= k -> 0 <= m -> nib (Z.shiftl x (4 * m)) k = if k <? m then 0 else nib x (k - m).
Proof.
  intros ??. destruct (Z.ltb_spec k m).
  - rewrite <- (nib_0 k). apply nib_ext; [lia..|]. intros b Hb. rewrite Z.shiftl_spec, Z.bits_0 by lia.
    apply Z.testbit_neg_r. lia.
  - apply nib_ext; [lia..|]. intros b Hb. rewrite Z.shiftl_spec by lia. f_equal. lia.
Qed.

Lemma ones_mask n : 0 <= n <= vbits -> vt (vt (2 ^ n) - 1) = Z.ones n.
Proof.
  intros Hn. rewrite Z.ones_equiv. unfold vt. rewrite Zminus_mod_idemp_l. rewrite <- Z.sub_1_r.
  apply Z.mod_small. assert (0 < 2 ^ n) by (apply Z.pow_pos_nonneg; lia).
  assert (2 ^ n <= 2 ^ vbits) by (apply Z.pow_le_mono_r; lia). lia.
Qed.
Lemma shl2 i : Z.shiftl i 2 = 4 * i.
Proof. rewrite Z.shiftl_mul_pow2 by lia. lia. Qed.
Lemma mask16 i : 0 <= i <= width -> vt (vt (Z.shiftl 16 (Z.shiftl i 2)) - 1) = Z.ones (4 * (i + 1)).
Proof.
  intros Hi. pose proof vbits_width. rewrite shl2, Z.shiftl_mul_pow2 by lia.
  change 16 with (2 ^ 4). rewrite <- Z.pow_add_r by lia. rewrite ones_mask by lia. f_equal. lia.
Qed.
Lemma mask256 i : 0 <= i < width -> vt (vt (Z.shiftl 256 (Z.shiftl i 2)) - 1) = Z.ones (4 * (i + 2)).
Proof.
  intros Hi. pose proof vbits_width. rewrite shl2, Z.shiftl_mul_pow2 by lia.
  change 256 with (2 ^ 8). rewrite <- Z.pow_add_r by lia. rewrite ones_mask by lia. f_equal. lia.
Qed.

Lemma vt_ones m a : 0 <= m -> 0 <= a -> m + a <= width + 1 ->
  vt (Z.shiftl (Z.ones (4 * m)) (4 * a)) = Z.shiftl (Z.ones (4 * m)) (4 * a).
Proof.
  intros ???. pose proof vbits_width. apply Z.bits_inj'. intros b Hb. rewrite vt_bit by lia.
  destruct (Z.ltb_spec b vbits); [apply andb_true_r|]. rewrite andb_false_r. symmetry.
  rewrite Z.shiftl_spec, Z.testbit_ones_nonneg by lia. apply Z.ltb_ge. lia.
Qed.

Lemma at_nib x i : at_ x i = nib x (i + 1).
Proof. unfold at_, nib. rewrite shl2. do 2 f_equal. lia. Qed.
Lemma size_nib x : size x = nib x 0.
Proof. unfold size, nib. rewrite Z.mul_0_r, Z.shiftr_0_r. reflexivity. Qed.

(** ** The operations, nibble by nibble *)

Lemma shl4 i : Z.shiftl i 2 + 4 = 4 * (i + 1).
Proof. rewrite shl2. lia. Qed.
Lemma back_nib x : back x = nib x width.
Proof. unfold back. rewrite at_nib. f_equal. lia. Qed.

Lemma shl_1 x : Z.shiftl x 4 = Z.shiftl x (4 * 1).
Proof. reflexivity. Qed.
Lemma shr_1 x : Z.shiftr x 4 = Z.shiftr x (4 * 1).
Proof. reflexivity. Qed.

Ltac nib_eq := reflexivity || (f_equal; lia).
Ltac nib_cases :=
  repeat match goal with
    | |- context [?a <? ?b] => destruct (Z.ltb_spec a b); [try (exfalso; lia)|try (exfalso; lia)]
    | |- context [?a =? ?b] => destruct (Z.eqb_spec a b); [try (exfalso; lia)|try (exfalso; lia)]
    end.
Ltac nib_simpl :=
  change (Z.lxor 15 15) with 0; change (Z.lxor 15 0) with 15;
  rewrite ?Z.land_0_l, ?Z.land_0_r, ?nib_15, ?nib_15', ?Z.lor_0_r, ?Z.lor_0_l, ?Z.lxor_0_l, ?Z.lxor_0_r.
Ltac nibs :=
  repeat first
    [ rewrite nib_lor | rewrite nib_land | rewrite nib_lxor by lia | rewrite nib_vt by lia
    | rewrite nib_vnot by lia | rewrite nib_ones by lia | rewrite nib_shiftl by lia | rewrite nib_shiftr by lia ];
  nib_cases; repeat progress nib_simpl.

Lemma insert_from_back_nib x i k :
  0 <= i < width -> size x < 15 -> 0 <= k <= width ->
  nib (insert_from_back x i).2 k =
    if k =? 0 then nib x 0 + 1 else if k <? i + 1 then nib x k
    else if k =? i + 1 then nib x width else nib x (k - 1).
Proof.
  rewrite size_nib. intros Hi Hs Hk. pose proof (nib_range x width).
  unfold insert_from_back, snd. rewrite mask16, mask256, shl4, back_nib by lia.
  rewrite shl_1. nibs; rewrite ?nib_succ, ?(nib_small (nib x width)) by lia; nibs; nib_eq.
Qed.

Lemma insert_selected_nib x di si k :
  0 <= di <= si -> si < width -> size x < 15 -> 0 <= k <= width ->
  nib (insert_selected x di si) k =
    if k =? 0 then nib x 0 + 1 else if k <? di + 1 then nib x k
    else if k =? di + 1 then nib x (si + 1) else if k <? si + 2 then nib x (k - 1) else nib x k.
Proof.
  rewrite size_nib. intros Hd Hi Hs Hk. pose proof (nib_range x (si + 1)).
  unfold insert_selected. rewrite at_nib, mask16, !mask256, shl4, shl_1 by lia.
  nibs; rewrite ?nib_succ, ?(nib_small (nib x (si + 1))) by lia; nibs; nib_eq.
Qed.

Lemma remove_nib x i k :
  0 <= i < size x -> size x <= width -> 0 <= k <= width ->
  nib (remove x i) k =
    if k =? 0 then nib x 0 - 1 else if k <? i + 1 then nib x k
    else if k <? size x then nib x (k + 1) else if k =? size x then nib x (i + 1) else nib x k.
Proof.
  rewrite size_nib. intros Hi Hs Hk. unfold remove. rewrite <- (size_nib x : Z.land x 15 = nib x 0).
  change (Z.land x 15) with (size x). rewrite size_nib in *.
  destruct (Z.eqb_spec (nib x 0) (i + 1)) as [E|Hn].
  - rewrite nib_vt, nib_pred by lia. nibs; nib_eq.
  - rewrite mask16, !shl2, shr_1, vt_ones by lia. nibs; rewrite ?nib_pred by lia; nibs; nib_eq.
Qed.

Lemma remove_to_back_nib x i k :
  0 <= i < size x -> size x <= width -> 0 <= k <= width ->
  nib (remove_to_back x i) k =
    if k =? 0 then nib x 0 - 1 else if k <? i + 1 then nib x k
    else if k <? width then nib x (k + 1) else nib x (i + 1).
Proof.
  rewrite size_nib. intros Hi Hs Hk. unfold remove_to_back.
  rewrite !mask16, !shl2, shr_1 by lia.
  assert (H0 : nib (Z.land x (Z.ones (4 * (width + 1)))) 0 = nib x 0) by (nibs; nib_eq).
  nibs; rewrite ?nib_pred by lia; nibs; nib_eq.
Qed.

Lemma rotate_nib x i j k :
  0 <= i <= j -> j <= width -> 0 <= k <= width ->
  nib (rotate x i j) k =
    if k <? i + 1 then nib x k
    else if k + (j - i) <? width + 1 then nib x (k + (j - i)) else nib x (k + (j - i) - (width - i)).
Proof.
  intros Hi Hj Hk. unfold rotate.
  assert (Hm : vt ((if i =? width then 0 else vt (Z.shiftl 16 (Z.shiftl i 2))) - 1) =
               if i =? width then Z.ones vbits else Z.ones (4 * (i + 1))).
  { destruct (Z.eqb_spec i width) as [->|?]; [|apply mask16; lia].
    pose proof vbits_width. rewrite <- (ones_mask vbits) by lia. f_equal. f_equal. unfold vt.
    symmetry. apply Z_mod_same_full. }
  rewrite Hm, mask16, !shl2 by lia.
  assert (Ho : forall k', 0 <= k' <= width -> nib (Z.ones vbits) k' = 15).
  { intros k' ?. pose proof vbits_width. change 15 with (nib (-1) 0). apply nib_ext; [lia..|]. intros b Hb.
    rewrite Z.testbit_ones_nonneg, Z.bits_m1 by lia. apply Z.ltb_lt. lia. }
  destruct (Z.eqb_spec i width).
  - assert (j = width) as -> by lia. subst i.
    nibs; rewrite ?Ho by lia; repeat progress nib_simpl; nibs; nib_eq.
  - nibs; nibs; nib_eq.
Qed.

Lemma nib_shiftl_diff x j k :
  0 <= j -> 0 <= k -> nib (Z.shiftl (Z.land x 240) (4 * j)) k = if k =? j + 1 then nib x 1 else 0.
Proof.
  intros Hj Hk.
  assert (E : forall b, 0 <= b -> Z.testbit 240 b = (4 <=? b) && (b <? 8)).
  { intros b Hb. change 240 with (Z.shiftl (Z.ones 4) 4). rewrite Z.shiftl_spec by lia.
    destruct (Z.leb_spec 4 b); [rewrite Z.testbit_ones_nonneg by lia; simpl|apply Z.testbit_neg_r; lia].
    destruct (Z.ltb_spec (b - 4) 4), (Z.ltb_spec b 8); reflexivity || lia. }
  destruct (Z.eqb_spec k (j + 1)) as [->|Hn].
  - apply nib_ext; [lia..|]. intros b Hb. rewrite Z.shiftl_spec, Z.land_spec, E by lia.
    replace (4 * (j + 1) + b - 4 * j) with (4 * 1 + b) by lia.
    destruct (Z.leb_spec 4 (4 * 1 + b)), (Z.ltb_spec (4 * 1 + b) 8); try lia. apply andb_true_r.
  - rewrite <- (nib_0 k). apply nib_ext; [lia..|]. intros b Hb. rewrite Z.shiftl_spec, Z.bits_0 by lia.
    destruct (Z.le_gt_cases 0 (4 * k + b - 4 * j)); [|apply Z.testbit_neg_r; lia].
    rewrite Z.land_spec, E by lia.
    destruct (Z.leb_spec 4 (4 * k + b - 4 * j)), (Z.ltb_spec (4 * k + b - 4 * j) 8); try lia; apply andb_false_r.
Qed.

Lemma lxor_cancel_l a b : Z.lxor a (Z.lxor a b) = b.
Proof. rewrite <- Z.lxor_assoc, Z.lxor_nilpotent. apply Z.lxor_0_l. Qed.
Lemma lxor_cancel_r a b : Z.lxor b (Z.lxor a b) = a.
Proof. rewrite (Z.lxor_comm a b). apply lxor_cancel_l. Qed.

Lemma exchange_nib x i j k :
  0 <= i < width -> 0 <= j < width -> 0 <= k <= width ->
  nib (exchange x i j) k =
    if k =? i + 1 then nib x (j + 1) else if k =? j + 1 then nib x (i + 1) else nib x k.
Proof.
  intros Hi Hj Hk. unfold exchange. rewrite !shl2.
  rewrite nib_lxor, nib_lor, !nib_vt, !nib_shiftl_diff, nib_lxor, !nib_shiftr by lia.
  rewrite !(Z.add_comm 1).
  nib_cases; subst; rewrite ?Z.lor_0_l, ?Z.lor_0_r, ?Z.lor_diag, ?Z.lxor_0_r, ?Z.lxor_nilpotent, ?Z.lxor_0_r;
    try reflexivity.
  all: first [ replace j with i by lia; rewrite ?Z.lxor_nilpotent, ?Z.lxor_0_r; reflexivity
             | apply lxor_cancel_l | apply lxor_cancel_r ].
Qed.

Lemma set_size_nib x n k :
  0 <= n < 16 -> 0 <= k <= width -> nib (set_size x n) k = if k =? 0 then n else nib x k.
Proof.
  intros Hn Hk. unfold set_size. change 15 with (Z.ones (4 * 1)).
  nibs; rewrite ?(nib_small n) by lia; nibs; nib_eq.
Qed.

(** What the loop of exchange_values adds to a nibble. *)
Definition exch_diff (x y v : Z) : Z := if (v =? x) || (v =? y) then Z.lxor x y else 0.

Lemma lxor_nibble x y : 0 <= x < 16 -> 0 <= y < 16 -> 0 <= Z.lxor x y < 16.
Proof.
  intros Hx Hy. pose proof (nib_range (Z.lxor x y) 0) as H.
  rewrite nib_lxor, (nib_small x 0 Hx), (nib_small y 0 Hy) in H by lia. exact H.
Qed.

Lemma exch_diff_nib x y v k :
  0 <= x < 16 -> 0 <= y < 16 -> 0 <= k -> nib (exch_diff x y v) k = if k =? 0 then exch_diff x y v else 0.
Proof.
  intros. apply nib_small; [|lia]. pose proof (lxor_nibble x y). unfold exch_diff. destruct (_ || _); lia.
Qed.

Lemma exchange_values_loop_nib n x y diff p k :
  0 <= x < 16 -> 0 <= y < 16 -> 0 <= k <= width -> Z.of_nat n <= width ->
  nib (exchange_values_loop n x y diff p) k =
    if Z.of_nat n <? k then nib diff (k - Z.of_nat n)
    else if k =? 0 then if Z.of_nat n =? 0 then nib diff 0 else 0
    else Z.lxor (if k =? Z.of_nat n then nib diff 0 else 0) (exch_diff x y (nib p (width - Z.of_nat n + k))).
Proof.
  intros Hx Hy. revert diff p k. induction n as [|n IH]; intros diff p k Hk Hn.
  - simpl. nib_cases; nib_eq.
  - rewrite Nat2Z.inj_succ in *. cbn [exchange_values_loop]. rewrite IH by lia.
    rewrite shl2. fold (nib p width). fold (exch_diff x y (nib p width)).
    rewrite (shl_1 p), (shl_1 (Z.lxor diff _)).
    nib_cases; rewrite ?nib_vt, ?nib_shiftl, ?nib_lxor, ?exch_diff_nib by lia; nib_cases;
      rewrite ?Z.lxor_0_l, ?Z.lxor_0_r; try nib_eq; try (do 2 f_equal; lia).
    f_equal; [f_equal; lia|do 2 f_equal; lia].
Qed.

Lemma exchange_values_nib x_ x y k :
  0 <= x < 16 -> 0 <= y < 16 -> 0 <= k <= width ->
  nib (exchange_values x_ x y) k =
    if k =? 0 then nib x_ 0 else if nib x_ k =? x then y else if nib x_ k =? y then x else nib x_ k.
Proof.
  intros Hx Hy Hk. unfold exchange_values. rewrite nib_lxor, exchange_values_loop_nib by lia.
  rewrite Z2Nat.id by lia. replace (width - width + k) with k by lia.
  rewrite nib_0. unfold exch_diff.
  nib_cases; subst; rewrite ?Z.lxor_0_l, ?Z.lxor_0_r; try reflexivity; simpl;
    rewrite ?Z.lxor_0_l, ?Z.lxor_0_r; try reflexivity; apply lxor_cancel_l || apply lxor_cancel_r.
Qed.

(** ** The permuter as lists of slots *)

(** All slots in order of position. *)
Definition elems (x : Z) : list Z := (fun i : nat => at_ x (Z.of_nat i)) <$> seq 0 (Z.to_nat width).

(** [x] holds the live slots [l], in order, and the free slots [f]. *)
Definition holds (x : Z) (l f : list Z) : Prop := size x = Z.of_nat (length l) /\ elems x = l ++ f.

Lemma length_elems x : length (elems x) = Z.to_nat width.
Proof. unfold elems. rewrite length_fmap, length_seq. reflexivity. Qed.

Lemma elems_lookup x (j : nat) : Z.of_nat j < width -> elems x !! j = Some (nib x (Z.of_nat j + 1)).
Proof.
  intros Hj. unfold elems. rewrite list_lookup_fmap, lookup_seq_lt by lia. simpl. rewrite at_nib. reflexivity.
Qed.

Lemma elems_intro x l :
  Z.of_nat (length l) = width -> (forall j : nat, Z.of_nat j < width -> l !! j = Some (nib x (Z.of_nat j + 1))) ->
  elems x = l.
Proof.
  intros Hl H. apply list_eq. intros j. destruct (decide (Z.of_nat j < width)) as [Hj|Hj].
  - rewrite elems_lookup, H by lia. reflexivity.
  - rewrite !lookup_ge_None_2; [reflexivity| |rewrite length_elems]; lia.
Qed.

Lemma elems_nib x l (j : nat) v : elems x = l -> l !! j = Some v -> nib x (Z.of_nat j + 1) = v.
Proof.
  intros <- H. pose proof (lookup_lt_Some _ _ _ H) as Hl. rewrite length_elems in Hl.
  rewrite elems_lookup in H by lia. congruence.
Qed.

Lemma lookup_app_if {A} (l1 l2 : list A) (j : nat) :
  (l1 ++ l2) !! j = if decide (j < length l1)%nat then l1 !! j else l2 !! (j - length l1)%nat.
Proof. case_decide; [apply lookup_app_l|apply lookup_app_r]; lia. Qed.
Lemma lookup_cons_if {A} (v : A) l (j : nat) : (v :: l) !! j = if decide (j = 0)%nat then Some v else l !! (j - 1)%nat.
Proof. case_decide; [subst; reflexivity|]. destruct j; [lia|]. simpl. rewrite Nat.sub_0_r. reflexivity. Qed.

Ltac lens := repeat progress (rewrite ?length_app, ?length_take, ?length_drop; cbn [length]); lia.
Ltac lists :=
  repeat progress rewrite ?lookup_app_if, ?lookup_cons_if, ?lookup_take, ?lookup_drop;
  repeat progress (rewrite ?length_app, ?length_take, ?length_drop; cbn [length]);
  repeat case_decide; try lia; try reflexivity; try (f_equal; lia).

(** Moving slots about: position [j] of the new word is position [g j] of the
    old one. *)
Lemma elems_move x q l l' (g : nat -> nat) :
  elems x = l -> length l' = length l ->
  (forall j : nat, Z.of_nat j < width -> l' !! j = l !! g j /\ Z.of_nat (g j) < width /\
     nib q (Z.of_nat j + 1) = nib x (Z.of_nat (g j) + 1)) ->
  elems q = l'.
Proof.
  intros E Hl H. pose proof (length_elems x) as Hx. rewrite E in Hx.
  apply elems_intro; [lia|]. intros j Hj. destruct (H j Hj) as (-> & Hg & ->).
  rewrite <- E. apply elems_lookup. exact Hg.
Qed.

Lemma holds_length x l f : holds x l f -> Z.of_nat (length l) + Z.of_nat (length f) = width.
Proof. intros [_ E]. pose proof (length_elems x) as H. rewrite E, length_app in H. lia. Qed.

Lemma insert_from_back_holds x l f v (i : nat) :
  holds x l (f ++ [v]) -> (i <= length l)%nat ->
  (insert_from_back x (Z.of_nat i)).1 = v /\
  holds (insert_from_back x (Z.of_nat i)).2 (take i l ++ v :: drop i l) f.
Proof.
  intros H Hi. pose proof (holds_length _ _ _ H) as HL. destruct H as [Hs E].
  rewrite length_app in HL. simpl in HL.
  split.
  { simpl. rewrite back_nib. replace width with (Z.of_nat (length l + length f) + 1) by lia.
    apply (elems_nib x _ _ v E). lists. }
  pose proof (insert_from_back_nib x (Z.of_nat i)) as Hn. split.
  { rewrite size_nib, Hn, <- size_nib, Hs by lia. cbn [Z.eqb]. lens. }
  apply (elems_move x _ _ _ (fun j => if decide (j < i)%nat then j else if decide (j = i) then (length l + length f)%nat
            else (j - 1)%nat) E).
  { lens. }
  intros j Hj. split; [|split].
  - lists.
  - repeat case_decide; lia.
  - rewrite Hn by lia. nib_cases; repeat case_decide; try lia; f_equal; lia.
Qed.

Lemma insert_selected_holds x l f1 v f2 (i : nat) :
  holds x l (f1 ++ v :: f2) -> (i <= length l)%nat ->
  holds (insert_selected x (Z.of_nat i) (Z.of_nat (length l + length f1))) (take i l ++ v :: drop i l) (f1 ++ f2).
Proof.
  intros H Hi. pose proof (holds_length _ _ _ H) as HL. destruct H as [Hs E].
  rewrite length_app in HL. cbn [length] in HL.
  pose proof (insert_selected_nib x (Z.of_nat i) (Z.of_nat (length l + length f1))) as Hn. split.
  { rewrite size_nib, Hn, <- size_nib, Hs by lia. cbn [Z.eqb]. lens. }
  apply (elems_move x _ _ _ (fun j => if decide (j < i)%nat then j else if decide (j = i) then (length l + length f1)%nat
            else if decide (j <= length l + length f1)%nat then (j - 1)%nat else j) E).
  { lens. }
  intros j Hj. split; [|split].
  - lists.
  - repeat case_decide; lia.
  - rewrite Hn by lia. nib_cases; repeat case_decide; try lia; f_equal; lia.
Qed.

Lemma remove_holds x l1 v l2 f :
  holds x (l1 ++ v :: l2) f -> holds (remove x (Z.of_nat (length l1))) (l1 ++ l2) (v :: f).
Proof.
  intros H. pose proof (holds_length _ _ _ H) as HL. destruct H as [Hs E].
  rewrite length_app in HL, Hs. cbn [length] in HL, Hs.
  pose proof (remove_nib x (Z.of_nat (length l1))) as Hn. split.
  { rewrite size_nib, Hn, <- size_nib, Hs by lia. cbn [Z.eqb]. lens. }
  rewrite Hs in Hn.
  apply (elems_move x _ _ _ (fun j => if decide (j < length l1)%nat then j
            else if decide (j < length l1 + length l2)%nat then S j
            else if decide (j = length l1 + length l2)%nat then length l1 else j) E).
  { lens. }
  intros j Hj. split; [|split].
  - lists.
  - repeat case_decide; lia.
  - rewrite Hn by lia. nib_cases; repeat case_decide; try lia; f_equal; lia.
Qed.

Lemma remove_to_back_holds x l1 v l2 f :
  holds x (l1 ++ v :: l2) f -> holds (remove_to_back x (Z.of_nat (length l1))) (l1 ++ l2) (f ++ [v]).
Proof.
  intros H. pose proof (holds_length _ _ _ H) as HL. destruct H as [Hs E].
  rewrite length_app in HL, Hs. cbn [length] in HL, Hs.
  pose proof (remove_to_back_nib x (Z.of_nat (length l1))) as Hn. split.
  { rewrite size_nib, Hn, <- size_nib, Hs by lia. cbn [Z.eqb]. lens. }
  apply (elems_move x _ _ _ (fun j => if decide (j < length l1)%nat then j
            else if decide (S j < Z.to_nat width)%nat then S j else length l1) E).
  { lens. }
  intros j Hj. split; [|split].
  - lists.
  - repeat case_decide; lia.
  - rewrite Hn by lia. nib_cases; repeat case_decide; try lia; f_equal; lia.
Qed.

(** [rotate(i, j)] exchanges the blocks [i, j) and [j, width). *)
Lemma rotate_elems x l1 l2 l3 :
  elems x = l1 ++ l2 ++ l3 ->
  let q := rotate x (Z.of_nat (length l1)) (Z.of_nat (length l1 + length l2)) in
  size q = size x /\ elems q = l1 ++ l3 ++ l2.
Proof.
  intros E q. pose proof (length_elems x) as HL. rewrite E, !length_app in HL.
  pose proof (rotate_nib x (Z.of_nat (length l1)) (Z.of_nat (length l1 + length l2))) as Hn. fold q in Hn. split.
  { rewrite !size_nib, Hn by lia. nib_cases. reflexivity. }
  apply (elems_move x _ _ _ (fun j => if decide (j < length l1)%nat then j
            else if decide (j < length l1 + length l3)%nat then (j + length l2)%nat else (j - length l3)%nat) E).
  { lens. }
  intros j Hj. split; [|split].
  - lists.
  - repeat case_decide; lia.
  - rewrite Hn by lia. nib_cases; repeat case_decide; try lia; f_equal; lia.
Qed.

Lemma exchange_elems x (i j : nat) a b :
  elems x !! i = Some a -> elems x !! j = Some b ->
  let q := exchange x (Z.of_nat i) (Z.of_nat j) in
  size q = size x /\ elems q = <[i := b]> (<[j := a]> (elems x)).
Proof.
  intros Hi Hj q. pose proof (elems_nib x _ i a eq_refl Hi) as Ea. pose proof (elems_nib x _ j b eq_refl Hj) as Eb.
  apply lookup_lt_Some in Hi, Hj. rewrite length_elems in Hi, Hj.
  pose proof (exchange_nib x (Z.of_nat i) (Z.of_nat j)) as Hn. fold q in Hn. split.
  { rewrite !size_nib, Hn by lia. nib_cases. reflexivity. }
  apply elems_intro; [rewrite !length_insert, length_elems; lia|]. intros k Hk. rewrite Hn by lia.
  rewrite !list_lookup_insert, !length_insert, length_elems. nib_cases; repeat case_decide; try lia; subst.
  all: try (rewrite elems_lookup by lia); try (do 2 f_equal; lia); congruence.
Qed.

Lemma set_size_elems x n : 0 <= n < 16 -> size (set_size x n) = n /\ elems (set_size x n) = elems x.
Proof.
  intros Hn. split; [rewrite size_nib, set_size_nib by lia; reflexivity|].
  apply (elems_move x _ _ _ (fun j => j) eq_refl); [reflexivity|]. intros j Hj. split; [reflexivity|].
  split; [lia|]. rewrite set_size_nib by lia. nib_cases. reflexivity.
Qed.

Lemma exchange_values_elems x_ a b :
  0 <= a < 16 -> 0 <= b < 16 ->
  size (exchange_values x_ a b) = size x_ /\
  elems (exchange_values x_ a b) = (fun v => if v =? a then b else if v =? b then a else v) <$> elems x_.
Proof.
  intros Ha Hb. split; [rewrite !size_nib, exchange_values_nib by lia; reflexivity|].
  apply elems_intro; [rewrite length_fmap, length_elems; lia|]. intros j Hj.
  rewrite list_lookup_fmap, elems_lookup, exchange_values_nib by lia. simpl.
  destruct (Z.eqb_spec (Z.of_nat j + 1) 0); [lia|reflexivity].
Qed.

(** ** The documented contract *)

(** A permuter operation, with its arguments. *)
Inductive kop :=
| InsertFromBack (i : nat)
| InsertSelected (di si : nat)
| Remove (i : nat)
| RemoveToBack (i : nat)
| Rotate (i j : nat)
| Exchange (i j : nat)
| ExchangeValues (x y : Z)
| SetSize (n : nat).

Definition run_kop (x : Z) (o : kop) : Z :=
  match o with
  | InsertFromBack i => (insert_from_back x (Z.of_nat i)).2
  | InsertSelected di si => insert_selected x (Z.of_nat di) (Z.of_nat si)
  | Remove i => remove x (Z.of_nat i)
  | RemoveToBack i => remove_to_back x (Z.of_nat i)
  | Rotate i j => rotate x (Z.of_nat i) (Z.of_nat j)
  | Exchange i j => exchange x (Z.of_nat i) (Z.of_nat j)
  | ExchangeValues a b => exchange_values x a b
  | SetSize n => set_size x (Z.of_nat n)
  end.

Definition cut (n : nat) (es : list Z) : list Z * list Z := (take n es, drop n es).
Definition swap_values (a b v : Z) : Z := if v =? a then b else if v =? b then a else v.

(** The same operation on the live and free lists; [None] for positions out of
    range.  [Rotate] is that of the code, over all positions from i on; the
    documentation rotates those below the size only. *)
Definition spec_kop (s : list Z * list Z) (o : kop) : option (list Z * list Z) :=
  let '(l, f) := s in
  match o with
  | InsertFromBack i =>
      v ← last f; guard (i <= length l)%nat;;
      Some (take i l ++ v :: drop i l, take (length f - 1) f)
  | InsertSelected di si =>
      guard (di <= length l <= si)%nat;; v ← f !! (si - length l)%nat;
      Some (take di l ++ v :: drop di l, take (si - length l) f ++ drop (S (si - length l)) f)
  | Remove i => v ← l !! i; Some (take i l ++ drop (S i) l, v :: f)
  | RemoveToBack i => v ← l !! i; Some (take i l ++ drop (S i) l, f ++ [v])
  | Rotate i j =>
      let es := l ++ f in
      guard (i <= j <= length es)%nat;;
      Some (cut (length l) (take i es ++ drop j es ++ drop i (take j es)))
  | Exchange i j =>
      let es := l ++ f in
      a ← es !! i; b ← es !! j; Some (cut (length l) (<[i := b]> (<[j := a]> es)))
  | ExchangeValues a b =>
      guard (a ∈ l ++ f /\ b ∈ l ++ f);; Some (swap_values a b <$> l, swap_values a b <$> f)
  | SetSize n => guard (n <= length (l ++ f))%nat;; Some (cut n (l ++ f))
  end.

Lemma cut_holds q n es : elems q = es -> size q = Z.of_nat n -> (n <= length es)%nat ->
  holds q (cut n es).1 (cut n es).2.
Proof. intros E Hs Hn. split; simpl; [rewrite length_take; lia|]. rewrite take_drop. exact E. Qed.

Lemma mid_split {A} (l : list A) (i : nat) v : l !! i = Some v -> l = take i l ++ v :: drop (S i) l /\ length (take i l) = i.
Proof.
  intros H. split; [symmetry; apply take_drop_middle; exact H|].
  apply lookup_lt_Some in H. rewrite length_take. lia.
Qed.

Lemma block_split {A} (i j : nat) (l : list A) : (i <= j)%nat -> l = take i l ++ drop i (take j l) ++ drop j l.
Proof.
  intros H. rewrite <- (take_drop j l) at 1. rewrite app_assoc. f_equal.
  rewrite <- (take_drop i (take j l)) at 1. rewrite take_take, Nat.min_l by lia. reflexivity.
Qed.

Lemma elem_nibble x v : v ∈ elems x -> 0 <= v < 16.
Proof.
  unfold elems. rewrite list_elem_of_fmap. intros (i & -> & _). rewrite at_nib. apply nib_range.
Qed.

Lemma spec_kop_run x l f o l' f' :
  holds x l f -> spec_kop (l, f) o = Some (l', f') -> holds (run_kop x o) l' f'.
Proof.
  intros H Ho. pose proof (holds_length _ _ _ H) as HL.
  destruct o as [i|di si|i|i|i j|i j|a b|n]; cbn [spec_kop] in Ho.
  - destruct (last f) as [v|] eqn:Hv; [|discriminate Ho]. simpl in Ho.
    case_guard; simpl in Ho; [|discriminate Ho]. injection Ho as <- <-.
    apply last_Some in Hv as [f0 ->]. rewrite length_app, Nat.add_sub, take_app_length by (cbn; lia).
    apply (insert_from_back_holds x l f0 v i); assumption.
  - case_guard as Hd; simpl in Ho; [|discriminate Ho]. destruct (f !! _) as [v|] eqn:Hv; [|discriminate Ho].
    simpl in Ho. injection Ho as <- <-. destruct (mid_split _ _ _ Hv) as [Ef El]. rewrite Ef in H.
    replace si with (length l + length (take (si - length l) f))%nat at 1 by lia.
    apply insert_selected_holds; [exact H|lia].
  - destruct (l !! i) as [v|] eqn:Hv; [|discriminate Ho]. simpl in Ho. injection Ho as <- <-.
    destruct (mid_split _ _ _ Hv) as [Ef El]. rewrite Ef in H. simpl. rewrite <- El at 1. apply remove_holds, H.
  - destruct (l !! i) as [v|] eqn:Hv; [|discriminate Ho]. simpl in Ho. injection Ho as <- <-.
    destruct (mid_split _ _ _ Hv) as [Ef El]. rewrite Ef in H. simpl. rewrite <- El at 1. apply remove_to_back_holds, H.
  - case_guard as Hd; simpl in Ho; [|discriminate Ho]. destruct H as [Hs E].
    destruct (rotate_elems x (take i (l ++ f)) (drop i (take j (l ++ f))) (drop j (l ++ f))) as [Hs' E'].
    { rewrite E. apply block_split. lia. }
    rewrite length_app in Hd. revert Hs' E'. rewrite length_take, length_drop, length_take, length_app.
    replace (i `min` (length l + length f))%nat with i by lia.
    replace (i + (j `min` (length l + length f) - i))%nat with j by lia.
    intros Hs' E'. rewrite Hs in Hs'. injection Ho as <- <-. apply cut_holds; [exact E'|exact Hs'|lens].
  - destruct H as [Hs E]. rewrite <- E in Ho.
    destruct (elems x !! i) as [a|] eqn:Ha; cbn -[cut] in Ho; [|discriminate Ho].
    destruct (elems x !! j) as [b|] eqn:Hb; cbn -[cut] in Ho; [|discriminate Ho]. destruct (exchange_elems x i j a b Ha Hb) as [Hs' E']. rewrite Hs in Hs'. injection Ho as <- <-.
    apply cut_holds; [exact E'|exact Hs'|]. rewrite !length_insert, length_elems. lia.
  - destruct H as [Hs E]. rewrite <- E in Ho.
    case_guard as Hab; simpl in Ho; [|discriminate Ho]. destruct Hab as [Ha Hb].
    injection Ho as <- <-. apply elem_nibble in Ha, Hb.
    destruct (exchange_values_elems x a b Ha Hb) as [Hs' E']. split; [simpl; rewrite Hs', length_fmap; exact Hs|].
    simpl. rewrite E', E, fmap_app. reflexivity.
  - destruct H as [Hs E]. case_guard as Hd; simpl in Ho; [|discriminate Ho]. rewrite length_app in Hd.
    destruct (set_size_elems x (Z.of_nat n)) as [Hs' E']; [lia|]. rewrite E in E'.
    injection Ho as <- <-. apply cut_holds; [exact E'|exact Hs'|lens].
Qed.

(** The operations never lose or invent a slot. *)
Lemma swap_values_perm a b es : NoDup es -> a ∈ es -> b ∈ es -> swap_values a b <$> es ≡ₚ es.
Proof.
  intros Hnd Ha Hb.
  assert (Hinv : forall v, swap_values a b (swap_values a b v) = v) by 
    (intros v; unfold swap_values; destruct (Z.eqb_spec v a), (Z.eqb_spec v b); nib_cases; lia).
  assert (Hin : forall v, v ∈ es -> swap_values a b v ∈ es).
  { intros v Hv. unfold swap_values. nib_cases; assumption. }
  apply NoDup_Permutation; [|exact Hnd|].
  - apply NoDup_fmap_2; [|exact Hnd]. intros u v Huv. rewrite <- (Hinv u), <- (Hinv v), Huv. reflexivity.
  - intros v. rewrite list_elem_of_fmap. split.
    + intros (u & -> & Hu). apply Hin, Hu.
    + intros Hv. exists (swap_values a b v). rewrite Hinv. auto.
Qed.

Lemma mid_perm (l f : list Z) i v : l !! i = Some v -> take i l ++ drop (S i) l ++ v :: f ≡ₚ l ++ f.
Proof.
  intros H. destruct (mid_split _ _ _ H) as [E _]. rewrite E at 3. rewrite <- app_assoc. simpl.
  apply Permutation_app_head. symmetry. apply Permutation_middle.
Qed.

Lemma exchange_perm (es : list Z) (i j : nat) a b : es !! i = Some a -> es !! j = Some b -> <[i := b]> (<[j := a]> es) ≡ₚ es.
Proof.
  intros Hi Hj. apply Permutation_inj. split.
  { rewrite !length_insert. reflexivity. }
  exists (fun k => if decide (k = i) then j else if decide (k = j) then i else k). split.
  { intros k k' H. repeat case_decide; lia. }
  pose proof (lookup_lt_Some _ _ _ Hi). pose proof (lookup_lt_Some _ _ _ Hj).
  intros k. rewrite !list_lookup_insert, !length_insert. repeat case_decide; subst; try lia; congruence.
Qed.

Lemma spec_kop_perm l f o l' f' : NoDup (l ++ f) -> spec_kop (l, f) o = Some (l', f') -> l' ++ f' ≡ₚ l ++ f.
Proof.
  intros Hnd Ho. destruct o as [i|di si|i|i|i j|i j|a b|n]; cbn [spec_kop] in Ho.
  - destruct (last f) as [v|] eqn:Hv; [|discriminate Ho]. simpl in Ho.
    case_guard; simpl in Ho; [|discriminate Ho]. injection Ho as <- <-.
    apply last_Some in Hv as [f0 ->]. rewrite length_app, Nat.add_sub, take_app_length by (cbn; lia).
    rewrite <- (take_drop i l) at 3. rewrite <- !app_assoc. simpl.
    apply Permutation_app_head. rewrite (app_assoc (drop i l)). apply Permutation_cons_append.
  - case_guard as Hd; simpl in Ho; [|discriminate Ho]. destruct (f !! _) as [v|] eqn:Hv; [|discriminate Ho].
    simpl in Ho. injection Ho as <- <-. destruct (mid_split _ _ _ Hv) as [Ef _].
    replace (l ++ f) with (take di l ++ drop di l ++ take (si - length l) f ++ v :: drop (S (si - length l)) f)
      by (rewrite <- Ef, app_assoc, take_drop; reflexivity).
    rewrite <- !app_assoc. simpl.
    apply Permutation_app_head. rewrite !(app_assoc (drop di l)). apply Permutation_middle.
  - destruct (l !! i) as [v|] eqn:Hv; [|discriminate Ho]. simpl in Ho. injection Ho as <- <-.
    rewrite <- app_assoc. apply mid_perm, Hv.
  - destruct (l !! i) as [v|] eqn:Hv; [|discriminate Ho]. simpl in Ho. injection Ho as <- <-.
    rewrite <- Permutation_cons_append, <- app_assoc. apply mid_perm, Hv.
  - case_guard as Hd; simpl in Ho; [|discriminate Ho]. injection Ho as <- <-. rewrite take_drop.
    rewrite (block_split i j (l ++ f)) at 4 by lia.
    apply Permutation_app_head, Permutation_app_comm.
  - destruct ((l ++ f) !! i) as [a|] eqn:Ha; cbn -[cut] in Ho; [|discriminate Ho].
    destruct ((l ++ f) !! j) as [b|] eqn:Hb; cbn -[cut] in Ho; [|discriminate Ho]. injection Ho as <- <-. rewrite take_drop. apply exchange_perm; assumption.
  - case_guard as Hab; simpl in Ho; [|discriminate Ho]. destruct Hab as [Ha Hb].
    injection Ho as <- <-. rewrite <- fmap_app. apply swap_values_perm; assumption.
  - case_guard as Hd; simpl in Ho; [|discriminate Ho]. injection Ho as <- <-. rewrite take_drop. reflexivity.
Qed.

Fixpoint run_kops (x : Z) (os : list kop) : Z :=
  match os with [] => x | o :: os' => run_kops (run_kop x o) os' end.
Fixpoint spec_kops (s : list Z * list Z) (os : list kop) : option (list Z * list Z) :=
  match os with [] => Some s | o :: os' => s' ← spec_kop s o; spec_kops s' os' end.

Lemma spec_kops_run os x l f s' :
  holds x l f -> NoDup (l ++ f) -> spec_kops (l, f) os = Some s' ->
  holds (run_kops x os) s'.1 s'.2 /\ s'.1 ++ s'.2 ≡ₚ l ++ f.
Proof.
  revert x l f. induction os as [|o os IH]; intros x l f H Hnd E; cbn [spec_kops run_kops] in *.
  { injection E as <-. split; [exact H|reflexivity]. }
  destruct (spec_kop (l, f) o) as [[l1 f1]|] eqn:Eo; cbn in E; [|discriminate E].
  pose proof (spec_kop_perm _ _ _ _ _ Hnd Eo) as Hp.
  destruct (IH (run_kop x o) l1 f1) as [Hh Hp']; [eapply spec_kop_run; eassumption|rewrite Hp; exact Hnd|exact E|].
  split; [exact Hh|]. rewrite Hp'. exact Hp.
Qed.

End Facts.

End KPermuter.

(** ** make_empty and make_sorted *)

(** The live slots are 0 .. n-1; the free ones are stored so that the next one
    allocated from the back is n. *)
Definition sorted_slots (w n : Z) : list Z * list Z := (seqZ 0 n, rev (seqZ n (w - n))).

Definition sorted_ok (w n : Z) : bool :=
  bool_decide (size (make_sorted w n) = Z.of_nat (length (sorted_slots w n).1) /\
               elems w (make_sorted w n) = (sorted_slots w n).1 ++ (sorted_slots w n).2).

Lemma all_sorted_ok : forallb (fun w => forallb (sorted_ok w) (seqZ 0 (w + 1))) (seqZ 1 15) = true.
Proof. vm_compute. reflexivity. Qed.

Lemma make_sorted_holds w n : 1 <= w <= 15 -> 0 <= n <= w ->
  holds w (make_sorted w n) (sorted_slots w n).1 (sorted_slots w n).2.
Proof.
  intros Hw Hn. pose proof all_sorted_ok as H. rewrite forallb_forall in H.
  specialize (H w). rewrite forallb_forall in H. specialize (H ltac:(apply list_elem_of_In, elem_of_seqZ; lia) n
    ltac:(apply list_elem_of_In, elem_of_seqZ; lia)).
  apply bool_decide_eq_true in H. exact H.
Qed.

Lemma all_empty_sorted : forallb (fun w => make_empty w =? make_sorted w 0) (seqZ 1 15) = true.
Proof. vm_compute. reflexivity. Qed.
Lemma make_empty_sorted w : 1 <= w <= 15 -> make_empty w = make_sorted w 0.
Proof.
  intros Hw. pose proof all_empty_sorted as H. rewrite forallb_forall in H. apply Z.eqb_eq, H, list_elem_of_In, elem_of_seqZ. lia.
Qed.

Lemma sorted_slots_perm w n : 0 <= n <= w -> (sorted_slots w n).1 ++ (sorted_slots w n).2 ≡ₚ seqZ 0 w.
Proof.
  intros Hn. simpl. rewrite <- Permutation_rev. replace w with (n + (w - n)) at 2 by lia.
  rewrite seqZ_app by lia. rewrite Z.add_0_l. reflexivity.
Qed.

(** C33: permuter words implement live and free lists.  Start from a permuter with
    [n] live slots in order and apply any sequence of operations whose positions
    are in range (all calls within the documented preconditions are, and more:
    removals from a full permuter, rotations up to the width): the word then holds
    exactly the live and free slots that the same operations give on lists, and
    these are always the slots 0 .. width - 1, none lost or duplicated.  For every
    width the class supports.  The operations on lists are those of the
    documentation, except that [Rotate] turns all positions from i to the width,
    free ones included, as its code does; the documentation turns only the live
    ones ([rotate_documentation] shows the difference). *)
Theorem permuter_refines w n os s' :
  1 <= w <= 15 -> 0 <= n <= w -> spec_kops (sorted_slots w n) os = Some s' ->
  let x := run_kops w (make_sorted w n) os in
  size x = Z.of_nat (length s'.1) /\ elems w x = s'.1 ++ s'.2 /\ s'.1 ++ s'.2 ≡ₚ seqZ 0 w.
Proof.
  intros Hw Hn E. pose proof (sorted_slots_perm w n Hn) as Hp.
  assert (Hnd : NoDup ((sorted_slots w n).1 ++ (sorted_slots w n).2)) by (rewrite Hp; apply NoDup_seqZ).
  destruct (spec_kops_run w Hw os _ _ _ s' (make_sorted_holds w n Hw Hn) Hnd) as [[Hs He] Hp'].
  { rewrite <- surjective_pairing. exact E. }
  split; [exact Hs|]. split; [exact He|]. rewrite Hp'. exact Hp.
Qed.

Definition kops_example : list kop :=
  [InsertFromBack 0; InsertFromBack 2; Remove 1; Exchange 2 9; RemoveToBack 0; InsertSelected 1 11; ExchangeValues 4 14;
   Rotate 1 2; SetSize 2].

Lemma permuter_refines_witness :
  let x := run_kops 15 (make_sorted 15 3) kops_example in
  let s := default ([], []) (spec_kops (sorted_slots 15 3) kops_example) in
  length s.1 = 2%nat /\ size x = Z.of_nat (length s.1) /\ elems 15 x = s.1 ++ s.2 /\ s.1 ++ s.2 ≡ₚ seqZ 0 15.
Proof.
  split; [vm_compute; reflexivity|]. apply (permuter_refines 15 3 kops_example); [lia|lia|].
  vm_compute. reflexivity.
Defined.

(** [rotate] turns all the positions from [i] to the width, as its code reads,
    and not only those below the size, as its documentation says. *)
Lemma rotate_documentation :
  let p := make_sorted 15 4 in let q := rotate 15 p 1 2 in
  size q = size p /\ at_ q 3 = at_ p 4 /\ at_ q 3 <> at_ p (1 + (3 - 1 + 2 - 1) mod (size p - 1)).
Proof. split; [reflexivity|]. split; [reflexivity|]. vm_compute. discriminate. Qed.

Example kp_sorted : make_sorted 15 3 = 0x3456789ABCDE2103. Proof. reflexivity. Qed.
Example kp_insert : insert_from_back 15 (make_sorted 15 3) 1 = (3, 0x456789ABCDE21304). Proof. reflexivity. Qed.
Example kp_exch : exchange_values 15 (make_sorted 15 3) 1 14 = 0x3456789ABCD12E03. Proof. reflexivity. Qed.
Example kp_remove : remove 15 0x456789ABCDE21304 1 = 0x456789ABCDE32103. Proof. reflexivity. Qed.
