(* ===== verification/NodeVersion.v ===== *)
(** * Node versions of Masstree (src/masstree/nodeversion.hh)

    A node's version word is its lock and its change counter.  Writers take the
    lock bit with a compare-and-exchange, set a dirty bit while they change the
    node and advance the counter when they unlock; readers take a stable version,
    read without a lock and ask [has_changed] whether what they read may be torn.
    [step] interleaves any number of such threads over one word. *)

From S2P Require Import Prelude.

Open Scope Z_scope.

(** ** Parameters *)

(** The positions of the bits; nodeversion32_parameters and
    nodeversion64_parameters give the corresponding powers of two. *)
Record nodeversion_parameters := mkNvParams {
  lock_shift : Z;
  inserting_shift : Z;
  splitting_shift : Z;
  vinsert_shift : Z;
  vsplit_shift : Z;
  unused1_shift : Z;
  deleted_shift : Z;
  root_shift : Z;
  isleaf_shift : Z;
  nv_bits : Z       (* width of value_type *)
}.

Definition nodeversion32_parameters : nodeversion_parameters := mkNvParams 0 1 2 3 9 28 29 30 31 32.
Definition nodeversion64_parameters : nodeversion_parameters := mkNvParams 8 9 10 11 27 60 61 62 63 64.

(** What the counter arithmetic of [unlock] needs of the layout. *)
Class NvLayout (P : nodeversion_parameters) : Prop := {
  nv_lock : 0 <= lock_shift P;
  nv_inserting : inserting_shift P = lock_shift P + 1;
  nv_splitting : splitting_shift P = lock_shift P + 2;
  nv_vinsert : vinsert_shift P = lock_shift P + 3;
  nv_vsplit : vinsert_shift P <= vsplit_shift P < unused1_shift P;
  nv_deleted : deleted_shift P = unused1_shift P + 1;
  nv_root : root_shift P = unused1_shift P + 2;
  nv_isleaf : isleaf_shift P = unused1_shift P + 3;
  nv_width : nv_bits P = unused1_shift P + 4
}.
#[export] Instance nv32_layout : NvLayout nodeversion32_parameters.
Proof. split; simpl; lia. Qed.
#[export] Instance nv64_layout : NvLayout nodeversion64_parameters.
Proof. split; simpl; lia. Qed.

Section NodeVersion.
Context (P : nodeversion_parameters).

Definition lock_bit : Z := Z.shiftl 1 (lock_shift P).
Definition inserting_bit : Z := Z.shiftl 1 (inserting_shift P).
Definition splitting_bit : Z := Z.shiftl 1 (splitting_shift P).
Definition dirty_mask : Z := Z.lor inserting_bit splitting_bit.
Definition vinsert_lowbit : Z := Z.shiftl 1 (vinsert_shift P).
Definition vsplit_lowbit : Z := Z.shiftl 1 (vsplit_shift P).
Definition unused1_bit : Z := Z.shiftl 1 (unused1_shift P).
Definition deleted_bit : Z := Z.shiftl 1 (deleted_shift P).
Definition root_bit : Z := Z.shiftl 1 (root_shift P).
Definition isleaf_bit : Z := Z.shiftl 1 (isleaf_shift P).
Definition nvt (z : Z) : Z := z mod 2 ^ nv_bits P.
Definition split_unlock_mask : Z := nvt (Z.lnot (Z.lor (Z.lor root_bit unused1_bit) (vsplit_lowbit - 1))).
Definition unlock_mask : Z := nvt (Z.lnot (Z.lor unused1_bit (vinsert_lowbit - 1))).

(** ** basic_nodeversion *)

Definition test (v m : Z) : bool := negb (Z.land v m =? 0).

Definition new_nodeversion (leaf : bool) : Z := if leaf then isleaf_bit else 0.
Definition isleaf (v : Z) : bool := test v isleaf_bit.
Definition locked (v : Z) : bool := test v lock_bit.
Definition inserting (v : Z) : bool := test v inserting_bit.
Definition splitting (v : Z) : bool := test v splitting_bit.
Definition deleted (v : Z) : bool := test v deleted_bit.
Definition dirty (v : Z) : bool := test v dirty_mask.
Definition has_changed (v x : Z) : bool := lock_bit <? Z.lxor x v.
Definition has_split (v : Z) : bool := negb (test v root_bit).
Definition has_split_since (v x : Z) : bool := vsplit_lowbit <=? Z.lxor x v.

(** One turn of [stable]'s loop: the version it returns, or another turn. *)
Definition stable_try (v : Z) : option Z := if dirty v then None else Some v.

(** One turn of [lock]'s loop: the compare-and-exchange succeeds, or [expected]
    is read again. *)
Inductive lock_res := LockTaken (v : Z) | LockRetry (expected : Z).
Definition lock_try (v expected : Z) : lock_res :=
  if negb (locked expected) && (v =? expected) then LockTaken (Z.lor expected lock_bit)
  else LockRetry v.
(** The assertions after the loop; [e] is [expected] with the lock bit. *)
Definition lock_check (v e : Z) : bool := negb (dirty e) && (e =? v).

(** [unlock(x)]: [None] is a failed assertion. *)
Definition unlock (v x : Z) : option Z :=
  if negb (x =? v) || negb (locked x) then None
  else if splitting x then Some (Z.land (nvt (x + vsplit_lowbit)) split_unlock_mask)
  else Some (Z.land (nvt (x + nvt (Z.shiftl (Z.land x inserting_bit) 2))) unlock_mask).

Definition mark_insert (v : Z) : option Z := if locked v then Some (Z.lor v inserting_bit) else None.
Definition mark_split (v : Z) : option Z := if locked v then Some (Z.lor v splitting_bit) else None.
Definition mark_change (v : Z) (is_split : bool) : option Z :=
  if locked v then Some (Z.lor v (Z.shiftl ((if is_split then 1 else 0) + 1) (inserting_shift P))) else None.
Definition mark_deleted (v : Z) : option Z :=
  if locked v then Some (Z.lor v (Z.lor deleted_bit splitting_bit)) else None.
Definition mark_root (v : Z) : Z := Z.lor v root_bit.
Definition mark_nonroot (v : Z) : Z := Z.land v (nvt (Z.lnot root_bit)).

(** ** Threads

    A thread that holds the lock may set a dirty bit and may write to the node, in
    any order: nothing here makes it mark the node before it writes.  A reader keeps
    the stable version it read, and, for the theorems only, the change count, the
    writes and the unlocks done at that moment. *)
Inductive nvpc :=
| Idle
| Spin (expected : Z)
| Taken (expected : Z)
| Held
| Reading (x : Z) (changes : Z) (writes : list bool) (unlocks : Z).

Inductive mark := MInsert | MSplit | MChange (is_split : bool) | MDeleted.
Definition do_mark (m : mark) (v : Z) : option Z :=
  match m with
  | MInsert => mark_insert v
  | MSplit => mark_split v
  | MChange b => mark_change v b
  | MDeleted => mark_deleted v
  end.

Record NvState := mkNv {
  nv_v : Z;
  nv_pcs : list nvpc;
  nv_changes : Z;      (* the counter the version word holds a part of *)
  nv_writes : list bool; (* writes to the node, the last first: was a dirty bit set? *)
  nv_unlocks : Z
}.

(** The counter [unlock] leaves behind. *)
Definition bump (v c : Z) : Z :=
  let n := 2 ^ (vsplit_shift P - vinsert_shift P) in
  if splitting v then (c / n + 1) * n else if inserting v then c + 1 else c.

Inductive nvconf := NvRun (s : NvState) | NvFault.

Inductive nvstep : nvconf -> nvconf -> Prop :=
| NvStart i s e :
    nv_pcs s !! i = Some Idle ->
    nvstep (NvRun s) (NvRun (mkNv (nv_v s) (<[i := Spin e]> (nv_pcs s)) (nv_changes s) (nv_writes s) (nv_unlocks s)))
| NvLock i s e v' :
    nv_pcs s !! i = Some (Spin e) -> lock_try (nv_v s) e = LockTaken v' ->
    nvstep (NvRun s) (NvRun (mkNv v' (<[i := Taken v']> (nv_pcs s)) (nv_changes s) (nv_writes s) (nv_unlocks s)))
| NvRetry i s e e' :
    nv_pcs s !! i = Some (Spin e) -> lock_try (nv_v s) e = LockRetry e' ->
    nvstep (NvRun s) (NvRun (mkNv (nv_v s) (<[i := Spin e']> (nv_pcs s)) (nv_changes s) (nv_writes s) (nv_unlocks s)))
| NvHeld i s e :
    nv_pcs s !! i = Some (Taken e) -> lock_check (nv_v s) e = true ->
    nvstep (NvRun s) (NvRun (mkNv (nv_v s) (<[i := Held]> (nv_pcs s)) (nv_changes s) (nv_writes s) (nv_unlocks s)))
| NvLockFault i s e :
    nv_pcs s !! i = Some (Taken e) -> lock_check (nv_v s) e = false -> nvstep (NvRun s) NvFault
| NvMark i s m v' :
    nv_pcs s !! i = Some Held -> do_mark m (nv_v s) = Some v' ->
    nvstep (NvRun s) (NvRun (mkNv v' (nv_pcs s) (nv_changes s) (nv_writes s) (nv_unlocks s)))
| NvMarkFault i s m :
    nv_pcs s !! i = Some Held -> do_mark m (nv_v s) = None -> nvstep (NvRun s) NvFault
| NvWrite i s :
    nv_pcs s !! i = Some Held ->
    nvstep (NvRun s) (NvRun (mkNv (nv_v s) (nv_pcs s) (nv_changes s) (dirty (nv_v s) :: nv_writes s) (nv_unlocks s)))
| NvUnlock i s v' :
    nv_pcs s !! i = Some Held -> unlock (nv_v s) (nv_v s) = Some v' ->
    nvstep (NvRun s) (NvRun (mkNv v' (<[i := Idle]> (nv_pcs s)) (bump (nv_v s) (nv_changes s)) (nv_writes s)
                               (nv_unlocks s + 1)))
| NvUnlockFault i s :
    nv_pcs s !! i = Some Held -> unlock (nv_v s) (nv_v s) = None -> nvstep (NvRun s) NvFault
| NvRead i s x :
    nv_pcs s !! i = Some Idle -> stable_try (nv_v s) = Some x ->
    nvstep (NvRun s) (NvRun (mkNv (nv_v s) (<[i := Reading x (nv_changes s) (nv_writes s) (nv_unlocks s)]> (nv_pcs s))
                               (nv_changes s) (nv_writes s) (nv_unlocks s)))
| NvDone i s x c d u :
    nv_pcs s !! i = Some (Reading x c d u) ->
    nvstep (NvRun s) (NvRun (mkNv (nv_v s) (<[i := Idle]> (nv_pcs s)) (nv_changes s) (nv_writes s) (nv_unlocks s))).

(** A fresh node and [n] idle threads. *)
Definition nv_start (leaf : bool) (n : nat) : NvState := mkNv (new_nodeversion leaf) (replicate n Idle) 0 [] 0.

(** ** Bits of a version *)
Section Facts.
Context `{L : !NvLayout P}.

Lemma nv_pos : 0 <= lock_shift P /\ inserting_shift P = lock_shift P + 1 /\ splitting_shift P = lock_shift P + 2 /\
  vinsert_shift P = lock_shift P + 3 /\ vinsert_shift P <= vsplit_shift P < unused1_shift P /\
  deleted_shift P = unused1_shift P + 1 /\ root_shift P = unused1_shift P + 2 /\ isleaf_shift P = unused1_shift P + 3 /\
  nv_bits P = unused1_shift P + 4.
Proof. destruct L. tauto. Qed.
Ltac pos := pose proof nv_pos; lia.

Lemma test_bit v k : 0 <= k -> test v (Z.shiftl 1 k) = Z.testbit v k.
Proof.
  intros Hk. unfold test. rewrite Z.shiftl_1_l. destruct (Z.testbit v k) eqn:E.
  - destruct (Z.eqb_spec (Z.land v (2 ^ k)) 0) as [H|]; [|reflexivity].
    apply (f_equal (fun z => Z.testbit z k)) in H. rewrite Z.land_spec, Z.pow2_bits_true, Z.bits_0, E in H by lia.
    discriminate H.
  - destruct (Z.eqb_spec (Z.land v (2 ^ k)) 0) as [|H]; [reflexivity|]. destruct H.
    apply Z.bits_inj'. intros b Hb. rewrite Z.land_spec, Z.pow2_bits_eqb, Z.bits_0 by lia.
    destruct (Z.eqb_spec k b) as [<-|]; [rewrite E; reflexivity|apply andb_false_r].
Qed.

Lemma locked_bit v : locked v = Z.testbit v (lock_shift P).
Proof. apply test_bit. pos. Qed.
Lemma splitting_bit_ v : splitting v = Z.testbit v (splitting_shift P).
Proof. apply test_bit. pos. Qed.
Lemma inserting_bit_ v : inserting v = Z.testbit v (inserting_shift P).
Proof. apply test_bit. pos. Qed.
Lemma test_lor v m m' : test v (Z.lor m m') = test v m || test v m'.
Proof.
  unfold test. rewrite Z.land_lor_distr_r. destruct (Z.eqb_spec (Z.land v m) 0) as [->|H]; simpl.
  - rewrite Z.lor_0_l. reflexivity.
  - destruct (Z.eqb_spec (Z.lor (Z.land v m) (Z.land v m')) 0) as [E|]; [|reflexivity].
    apply Z.lor_eq_0_iff in E as [E _]. contradiction.
Qed.
Lemma dirty_bits v : dirty v = inserting v || splitting v.
Proof. apply test_lor. Qed.

Lemma one_bit k b : 0 <= k -> Z.testbit (Z.shiftl 1 k) b = (k =? b).
Proof. intros. rewrite Z.shiftl_1_l, Z.pow2_bits_eqb by lia. reflexivity. Qed.
Lemma low_bits k b : 0 <= k -> 0 <= b -> Z.testbit (Z.shiftl 1 k - 1) b = (b <? k).
Proof. intros. rewrite Z.shiftl_1_l, Z.sub_1_r, <- Z.ones_equiv, Z.testbit_ones_nonneg by lia. reflexivity. Qed.
Lemma nvt_bit z b : 0 <= b -> Z.testbit (nvt z) b = Z.testbit z b && (b <? nv_bits P).
Proof.
  intros Hb. unfold nvt. destruct (Z.ltb_spec b (nv_bits P)).
  - rewrite Z.mod_pow2_bits_low by lia. symmetry. apply andb_true_r.
  - rewrite Z.mod_pow2_bits_high by pos. symmetry. apply andb_false_r.
Qed.

Lemma locked_mark_nonroot v : locked (mark_nonroot v) = locked v.
Proof.
  pose proof nv_pos. rewrite !locked_bit. unfold mark_nonroot. rewrite Z.land_spec, nvt_bit, Z.lnot_spec by lia.
  unfold root_bit. rewrite one_bit by lia.
  destruct (Z.eqb_spec (root_shift P) (lock_shift P)), (Z.ltb_spec (lock_shift P) (nv_bits P)); try lia.
  apply andb_true_r.
Qed.

(** The bits [lo, lo + len). *)
Definition slice (x lo len : Z) : Z := (x / 2 ^ lo) mod 2 ^ len.
Lemma slice_bit x lo len b : 0 <= lo -> 0 <= len -> 0 <= b ->
  Z.testbit (slice x lo len) b = Z.testbit x (b + lo) && (b <? len).
Proof.
  intros. unfold slice. destruct (Z.ltb_spec b len).
  - rewrite Z.mod_pow2_bits_low, <- Z.shiftr_div_pow2, Z.shiftr_spec by lia. symmetry. apply andb_true_r.
  - rewrite Z.mod_pow2_bits_high by lia. symmetry. apply andb_false_r.
Qed.
Lemma slice_ext x y lo lo' len : 0 <= lo -> 0 <= lo' -> 0 <= len ->
  (forall b, 0 <= b < len -> Z.testbit x (b + lo) = Z.testbit y (b + lo')) -> slice x lo len = slice y lo' len.
Proof.
  intros ??? H. apply Z.bits_inj'. intros b Hb. rewrite !slice_bit by lia.
  destruct (Z.ltb_spec b len); [rewrite H by lia|rewrite !andb_false_r]; reflexivity.
Qed.

(** The counter: the bits from vinsert_lowbit up to the unused bit. *)
Definition cnt (v : Z) : Z := slice v (vinsert_shift P) (unused1_shift P - vinsert_shift P).
Definition cnt_mod : Z := 2 ^ (unused1_shift P - vinsert_shift P).
Definition split_unit : Z := 2 ^ (vsplit_shift P - vinsert_shift P).

Lemma mask_bit b : 0 <= b -> Z.testbit unlock_mask b =
  (vinsert_shift P <=? b) && negb (b =? unused1_shift P) && (b <? nv_bits P).
Proof.
  intros Hb. pose proof nv_pos. unfold unlock_mask, unused1_bit, vinsert_lowbit.
  rewrite nvt_bit, Z.lnot_spec, Z.lor_spec, one_bit, low_bits by lia. f_equal.
  rewrite (Z.eqb_sym b). destruct (_ =? _); simpl; [destruct (_ <=? _); reflexivity|].
  rewrite andb_true_r. destruct (Z.ltb_spec b (vinsert_shift P)), (Z.leb_spec (vinsert_shift P) b); reflexivity || lia.
Qed.
Lemma split_mask_bit b : 0 <= b -> Z.testbit split_unlock_mask b =
  (vsplit_shift P <=? b) && negb (b =? unused1_shift P) && negb (b =? root_shift P) && (b <? nv_bits P).
Proof.
  intros Hb. pose proof nv_pos. unfold split_unlock_mask, unused1_bit, vsplit_lowbit, root_bit.
  rewrite nvt_bit, Z.lnot_spec, !Z.lor_spec, !one_bit, low_bits by lia. f_equal.
  rewrite !(Z.eqb_sym b).
  destruct (root_shift P =? b), (unused1_shift P =? b), (Z.ltb_spec b (vsplit_shift P)), (Z.leb_spec (vsplit_shift P) b);
    reflexivity || lia.
Qed.

Lemma cnt_unlock_mask y : cnt (Z.land (nvt y) unlock_mask) = cnt y.
Proof.
  pose proof nv_pos. apply slice_ext; [lia..|]. intros b Hb.
  rewrite Z.land_spec, nvt_bit, mask_bit by lia.
  destruct (Z.ltb_spec (b + vinsert_shift P) (nv_bits P)), (Z.leb_spec (vinsert_shift P) (b + vinsert_shift P)),
    (Z.eqb_spec (b + vinsert_shift P) (unused1_shift P)); try lia. simpl. rewrite !andb_true_r. reflexivity.
Qed.

Lemma cnt_split_mask y :
  cnt (Z.land (nvt y) split_unlock_mask) = slice y (vsplit_shift P) (unused1_shift P - vsplit_shift P) * split_unit.
Proof.
  pose proof nv_pos. unfold split_unit. rewrite <- Z.shiftl_mul_pow2 by lia.
  apply Z.bits_inj'. intros b Hb. unfold cnt. rewrite slice_bit, Z.shiftl_spec, Z.land_spec, nvt_bit, split_mask_bit by lia.
  destruct (Z.le_gt_cases (vsplit_shift P - vinsert_shift P) b) as [Hle|Hlt].
  - rewrite slice_bit by lia.
    replace (b - (vsplit_shift P - vinsert_shift P) + vsplit_shift P) with (b + vinsert_shift P) by lia.
    destruct (Z.testbit y (b + vinsert_shift P)); [|reflexivity].
    lia.
  - rewrite (Z.testbit_neg_r (slice _ _ _)) by lia.
    destruct (Z.leb_spec (vsplit_shift P) (b + vinsert_shift P)); [lia|]. simpl. rewrite andb_false_r. reflexivity.
Qed.

(** ** What [unlock] does *)

Definition clean (v : Z) : Prop := 0 <= v /\ forall b, 0 <= b < lock_shift P -> Z.testbit v b = false.

Lemma slice_low (y C n a len : Z) : 0 <= a -> 0 <= len -> a + len <= n ->
  y mod 2 ^ n = C mod 2 ^ n -> slice y a len = slice C a len.
Proof.
  intros ??? E. apply slice_ext; [lia..|]. intros b Hb.
  rewrite <- (Z.mod_pow2_bits_low y n), <- (Z.mod_pow2_bits_low C n), E by lia. reflexivity.
Qed.

Lemma cnt_add_insert x C : cnt x = C mod cnt_mod -> cnt (x + vinsert_lowbit) = (C + 1) mod cnt_mod.
Proof.
  pose proof nv_pos. unfold cnt, slice, vinsert_lowbit, cnt_mod. intros E.
  rewrite Z.shiftl_1_l. replace (x + 2 ^ vinsert_shift P) with (x + 1 * 2 ^ vinsert_shift P) by lia.
  rewrite Z.div_add by lia. rewrite <- Zplus_mod_idemp_l, E, Zplus_mod_idemp_l. reflexivity.
Qed.

Lemma cnt_add_split x C : cnt x = C mod cnt_mod ->
  slice (x + vsplit_lowbit) (vsplit_shift P) (unused1_shift P - vsplit_shift P) * split_unit
  = ((C / split_unit + 1) * split_unit) mod cnt_mod.
Proof.
  pose proof nv_pos. intros E.
  assert (E1 : slice x (vsplit_shift P) (unused1_shift P - vsplit_shift P) =
               slice C (vsplit_shift P - vinsert_shift P) (unused1_shift P - vsplit_shift P)).
  { rewrite <- (slice_low (x / 2 ^ vinsert_shift P) C (unused1_shift P - vinsert_shift P)); [|lia..|exact E].
    unfold slice. rewrite Z.div_div, <- Z.pow_add_r by lia. do 4 f_equal. lia. }
  unfold slice in *. unfold vsplit_lowbit. rewrite Z.shiftl_1_l.
  replace (x + 2 ^ vsplit_shift P) with (x + 1 * 2 ^ vsplit_shift P) by lia.
  rewrite Z.div_add by lia. rewrite <- Zplus_mod_idemp_l, E1, Zplus_mod_idemp_l.
  unfold cnt_mod, split_unit.
  replace (unused1_shift P - vinsert_shift P) with (unused1_shift P - vsplit_shift P + (vsplit_shift P - vinsert_shift P)) by lia.
  rewrite Z.pow_add_r by lia. rewrite Z.mul_mod_distr_r by lia. reflexivity.
Qed.

Lemma land_bit v k : 0 <= k -> Z.land v (Z.shiftl 1 k) = if Z.testbit v k then Z.shiftl 1 k else 0.
Proof.
  intros Hk. apply Z.bits_inj'. intros b Hb. rewrite Z.land_spec, one_bit by lia.
  destruct (Z.eqb_spec k b) as [<-|Hn].
  - destruct (Z.testbit v k); [rewrite one_bit, Z.eqb_refl by lia|rewrite Z.bits_0]; reflexivity.
  - rewrite andb_false_r. destruct (Z.testbit v k); [rewrite one_bit by lia; lia|rewrite Z.bits_0; reflexivity].
Qed.

Lemma insert_amount x : nvt (Z.shiftl (Z.land x inserting_bit) 2) = if inserting x then vinsert_lowbit else 0.
Proof.
  pose proof nv_pos. unfold inserting_bit. rewrite inserting_bit_, land_bit by lia. destruct (Z.testbit _ _).
  - rewrite Z.shiftl_shiftl by lia. replace (inserting_shift P + 2) with (vinsert_shift P) by lia.
    unfold nvt, vinsert_lowbit. rewrite Z.shiftl_1_l. apply Z.mod_small. split; [lia|]. apply Z.pow_lt_mono_r; lia.
  - rewrite Z.shiftl_0_l. apply Z.mod_0_l. lia.
Qed.

Lemma unlock_some v : locked v = true -> exists v', unlock v v = Some v' /\
  clean v' /\ locked v' = false /\ dirty v' = false /\
  forall C, cnt v = C mod cnt_mod -> cnt v' = bump v C mod cnt_mod.
Proof.
  intros Hl. pose proof nv_pos. unfold unlock. rewrite Z.eqb_refl, Hl. simpl. unfold bump. fold split_unit.
  destruct (splitting v).
  - eexists. split; [reflexivity|]. split; [split|split; [|split]].
    + apply Z.land_nonneg. left. apply Z.mod_pos_bound. lia.
    + intros b Hb. rewrite Z.land_spec, split_mask_bit by lia. lia.
    + rewrite locked_bit, Z.land_spec, split_mask_bit by lia. lia.
    + rewrite dirty_bits, inserting_bit_, splitting_bit_, !Z.land_spec, !split_mask_bit by lia. lia.
    + intros C E. rewrite cnt_split_mask. apply cnt_add_split, E.
  - rewrite insert_amount. eexists. split; [reflexivity|]. split; [split|split; [|split]].
    + apply Z.land_nonneg. left. apply Z.mod_pos_bound. lia.
    + intros b Hb. rewrite Z.land_spec, mask_bit by lia. lia.
    + rewrite locked_bit, Z.land_spec, mask_bit by lia. lia.
    + rewrite dirty_bits, inserting_bit_, splitting_bit_, !Z.land_spec, !mask_bit by lia. lia.
    + intros C E. rewrite cnt_unlock_mask. destruct (inserting v); [apply cnt_add_insert, E|].
      rewrite Z.add_0_r. exact E.
Qed.

Lemma bump_bounds v C : 0 <= C -> C <= bump v C <= C + split_unit /\ (dirty v = true -> C < bump v C).
Proof.
  intros HC. pose proof nv_pos. rewrite dirty_bits. unfold bump. fold split_unit.
  assert (0 < split_unit) by (apply Z.pow_pos_nonneg; lia).
  pose proof (Z.div_mod C split_unit ltac:(lia)). pose proof (Z.mod_pos_bound C split_unit ltac:(lia)).
  destruct (splitting v), (inserting v); simpl; split; intros; try discriminate; nia.
Qed.

(** ** Setting bits *)
Lemma lor_clean v m : clean v -> 0 <= m -> (forall b, Z.testbit m b = true -> lock_shift P <= b) -> clean (Z.lor v m).
Proof.
  intros [Hv Hb] Hm H. split; [apply Z.lor_nonneg; auto|]. intros b Hlt. rewrite Z.lor_spec, Hb by lia.
  destruct (Z.testbit m b) eqn:E; [apply H in E; lia|reflexivity].
Qed.
Lemma lor_cnt v m : (forall b, Z.testbit m b = true -> b < vinsert_shift P \/ unused1_shift P <= b) ->
  cnt (Z.lor v m) = cnt v.
Proof.
  intros H. pose proof nv_pos. apply slice_ext; [lia..|]. intros b Hb. rewrite Z.lor_spec.
  destruct (Z.testbit m (b + vinsert_shift P)) eqn:E; [apply H in E; lia|apply orb_false_r].
Qed.

Lemma do_mark_spec m v : locked v = true -> exists k, do_mark m v = Some (Z.lor v k) /\ 0 <= k /\
  (forall b, Z.testbit k b = true -> b = inserting_shift P \/ b = splitting_shift P \/ b = deleted_shift P) /\
  dirty (Z.lor v k) = true.
Proof.
  intros Hl. pose proof nv_pos.
  assert (Hone : forall j, 0 <= j -> 0 <= Z.shiftl 1 j) by (intros; apply Z.shiftl_nonneg; lia).
  assert (Hd : forall k, Z.testbit k (inserting_shift P) || Z.testbit k (splitting_shift P) = true -> dirty (Z.lor v k) = true).
  { intros k Hk. rewrite dirty_bits, inserting_bit_, splitting_bit_, !Z.lor_spec.
    destruct (Z.testbit v _), (Z.testbit v _), (Z.testbit k _); simpl in *; auto. }
  destruct m as [| |[]|]; simpl; unfold mark_insert, mark_split, mark_change, mark_deleted; rewrite Hl; eexists;
    (split; [reflexivity|]).
  - split; [apply Hone; lia|]. split; [intros b; unfold inserting_bit; rewrite one_bit by lia; lia|].
    apply Hd. unfold inserting_bit. rewrite !one_bit by lia. lia.
  - split; [apply Hone; lia|]. split; [intros b; unfold splitting_bit; rewrite one_bit by lia; lia|].
    apply Hd. unfold splitting_bit. rewrite !one_bit by lia. lia.
  - change (1 + 1) with (Z.shiftl 1 1). rewrite Z.shiftl_shiftl by lia.
    split; [apply Hone; lia|]. split; [intros b; rewrite one_bit by lia; lia|].
    apply Hd. rewrite !one_bit by lia. lia.
  - split; [apply Hone; lia|]. split; [intros b; change (0 + 1) with 1; rewrite one_bit by lia; lia|].
    apply Hd. change (0 + 1) with 1. rewrite !one_bit by lia. lia.
  - split; [apply Z.lor_nonneg; split; apply Hone; lia|]. unfold deleted_bit, splitting_bit.
    split; [intros b; rewrite Z.lor_spec, !one_bit by lia; lia|].
    apply Hd. rewrite !Z.lor_spec, !one_bit by lia. lia.
Qed.

(** ** Invariant *)

Definition holding (p : nvpc) : bool := match p with Taken _ | Held => true | _ => false end.

(** [o] is the thread that holds the lock. *)
Definition owner (pcs : list nvpc) (o : option nat) : Prop :=
  (forall i p, pcs !! i = Some p -> holding p = true <-> o = Some i) /\
  (forall i, o = Some i -> is_Some (pcs !! i)).

(** The writes since those of [d] were all made without a dirty bit. *)
Definition unmarked_since (writes d : list bool) : Prop := exists l, writes = l ++ d /\ Forall (fun marked => marked = false) l.

Lemma unmarked_refl d : unmarked_since d d.
Proof. exists []. split; [reflexivity|constructor]. Qed.
Lemma unmarked_cons writes d : unmarked_since writes d -> unmarked_since (false :: writes) d.
Proof. intros (l & -> & Hl). exists (false :: l). split; [reflexivity|]. constructor; [reflexivity|exact Hl]. Qed.

Definition reading_ok (v changes : Z) (writes : list bool) (unlocks x c : Z) (d : list bool) (u : Z) : Prop :=
  clean x /\ dirty x = false /\ cnt x = c mod cnt_mod /\ u <= unlocks /\
  c <= changes <= c + split_unit * (unlocks - u) /\ (changes = c -> dirty v = false -> unmarked_since writes d).

Record nvinv (s : NvState) : Prop := {
  inv_clean : clean (nv_v s);
  inv_owner : exists o, owner (nv_pcs s) o /\ locked (nv_v s) = bool_decide (is_Some o);
  inv_dirty : locked (nv_v s) = false -> dirty (nv_v s) = false;
  inv_taken : forall i e, nv_pcs s !! i = Some (Taken e) -> nv_v s = e /\ dirty e = false;
  inv_cnt : cnt (nv_v s) = nv_changes s mod cnt_mod;
  inv_pos : 0 <= nv_changes s;
  inv_reading : forall i x c d u, nv_pcs s !! i = Some (Reading x c d u) ->
    reading_ok (nv_v s) (nv_changes s) (nv_writes s) (nv_unlocks s) x c d u
}.

Lemma owner_keep pcs o i p p' :
  owner pcs o -> pcs !! i = Some p -> holding p' = holding p -> owner (<[i := p']> pcs) o.
Proof.
  intros [Ho1 Ho2] Hp E. split.
  - intros j q. rewrite list_lookup_insert_Some. intros [(<- & <- & _)|[_ Hj]]; [|apply Ho1, Hj].
    rewrite E. apply Ho1, Hp.
  - intros j Hj. destruct (Ho2 j Hj) as [q Hq]. destruct (decide (i = j)) as [<-|Hn].
    + rewrite list_lookup_insert_eq by (eapply lookup_lt_Some, Hp). eauto.
    + rewrite list_lookup_insert_ne by exact Hn. eauto.
Qed.
Lemma owner_take pcs i p p' :
  owner pcs None -> pcs !! i = Some p -> holding p' = true -> owner (<[i := p']> pcs) (Some i).
Proof.
  intros [Ho1 Ho2] Hp E. split.
  - intros j q. rewrite list_lookup_insert_Some. intros [(<- & <- & _)|[Hn Hj]]; [tauto|].
    rewrite (Ho1 j q Hj). split; [discriminate|congruence].
  - intros j [= <-]. rewrite list_lookup_insert_eq by (eapply lookup_lt_Some, Hp). eauto.
Qed.
Lemma owner_drop pcs i p p' :
  owner pcs (Some i) -> pcs !! i = Some p -> holding p' = false -> owner (<[i := p']> pcs) None.
Proof.
  intros [Ho1 Ho2] Hp E. split; [|discriminate].
  intros j q. rewrite list_lookup_insert_Some. intros [(<- & <- & _)|[Hn Hj]]; [rewrite E; split; discriminate|].
  rewrite (Ho1 j q Hj). split; congruence.
Qed.

Lemma held_locked s i p : nvinv s -> nv_pcs s !! i = Some p -> holding p = true ->
  locked (nv_v s) = true /\ owner (nv_pcs s) (Some i).
Proof.
  intros [_ (o & Ho & El) _ _ _ _ _] Hp Hh. assert (o = Some i) as -> by (apply (proj1 Ho i p Hp), Hh).
  rewrite El. split; [reflexivity|exact Ho].
Qed.

(** A step of one thread that is not a change of the version. *)
Lemma nvinv_move s i p p' :
  nvinv s -> nv_pcs s !! i = Some p -> holding p' = holding p ->
  (forall e, p' = Taken e -> nv_v s = e /\ dirty e = false) ->
  (forall x c d u, p' = Reading x c d u -> reading_ok (nv_v s) (nv_changes s) (nv_writes s) (nv_unlocks s) x c d u) ->
  nvinv (mkNv (nv_v s) (<[i := p']> (nv_pcs s)) (nv_changes s) (nv_writes s) (nv_unlocks s)).
Proof.
  intros [Hc (o & Ho & El) Hd Ht Hcnt Hpos Hr] Hp E Ht' Hr'. split; simpl; try assumption.
  - exists o. split; [eapply owner_keep; eassumption|exact El].
  - intros j e. rewrite list_lookup_insert_Some. intros [(_ & He & _)|[_ Hj]]; [apply Ht', He|eapply Ht, Hj].
  - intros j x c d u. rewrite list_lookup_insert_Some. intros [(_ & He & _)|[_ Hj]]; [apply Hr', He|eapply Hr, Hj].
Qed.

Lemma nvstep_lock s i e v' :
  nvinv s -> nv_pcs s !! i = Some (Spin e) -> lock_try (nv_v s) e = LockTaken v' ->
  nvinv (mkNv v' (<[i := Taken v']> (nv_pcs s)) (nv_changes s) (nv_writes s) (nv_unlocks s)).
Proof.
  intros [Hc (o & Ho & El) Hd Ht Hcnt Hpos Hr] Hp. unfold lock_try. pose proof nv_pos.
  destruct (locked e) eqn:Hl; [discriminate|]. destruct (Z.eqb_spec (nv_v s) e) as [<-|]; [|discriminate].
  intros [= <-]. specialize (Hd Hl).
  assert (o = None) as -> by (destruct o; [|reflexivity]; rewrite El in Hl; discriminate).
  assert (Hbit : forall b, Z.testbit lock_bit b = (lock_shift P =? b)) by (intros; apply one_bit; lia).
  assert (Hdirty : dirty (Z.lor (nv_v s) lock_bit) = false).
  { rewrite dirty_bits, inserting_bit_, splitting_bit_, !Z.lor_spec, !Hbit.
    replace (lock_shift P =? inserting_shift P) with false by lia.
    replace (lock_shift P =? splitting_shift P) with false by lia.
    rewrite !orb_false_r, <- inserting_bit_, <- splitting_bit_, <- dirty_bits. exact Hd. }
  split; simpl.
  - apply lor_clean; [exact Hc|apply Z.shiftl_nonneg; lia|]. intros b. rewrite Hbit. lia.
  - exists (Some i). split; [eapply owner_take; [exact Ho|exact Hp|reflexivity]|].
    rewrite locked_bit, Z.lor_spec, Hbit, Z.eqb_refl, orb_true_r. reflexivity.
  - rewrite locked_bit, Z.lor_spec, Hbit, Z.eqb_refl, orb_true_r. discriminate.
  - intros j e. rewrite list_lookup_insert_Some. intros [(_ & [= <-] & _)|[Hn Hj]]; [split; [reflexivity|exact Hdirty]|].
    exfalso. assert (None = Some j) as Hx by (apply (proj1 Ho j _ Hj); reflexivity). discriminate Hx.
  - rewrite lor_cnt; [exact Hcnt|]. intros b. rewrite Hbit. lia.
  - exact Hpos.
  - intros j x c d u. rewrite list_lookup_insert_Some. intros [(_ & He & _)|[_ Hj]]; [discriminate He|].
    destruct (Hr j x c d u Hj) as (H1 & H2 & H3 & H4 & H5 & H6). repeat split; try assumption; try apply H1; try apply H5.
    intros Hcc _. apply H6; assumption.
Qed.

Lemma nvstep_mark s i m v' :
  nvinv s -> nv_pcs s !! i = Some Held -> do_mark m (nv_v s) = Some v' ->
  nvinv (mkNv v' (nv_pcs s) (nv_changes s) (nv_writes s) (nv_unlocks s)).
Proof.
  intros Hs Hp Hm. pose proof nv_pos. destruct (held_locked s i Held Hs Hp eq_refl) as [Hl Ho].
  destruct Hs as [Hc _ Hd Ht Hcnt Hpos Hr].
  destruct (do_mark_spec m (nv_v s) Hl) as (k & E & Hk & Hb & Hdirty). rewrite E in Hm. injection Hm as <-.
  assert (Hl' : locked (Z.lor (nv_v s) k) = true) by (rewrite locked_bit, Z.lor_spec, <- locked_bit, Hl; reflexivity).
  split; simpl.
  - apply lor_clean; [exact Hc|exact Hk|]. intros b Hb'. apply Hb in Hb'. lia.
  - exists (Some i). split; [exact Ho|]. rewrite Hl'. reflexivity.
  - congruence.
  - intros j e Hj. exfalso. assert (Some i = Some j) as [= <-] by (apply (proj1 Ho j _ Hj); reflexivity). congruence.
  - rewrite lor_cnt; [exact Hcnt|]. intros b Hb'. apply Hb in Hb'. lia.
  - exact Hpos.
  - intros j x c d u Hj. destruct (Hr j x c d u Hj) as (H1 & H2 & H3 & H4 & H5 & H6).
    repeat split; try assumption; try apply H1; try apply H5. congruence.
Qed.

Lemma nvstep_unlock s i v' :
  nvinv s -> nv_pcs s !! i = Some Held -> unlock (nv_v s) (nv_v s) = Some v' ->
  nvinv (mkNv v' (<[i := Idle]> (nv_pcs s)) (bump (nv_v s) (nv_changes s)) (nv_writes s) (nv_unlocks s + 1)).
Proof.
  intros Hs Hp Hu. pose proof nv_pos. destruct (held_locked s i Held Hs Hp eq_refl) as [Hl Ho].
  destruct Hs as [Hc _ Hd Ht Hcnt Hpos Hr].
  destruct (unlock_some (nv_v s) Hl) as (v1 & E & Hc' & Hl' & Hd' & Hcnt'). rewrite E in Hu. injection Hu as <-.
  destruct (bump_bounds (nv_v s) (nv_changes s) Hpos) as [Hb1 Hb2].
  split; simpl.
  - exact Hc'.
  - exists None. split; [eapply owner_drop; [exact Ho|exact Hp|reflexivity]|exact Hl'].
  - intros _. exact Hd'.
  - intros j e. rewrite list_lookup_insert_Some. intros [(_ & He & _)|[Hn Hj]]; [discriminate He|].
    exfalso. assert (Some i = Some j) as Hx by (apply (proj1 Ho j _ Hj); reflexivity). congruence.
  - apply Hcnt', Hcnt.
  - lia.
  - intros j x c d u. rewrite list_lookup_insert_Some. intros [(_ & He & _)|[_ Hj]]; [discriminate He|].
    destruct (Hr j x c d u Hj) as (H1 & H2 & H3 & H4 & H5 & H6). repeat split; try assumption; try apply H1; try lia.
    intros Ec _. apply H6; [lia|]. destruct (dirty (nv_v s)); [|reflexivity]. specialize (Hb2 eq_refl). lia.
Qed.

Lemma nvstep_inv s c' : nvinv s -> nvstep (NvRun s) c' -> exists s', c' = NvRun s' /\ nvinv s'.
Proof.
  intros Hs Hst. inversion Hst; subst; try match goal with H : nv_pcs _ !! _ = Some Held |- _ =>
      destruct (held_locked _ _ _ Hs H eq_refl) as [Hl Ho] end.
  - eexists. split; [reflexivity|]. eapply nvinv_move; eauto; discriminate.
  - eexists. split; [reflexivity|]. eapply nvstep_lock; eassumption.
  - eexists. split; [reflexivity|]. eapply nvinv_move; eauto; discriminate.
  - eexists. split; [reflexivity|]. eapply nvinv_move; eauto; discriminate.
  - destruct (inv_taken s Hs i e) as [<- Hd]; [assumption|]. unfold lock_check in *. rewrite Hd, Z.eqb_refl in *. discriminate.
  - eexists. split; [reflexivity|]. eapply nvstep_mark; eassumption.
  - destruct (do_mark_spec m (nv_v s) Hl) as (k & E & _). congruence.
  - eexists. split; [reflexivity|]. destruct Hs as [Hc Howner Hd Ht Hcnt Hpos Hr]. split; simpl; try assumption.
    intros j x c d u Hj. destruct (Hr j x c d u Hj) as (H1' & H2' & H3 & H4 & H5 & H6).
    repeat split; try assumption; try apply H1'; try apply H5. intros Ec Hdv. rewrite Hdv. apply unmarked_cons, H6; assumption.
  - eexists. split; [reflexivity|]. eapply nvstep_unlock; eassumption.
  - destruct (unlock_some (nv_v s) Hl) as (v1 & E & _). congruence.
  - eexists. split; [reflexivity|]. eapply nvinv_move; eauto; [discriminate|].
    intros y c d u [= <- <- <- <-]. unfold stable_try in *. destruct (dirty (nv_v s)) eqn:Hd; [discriminate|].
    match goal with H : Some _ = Some _ |- _ => injection H as <- end.
    destruct Hs as [Hc _ _ _ Hcnt _ _]. repeat split; try assumption; try apply Hc; try lia. intros _ _. apply unmarked_refl.
  - eexists. split; [reflexivity|]. eapply nvinv_move; eauto; discriminate.
Qed.

Lemma nvinv_start leaf n : nvinv (nv_start leaf n).
Proof.
  pose proof nv_pos. unfold nv_start, new_nodeversion.
  assert (Hb : forall b, Z.testbit (if leaf then isleaf_bit else 0) b = leaf && (isleaf_shift P =? b)).
  { intros b. destruct leaf; [apply one_bit; lia|apply Z.bits_0]. }
  assert (Hpc : forall i p, replicate n Idle !! i = Some p -> p = Idle) by (intros i p [-> _]%lookup_replicate; reflexivity).
  split; simpl.
  - split; [destruct leaf; [apply Z.shiftl_nonneg; lia|lia]|]. intros b Hlt. rewrite Hb. lia.
  - exists None. split; [split; [|discriminate]|].
    + intros i p ->%Hpc. split; discriminate.
    + rewrite locked_bit, Hb. apply andb_false_intro2. lia.
  - intros _. rewrite dirty_bits, inserting_bit_, splitting_bit_, !Hb. lia.
  - intros i e He%Hpc. discriminate He.
  - rewrite Z.mod_0_l by (unfold cnt_mod; lia). transitivity (slice 0 (vinsert_shift P) (unused1_shift P - vinsert_shift P)).
    + apply slice_ext; [lia..|]. intros b Hb'. rewrite Hb, Z.bits_0. lia.
    + unfold slice. rewrite Z.div_0_l, Z.mod_0_l by lia. reflexivity.
  - lia.
  - intros i x c d u He%Hpc. discriminate He.
Qed.

Definition reachable (leaf : bool) (n : nat) (c : nvconf) : Prop := rtc nvstep (NvRun (nv_start leaf n)) c.

Lemma reachable_inv leaf n c : reachable leaf n c -> exists s, c = NvRun s /\ nvinv s.
Proof.
  unfold reachable. generalize (NvRun (nv_start leaf n)) (ex_intro (fun s => NvRun (nv_start leaf n) = NvRun s /\ nvinv s)
    (nv_start leaf n) (conj eq_refl (nvinv_start leaf n))).
  intros c0 Hc0 H. revert Hc0. induction H as [c1|c1 c2 c3 Hst _ IH]; intros (s & -> & Hs); [eauto|].
  apply IH. eapply nvstep_inv; eassumption.
Qed.

Lemma not_changed v x : clean v -> clean x -> has_changed v x = false ->
  forall b, lock_shift P < b -> Z.testbit v b = Z.testbit x b.
Proof.
  intros [Hv Hvb] [Hx Hxb] H b Hb. pose proof nv_pos. unfold has_changed, lock_bit in H.
  apply Z.ltb_ge in H. rewrite Z.shiftl_1_l in H.
  assert (Hxv : 0 <= Z.lxor x v) by (apply Z.lxor_nonneg; lia).
  assert (E : Z.testbit (Z.lxor x v) b = false).
  { destruct (Z.eq_dec (Z.lxor x v) 0) as [->|Hn]; [apply Z.bits_0|]. apply Z.bits_above_log2; [lia|].
    apply Z.log2_lt_pow2; [lia|]. apply Z.le_lt_trans with (2 ^ lock_shift P); [lia|]. apply Z.pow_lt_mono_r; lia. }
  rewrite Z.lxor_spec in E. destruct (Z.testbit x b), (Z.testbit v b); simpl in E; congruence.
Qed.

(** A version as unlock leaves it. *)
Definition quiet (v : Z) : Prop := v = Z.land v unlock_mask.

Lemma quiet_bit v b : quiet v -> 0 <= b -> b < vinsert_shift P \/ b = unused1_shift P \/ nv_bits P <= b -> Z.testbit v b = false.
Proof.
  intros Hq Hb H. pose proof nv_pos. rewrite Hq, Z.land_spec, mask_bit by lia.
  apply andb_false_intro2. destruct (Z.leb_spec (vinsert_shift P) b), (Z.eqb_spec b (unused1_shift P)), (Z.ltb_spec b (nv_bits P)); lia || reflexivity.
Qed.

Lemma quiet_idle v : quiet v -> locked v = false /\ dirty v = false.
Proof.
  intros Hq. pose proof nv_pos. rewrite dirty_bits, locked_bit, inserting_bit_, splitting_bit_.
  rewrite !(quiet_bit v) by (first [exact Hq | lia]). auto.
Qed.

(** Taking the lock and giving it back without a mark is invisible. *)
Lemma lock_unlock_quiet v : quiet v -> let x := Z.lor v lock_bit in
  lock_try v v = LockTaken x /\ unlock x x = Some v /\ has_changed x v = false /\ dirty x = false.
Proof.
  intros Hq x. pose proof nv_pos. destruct (quiet_idle v Hq) as [Hl Hd].
  assert (Hx : forall b, 0 <= b -> Z.testbit x b = Z.testbit v b || (lock_shift P =? b)).
  { intros b Hb. unfold x, lock_bit. rewrite Z.lor_spec, one_bit by lia. reflexivity. }
  assert (Hlx : locked x = true) by (rewrite locked_bit, Hx, Z.eqb_refl by lia; apply orb_true_r).
  assert (Hs : splitting x = false /\ inserting x = false).
  { rewrite splitting_bit_, inserting_bit_, !Hx, !(quiet_bit v) by (first [exact Hq | lia]). lia. }
  destruct Hs as [Hs Hi]. split; [|split; [|split]].
  - unfold lock_try. rewrite Hl, Z.eqb_refl. reflexivity.
  - unfold unlock. rewrite Z.eqb_refl, Hlx, Hs, insert_amount, Hi, Z.add_0_r. cbn. f_equal. transitivity (Z.land v unlock_mask); [|symmetry; exact Hq].
    apply Z.bits_inj'. intros b Hb. rewrite !Z.land_spec, nvt_bit, Hx, mask_bit by lia.
    destruct (Z.ltb_spec b (nv_bits P)), (Z.leb_spec (vinsert_shift P) b), (Z.eqb_spec (lock_shift P) b); try lia;
      rewrite ?orb_false_r, ?andb_true_r, ?andb_false_r; reflexivity.
  - unfold has_changed. apply Z.ltb_ge. apply Z.eq_le_incl. apply Z.bits_inj'. intros b Hb.
    rewrite Z.lxor_spec, Hx by lia. unfold lock_bit. rewrite one_bit by lia. rewrite locked_bit in Hl.
    destruct (Z.eqb_spec (lock_shift P) b) as [<-|]; [rewrite Hl; reflexivity|]. destruct (Z.testbit v b); reflexivity.
  - rewrite dirty_bits, Hi, Hs. reflexivity.
Qed.

(** Versions of one node that differ in the change counter only. *)
Definition same_node (v v' : Z) : Prop := has_split v' = has_split v /\ deleted v' = deleted v /\ isleaf v' = isleaf v.

Lemma same_node_bits v v' : (forall b, unused1_shift P < b -> Z.testbit v' b = Z.testbit v b) -> same_node v v'.
Proof.
  intros H. pose proof nv_pos. unfold same_node, has_split, deleted, isleaf, root_bit, deleted_bit, isleaf_bit.
  rewrite !test_bit, !H by lia. auto.
Qed.

Lemma locked_same v : same_node v (Z.lor v lock_bit).
Proof.
  pose proof nv_pos. apply same_node_bits. intros b Hb. unfold lock_bit. rewrite Z.lor_spec, one_bit by lia.
  destruct (Z.eqb_spec (lock_shift P) b); [lia|apply orb_false_r].
Qed.

(** The version of a node locked for an insertion, marked or not. *)
Definition held (v x : Z) : Prop := x = Z.lor v lock_bit \/ x = Z.lor (Z.lor v lock_bit) inserting_bit.

(** The counter cannot carry into the bits above the unused one. *)
Lemma add_low_bits x a b k : 0 <= a < 2 ^ k -> Z.testbit x k = false -> 0 <= k -> k < b -> Z.testbit (x + a) b = Z.testbit x b.
Proof.
  intros Ha Hx Hk Hb. set (m := 2 ^ (k + 1)). assert (Hm : m = 2 * 2 ^ k) by (unfold m; rewrite Z.pow_add_r by lia; lia).
  assert (Hlow : x mod m < 2 ^ k).
  { rewrite Hm. rewrite (Z.mul_comm 2), Z.rem_mul_r by lia. pose proof (Z.mod_pos_bound x (2 ^ k) ltac:(lia)).
    replace (x / 2 ^ k mod 2) with 0; [lia|]. rewrite <- Z.shiftr_div_pow2, <- Z.bit0_mod, Z.shiftr_spec by lia. rewrite Z.add_0_l, Hx. reflexivity. }
  assert (E : (x + a) / m = x / m).
  { symmetry. apply (Z.div_unique _ _ _ (x mod m + a)); pose proof (Z.mod_pos_bound x m ltac:(lia)); pose proof (Z.div_mod x m ltac:(lia)); lia. }
  replace b with (b - (k + 1) + (k + 1)) by lia. rewrite <- !Z.div_pow2_bits by lia. fold m. rewrite E. reflexivity.
Qed.

(** Unlocking leaves a quiet version of the same node. *)
Lemma unlock_held v x : quiet v -> held v x -> exists v', unlock x x = Some v' /\ quiet v' /\ same_node v v'.
Proof.
  intros Hq [-> | ->].
  { destruct (lock_unlock_quiet v Hq) as (_ & E & _). exists v. repeat split; assumption. }
  pose proof nv_pos. set (x := Z.lor (Z.lor v lock_bit) inserting_bit).
  assert (Hx : forall b, 0 <= b -> Z.testbit x b = Z.testbit v b || (lock_shift P =? b) || (inserting_shift P =? b)).
  { intros b Hb. unfold x, lock_bit, inserting_bit. rewrite !Z.lor_spec, !one_bit by lia. reflexivity. }
  assert (Hl : locked x = true) by (rewrite locked_bit, Hx, Z.eqb_refl, orb_true_r by lia; reflexivity).
  assert (Hs : splitting x = false) by (rewrite splitting_bit_, Hx, (quiet_bit v) by (first [exact Hq | lia]); lia).
  assert (Hi : inserting x = true) by (rewrite inserting_bit_, Hx, Z.eqb_refl by lia; apply orb_true_r).
  unfold unlock. rewrite Z.eqb_refl, Hl, Hs, insert_amount, Hi. cbn [negb orb]. eexists. split; [reflexivity|]. split.
  - unfold quiet. rewrite <- Z.land_assoc, Z.land_diag. reflexivity.
  - apply same_node_bits. intros b Hb. rewrite Z.land_spec, nvt_bit, mask_bit by lia. unfold vinsert_lowbit. rewrite Z.shiftl_1_l.
    rewrite (add_low_bits x _ b (unused1_shift P)).
    + rewrite Hx by lia. destruct (Z.lt_ge_cases b (nv_bits P)).
      * destruct (Z.testbit v b); lia.
      * rewrite (quiet_bit v b Hq) by lia. lia.
    + split; [apply Z.pow_nonneg; lia|apply Z.pow_lt_mono_r; lia].
    + rewrite Hx, (quiet_bit v _ Hq) by lia. lia.
    + lia.
    + exact Hb.
Qed.

(** Unlocking a node that was split: the node is no longer a root. *)
Lemma unlock_splitting v x : quiet v -> held v x -> exists v', unlock (Z.lor x splitting_bit) (Z.lor x splitting_bit) = Some v' /\ quiet v' /\
  has_split v' = true /\ deleted v' = deleted v /\ isleaf v' = isleaf v.
Proof.
  intros Hq Hh. pose proof nv_pos. set (y := Z.lor x splitting_bit).
  assert (Hx : exists c, forall b, 0 <= b -> Z.testbit y b = Z.testbit v b || (lock_shift P =? b) || (c && (inserting_shift P =? b)) || (splitting_shift P =? b)).
  { unfold y. destruct Hh as [-> | ->]; [exists false|exists true]; intros b Hb; unfold lock_bit, inserting_bit, splitting_bit;
      rewrite !Z.lor_spec, !one_bit by lia; cbn [andb]; rewrite ?orb_false_r; reflexivity. }
  destruct Hx as [c Hx].
  assert (Hl : locked y = true) by (rewrite locked_bit, Hx, Z.eqb_refl by lia; destruct (Z.testbit v (lock_shift P)); reflexivity).
  assert (Hs : splitting y = true) by (rewrite splitting_bit_, Hx, Z.eqb_refl by lia; apply orb_true_r).
  unfold unlock. rewrite Z.eqb_refl, Hl, Hs. cbn [negb orb]. eexists. split; [reflexivity|].
  set (v' := Z.land _ _).
  assert (Hv' : forall b, unused1_shift P < b -> Z.testbit v' b = Z.testbit v b && negb (b =? root_shift P)).
  { intros b Hb. unfold v', vsplit_lowbit. rewrite Z.land_spec, nvt_bit, split_mask_bit, Z.shiftl_1_l by lia.
    rewrite (add_low_bits y _ b (unused1_shift P)).
    - rewrite Hx by lia. destruct (Z.lt_ge_cases b (nv_bits P)) as [Hlt|Hge]; [|rewrite (quiet_bit v b Hq) by lia; lia].
      destruct (Z.testbit v b), c; lia.
    - split; [apply Z.pow_nonneg; lia|apply Z.pow_lt_mono_r; lia].
    - rewrite Hx, (quiet_bit v _ Hq) by lia. lia.
    - lia.
    - exact Hb. }
  split; [|unfold has_split, deleted, isleaf, root_bit, deleted_bit, isleaf_bit; rewrite !test_bit, !Hv' by lia].
  - apply Z.bits_inj'. intros b Hb. unfold v'. rewrite !Z.land_spec, nvt_bit, split_mask_bit, mask_bit by lia.
    destruct (Z.testbit (y + vsplit_lowbit) b); lia.
  - rewrite Z.eqb_refl. repeat split; [|destruct (Z.testbit v (deleted_shift P))|destruct (Z.testbit v (isleaf_shift P))]; lia.
Qed.

(** The version a new sibling of an interior node starts with. *)
Lemma nonroot_held v : quiet v -> let v' := mark_nonroot v in
  quiet v' /\ mark_nonroot (Z.lor v lock_bit) = Z.lor v' lock_bit /\ has_split v' = true /\ deleted v' = deleted v /\ isleaf v' = isleaf v.
Proof.
  intros Hq v'. pose proof nv_pos.
  assert (Hm : forall z b, 0 <= b -> Z.testbit (mark_nonroot z) b = Z.testbit z b && (negb (root_shift P =? b) && (b <? nv_bits P))).
  { intros z b Hb. unfold mark_nonroot, root_bit. rewrite Z.land_spec, nvt_bit, Z.lnot_spec, one_bit by lia. reflexivity. }
  assert (Hv' : forall b, 0 <= b -> Z.testbit v' b = Z.testbit v b && negb (root_shift P =? b)).
  { intros b Hb. unfold v'. rewrite Hm by lia. destruct (Z.lt_ge_cases b (nv_bits P)); [destruct (Z.testbit v b); lia|]. rewrite (quiet_bit v b Hq) by lia. reflexivity. }
  split; [|split].
  - apply Z.bits_inj'. intros b Hb. rewrite Z.land_spec, Hv', mask_bit by lia.
    destruct (Z.leb_spec (vinsert_shift P) b), (Z.eqb_spec b (unused1_shift P)), (Z.ltb_spec b (nv_bits P)); cbn [andb negb]; rewrite ?andb_true_r; try reflexivity;
      rewrite (quiet_bit v b Hq) by lia; reflexivity.
  - apply Z.bits_inj'. intros b Hb. unfold lock_bit. rewrite Z.lor_spec, Hm, Hv', Z.lor_spec, one_bit by lia.
    destruct (Z.lt_ge_cases b (nv_bits P)); [|rewrite (quiet_bit v b Hq) by lia]; destruct (Z.testbit v b); lia.
  - unfold has_split, deleted, isleaf, root_bit, deleted_bit, isleaf_bit. rewrite !test_bit, !Hv' by lia. rewrite Z.eqb_refl.
    repeat split; [|destruct (Z.testbit v (deleted_shift P))|destruct (Z.testbit v (isleaf_shift P))]; lia.
Qed.

Lemma held_bits v x : quiet v -> held v x -> locked x = true /\ isleaf x = isleaf v.
Proof.
  intros Hq Hh. pose proof nv_pos. assert (Hl : locked (Z.lor v lock_bit) = true).
  { rewrite locked_bit. unfold lock_bit. rewrite Z.lor_spec, one_bit, Z.eqb_refl by lia. apply orb_true_r. }
  assert (Hi : isleaf (Z.lor v lock_bit) = isleaf v) by apply (locked_same v).
  destruct Hh as [-> | ->]; [auto|]. rewrite locked_bit in *. unfold isleaf, isleaf_bit, inserting_bit in *. rewrite test_bit in * by lia.
  rewrite !Z.lor_spec, !one_bit in * by lia. rewrite Hl. split; [reflexivity|].
  destruct (Z.eqb_spec (inserting_shift P) (isleaf_shift P)); [lia|]. rewrite orb_false_r. exact Hi.
Qed.

Lemma quiet_new_root : quiet (mark_root (new_nodeversion true)).
Proof.
  pose proof nv_pos. unfold quiet, mark_root, new_nodeversion, root_bit, isleaf_bit. apply Z.bits_inj'. intros b Hb.
  rewrite Z.land_spec, Z.lor_spec, !one_bit, mask_bit by lia.
  destruct (Z.eqb_spec (isleaf_shift P) b), (Z.eqb_spec (root_shift P) b), (Z.leb_spec (vinsert_shift P) b), (Z.eqb_spec b (unused1_shift P)),
    (Z.ltb_spec b (nv_bits P)); lia || reflexivity.
Qed.

Lemma mutual_exclusion s : nvinv s ->
  (locked (nv_v s) = true <-> exists i p, nv_pcs s !! i = Some p /\ holding p = true) /\
  (forall i j p q, nv_pcs s !! i = Some p -> nv_pcs s !! j = Some q -> holding p = true -> holding q = true -> i = j).
Proof.
  intros Hs. split; [split|].
  - destruct (inv_owner s Hs) as (o & Ho & El). rewrite El. intros H%bool_decide_eq_true. destruct H as [i ->].
    destruct (proj2 Ho i eq_refl) as [p Hp]. exists i, p. split; [exact Hp|]. apply (proj1 Ho i p Hp). reflexivity.
  - intros (i & p & Hp & Hh). eapply held_locked; eassumption.
  - intros i j p q Hp Hq Hhp Hhq. destruct (held_locked s i p Hs Hp Hhp) as [_ Ho].
    assert (Some i = Some j) as [= <-] by (apply (proj1 Ho j q Hq), Hhq). reflexivity.
Qed.

Lemma unchanged_read s i x c d u :
  nvinv s -> nv_pcs s !! i = Some (Reading x c d u) -> has_changed (nv_v s) x = false ->
  nv_unlocks s - u < 2 ^ (unused1_shift P - vsplit_shift P) -> unmarked_since (nv_writes s) d /\ dirty (nv_v s) = false.
Proof.
  intros Hs Hi Hc Hu. pose proof nv_pos.
  destruct (inv_reading s Hs i x c d u Hi) as (Hx & Hdx & Hcx & Hu0 & Hc0 & Hw).
  pose proof (not_changed _ _ (inv_clean s Hs) Hx Hc) as Hb.
  assert (Hd : dirty (nv_v s) = false).
  { rewrite dirty_bits, inserting_bit_, splitting_bit_, !Hb, <- inserting_bit_, <- splitting_bit_, <- dirty_bits by lia.
    exact Hdx. }
  assert (Hcnt : cnt (nv_v s) = cnt x) by (apply slice_ext; [lia..|]; intros b ?; apply Hb; lia).
  rewrite (inv_cnt s Hs), Hcx in Hcnt.
  assert (Hmod : cnt_mod = split_unit * 2 ^ (unused1_shift P - vsplit_shift P)).
  { unfold cnt_mod, split_unit. rewrite <- Z.pow_add_r by lia. f_equal. lia. }
  assert (0 < split_unit) by (apply Z.pow_pos_nonneg; lia).
  assert (Hlt : nv_changes s - c < cnt_mod) by nia.
  assert (nv_changes s = c); [|split; [apply Hw; assumption|exact Hd]].
  assert (E : (nv_changes s - c) mod cnt_mod = 0) by (rewrite Zminus_mod, Hcnt, Z.sub_diag; apply Zmod_0_l).
  rewrite Z.mod_small in E by lia. lia.
Qed.

End Facts.
End NodeVersion.

(** C34: the node lock is safe.  For both layouts, in every interleaving of any
    number of threads that lock, mark, change and unlock a node: no assertion of
    [lock], [unlock] or the mark functions fails, the lock bit is set exactly
    while some thread holds the lock, and never two threads hold it. *)
Theorem node_lock_safe P `{!NvLayout P} leaf n c :
  reachable P leaf n c -> exists s, c = NvRun s /\
  (locked P (nv_v s) = true <-> exists i p, nv_pcs s !! i = Some p /\ holding p = true) /\
  (forall i j p q, nv_pcs s !! i = Some p -> nv_pcs s !! j = Some q -> holding p = true -> holding q = true -> i = j).
Proof.
  intros H. destruct (reachable_inv P leaf n c H) as (s & -> & Hs). exists s. split; [reflexivity|].
  apply (mutual_exclusion P s Hs).
Qed.

(** C35: a validated read has missed no marked write.  A reader that took a stable
    version and later finds [has_changed] false has seen no write that a lock holder
    made with a dirty bit set, and no dirty bit is set now, provided fewer than 2^19
    (2^33 for the 64-bit layout) unlocks happened meanwhile: the version counter
    cannot have come round to the same value.  Nothing is assumed of the writers: a
    write made without a mark may go unseen, and the theorem says that only those
    can. *)
Theorem validated_read P `{!NvLayout P} leaf n s i x c d u :
  reachable P leaf n (NvRun s) -> nv_pcs s !! i = Some (Reading x c d u) ->
  has_changed P (nv_v s) x = false -> nv_unlocks s - u < 2 ^ (unused1_shift P - vsplit_shift P) ->
  unmarked_since (nv_writes s) d /\ dirty P (nv_v s) = false.
Proof.
  intros H Hi Hc Hu. destruct (reachable_inv P leaf n _ H) as (s' & [= <-] & Hs).
  apply (unchanged_read P s i x c d u); assumption.
Qed.

(** Two threads on a leaf: thread 0 inserts, then thread 1 takes a stable version,
    then thread 0 locks the node, writes to it without a mark and unlocks it. *)
Definition nv_example : NvState := mkNv 0x80000008 [Idle; Reading 0x80000008 1 [true] 1] 1 [false; true] 2.

Ltac nv_go st := eapply rtc_l; [eapply st; reflexivity|cbn].
Lemma nv_example_reachable : reachable nodeversion32_parameters true 2 (NvRun nv_example).
Proof.
  unfold reachable. eapply rtc_l; [apply (NvStart _ 0 _ 0x80000000); reflexivity|cbn].
  nv_go (NvLock nodeversion32_parameters 0). nv_go (NvHeld nodeversion32_parameters 0).
  eapply rtc_l; [eapply (NvMark _ 0 _ MInsert); reflexivity|cbn]. nv_go (NvWrite nodeversion32_parameters 0).
  nv_go (NvUnlock nodeversion32_parameters 0). nv_go (NvRead nodeversion32_parameters 1).
  eapply rtc_l; [apply (NvStart _ 0 _ 0x80000008); reflexivity|cbn].
  nv_go (NvLock nodeversion32_parameters 0). nv_go (NvHeld nodeversion32_parameters 0).
  nv_go (NvWrite nodeversion32_parameters 0). nv_go (NvUnlock nodeversion32_parameters 0). apply rtc_refl.
Qed.

Lemma node_lock_safe_witness : exists s, NvRun nv_example = NvRun s /\
  (locked nodeversion32_parameters (nv_v s) = true <-> exists i p, nv_pcs s !! i = Some p /\ holding p = true) /\
  (forall i j p q, nv_pcs s !! i = Some p -> nv_pcs s !! j = Some q -> holding p = true -> holding q = true -> i = j).
Proof. apply (node_lock_safe nodeversion32_parameters true 2 (NvRun nv_example)). exact nv_example_reachable. Defined.

(** The reader's check succeeds, and the write it has missed is the unmarked one. *)
Lemma validated_read_witness : has_changed nodeversion32_parameters (nv_v nv_example) 0x80000008 = false /\
  unmarked_since (nv_writes nv_example) [true] /\ nv_writes nv_example <> [true].
Proof.
  split; [reflexivity|]. split; [|discriminate].
  apply (validated_read nodeversion32_parameters true 2 nv_example 1 0x80000008 1 [true] 1).
  - exact nv_example_reachable.
  - reflexivity.
  - reflexivity.
  - vm_compute. reflexivity.
Defined.

Example nv_insert_cycle :
  let P := nodeversion32_parameters in
  lock_try P 0x80000000 0x80000000 = LockTaken 0x80000001 /\
  mark_insert P 0x80000001 = Some 0x80000003 /\ unlock P 0x80000003 0x80000003 = Some 0x80000008.
Proof. repeat split. Qed.
