(* ===== verification/KSearch.v ===== *)
(** * Searching the keys of a node (src/masstree/ksearch.hh)

    The lower and upper bound searches over the keys of a leaf or internode, in
    the order its permuter gives, by bisection or by a scan.  [perm] is the
    node's permutation, [cmp p] the comparator of the sought key with the key in
    slot [p]. *)

From S2P Require Import Prelude.

Open Scope Z_scope.

Section KSearch.
Context (size : Z) (perm : Z -> Z) (cmp : Z -> Z).

(** ** Bisection

    [while (l < r)]: the position and slot of an equal key, or the position where
    the interval became empty.  [None]: out of fuel. *)
Inductive found := Found (m mp : Z) | Absent (l : Z).

Fixpoint bisect (fuel : nat) (l r : Z) : option found :=
  match fuel with
  | O => None
  | S fuel' =>
      if l <? r then
        let m := Z.shiftr (l + r) 1 in
        let mp := perm m in
        let c := cmp mp in
        if c <? 0 then bisect fuel' l m
        else if c =? 0 then Some (Found m mp)
        else bisect fuel' (m + 1) r
      else Some (Absent l)
  end.

(** Enough turns for any node: see [bisect_total]. *)
Definition search : option found := bisect (S (Z.to_nat size)) 0 size.

Definition key_upper_bound_by : option Z :=
  (fun f => match f with Found m _ => m + 1 | Absent l => l end) <$> search.
Definition key_lower_bound_by : option Z :=
  (fun f => match f with Found m _ => m | Absent l => l end) <$> search.
(** The result and [position]. *)
Definition key_lower_bound_with_position_by : option (Z * Z) :=
  (fun f => match f with Found m mp => (m, mp) | Absent l => (l, -1) end) <$> search.
Definition key_lower_bound_check_by : option Z :=
  (fun f => match f with Found _ mp => mp | Absent l => - l - 1 end) <$> search.

(** ** Scan: [n] is the number of positions from [l] on. *)
Fixpoint scan_upper (n : nat) (l : Z) : Z :=
  match n with
  | O => l
  | S n' => if cmp (perm l) <? 0 then l else scan_upper n' (l + 1)
  end.
Fixpoint scan_lower (n : nat) (l : Z) : Z :=
  match n with
  | O => l
  | S n' => if cmp (perm l) <=? 0 then l else scan_lower n' (l + 1)
  end.
Fixpoint scan (n : nat) (l : Z) : found :=
  match n with
  | O => Absent l
  | S n' =>
      let c := cmp (perm l) in
      if c <? 0 then Absent l else if c =? 0 then Found l (perm l) else scan n' (l + 1)
  end.

Definition key_find_upper_bound_by : Z := scan_upper (Z.to_nat size) 0.
Definition key_find_lower_bound_by : Z := scan_lower (Z.to_nat size) 0.
Definition key_find_lower_bound_with_position_by : Z * Z :=
  match scan (Z.to_nat size) 0 with Found l lp => (l, lp) | Absent l => (l, -1) end.
Definition key_find_lower_bound_check_by : Z :=
  match scan (Z.to_nat size) 0 with Found _ lp => lp | Absent l => - l - 1 end.

(** ** key_bound<max_size, method> *)
Inductive bound_method := bound_method_fast | bound_method_binary | bound_method_linear.

(** Whether the searches of [key_bound<max_size, method>] bisect. *)
Definition key_bound (max_size : Z) (method : bound_method) : bool :=
  match method with
  | bound_method_binary => true
  | bound_method_linear => false
  | bound_method_fast => 16 <? max_size
  end.

Definition upper (binary : bool) : option Z :=
  if binary then key_upper_bound_by else Some key_find_upper_bound_by.
Definition lower (binary : bool) : option Z :=
  if binary then key_lower_bound_by else Some key_find_lower_bound_by.
Definition lower_with_position (binary : bool) : option (Z * Z) :=
  if binary then key_lower_bound_with_position_by else Some key_find_lower_bound_with_position_by.
Definition lower_check (binary : bool) : option Z :=
  if binary then key_lower_bound_check_by else Some key_find_lower_bound_check_by.

(** ** Specification *)

(** The node's keys are strictly increasing, seen through the comparisons with
    the sought key. *)
Definition increasing : Prop :=
  forall i j, 0 <= i < j -> j < size -> 0 <= cmp (perm j) -> 0 < cmp (perm i).

(** [f] says where the sought key is, or where it belongs. *)
Definition locates (f : found) : Prop :=
  match f with
  | Found m mp => 0 <= m < size /\ mp = perm m /\ cmp mp = 0
  | Absent l => 0 <= l <= size /\ (forall i, 0 <= i < l -> 0 < cmp (perm i)) /\
      (forall i, l <= i < size -> cmp (perm i) < 0)
  end.

Definition below (l : Z) : Prop := forall i, 0 <= i < l -> 0 < cmp (perm i).
Definition above (r : Z) : Prop := forall i, r <= i < size -> cmp (perm i) < 0.

Lemma bisect_total (H : increasing) fuel l r :
  0 <= l <= r -> r <= size -> r - l < Z.of_nat fuel -> below l -> above r ->
  exists f, bisect fuel l r = Some f /\ locates f.
Proof.
  revert l r. induction fuel as [|fuel IH]; intros l r Hl Hr Hf Hb Ha; [lia|]. cbn [bisect].
  destruct (Z.ltb_spec l r).
  - rewrite Z.shiftr_div_pow2 by lia. change (2 ^ 1) with 2.
    assert (Hm : l <= (l + r) / 2 < r) by (pose proof (Z.div_mod (l + r) 2); pose proof (Z.mod_pos_bound (l + r) 2); lia).
    set (m := (l + r) / 2) in *. destruct (Z.ltb_spec (cmp (perm m)) 0) as [Hc|Hc].
    + apply IH; [lia..|exact Hb|]. intros i Hi. destruct (Z.eq_dec i m) as [->|]; [exact Hc|].
      destruct (Z.ltb_spec (cmp (perm i)) 0) as [|Hi0]; [assumption|].
      specialize (H m i ltac:(lia) ltac:(lia) Hi0). lia.
    + destruct (Z.eqb_spec (cmp (perm m)) 0) as [E|Hn].
      * eexists. split; [reflexivity|]. simpl. repeat split; try lia.
      * apply IH; [lia..| |exact Ha]. intros i Hi. destruct (Z.eq_dec i m) as [->|]; [lia|].
        apply (H i m); lia.
  - eexists. split; [reflexivity|]. simpl. repeat split; try lia; [exact Hb|]. intros i Hi. apply Ha. lia.
Qed.

Lemma search_locates : increasing -> 0 <= size -> exists f, search = Some f /\ locates f.
Proof. intros H Hs. apply bisect_total; try lia; [exact H| |]; intros i Hi; lia. Qed.

Lemma scan_locates n l (H : increasing) : 0 <= l -> l + Z.of_nat n = size -> below l -> locates (scan n l).
Proof.
  revert l. induction n as [|n IH]; intros l Hl Hn Hb; cbn [scan].
  { simpl. repeat split; [lia|lia|exact Hb|]. intros i Hi. lia. }
  destruct (Z.ltb_spec (cmp (perm l)) 0) as [Hc|Hc].
  - simpl. repeat split; [lia|lia|exact Hb|]. intros i Hi. destruct (Z.eq_dec i l) as [->|]; [exact Hc|].
    destruct (Z.ltb_spec (cmp (perm i)) 0) as [|Hi0]; [assumption|].
    specialize (H l i ltac:(lia) ltac:(lia) Hi0). lia.
  - destruct (Z.eqb_spec (cmp (perm l)) 0); [simpl; repeat split; lia|].
    apply IH; [lia|lia|]. intros i Hi. destruct (Z.eq_dec i l) as [->|]; [lia|]. apply Hb. lia.
Qed.

(** A sorted node has one answer. *)
Lemma locates_unique f g : increasing -> locates f -> locates g -> f = g.
Proof.
  intros H Hf Hg.
  assert (Hfa : forall m mp l, locates (Found m mp) -> locates (Absent l) -> False).
  { intros m mp l (Hm & -> & Hc) (Hl & Hb & Ha). destruct (Z.lt_ge_cases m l); [specialize (Hb m)|specialize (Ha m)]; lia. }
  destruct f as [m mp|l], g as [m' mp'|l'].
  - destruct Hf as (Hm & -> & Hc), Hg as (Hm' & -> & Hc'). assert (m = m') as <-; [|reflexivity].
    destruct (Z.lt_trichotomy m m') as [Hlt|[?|Hlt]]; [|assumption|].
    + specialize (H m m' ltac:(lia) ltac:(lia) ltac:(lia)). lia.
    + specialize (H m' m ltac:(lia) ltac:(lia) ltac:(lia)). lia.
  - destruct (Hfa _ _ _ Hf Hg).
  - destruct (Hfa _ _ _ Hg Hf).
  - destruct Hf as (Hl & Hb & Ha), Hg as (Hl' & Hb' & Ha'). f_equal.
    destruct (Z.lt_trichotomy l l') as [Hlt|[?|Hlt]]; [|assumption|].
    + specialize (Hb' l ltac:(lia)). specialize (Ha l ltac:(lia)). lia.
    + specialize (Hb l' ltac:(lia)). specialize (Ha' l' ltac:(lia)). lia.
Qed.

Lemma scan_search : increasing -> 0 <= size -> search = Some (scan (Z.to_nat size) 0).
Proof.
  intros H Hs. destruct (search_locates H Hs) as (f & -> & Hf). f_equal. apply (locates_unique f); [exact H|exact Hf|].
  apply scan_locates; [exact H|lia|lia|]. intros i Hi. lia.
Qed.

Lemma scan_upper_scan n l (H : increasing) : 0 <= l -> l + Z.of_nat n = size ->
  scan_upper n l = match scan n l with Found m _ => m + 1 | Absent l' => l' end.
Proof.
  revert l. induction n as [|n IH]; intros l Hl Hn; cbn [scan_upper scan]; [reflexivity|].
  destruct (Z.ltb_spec (cmp (perm l)) 0); [reflexivity|].
  destruct (Z.eqb_spec (cmp (perm l)) 0) as [E|]; [|apply IH; lia].
  destruct n as [|n]; cbn [scan_upper]; [reflexivity|].
  destruct (Z.ltb_spec (cmp (perm (l + 1))) 0) as [|Hc]; [reflexivity|].
  specialize (H l (l + 1) ltac:(lia) ltac:(lia) Hc). lia.
Qed.
Lemma scan_lower_scan n l : scan_lower n l = match scan n l with Found m _ => m | Absent l' => l' end.
Proof.
  revert l. induction n as [|n IH]; intros l; cbn [scan_lower scan]; [reflexivity|].
  destruct (Z.leb_spec (cmp (perm l)) 0), (Z.ltb_spec (cmp (perm l)) 0), (Z.eqb_spec (cmp (perm l)) 0);
    reflexivity || lia || apply IH.
Qed.

(** For the clients of the upper bound. *)
Lemma upper_bounds binary : increasing -> 0 <= size ->
  exists r, upper binary = Some r /\ 0 <= r <= size /\
    (forall i, 0 <= i < r -> 0 <= cmp (perm i)) /\ (forall i, r <= i < size -> cmp (perm i) < 0).
Proof.
  intros H Hs. destruct (search_locates H Hs) as (f & E & Hf).
  assert (Eu : upper binary = Some (match f with Found m _ => m + 1 | Absent l => l end)).
  { unfold upper, key_upper_bound_by, key_find_upper_bound_by. destruct binary; [rewrite E; reflexivity|].
    rewrite (scan_upper_scan _ _ H) by lia. rewrite (scan_search H Hs) in E. injection E as ->. reflexivity. }
  eexists. split; [exact Eu|]. destruct f as [m mp|l]; cbn in Hf.
  - destruct Hf as (Hm & -> & Hc). split; [lia|]. split.
    + intros i Hi. destruct (Z.eq_dec i m) as [->|]; [lia|]. specialize (H i m). lia.
    + intros i Hi. destruct (Z.ltb_spec (cmp (perm i)) 0) as [|Hge]; [assumption|].
      specialize (H m i ltac:(lia) ltac:(lia) Hge). lia.
  - destruct Hf as (Hl & Hb & Ha). split; [exact Hl|]. split; [intros i Hi; specialize (Hb i Hi); lia|exact Ha].
Qed.

(** For the clients of the exact search. *)
Lemma lower_check_locates binary : increasing -> 0 <= size ->
  exists f, locates f /\ lower_check binary = Some (match f with Found _ mp => mp | Absent l => - l - 1 end).
Proof.
  intros H Hs. destruct (search_locates H Hs) as (f & E & Hf). exists f. split; [exact Hf|].
  unfold lower_check, key_lower_bound_check_by, key_find_lower_bound_check_by. destruct binary; [rewrite E; reflexivity|].
  rewrite (scan_search H Hs) in E. injection E as ->. reflexivity.
Qed.

Lemma lower_with_position_locates binary : increasing -> 0 <= size ->
  exists f, locates f /\ lower_with_position binary = Some (match f with Found m mp => (m, mp) | Absent l => (l, -1) end).
Proof.
  intros H Hs. destruct (search_locates H Hs) as (f & E & Hf). exists f. split; [exact Hf|].
  unfold lower_with_position, key_lower_bound_with_position_by, key_find_lower_bound_with_position_by. destruct binary; [rewrite E; reflexivity|].
  rewrite (scan_search H Hs) in E. injection E as ->. reflexivity.
Qed.

End KSearch.

(** C36: searching a node.  On a node whose keys increase, bisection and scan,
    whichever [key_bound] selects, both return, and give the same results: the
    slot of the sought key and its position, or the position where it belongs,
    with every key before it smaller and every key from it on greater. *)
Theorem key_search size perm cmp binary :
  increasing size perm cmp -> 0 <= size ->
  exists f, locates size perm cmp f /\
    upper size perm cmp binary = Some (match f with Found m _ => m + 1 | Absent l => l end) /\
    lower size perm cmp binary = Some (match f with Found m _ => m | Absent l => l end) /\
    lower_with_position size perm cmp binary = Some (match f with Found m mp => (m, mp) | Absent l => (l, -1) end) /\
    lower_check size perm cmp binary = Some (match f with Found _ mp => mp | Absent l => - l - 1 end).
Proof.
  intros H Hs. exists (scan perm cmp (Z.to_nat size) 0). split.
  { apply scan_locates; [exact H|lia|lia|]. intros i Hi. lia. }
  unfold upper, lower, lower_with_position, lower_check. destruct binary.
  - unfold key_upper_bound_by, key_lower_bound_by, key_lower_bound_with_position_by, key_lower_bound_check_by.
    rewrite (scan_search size perm cmp H Hs). repeat split.
  - unfold key_find_upper_bound_by, key_find_lower_bound_by. rewrite scan_lower_scan.
    rewrite (scan_upper_scan size perm cmp _ _ H) by lia. repeat split.
Qed.

Definition keys_example : list Z := [40; 10; 30; 20].
Definition perm_example (i : Z) : Z := default 0 ([1; 3; 2; 0] !! Z.to_nat i).
Definition cmp_example (p : Z) : Z := 25 - default 0 (keys_example !! Z.to_nat p).

Lemma key_search_witness : exists f, locates 4 perm_example cmp_example f /\
    upper 4 perm_example cmp_example (key_bound 15 bound_method_fast) = Some (match f with Found m _ => m + 1 | Absent l => l end) /\
    lower 4 perm_example cmp_example (key_bound 15 bound_method_fast) = Some (match f with Found m _ => m | Absent l => l end) /\
    lower_with_position 4 perm_example cmp_example (key_bound 15 bound_method_fast)
      = Some (match f with Found m mp => (m, mp) | Absent l => (l, -1) end) /\
    lower_check 4 perm_example cmp_example (key_bound 15 bound_method_fast)
      = Some (match f with Found _ mp => mp | Absent l => - l - 1 end).
Proof.
  apply (key_search 4 perm_example cmp_example (key_bound 15 bound_method_fast)); [|lia].
  intros i j Hij Hj. assert (i = 0 \/ i = 1 \/ i = 2) as [-> | [-> | ->]] by lia;
    assert (j = 1 \/ j = 2 \/ j = 3) as [-> | [-> | ->]] by lia; vm_compute; congruence || lia.
Defined.

Example key_search_absent : lower_check 4 perm_example cmp_example true = Some (-3).
Proof. reflexivity. Qed.
