(* ===== verification/StringSlice.v ===== *)
(** * Integer slices of strings (src/masstree/string_slice.hh, compiler.hh)

    A Masstree key slice is the first eight bytes of a string as an integer whose
    order is the order of the strings.  The translation follows the little-endian
    build with unaligned accesses that config.h selects: the "sloppy" functions
    read whole words around a short string and shift the rest away. *)

From S2P Require Import Prelude.

Open Scope Z_scope.

(** ** Memory *)

(** The bytes at each address; the functions below document which addresses must
    be readable. *)
Definition memory : Type := Z -> byte.

Fixpoint bytes (mem : memory) (a : Z) (n : nat) : list byte :=
  match n with
  | O => []
  | S n' => mem a :: bytes mem (a + 1) n'
  end.

(** A 64-bit load. *)
Definition load8 (mem : memory) (a : Z) : Z := le_value (bytes mem a 8).

(** The memory after [bs] is copied to address [a]. *)
Definition store (mem : memory) (a : Z) (bs : list byte) : memory :=
  fun x => if (a <=? x) && (x <? a + Z.of_nat (length bs)) then nth (Z.to_nat (x - a)) bs x00 else mem x.

(** [net_to_host_order] and [host_to_net_order] of a 64-bit integer. *)
Definition swap8 (z : Z) : Z := le_value (rev (le_bytes 8 z)).

(** [compare] of compiler.hh. *)
Definition compare (a b : Z) : Z := if a =? b then 0 else if a <? b then -1 else 1.

(** ** string_slice<uint64_t> *)
Module string_slice.

Definition size : Z := 8.

Definition make (mem : memory) (s len : Z) : Z :=
  if len <=? 0 then 0
  else if size <=? len then load8 mem s
  else le_value (bytes mem s (Z.to_nat (Z.min len size)) ++ replicate (Z.to_nat (size - Z.min len size)) x00).

Definition make_comparable (mem : memory) (s len : Z) : Z := swap8 (make mem s len).

Definition make_sloppy (mem : memory) (s len : Z) : Z :=
  if len <=? 0 then 0
  else if size <=? len then load8 mem s
  else Z.shiftr (load8 mem (s - (size - len))) (8 * (size - len)).

Definition make_comparable_sloppy (mem : memory) (s len : Z) : Z := swap8 (make_sloppy mem s len).

(** The bytes written at [buf]; their number is the result. *)
Fixpoint drop_nulls (l : nat) (us : list byte) : nat :=
  match l with
  | O => O
  | S l' => if bool_decide (us !! l' = Some x00) then drop_nulls l' us else l
  end.
Definition unparse_comparable (buflen value : Z) : list byte :=
  let u := le_bytes 8 (swap8 value) in
  let l := Z.of_nat (drop_nulls 8 u) in
  take (Z.to_nat (Z.min l buflen)) u.
Definition unparse_comparable_len (buflen value len : Z) : list byte :=
  let u := le_bytes 8 (swap8 value) in
  take (Z.to_nat (Z.min (Z.min len size) buflen)) u.

Definition equals_sloppy (mem : memory) (a b len : Z) : bool :=
  if len <=? size then
    let delta := Z.lxor (load8 mem a) (load8 mem b) in
    if len <=? 0 then true else u64 (Z.shiftl delta (8 * (size - len))) =? 0
  else bool_decide (bytes mem a (Z.to_nat len) = bytes mem b (Z.to_nat len)).

End string_slice.

(** ** Words and bytes *)

Lemma length_bytes mem a n : length (bytes mem a n) = n.
Proof. revert a. induction n; intros; simpl; auto. Qed.

Lemma bytes_app mem a n m : bytes mem a (n + m) = bytes mem a n ++ bytes mem (a + Z.of_nat n) m.
Proof.
  revert a. induction n as [|n IH]; intros a; cbn [bytes Nat.add app].
  - f_equal. lia.
  - rewrite IH. do 3 f_equal. lia.
Qed.

Lemma take_bytes mem a n m : (n <= m)%nat -> take n (bytes mem a m) = bytes mem a n.
Proof. intros H. replace m with (n + (m - n))%nat by lia. rewrite bytes_app. apply take_app_exact, length_bytes. Qed.
Lemma drop_bytes mem a n m : (n <= m)%nat -> drop n (bytes mem a m) = bytes mem (a + Z.of_nat n) (m - n).
Proof.
  intros H. replace m with (n + (m - n))%nat at 1 by lia. rewrite bytes_app. apply drop_app_exact, length_bytes.
Qed.

Lemma le_value_app l1 l2 : le_value (l1 ++ l2) = le_value l1 + 256 ^ Z.of_nat (length l1) * le_value l2.
Proof.
  induction l1 as [|b l1 IH]; [simpl; lia|]. cbn [le_value app length]. rewrite IH, Nat2Z.inj_succ, Z.pow_succ_r by lia. lia.
Qed.
Lemma le_value_zeros n : le_value (replicate n x00) = 0.
Proof. induction n as [|n IH]; [reflexivity|]. cbn [replicate le_value]. rewrite IH. reflexivity. Qed.

Lemma le_value_div l1 l2 : le_value (l1 ++ l2) / 256 ^ Z.of_nat (length l1) = le_value l2.
Proof.
  rewrite le_value_app. pose proof (le_value_range l1). rewrite Z.add_comm, Z.mul_comm, Z.div_add_l by lia.
  rewrite Z.div_small by lia. lia.
Qed.
Lemma le_value_mod l1 l2 : le_value (l1 ++ l2) mod 256 ^ Z.of_nat (length l1) = le_value l1.
Proof.
  rewrite le_value_app. pose proof (le_value_range l1). rewrite Z.mul_comm, Z_mod_plus_full. apply Z.mod_small. lia.
Qed.
Lemma le_value_inj l1 l2 : length l1 = length l2 -> le_value l1 = le_value l2 -> l1 = l2.
Proof. intros Hl E. rewrite <- (le_bytes_value l1), <- (le_bytes_value l2), Hl, E. reflexivity. Qed.

Lemma pow256 n : 0 <= n -> 2 ^ (8 * n) = 256 ^ n.
Proof. intros H. rewrite Z.pow_mul_r by lia. reflexivity. Qed.

Lemma le_bytes_8_value l : length l = 8%nat -> le_bytes 8 (le_value l) = l.
Proof. intros H. rewrite <- H. apply le_bytes_value. Qed.
Lemma swap8_value l : length l = 8%nat -> swap8 (le_value l) = le_value (rev l).
Proof. intros H. unfold swap8. rewrite le_bytes_8_value by exact H. reflexivity. Qed.
Lemma swap8_swap8 l : length l = 8%nat -> swap8 (le_value (rev l)) = le_value l.
Proof. intros H. rewrite swap8_value by (rewrite length_rev; exact H). rewrite rev_involutive. reflexivity. Qed.

(** The first eight bytes of a string, padded with null bytes. *)
Definition pad8 (l : list byte) : list byte := take 8 l ++ replicate (8 - length l) x00.
Lemma length_pad8 l : length (pad8 l) = 8%nat.
Proof. unfold pad8. rewrite length_app, length_take, length_replicate. lia. Qed.

(** The slice of a string. *)
Definition slice_of (l : list byte) : Z := le_value (rev (pad8 l)).

Lemma make_value mem s len : 0 <= len -> string_slice.make mem s len = le_value (pad8 (bytes mem s (Z.to_nat len))).
Proof.
  intros Hlen. unfold string_slice.make, string_slice.size, pad8. rewrite length_bytes.
  destruct (Z.leb_spec len 0).
  - replace len with 0 by lia. reflexivity.
  - destruct (Z.leb_spec 8 len).
    + rewrite take_bytes by lia. replace (8 - Z.to_nat len)%nat with 0%nat by lia. rewrite app_nil_r. reflexivity.
    + rewrite Z.min_l by lia. rewrite take_ge by (rewrite length_bytes; lia).
      replace (Z.to_nat (8 - len)) with (8 - Z.to_nat len)%nat by lia. reflexivity.
Qed.

Lemma make_sloppy_make mem s len : 0 <= len -> string_slice.make_sloppy mem s len = string_slice.make mem s len.
Proof.
  intros Hlen. unfold string_slice.make_sloppy, string_slice.make, string_slice.size.
  destruct (Z.leb_spec len 0); [reflexivity|]. destruct (Z.leb_spec 8 len); [reflexivity|].
  rewrite Z.min_l by lia. rewrite le_value_app, le_value_zeros, Z.mul_0_r, Z.add_0_r.
  rewrite Z.shiftr_div_pow2, pow256 by lia. unfold load8.
  replace 8%nat with (Z.to_nat (8 - len) + Z.to_nat len)%nat by lia. rewrite bytes_app.
  pose proof (le_value_div (bytes mem (s - (8 - len)) (Z.to_nat (8 - len)))
    (bytes mem (s - (8 - len) + Z.of_nat (Z.to_nat (8 - len))) (Z.to_nat len))) as E.
  rewrite length_bytes, !Z2Nat.id in E by lia. rewrite Z2Nat.id by lia. rewrite E. do 2 f_equal. lia.
Qed.

Lemma make_comparable_slice mem s len :
  0 <= len -> string_slice.make_comparable mem s len = slice_of (bytes mem s (Z.to_nat len)).
Proof. intros H. unfold string_slice.make_comparable, slice_of. rewrite make_value, swap8_value by (apply length_pad8 || lia). reflexivity. Qed.

Lemma make_comparable_sloppy_slice mem s len :
  0 <= len -> string_slice.make_comparable_sloppy mem s len = slice_of (bytes mem s (Z.to_nat len)).
Proof.
  intros H. rewrite <- make_comparable_slice by exact H. unfold string_slice.make_comparable_sloppy.
  rewrite make_sloppy_make by exact H. reflexivity.
Qed.

(** The round trip of [unparse_comparable]. *)
Lemma unparse_slice buflen len l : 0 <= len <= buflen -> len = Z.of_nat (length l) ->
  string_slice.unparse_comparable_len buflen (slice_of l) len = take 8 l.
Proof.
  intros Hb Hl. unfold string_slice.unparse_comparable_len, string_slice.size, slice_of.
  rewrite swap8_swap8, le_bytes_8_value by apply length_pad8. unfold pad8.
  rewrite Z.min_l by lia. apply take_app_exact. rewrite length_take. lia.
Qed.

Lemma equals_sloppy_spec mem a b len : 0 <= len ->
  string_slice.equals_sloppy mem a b len = bool_decide (bytes mem a (Z.to_nat len) = bytes mem b (Z.to_nat len)).
Proof.
  intros Hlen. unfold string_slice.equals_sloppy, string_slice.size. destruct (Z.leb_spec len 8); [|reflexivity].
  destruct (Z.leb_spec len 0); [replace len with 0 by lia; reflexivity|].
  set (n := Z.to_nat len).
  assert (Hmod : forall c, load8 mem c mod 2 ^ (8 * len) = le_value (bytes mem c n)).
  { intros c. rewrite pow256 by lia. unfold load8. replace 8%nat with (n + (8 - n))%nat by lia. rewrite bytes_app.
    replace len with (Z.of_nat (length (bytes mem c n))) at 1 by (rewrite length_bytes; lia). apply le_value_mod. }
  assert (Hx : Z.lxor (load8 mem a) (load8 mem b) mod 2 ^ (8 * len)
             = Z.lxor (le_value (bytes mem a n)) (le_value (bytes mem b n))).
  { rewrite <- !Hmod. rewrite <- !Z.land_ones by lia. apply Z.bits_inj'. intros i Hi.
    rewrite !Z.land_spec, !Z.lxor_spec, !Z.land_spec. destruct (Z.testbit (Z.ones _) i), (Z.testbit _ i), (Z.testbit _ i); reflexivity. }
  unfold u64. rewrite Z.shiftl_mul_pow2 by lia. replace 64 with (8 * len + 8 * (8 - len)) by lia.
  rewrite Z.pow_add_r, Z.mul_mod_distr_r, Hx by lia.
  assert (H2 : 0 < 2 ^ (8 * (8 - len))) by (apply Z.pow_pos_nonneg; lia).
  case_bool_decide as Heq.
  - rewrite Heq, Z.lxor_nilpotent. reflexivity.
  - apply Z.eqb_neq. intros E. destruct Heq. apply le_value_inj; [rewrite !length_bytes; reflexivity|].
    apply Z.lxor_eq. nia.
Qed.

(** ** Copies *)
Lemma bytes_lookup mem a n (i : nat) : (i < n)%nat -> bytes mem a n !! i = Some (mem (a + Z.of_nat i)).
Proof.
  revert a i. induction n as [|n IH]; intros a i Hi; [lia|]. destruct i as [|i]; simpl.
  - do 2 f_equal. lia.
  - rewrite IH by lia. do 2 f_equal. lia.
Qed.
Lemma bytes_ext mem mem' a n :
  (forall x, a <= x < a + Z.of_nat n -> mem x = mem' x) -> bytes mem a n = bytes mem' a n.
Proof.
  revert a. induction n as [|n IH]; intros a H; simpl; [reflexivity|]. f_equal; [apply H; lia|].
  apply IH. intros x Hx. apply H. lia.
Qed.
Lemma bytes_store mem a bs : bytes (store mem a bs) a (length bs) = bs.
Proof.
  apply list_eq. intros i. destruct (decide (i < length bs)%nat) as [Hi|Hi].
  - rewrite bytes_lookup by exact Hi. unfold store.
    destruct (Z.leb_spec a (a + Z.of_nat i)), (Z.ltb_spec (a + Z.of_nat i) (a + Z.of_nat (length bs))); try lia. cbn [andb].
    replace (Z.to_nat (a + Z.of_nat i - a)) with i by lia. destruct (lookup_lt_is_Some_2 bs i Hi) as [b Hb].
    rewrite Hb. f_equal. apply nth_lookup_Some. exact Hb.
  - rewrite !lookup_ge_None_2; [reflexivity| |rewrite length_bytes]; lia.
Qed.
Lemma bytes_store_away mem a bs c n :
  c + Z.of_nat n <= a \/ a + Z.of_nat (length bs) <= c -> bytes (store mem a bs) c n = bytes mem c n.
Proof.
  intros H. apply bytes_ext. intros x Hx. unfold store.
  destruct (Z.leb_spec a x), (Z.ltb_spec x (a + Z.of_nat (length bs))); cbn [andb]; reflexivity || lia.
Qed.
