(* ===== verification/MtKey.v ===== *)
(** * Masstree keys (src/masstree/masstree_key.hh)

    A key is walked through the layers of the tree eight bytes at a time: its
    current slice ([ikey]) and what follows.  The theorems show that comparing
    slices and lengths layer by layer is the lexicographic order of the strings,
    and that shifting reaches exactly the suffixes. *)

From S2P Require Import Prelude StringSlice.

Open Scope Z_scope.

Module key.

Definition ikey_size : Z := 8.

(** [s_] and [first_] are addresses. *)
Record key := mk { ikey0_ : Z; len_ : Z; s_ : Z; first_ : Z }.

Section Methods.
Context (mem : memory).

Definition of_str (s len : Z) : key := mk (string_slice.make_comparable mem s len) len s s.

(** Trailing zero bits of a nonzero integer. *)
Definition ctz (x : Z) : Z := Z.log2 (Z.land x (- x)).
Definition of_ikey (ikey : Z) : key := mk ikey (if ikey =? 0 then 0 else ikey_size - ctz ikey / 8) 0 0.
Definition of_ikey_len (ikey len : Z) : key := mk ikey (Z.min len ikey_size) 0 0.
Definition of_ikey_suffix (ikey suf_s suf_len : Z) : key :=
  mk ikey (ikey_size + suf_len) (suf_s - ikey_size) (suf_s - ikey_size).

Definition empty (k : key) : bool := (ikey0_ k =? 0) && (len_ k =? 0).
Definition ikey (k : key) : Z := ikey0_ k.
Definition length (k : key) : Z := len_ k.
Definition ikeylen (k : key) : Z := Z.min (length k) (ikey_size + 1).
Definition has_suffix (k : key) : bool := ikey_size <? len_ k.
(** Address and length. *)
Definition suffix (k : key) : Z * Z := (s_ k + ikey_size, len_ k - ikey_size).
Definition suffix_length (k : key) : Z := len_ k - ikey_size.

Definition shift (k : key) : key :=
  let s := s_ k + ikey_size in
  let len := len_ k - ikey_size in
  mk (string_slice.make_comparable_sloppy mem s len) len s (first_ k).
Definition is_shifted (k : key) : bool := negb (first_ k =? s_ k).
Definition unshift_all (k : key) : key :=
  if negb (s_ k =? first_ k) then
    let len := len_ k + (s_ k - first_ k) in
    mk (string_slice.make_comparable mem (first_ k) len) len (first_ k) (first_ k)
  else k.

Definition compare (k : key) (ikey' keylenx : Z) : Z :=
  let cmp := StringSlice.compare (ikey k) ikey' in
  if cmp =? 0 then
    let al := length k in
    if ikey_size <? al then (if keylenx <=? ikey_size then 1 else 0) else al - keylenx
  else cmp.

(** The bytes written; their number is the result. *)
Definition unparse (k : key) (datalen : Z) : list byte :=
  let cplen := Z.min (len_ k) datalen in
  string_slice.unparse_comparable_len cplen (ikey0_ k) ikey_size ++
    (if ikey_size <? cplen then bytes mem (s_ k + ikey_size) (Z.to_nat (cplen - ikey_size)) else []).

(** Address and length of what precedes, and of the whole key. *)
Definition prefix_string (k : key) : Z * Z := (first_ k, s_ k - first_ k).
Definition full_string (k : key) : Z * Z := (first_ k, s_ k + len_ k - first_ k).

Definition increment (k : key) : bool * key :=
  if has_suffix k then
    let i := u64 (ikey0_ k + 1) in (i =? 0, mk i 1 (s_ k) (first_ k))
  else (false, mk (ikey0_ k) (len_ k + 1) (s_ k) (first_ k)).

Definition assign_store_ikey (k : key) (i : Z) : key * memory :=
  (mk i (len_ k) (s_ k) (first_ k), store mem (s_ k) (le_bytes 8 (swap8 i))).
(** The result and the memory. *)
Definition assign_store_suffix (k : key) (s len : Z) : Z * memory :=
  (ikey_size + len, store mem (s_ k + ikey_size) (bytes mem s (Z.to_nat len))).
Definition assign_store_length (k : key) (len : Z) : key := mk (ikey0_ k) len (s_ k) (first_ k).
Definition unshift (k : key) : key :=
  let s := s_ k - ikey_size in
  mk (string_slice.make_comparable_sloppy mem s ikey_size) (ikey_size + 1) s (first_ k).
Definition shift_clear (k : key) : key := mk 0 0 (s_ k + ikey_size) (first_ k).
Definition shift_clear_reverse (k : key) : key := mk (2 ^ 64 - 1) (ikey_size + 1) (s_ k + ikey_size) (first_ k).

End Methods.
End key.
Import key (mk, ikey0_, len_, s_, first_).

(** ** Lexicographic order of byte strings, bytes unsigned *)
Fixpoint lex (l1 l2 : list byte) : comparison :=
  match l1, l2 with
  | [], [] => Eq
  | [], _ => Lt
  | _, [] => Gt
  | x :: l1', y :: l2' => match Z_of_byte x ?= Z_of_byte y with Eq => lex l1' l2' | c => c end
  end.

Lemma be_value_lex l1 l2 : length l1 = length l2 -> (le_value (rev l1) ?= le_value (rev l2)) = lex l1 l2.
Proof.
  revert l2. induction l1 as [|x l1 IH]; intros [|y l2] Hl; try discriminate Hl; [reflexivity|].
  injection Hl as Hl. cbn [rev lex]. rewrite !le_value_app, !length_rev, <- Hl. cbn [le_value]. rewrite !Z.mul_0_r, !Z.add_0_r.
  pose proof (le_value_range (rev l1)) as H1. pose proof (le_value_range (rev l2)) as H2.
  rewrite length_rev in H1, H2. rewrite <- Hl in H2. rewrite <- (IH l2 Hl).
  destruct (Z.compare_spec (Z_of_byte x) (Z_of_byte y)) as [->|Hlt|Hlt].
  - destruct (Z.compare_spec (le_value (rev l1)) (le_value (rev l2))); [apply Z.compare_eq_iff|apply Z.compare_lt_iff|apply Z.compare_gt_iff]; lia.
  - apply Z.compare_lt_iff. nia.
  - apply Z.compare_gt_iff. nia.
Qed.

Definition pad (n : nat) (l : list byte) : list byte := take n l ++ replicate (n - length l) x00.
Lemma length_pad n l : length (pad n l) = n.
Proof. unfold pad. rewrite length_app, length_take, length_replicate. lia. Qed.

Lemma lex_refl l : lex l l = Eq.
Proof. induction l as [|x l IH]; [reflexivity|]. simpl. rewrite Z.compare_refl. exact IH. Qed.
Lemma lex_antisym l1 l2 : lex l2 l1 = CompOpp (lex l1 l2).
Proof.
  revert l2. induction l1 as [|x l1 IH]; intros [|y l2]; simpl; try reflexivity.
  rewrite (Z.compare_antisym (Z_of_byte x)). destruct (_ ?= _); simpl; [apply IH|reflexivity|reflexivity].
Qed.
Lemma lex_zeros n l : length l = n -> lex (replicate n x00) l <> Gt.
Proof.
  revert l. induction n as [|n IH]; intros [|y l] Hl; try discriminate Hl; [discriminate|].
  injection Hl as Hl. cbn [replicate lex]. pose proof (Z_of_byte_range y).
  change (Z_of_byte x00) with 0. destruct (Z.compare_spec 0 (Z_of_byte y)); [apply IH, Hl|discriminate|lia].
Qed.

(** Comparing the padded prefixes, then the lengths or the suffixes, is the
    lexicographic order. *)
Lemma lex_pad n a b :
  lex a b = match lex (pad n a) (pad n b) with
            | Eq => if ((n <? length a) && (n <? length b))%nat then lex (drop n a) (drop n b)
                    else (length a ?= length b)%nat
            | c => c end.
Proof.
  revert a b. induction n as [|n IH]; intros a b.
  { destruct a, b; reflexivity. }
  assert (Hnil : forall y b', match lex (pad (S n) []) (pad (S n) (y :: b')) with
      | Eq => if ((S n <? 0) && (S n <? length (y :: b')))%nat then lex (drop (S n) []) (drop (S n) (y :: b'))
              else (0 ?= length (y :: b'))%nat | c => c end = Lt).
  { intros y b'. unfold pad at 1. cbn [take app length Nat.sub replicate]. unfold pad.
    cbn [take app length Nat.sub lex]. pose proof (Z_of_byte_range y). change (Z_of_byte x00) with 0.
    destruct (Z.compare_spec 0 (Z_of_byte y)); [|reflexivity|lia].
    pose proof (lex_zeros n (pad n b') (length_pad n b')) as Hz. unfold pad in Hz.
    destruct (lex _ _); [reflexivity|reflexivity|congruence]. }
  destruct a as [|x a], b as [|y b].
  - rewrite (lex_refl (pad (S n) [])). reflexivity.
  - symmetry. apply Hnil.
  - specialize (Hnil x a). rewrite lex_antisym. cbn [lex].
    rewrite (lex_antisym (pad (S n) (x :: a))) in Hnil.
    destruct (lex (pad (S n) (x :: a)) (pad (S n) [])); simpl in *; [|congruence|reflexivity].
    rewrite andb_false_r. reflexivity.
  - unfold pad. cbn [take app length Nat.sub lex drop]. destruct (Z_of_byte x ?= Z_of_byte y); [|reflexivity|reflexivity].
    rewrite IH. reflexivity.
Qed.

(** ** Layers *)

Definition lex_of (c : Z) : comparison := c ?= 0.

(** What [compare] decides about the strings of two keys. *)
Lemma compare_layer mem a la b lb keylenx :
  0 <= la -> 0 <= lb -> keylenx = lb \/ keylenx = Z.min lb 9 ->
  let A := bytes mem a (Z.to_nat la) in let B := bytes mem b (Z.to_nat lb) in
  lex_of (key.compare (key.of_str mem a la) (slice_of B) keylenx) =
  match lex (pad 8 A) (pad 8 B) with
  | Eq => if (8 <? la) && (8 <? lb) then Eq else la ?= lb
  | c => c
  end.
Proof.
  intros Ha Hb Hk A B. unfold key.compare, key.ikey, key.length, key.of_str, key.ikey_size, StringSlice.compare, lex_of. cbn [ikey0_ len_].
  rewrite make_comparable_slice by exact Ha. fold A. unfold slice_of.
  rewrite <- (be_value_lex (pad 8 A) (pad 8 B)) by (rewrite !length_pad; reflexivity).
  change (pad8 A) with (pad 8 A). change (pad8 B) with (pad 8 B).
  destruct (Z.compare_spec (le_value (rev (pad 8 A))) (le_value (rev (pad 8 B)))) as [E|Hlt|Hlt].
  - rewrite E, Z.eqb_refl. cbn [Z.eqb].
    destruct (Z.ltb_spec 8 la), (Z.ltb_spec 8 lb), (Z.leb_spec keylenx 8); cbn [andb]; try lia; try reflexivity.
    + symmetry. apply Z.compare_gt_iff. lia.
    + transitivity (Lt); [apply Z.compare_lt_iff|symmetry; apply Z.compare_lt_iff]; lia.
    + replace keylenx with lb by lia. rewrite <- (Z.compare_sub la lb). reflexivity.
  - destruct (Z.eqb_spec (le_value (rev (pad 8 A))) (le_value (rev (pad 8 B)))); [lia|].
    destruct (Z.ltb_spec (le_value (rev (pad 8 A))) (le_value (rev (pad 8 B)))); [reflexivity|lia].
  - destruct (Z.eqb_spec (le_value (rev (pad 8 A))) (le_value (rev (pad 8 B)))); [lia|].
    destruct (Z.ltb_spec (le_value (rev (pad 8 A))) (le_value (rev (pad 8 B)))); [lia|reflexivity].
Qed.

(** C37: the order of the tree is the order of the strings.  Compare a key with
    an entry by slice and length, as [key_compare] does for a leaf entry (its
    keylenx) or for another key (its length): a nonzero result is the
    lexicographic order of the two strings; zero means the strings are equal, or
    both go on past the slice and their order is that of the suffixes, the keys
    of the next layer.  Null bytes and lengths up to nine included. *)
Theorem key_order mem a la b lb keylenx :
  0 <= la -> 0 <= lb -> keylenx = lb \/ keylenx = key.ikeylen (key.of_str mem b lb) ->
  let ka := key.of_str mem a la in let kb := key.of_str mem b lb in
  lex (bytes mem a (Z.to_nat la)) (bytes mem b (Z.to_nat lb)) =
  match lex_of (key.compare ka (key.ikey kb) keylenx) with
  | Eq => if key.has_suffix ka && key.has_suffix kb
          then lex (bytes mem (a + 8) (Z.to_nat (la - 8))) (bytes mem (b + 8) (Z.to_nat (lb - 8))) else Eq
  | c => c
  end.
Proof.
  intros Ha Hb Hk ka kb. unfold ka at 1, kb at 1. unfold key.ikey, key.of_str at 2. cbn [ikey0_].
  rewrite make_comparable_slice by exact Hb. rewrite compare_layer by assumption.
  rewrite (lex_pad 8). rewrite !length_bytes.
  unfold key.has_suffix, ka, kb, key.of_str, key.ikey_size. cbn [len_].
  destruct (lex (pad 8 _) (pad 8 _)) eqn:E; [|reflexivity|reflexivity].
  replace (8 <? Z.to_nat la)%nat with (8 <? la) by (apply eq_true_iff_eq; rewrite Z.ltb_lt, Nat.ltb_lt; lia).
  replace (8 <? Z.to_nat lb)%nat with (8 <? lb) by (apply eq_true_iff_eq; rewrite Z.ltb_lt, Nat.ltb_lt; lia).
  destruct ((8 <? la) && (8 <? lb)) eqn:Hab.
  - apply andb_true_iff in Hab as [Hla%Z.ltb_lt Hlb%Z.ltb_lt]. rewrite !drop_bytes by lia.
    do 2 f_equal; lia.
  - rewrite <- Nat2Z.inj_compare, !Z2Nat.id by lia. destruct (la ?= lb); reflexivity.
Qed.

Definition mem_of (l : list byte) : memory := fun a => nth (Z.to_nat a) l x00.

Lemma key_order_witness :
  let mem := mem_of [x61; x62; x00; x61; x62; x63] in
  let ka := key.of_str mem 0 3 in let kb := key.of_str mem 3 2 in
  lex (bytes mem 0 3) (bytes mem 3 2) =
  match lex_of (key.compare ka (key.ikey kb) 2) with
  | Eq => if key.has_suffix ka && key.has_suffix kb then lex (bytes mem (0 + 8) 0) (bytes mem (3 + 8) 0) else Eq
  | c => c
  end.
Proof. apply (key_order (mem_of [x61; x62; x00; x61; x62; x63]) 0 3 3 2 2); [lia|lia|left; reflexivity]. Defined.

(** [n] calls of shift. *)
Fixpoint shifts (mem : memory) (n : nat) (k : key.key) : key.key :=
  match n with O => k | S n' => shifts mem n' (key.shift mem k) end.

Lemma shifts_key mem n k : 8 * Z.of_nat n <= len_ k ->
  shifts mem n k = match n with O => k | _ =>
    mk (slice_of (bytes mem (s_ k + 8 * Z.of_nat n) (Z.to_nat (len_ k - 8 * Z.of_nat n))))
       (len_ k - 8 * Z.of_nat n) (s_ k + 8 * Z.of_nat n) (first_ k) end.
Proof.
  revert k. induction n as [|n IH]; intros k Hn; [reflexivity|]. cbn [shifts].
  rewrite IH by (simpl; unfold key.ikey_size; lia). destruct n as [|n].
  - unfold key.shift, key.ikey_size. rewrite make_comparable_sloppy_slice by lia. reflexivity.
  - cbn [key.shift len_ s_ first_]. unfold key.ikey_size. f_equal; [|lia|lia]. do 2 f_equal; lia.
Qed.

Lemma unparse_of_str mem s len datalen : 0 <= len -> 0 <= datalen ->
  key.unparse mem (key.of_str mem s len) datalen = take (Z.to_nat datalen) (bytes mem s (Z.to_nat len)).
Proof.
  intros Hl Hd. unfold key.unparse, key.of_str, key.ikey_size, string_slice.unparse_comparable_len, string_slice.size.
  cbn [len_ s_ ikey0_]. rewrite make_comparable_slice by exact Hl. unfold slice_of.
  rewrite swap8_swap8, le_bytes_8_value by apply length_pad8. set (c := Z.min len datalen).
  transitivity (bytes mem s (Z.to_nat c)).
  - unfold pad8. rewrite length_bytes, Z.min_id. destruct (Z.ltb_spec 8 c) as [Hc|Hc].
    + rewrite Z.min_l by lia. rewrite take_app_exact by (rewrite length_take, length_bytes; lia).
      rewrite take_bytes by lia. replace (Z.to_nat c) with (8 + Z.to_nat (c - 8))%nat by lia.
      rewrite bytes_app. reflexivity.
    + rewrite Z.min_r by lia. rewrite app_nil_r. rewrite take_app_le by (rewrite length_take, length_bytes; lia).
      rewrite take_take. rewrite Nat.min_l by lia. apply take_bytes. lia.
  - unfold c. destruct (Z.le_ge_cases len datalen).
    + rewrite Z.min_l by lia. symmetry. apply take_ge. rewrite length_bytes. lia.
    + rewrite Z.min_r by lia. symmetry. apply take_bytes. lia.
Qed.

(** Walking a key.  However often a key with enough bytes left is shifted,
    it is the key of the string's suffix, whatever lies around the string in
    memory although the slices are read with whole words; its suffix is what the
    next shift reaches; [unshift_all] restores the original key; and [unparse]
    gives back the bytes, cut to the buffer. *)
Theorem key_walk mem s len n datalen :
  8 * Z.of_nat n <= len -> 0 <= datalen ->
  let k := shifts mem n (key.of_str mem s len) in let s' := s + 8 * Z.of_nat n in let len' := len - 8 * Z.of_nat n in
  k = mk (ikey0_ (key.of_str mem s' len')) len' s' s /\
  key.unparse mem k datalen = take (Z.to_nat datalen) (bytes mem s' (Z.to_nat len')) /\
  key.prefix_string k = (s, 8 * Z.of_nat n) /\ key.full_string k = (s, len) /\
  key.unshift_all mem k = key.of_str mem s len.
Proof.
  intros Hn Hd k s' len'.
  assert (E : k = mk (ikey0_ (key.of_str mem s' len')) len' s' s).
  { unfold k. rewrite shifts_key by (simpl; lia). cbn [key.of_str len_ s_ first_ ikey0_].
    rewrite make_comparable_slice by lia. destruct n; [|reflexivity].
    unfold key.of_str, s', len'. rewrite make_comparable_slice by lia. rewrite !Z.mul_0_r, Z.add_0_r, Z.sub_0_r. reflexivity. }
  rewrite E. split; [reflexivity|]. split; [rewrite <- (unparse_of_str mem s' len' datalen) by lia; reflexivity|].
  unfold key.prefix_string, key.full_string, key.unshift_all. cbn [s_ first_ len_ ikey0_].
  split; [f_equal; lia|]. split; [f_equal; lia|].
  destruct (Z.eqb_spec s' s) as [Es|Es]; cbn [negb].
  - assert (n = 0%nat) by lia. subst n. unfold s', len', key.of_str. cbn [ikey0_].
    rewrite !Z.mul_0_r, Z.add_0_r, Z.sub_0_r. reflexivity.
  - unfold key.of_str. replace (len' + (s' - s)) with len by lia. reflexivity.
Qed.

Lemma key_walk_witness :
  let mem := mem_of (replicate 20 x61) in let k := shifts mem 2 (key.of_str mem 1 19) in
  k = mk (ikey0_ (key.of_str mem (1 + 8 * 2) (19 - 8 * 2))) (19 - 8 * 2) (1 + 8 * 2) 1 /\
  key.unparse mem k 2 = take 2 (bytes mem (1 + 8 * 2) 3) /\
  key.prefix_string k = (1, 8 * 2) /\ key.full_string k = (1, 19) /\ key.unshift_all mem k = key.of_str mem 1 19.
Proof. apply (key_walk (mem_of (replicate 20 x61)) 1 19 2 2); lia. Defined.

(** Two strings of the same padded slice are told apart only by their lengths:
    the documentation of [make_comparable] promises more. *)
Lemma make_comparable_null :
  let mem := mem_of [x61; x00] in
  string_slice.make_comparable mem 0 1 = string_slice.make_comparable mem 0 2 /\ lex (bytes mem 0 1) (bytes mem 0 2) = Lt.
Proof. split; reflexivity. Qed.
