(* ===== verification/CircularInt.v ===== *)
(** * Circular integers (src/masstree/circular_int.hh)

    Unsigned counters that wrap around and are compared by the sign of their
    difference: kvepoch_t, the epochs of Masstree's log and memory reclamation. *)

From S2P Require Import Prelude.

Open Scope Z_scope.

Module circular_int.
Section CircularInt.
(** The width of [T] in bits. *)
Context (bits : Z).

(** value_type is unsigned, difference_type signed. *)
Definition value_type (z : Z) : Z := z mod 2 ^ bits.
Definition difference_type (z : Z) : Z := (z + 2 ^ (bits - 1)) mod 2 ^ bits - 2 ^ (bits - 1).

Definition make (x : Z) : Z := value_type x.
Definition pre_incr (v : Z) : Z := value_type (v + 1).
(** The result and the new value. *)
Definition post_incr (v : Z) : Z * Z := let v' := value_type (v + 1) in (make (v' - 1), v').
Definition pre_decr (v : Z) : Z := value_type (v - 1).
Definition post_decr (v : Z) : Z * Z := let v' := value_type (v - 1) in (make (v' + 1), v').
Definition add_assign (v x : Z) : Z := value_type (v + x).
Definition sub_assign (v x : Z) : Z := value_type (v - x).
(** The value found, and the value left behind. *)
Definition cmpxchg (v expected desired : Z) : Z * Z := (v, if v =? expected then desired else v).
Definition is_true (v : Z) : bool := negb (v =? 0).
Definition plus (v x : Z) : Z := make (value_type (v + x)).
Definition next_nonzero (v : Z) : Z :=
  let v' := value_type (v + 1) in make (v' + (if v' =? 0 then 1 else 0)).
Definition minus (v x : Z) : Z := make (value_type (v - x)).
Definition diff (v x : Z) : Z := difference_type (v - x).
Definition less (a b : Z) : bool := difference_type (value_type (a - b)) <? 0.
Definition less_equal (a b : Z) : bool := difference_type (value_type (a - b)) <=? 0.
Definition lt (v x : Z) : bool := less v x.
Definition le (v x : Z) : bool := negb (less x v).
Definition ge (v x : Z) : bool := negb (less v x).
Definition gt (v x : Z) : bool := less x v.

(** ** Facts *)
Hypothesis Hbits : 1 <= bits.

Lemma half : 2 ^ bits = 2 * 2 ^ (bits - 1) /\ 0 < 2 ^ (bits - 1).
Proof. split; [|apply Z.pow_pos_nonneg; lia]. rewrite <- Z.pow_succ_r by lia. f_equal. lia. Qed.

Lemma difference_small d : - 2 ^ (bits - 1) <= d < 2 ^ (bits - 1) -> difference_type (value_type d) = d.
Proof.
  intros Hd. pose proof half. unfold difference_type, value_type. rewrite Zplus_mod_idemp_l, Z.mod_small; lia.
Qed.

(** The value of a count that never wraps. *)
Lemma less_window a b : - 2 ^ (bits - 1) <= a - b < 2 ^ (bits - 1) -> less (make a) (make b) = (a <? b).
Proof.
  intros H. unfold less, make. replace (value_type (value_type a - value_type b)) with (value_type (a - b)).
  - rewrite difference_small by exact H. lia.
  - unfold value_type. rewrite <- Zminus_mod. reflexivity.
Qed.

Lemma next_nonzero_spec v : 0 <= v < 2 ^ bits -> 2 <= bits ->
  0 < next_nonzero v < 2 ^ bits /\ less v (next_nonzero v) = true.
Proof.
  intros Hv H2. pose proof half. assert (2 <= 2 ^ (bits - 1)).
  { replace 2 with (2 ^ 1) at 1 by reflexivity. apply Z.pow_le_mono_r; lia. }
  assert (E : next_nonzero v = if v + 1 =? 2 ^ bits then 1 else v + 1).
  { unfold next_nonzero, make, value_type. destruct (Z.eqb_spec (v + 1) (2 ^ bits)) as [->|Hn].
    - rewrite Z.mod_same by lia. cbn [Z.eqb]. apply Z.mod_small. lia.
    - rewrite (Z.mod_small (v + 1)) by lia. destruct (Z.eqb_spec (v + 1) 0); [lia|].
      rewrite Z.add_0_r. apply Z.mod_small. lia. }
  rewrite E. destruct (Z.eqb_spec (v + 1) (2 ^ bits)) as [E1|Hn].
  - split; [lia|]. replace (less v 1) with (less (make (-1)) (make 1)); [rewrite less_window by lia; reflexivity|].
    f_equal; [|apply Z.mod_small; lia].
    unfold make, value_type. symmetry. apply (Z.mod_unique _ _ (-1)); [left|]; lia.
  - split; [lia|]. replace (less v (v + 1)) with (less (make v) (make (v + 1))).
    + rewrite less_window by lia. apply Z.ltb_lt. lia.
    + unfold make, value_type. rewrite !Z.mod_small by lia. reflexivity.
Qed.

End CircularInt.
End circular_int.

(** kvepoch_t. *)
Abbreviation kvepoch_bits := 64.

(** Epochs compare as the counts they stand for.  Two counts less than
    2^(bits-1) apart, taken modulo 2^bits, compare with every operator as the
    unbounded counts do, and their difference is the exact difference; so a
    comparison stays right across any number of wrap-arounds. *)
Theorem circular_compare bits a b :
  1 <= bits -> - 2 ^ (bits - 1) < a - b < 2 ^ (bits - 1) ->
  let x := circular_int.make bits a in let y := circular_int.make bits b in
  circular_int.lt bits x y = (a <? b) /\ circular_int.le bits x y = (a <=? b) /\
  circular_int.ge bits x y = (b <=? a) /\ circular_int.gt bits x y = (b <? a) /\
  (x =? y) = (a =? b) /\ circular_int.diff bits x y = a - b.
Proof.
  intros Hb H x y. pose proof (circular_int.half bits Hb).
  unfold circular_int.lt, circular_int.le, circular_int.ge, circular_int.gt, x, y.
  rewrite !circular_int.less_window by lia. repeat split; try lia.
  - unfold circular_int.make, circular_int.value_type. apply eq_true_iff_eq. rewrite !Z.eqb_eq. split; [|intros ->; reflexivity].
    intros E. assert (E0 : (a - b) mod 2 ^ bits = 0) by (rewrite Zminus_mod, E, Z.sub_diag; apply Zmod_0_l).
    apply Z.mod_divide in E0 as [k E0]; [|lia]. assert (k = 0) by nia. lia.
  - unfold circular_int.diff. rewrite <- (circular_int.difference_small bits Hb (a - b)) by lia.
    unfold circular_int.difference_type, circular_int.make, circular_int.value_type.
    rewrite Zplus_mod, <- Zminus_mod, <- Zplus_mod, Zplus_mod_idemp_l. reflexivity.
Qed.

Lemma circular_compare_witness :
  let x := circular_int.make 64 (2 ^ 64 - 1) in let y := circular_int.make 64 (2 ^ 64 + 5) in
  circular_int.lt 64 x y = (2 ^ 64 - 1 <? 2 ^ 64 + 5) /\ circular_int.le 64 x y = (2 ^ 64 - 1 <=? 2 ^ 64 + 5) /\
  circular_int.ge 64 x y = (2 ^ 64 + 5 <=? 2 ^ 64 - 1) /\ circular_int.gt 64 x y = (2 ^ 64 + 5 <? 2 ^ 64 - 1) /\
  (x =? y) = (2 ^ 64 - 1 =? 2 ^ 64 + 5) /\ circular_int.diff 64 x y = 2 ^ 64 - 1 - (2 ^ 64 + 5).
Proof. apply (circular_compare 64 (2 ^ 64 - 1) (2 ^ 64 + 5)); lia. Defined.

(** Half a turn apart the two orders of the class disagree: [less_equal] holds
    both ways, the operators hold neither way. *)
Lemma antipodes : let x := circular_int.make 64 0 in let y := circular_int.make 64 (2 ^ 63) in
  circular_int.less_equal 64 x y = true /\ circular_int.less_equal 64 y x = true /\
  circular_int.le 64 x y = false /\ circular_int.le 64 y x = false.
Proof. repeat split. Qed.
