(* ===== verification/StringBag.v ===== *)
(** * String bags (src/masstree/stringbag.hh)

    A leaf keeps the key suffixes of its slots in a string bag: a header with one
    position-and-length word per slot, followed by the characters.  Space is
    taken from the front and never given back; a shorter string reuses its slot's
    space. *)

From S2P Require Import Prelude StringSlice.

Open Scope Z_scope.

Module stringbag.
Section StringBag.
(** sizeof(info_type): 2 for a leaf's internal bag, 4 for an external one. *)
Context (sizeof_info : Z).

Definition max_halfinfo : Z := Z.shiftl 1 (4 * sizeof_info) - 1.
Definition info_type (z : Z) : Z := z mod 2 ^ (8 * sizeof_info).

Definition make_info (pos len : Z) : Z := info_type (Z.lor (Z.shiftl (info_type pos) (4 * sizeof_info)) len).
Definition info_pos (info : Z) : Z := Z.shiftr info (4 * sizeof_info).
Definition info_len (info : Z) : Z := Z.land info (Z.shiftl 1 (4 * sizeof_info) - 1).

(** The object's address, which is also that of [s_], and its header words. *)
Record stringbag := mk { s_ : Z; main_ : Z; info_ : list Z }.

Definition overhead (width : Z) : Z := sizeof_info + width * sizeof_info.

(** [None]: a failed assertion. *)
Definition make (a width allocated_size : Z) : option stringbag :=
  let firstpos := overhead width in
  if (firstpos <=? allocated_size) && (allocated_size <=? max_halfinfo) then
    Some (mk a (make_info firstpos allocated_size) (replicate (Z.to_nat width) 0))
  else None.

Definition size (b : stringbag) : Z := info_pos (main_ b).
Definition allocated_size (b : stringbag) : Z := info_len (main_ b).

(** Address and length of a slot's string; [None]: no such slot. *)
Definition get (b : stringbag) (p : nat) : option (Z * Z) :=
  info ← info_ b !! p; Some (s_ b + info_pos info, info_len info).

Definition equals_sloppy (mem : memory) (b : stringbag) (p : nat) (s len : Z) : option bool :=
  info ← info_ b !! p;
  Some (if negb (info_len info =? len) then false else string_slice.equals_sloppy mem s (s_ b + info_pos info) len).

Definition equals (mem : memory) (b : stringbag) (p : nat) (s len : Z) : option bool :=
  info ← info_ b !! p;
  Some ((info_len info =? len) &&
        bool_decide (bytes mem (s_ b + info_pos info) (Z.to_nat len) = bytes mem s (Z.to_nat len))).

(** The result, the header and the memory. *)
Definition assign (mem : memory) (b : stringbag) (p : nat) (s len : Z) : option (bool * stringbag * memory) :=
  info ← info_ b !! p;
  let mylen := info_len info in
  let copy pos main :=
    (true, mk (s_ b) main (<[p := make_info pos len]> (info_ b)),
     store mem (s_ b + pos) (bytes mem s (Z.to_nat len))) in
  Some (if len <=? mylen then copy (info_pos info) (main_ b)
        else if size b + len <=? allocated_size b then
          copy (size b) (make_info (size b + len) (allocated_size b))
        else (false, b, mem)).

(** ** Packed words *)
Hypothesis Hsz : sizeof_info = 2 \/ sizeof_info = 4.

Definition half : Z := 2 ^ (4 * sizeof_info).

Lemma half_eq : max_halfinfo = half - 1 /\ 2 ^ (8 * sizeof_info) = half * half /\ 256 <= half.
Proof. unfold max_halfinfo, half. destruct Hsz as [-> | ->]; repeat split; vm_compute; congruence. Qed.

Lemma make_info_eq pos len : 0 <= pos < half -> 0 <= len < half -> make_info pos len = pos * half + len.
Proof.
  intros Hp Hl. pose proof half_eq as (_ & E & Hh). unfold make_info, info_type. rewrite E.
  rewrite (Z.mod_small pos) by nia. rewrite Z.shiftl_mul_pow2 by lia. fold half.
  assert (El : Z.lor (pos * half) len = pos * half + len).
  { rewrite <- Z.add_lor_land. replace (Z.land (pos * half) len) with 0; [lia|]. symmetry. apply Z.bits_inj'. intros i Hi.
    rewrite Z.land_spec, Z.bits_0. unfold half. rewrite <- Z.shiftl_mul_pow2 by lia.
    destruct (Z.lt_ge_cases i (4 * sizeof_info)) as [Hlt|Hge].
    - rewrite Z.shiftl_spec_low by exact Hlt. reflexivity.
    - rewrite <- (Z.mod_small len half) by lia. unfold half. rewrite Z.mod_pow2_bits_high by lia. apply andb_false_r. }
  rewrite El. apply Z.mod_small. nia.
Qed.
Lemma info_pos_make pos len : 0 <= pos < half -> 0 <= len < half -> info_pos (make_info pos len) = pos.
Proof.
  intros Hp Hl. pose proof half_eq. rewrite make_info_eq by assumption. unfold info_pos. rewrite Z.shiftr_div_pow2 by lia. fold half.
  rewrite Z.div_add_l, Z.div_small by lia. lia.
Qed.
Lemma info_len_make pos len : 0 <= pos < half -> 0 <= len < half -> info_len (make_info pos len) = len.
Proof.
  intros Hp Hl. pose proof half_eq. rewrite make_info_eq by assumption. unfold info_len.
  rewrite Z.shiftl_1_l, Z.sub_1_r, <- Z.ones_equiv, Z.land_ones by lia. fold half.
  rewrite Z.add_comm, Z_mod_plus_full. apply Z.mod_small. exact Hl.
Qed.
Lemma info_len_range info : 0 <= info_len info < half.
Proof.
  pose proof half_eq. unfold info_len. rewrite Z.shiftl_1_l, Z.sub_1_r, <- Z.ones_equiv, Z.land_ones by lia.
  apply Z.mod_pos_bound. fold half. lia.
Qed.

(** ** Invariant *)

(** Slot [p] has its string at offset [pos]. *)
Definition region (b : stringbag) (p : nat) (pos len : Z) : Prop :=
  exists info, info_ b !! p = Some info /\ pos = info_pos info /\ len = info_len info.

Record bag_ok (width : Z) (b : stringbag) : Prop := {
  ok_width : Z.of_nat (length (info_ b)) = width;
  ok_size : overhead width <= size b <= allocated_size b;
  ok_alloc : allocated_size b < half;
  ok_region : forall p pos len, region b p pos len -> 0 <= pos < half /\ (0 < len -> overhead width <= pos /\ pos + len <= size b);
  ok_disjoint : forall p q pos len pos' len', p <> q -> region b p pos len -> region b q pos' len' -> 0 < len -> 0 < len' ->
    pos + len <= pos' \/ pos' + len' <= pos
}.

Lemma make_ok a width alloc b : 0 <= width -> make a width alloc = Some b -> bag_ok width b.
Proof.
  intros Hw. unfold make. pose proof half_eq as (Em & _ & Hh). rewrite Em.
  destruct (Z.leb_spec (overhead width) alloc) as [H1|], (Z.leb_spec alloc (half - 1)) as [H2|]; cbn [andb]; try discriminate.
  intros [= <-]. assert (Hov : 0 <= overhead width) by (unfold overhead; destruct Hsz; nia).
  assert (Hr : forall p pos len, region (mk a (make_info (overhead width) alloc) (replicate (Z.to_nat width) 0)) p pos len ->
    pos = 0 /\ len = 0).
  { intros p pos len (info & [-> _]%lookup_replicate & -> & ->). unfold info_pos, info_len.
    rewrite Z.shiftr_0_l, Z.land_0_l. auto. }
  split; simpl; unfold size, allocated_size; cbn [main_].
  - rewrite length_replicate. lia.
  - rewrite info_pos_make, info_len_make by lia. lia.
  - rewrite info_len_make by lia. lia.
  - intros p pos len [-> ->]%Hr. lia.
  - intros p q pos len pos' len' _ [-> ->]%Hr _. lia.
Qed.

(** Replacing the region of one slot by one that meets no other. *)
Lemma update_ok width b p info pos len main :
  bag_ok width b -> info_ b !! p = Some info -> 0 <= pos < half -> 0 <= len < half ->
  size b <= info_pos main <= info_len main -> info_len main = allocated_size b ->
  (0 < len -> overhead width <= pos /\ pos + len <= info_pos main) ->
  (forall q pos' len', q <> p -> region b q pos' len' -> 0 < len -> 0 < len' -> pos + len <= pos' \/ pos' + len' <= pos) ->
  bag_ok width (mk (s_ b) main (<[p := make_info pos len]> (info_ b))).
Proof.
  intros [Hw Hs Ha Hr Hd] Hp Hpos Hlen Hm1 Hm2 Hin Hdis.
  set (b' := mk (s_ b) main (<[p := make_info pos len]> (info_ b))).
  assert (Hreg : forall q pos' len', region b' q pos' len' ->
    (q = p /\ pos' = pos /\ len' = len) \/ (q <> p /\ region b q pos' len')).
  { intros q pos' len' (i & Hi & -> & ->). cbn [info_ b'] in Hi. apply list_lookup_insert_Some in Hi.
    destruct Hi as [(<- & <- & _)|(Hn & Hi)].
    - left. rewrite info_pos_make, info_len_make by assumption. auto.
    - right. split; [congruence|]. exists i. auto. }
  unfold size, allocated_size in *. split; cbn [info_ main_ b']; unfold size, allocated_size; cbn [main_ b'].
  - rewrite length_insert. exact Hw.
  - lia.
  - lia.
  - intros q pos' len' [(-> & -> & ->)|(_ & H)]%Hreg; [auto|]. destruct (Hr _ _ _ H) as [H1 H2]. split; [exact H1|].
    intros Hl. specialize (H2 Hl). lia.
  - intros q q' p1 l1 p2 l2 Hqq [(-> & -> & ->)|(Hn1 & H1)]%Hreg [(-> & -> & ->)|(Hn2 & H2)]%Hreg Hl1 Hl2.
    + congruence.
    + eapply Hdis; eassumption.
    + destruct (Hdis _ _ _ Hn1 H1 Hl2 Hl1); auto.
    + exact (Hd q q' p1 l1 p2 l2 Hqq H1 H2 Hl1 Hl2).
Qed.

(** A write that meets no other slot's string leaves those strings alone. *)
Lemma others_kept width mem b p pos bs main q a l :
  bag_ok width b -> p <> q -> get b q = Some (a, l) -> Z.of_nat (length bs) < half ->
  (forall pos' len', region b q pos' len' -> 0 < Z.of_nat (length bs) -> 0 < len' ->
     pos + Z.of_nat (length bs) <= pos' \/ pos' + len' <= pos) ->
  get (mk (s_ b) main (<[p := make_info pos (Z.of_nat (length bs))]> (info_ b))) q = Some (a, l) /\
  bytes (store mem (s_ b + pos) bs) a (Z.to_nat l) = bytes mem a (Z.to_nat l).
Proof.
  intros Hb Hn Hg Hlen Hdis. unfold get in *. cbn [info_ s_].
  rewrite list_lookup_insert_ne by exact Hn.
  destruct (info_ b !! q) as [i|] eqn:Hi; [|discriminate Hg]. simpl in *. split; [exact Hg|]. injection Hg as <- <-.
  pose proof (info_len_range i) as Hl.
  destruct (Z.eq_dec (info_len i) 0) as [->|]; [reflexivity|].
  destruct (Z.eq_dec (Z.of_nat (length bs)) 0) as [E|].
  { assert (bs = []) as -> by (destruct bs; [reflexivity|simpl in E; lia]).
    apply bytes_ext. intros x Hx. unfold store. cbn [length]. destruct (Z.leb_spec (s_ b + pos) x), (Z.ltb_spec x (s_ b + pos + Z.of_nat 0)); reflexivity || lia. }
  apply bytes_store_away. destruct (Hdis (info_pos i) (info_len i)); [exists i; auto|lia|lia| |]; lia.
Qed.

(** What [assign] promises. *)
Definition assigned (width : Z) (mem : memory) (b : stringbag) (p : nat) (s len : Z) (r : bool * stringbag * memory) : Prop :=
  let '(ok, b', mem') := r in
  bag_ok width b' /\ s_ b' = s_ b /\ allocated_size b' = allocated_size b /\
  (if ok then exists a, get b' p = Some (a, len) /\ bytes mem' a (Z.to_nat len) = bytes mem s (Z.to_nat len)
   else b' = b /\ mem' = mem) /\
  (forall q a l, p <> q -> get b q = Some (a, l) ->
     get b' q = Some (a, l) /\ bytes mem' a (Z.to_nat l) = bytes mem a (Z.to_nat l)).

Lemma assign_copy width mem b p s len pos main info :
  bag_ok width b -> info_ b !! p = Some info -> 0 <= len < half -> 0 <= pos < half ->
  size b <= info_pos main <= info_len main -> info_len main = allocated_size b ->
  (0 < len -> overhead width <= pos /\ pos + len <= info_pos main) ->
  (forall q pos' len', q <> p -> region b q pos' len' -> 0 < len -> 0 < len' -> pos + len <= pos' \/ pos' + len' <= pos) ->
  assigned width mem b p s len
    (true, mk (s_ b) main (<[p := make_info pos len]> (info_ b)), store mem (s_ b + pos) (bytes mem s (Z.to_nat len))).
Proof.
  intros Hb Hp Hlen Hpos Hm1 Hm2 Hin Hdis. pose proof (lookup_lt_Some _ _ _ Hp) as Hlt.
  pose proof (length_bytes mem s (Z.to_nat len)) as Elen.
  split; [eapply update_ok; eassumption|]. split; [reflexivity|]. split; [exact Hm2|]. split.
  - exists (s_ b + pos). unfold get. cbn [info_ s_]. rewrite list_lookup_insert_eq by exact Hlt. simpl.
    rewrite info_pos_make, info_len_make by assumption. split; [reflexivity|].
    rewrite <- Elen at 2. rewrite bytes_store. reflexivity.
  - intros q a l Hn Hg. replace len with (Z.of_nat (length (bytes mem s (Z.to_nat len)))) at 1 by lia.
    apply (others_kept width); [exact Hb|exact Hn|exact Hg|lia|].
    intros pos' len' Hr ? ?. destruct (Hdis q pos' len'); auto; lia.
Qed.

Lemma assign_assigned width mem b p s len :
  bag_ok width b -> Z.of_nat p < width -> 0 <= len ->
  exists info r, info_ b !! p = Some info /\ assign mem b p s len = Some r /\ assigned width mem b p s len r /\
    r.1.1 = (len <=? info_len info) || (size b + len <=? allocated_size b).
Proof.
  intros Hb Hp Hlen. pose proof Hb as [Hw Hs Ha Hr Hd]. pose proof half_eq as (_ & _ & Hh).
  destruct (lookup_lt_is_Some_2 (info_ b) p ltac:(lia)) as [info Hi]. pose proof (info_len_range info) as Hil.
  assert (Hov : 0 <= overhead width) by (unfold overhead; destruct Hsz; nia).
  unfold assign. rewrite Hi. cbn [mbind option_bind].
  exists info. eexists. split; [reflexivity|]. split; [reflexivity|].
  destruct (Hr p _ _ (ex_intro _ info (conj Hi (conj eq_refl eq_refl)))) as [Hr1 Hr2].
  destruct (Z.leb_spec len (info_len info)); cbn [orb fst]; [split; [|reflexivity]|].
  - apply assign_copy with info; try assumption; try lia; try reflexivity.
    + unfold size in Hs. exact (conj (Z.le_refl _) (proj2 Hs)).
    + intros Hl. destruct Hr2 as [H1 H2]; [lia|]. unfold size in H2. lia.
    + intros q pos' len' Hn Hq Hl Hl'.
      destruct (Hd p q (info_pos info) (info_len info) pos' len'); try congruence; try lia. exists info. auto.
  - destruct (Z.leb_spec (size b + len) (allocated_size b)); cbn [orb fst]; (split; [|reflexivity]).
    + apply assign_copy with info; try assumption; try lia; rewrite ?info_pos_make, ?info_len_make by lia; try lia.
      intros q pos' len' Hn Hq Hl Hl'. destruct (Hr _ _ _ Hq) as [_ H2]. specialize (H2 Hl'). lia.
    + split; [exact Hb|]. auto.
Qed.

Lemma equals_sloppy_equals mem b p s len : 0 <= len -> equals_sloppy mem b p s len = equals mem b p s len.
Proof.
  intros Hl. unfold equals_sloppy, equals. destruct (info_ b !! p) as [i|]; [|reflexivity]. cbn. f_equal.
  destruct (Z.eqb_spec (info_len i) len); cbn [negb andb]; [|reflexivity]. rewrite equals_sloppy_spec by exact Hl.
  apply bool_decide_ext. split; congruence.
Qed.

End StringBag.
End stringbag.

(** A string bag keeps what is put into it.  In every bag that starts from
    the constructor, [assign] succeeds exactly when the slot's old string is long
    enough or the free space is; then [get] of that slot gives the new string,
    which [equals] and its word-wise variant recognise, and every other slot keeps
    its string; a refused [assign] changes nothing.  The bag's invariant (strings
    inside the allocation, past the header and disjoint) is kept throughout. *)
Theorem stringbag_assign sz width mem b p s len :
  sz = 2 \/ sz = 4 -> stringbag.bag_ok sz width b -> Z.of_nat p < width -> 0 <= len ->
  exists info ok b' mem',
    stringbag.info_ b !! p = Some info /\ stringbag.assign sz mem b p s len = Some (ok, b', mem') /\
    ok = (len <=? stringbag.info_len sz info) || (stringbag.size sz b + len <=? stringbag.allocated_size sz b) /\
    stringbag.bag_ok sz width b' /\
    (if ok then exists a, stringbag.get sz b' p = Some (a, len) /\ bytes mem' a (Z.to_nat len) = bytes mem s (Z.to_nat len)
     else b' = b /\ mem' = mem) /\
    (forall q a l, p <> q -> stringbag.get sz b q = Some (a, l) ->
       stringbag.get sz b' q = Some (a, l) /\ bytes mem' a (Z.to_nat l) = bytes mem a (Z.to_nat l)) /\
    (forall q s' len', 0 <= len' -> stringbag.equals_sloppy sz mem' b' q s' len' = stringbag.equals sz mem' b' q s' len').
Proof.
  intros Hsz Hb Hp Hl.
  destruct (stringbag.assign_assigned sz Hsz width mem b p s len Hb Hp Hl)
    as (info & [[ok b'] mem'] & Hi & Ha & (H1 & _ & _ & H2 & H3) & Hok).
  exists info, ok, b', mem'. repeat (split; [assumption|]). intros q s' len' Hl'. apply stringbag.equals_sloppy_equals. exact Hl'.
Qed.

(** A bag for three slots in 64 bytes, at address 1000, filled from address 0. *)
Definition example_bag : stringbag.stringbag := default (stringbag.mk 0 0 []) (stringbag.make 2 1000 3 64).
Definition example_mem : memory := fun a => byte_of_Z (a + 97).

Lemma stringbag_assign_witness :
  stringbag.make 2 1000 3 64 = Some example_bag /\
  exists info ok b' mem',
    stringbag.info_ example_bag !! 1%nat = Some info /\ stringbag.assign 2 example_mem example_bag 1 0 5 = Some (ok, b', mem') /\
    ok = (5 <=? stringbag.info_len 2 info) || (stringbag.size 2 example_bag + 5 <=? stringbag.allocated_size 2 example_bag) /\
    stringbag.bag_ok 2 3 b' /\
    (if ok then exists a, stringbag.get 2 b' 1 = Some (a, 5) /\ bytes mem' a (Z.to_nat 5) = bytes example_mem 0 (Z.to_nat 5)
     else b' = example_bag /\ mem' = example_mem) /\
    (forall q a l, 1%nat <> q -> stringbag.get 2 example_bag q = Some (a, l) ->
       stringbag.get 2 b' q = Some (a, l) /\ bytes mem' a (Z.to_nat l) = bytes example_mem a (Z.to_nat l)) /\
    (forall q s' len', 0 <= len' -> stringbag.equals_sloppy 2 mem' b' q s' len' = stringbag.equals 2 mem' b' q s' len').
Proof.
  split; [reflexivity|].
  apply (stringbag_assign 2 3 example_mem example_bag 1 0 5); [left; reflexivity| |lia|lia].
  apply (stringbag.make_ok 2 ltac:(left; reflexivity) 1000 3 64); [lia|reflexivity].
Defined.
