(* ===== verification/Changeset.v ===== *)
(** * Change sets (src/masstree/serial_changeset.hh, parsed_changeset.hh, kvrow.hh)

    What a put changes of a row: columns and their new bytes, as a vector
    (parsed_changeset) or as the bytes of a request (serial_changeset).  An iterator
    over the bytes is what is left of the string from its pointer on; [None] is a
    read outside of the string.  [IDX] is short. *)

From S2P Require Import Prelude.

Open Scope Z_scope.

Module changeset.

(** parsed_change *)
Record change := mkChange { index : Z; value : list byte }.

(** parsed_changeset *)
Definition single_index (v_ : list change) : bool := Nat.eqb (length v_) 1.
Definition last_index (v_ : list change) : Z := match last v_ with None => -1 | Some c => index c end.

Definition i16 (z : Z) : Z := (z + 2 ^ 15) mod 2 ^ 16 - 2 ^ 15.
(** sizeof(IDX) + sizeof(int32_t) *)
Definition head_size : nat := 6.

(** ** The iterator *)

Definition it_index (p : list byte) : option Z := if decide (2 <= length p)%nat then Some (i16 (le_value (field 0 2 p))) else None.
Definition value_length (p : list byte) : option Z := if decide (head_size <= length p)%nat then Some (i32 (le_value (field 2 4 p))) else None.
Definition it_value (p : list byte) : option (list byte) :=
  len ← value_length p;
  if decide (0 <= len /\ Z.of_nat head_size + len <= Z.of_nat (length p)) then Some (field head_size (Z.to_nat len) p) else None.
Definition check (p : list byte) : bool :=
  match value_length p with
  | None => false
  | Some len => (0 <=? len) && (len <=? Z.of_nat (length p) - Z.of_nat head_size)
  end.
Definition next (p : list byte) : option (list byte) :=
  len ← value_length p;
  if decide (0 <= len /\ Z.of_nat head_size + len <= Z.of_nat (length p)) then Some (drop (head_size + Z.to_nat len) p) else None.

(** [while (ib != ie && ib.check(ie)) ++ib;] *)
Fixpoint check_all (fuel : nat) (ib : list byte) : option (list byte) :=
  match fuel with
  | O => None
  | S fuel' => if negb (bool_decide (ib = [])) && check ib then ib ← next ib; check_all fuel' ib else Some ib
  end.

(** The constructor: str_. *)
Definition serial_changeset (str : list byte) : option (list byte) :=
  ib ← check_all (S (length str)) str;
  Some (if bool_decide (ib = []) then str else []).

(** [for (auto it = begin(); it != end(); ++it)]: the changes it visits. *)
Fixpoint visit (fuel : nat) (it : list byte) : option (list change) :=
  match fuel with
  | O => None
  | S fuel' =>
      if bool_decide (it = []) then Some []
      else i ← it_index it; v ← it_value it; it ← next it; l ← visit fuel' it; Some (mkChange i v :: l)
  end.
Definition changes (str_ : list byte) : option (list change) := visit (S (length str_)) str_.

Definition serial_single_index (str_ : list byte) : option bool :=
  if bool_decide (str_ = []) then Some false
  else len ← value_length str_; Some (len =? Z.of_nat (length str_) - Z.of_nat head_size).

(** ** Writing changes (row_base) *)

(** KVW of a short, and of a Str. *)
Definition kvw_short (z : Z) : list byte := le_bytes 2 z.
Definition kvw_str (s : list byte) : list byte := le_bytes 4 (i32 (Z.of_nat (length s))) ++ s.

(** The first loop of kvwrite_change. *)
Fixpoint sorted_cells (c : list change) : bool :=
  match c with
  | a :: (b :: _) as c' => (index a <? index b) && sorted_cells c'
  | _ => true
  end.
(** One turn of the second loop. *)
Definition written (c : change) : list byte := kvw_short (index c) ++ kvw_str (value c).
(** What is written; [None]: exit. *)
Definition kvwrite_change (c : list change) : option (list byte) :=
  let cells := take (Z.to_nat (i16 (Z.of_nat (length c)))) c in
  if sorted_cells cells then Some (concat (written <$> cells)) else None.
Definition make_put_col_request (fid : Z) (v : list byte) : list byte := kvw_short 1 ++ kvw_short fid ++ kvw_str v.

(** ** Facts *)

Lemma i16_id z : - 2 ^ 15 <= z < 2 ^ 15 -> i16 z = z.
Proof. unfold i16. intros H. rewrite Z.mod_small; lia. Qed.
Lemma i16_mod z : i16 (z mod 2 ^ 16) = i16 z.
Proof. unfold i16. rewrite Zplus_mod_idemp_l. reflexivity. Qed.

(** A change that is there. *)
Lemma check_next p : check p = true -> exists v p', it_value p = Some v /\ next p = Some p' /\ (length p' + head_size <= length p)%nat /\ is_Some (it_index p).
Proof.
  unfold check, it_value, next, it_index, value_length, head_size. destruct (decide (6 <= length p)%nat) as [H6|]; [|discriminate]. cbn [mbind option_bind].
  set (len := i32 _). intros Hc. apply andb_true_iff in Hc as [H1 H2]. apply Z.leb_le in H1, H2. rewrite !decide_True by lia. do 2 eexists. split; [reflexivity|]. split; [reflexivity|].
  rewrite length_drop. split; [lia|eauto].
Qed.

Lemma check_all_ok fuel : forall p, (length p < fuel)%nat -> exists p', check_all fuel p = Some p' /\ (p' = [] -> exists l, visit fuel p = Some l).
Proof.
  induction fuel as [|fuel IH]; intros p Hf; [lia|]. cbn [check_all visit]. destruct (bool_decide_reflect (p = [])) as [->|Hne]; cbn [negb andb]; [eauto|].
  destruct (check p) eqn:Ec; [|exists p; split; [reflexivity|intros ->; contradiction]].
  destruct (check_next p Ec) as (v & p1 & Ev & En & Hl & [i Ei]). rewrite Ev, En, Ei. cbn [mbind option_bind]. destruct (IH p1) as (p' & E & H); [unfold head_size in Hl; lia|].
  exists p'. split; [exact E|]. intros Hp. destruct (H Hp) as [l ->]. cbn [mbind option_bind]. eauto.
Qed.

(** Whatever the bytes, visiting the changes reads nothing outside of them. *)
Lemma changes_total str : exists s l, serial_changeset str = Some s /\ changes s = Some l.
Proof.
  destruct (check_all_ok (S (length str)) str ltac:(lia)) as (p' & E & H). unfold serial_changeset. rewrite E. cbn [mbind option_bind].
  destruct (bool_decide_reflect (p' = [])) as [->|Hne]; [destruct (H eq_refl) as [l Hl]; exists str, l; auto|]. exists [], []. auto.
Qed.

Lemma single_index_agrees s l : changes s = Some l -> serial_single_index s = Some (single_index l).
Proof.
  unfold changes, serial_single_index. cbn [visit]. destruct (bool_decide_reflect (s = [])) as [->|Hne]; [intros [= <-]; reflexivity|].
  destruct (it_index s) as [i|]; [cbn [mbind option_bind]|discriminate]. unfold it_value, next, value_length. destruct (decide (head_size <= length s)%nat) as [H6|]; [|discriminate]. cbn [mbind option_bind].
  set (len := i32 _). destruct (decide _) as [Hd|]; [|discriminate]. cbn [mbind option_bind]. unfold head_size in *.
  destruct (Z.eqb_spec len (Z.of_nat (length s) - Z.of_nat 6)) as [El|El].
  - rewrite drop_ge by lia. destruct (length s); cbn; [lia|]. intros [= <-]. reflexivity.
  - destruct (drop (6 + Z.to_nat len) s) as [|b r] eqn:Er; [apply (f_equal length) in Er; rewrite length_drop in Er; cbn in Er; lia|].
    destruct (length s) as [|n]; [lia|]. cbn [visit]. rewrite bool_decide_false by discriminate.
    destruct (it_index (b :: r)); [cbn [mbind option_bind]|discriminate]. destruct (it_value (b :: r)); [cbn [mbind option_bind]|discriminate]. destruct (next (b :: r)); [cbn [mbind option_bind]|discriminate].
    destruct (visit n _) as [l'|]; [cbn [mbind option_bind]|discriminate]. intros [= <-]. reflexivity.
Qed.

(** ** Round trip *)

Definition cell_ok (c : change) : Prop := - 2 ^ 15 <= index c < 2 ^ 15 /\ Z.of_nat (length (value c)) < 2 ^ 31.

Lemma read_cell c rest : cell_ok c ->
  it_index (written c ++ rest) = Some (index c) /\ it_value (written c ++ rest) = Some (value c) /\ next (written c ++ rest) = Some rest /\ check (written c ++ rest) = true.
Proof.
  intros [Hi Hv]. unfold check, it_value, next, it_index, value_length, written, kvw_short, kvw_str, head_size. set (n := Z.of_nat (length (value c))) in *. set (i := index c) in *.
  rewrite i32_id by (unfold is_i32; lia).
  assert (Hl : length ((le_bytes 2 i ++ le_bytes 4 n ++ value c) ++ rest) = (6 + length (value c) + length rest)%nat) by (rewrite !length_app, !length_le_bytes; lia).
  rewrite !decide_True by lia. rewrite Hl. cbn [mbind option_bind].
  assert (E1 : field 0 2 ((le_bytes 2 i ++ le_bytes 4 n ++ value c) ++ rest) = le_bytes 2 i) by (rewrite <- !app_assoc; apply (field_app_here []); auto using length_le_bytes).
  assert (E2 : field 2 4 ((le_bytes 2 i ++ le_bytes 4 n ++ value c) ++ rest) = le_bytes 4 n) by (rewrite <- !app_assoc; apply field_app_here; auto using length_le_bytes).
  rewrite E1, E2, !le_value_bytes. change (256 ^ Z.of_nat 2) with (2 ^ 16). change (256 ^ Z.of_nat 4) with (2 ^ 32). rewrite i16_mod, i16_id by exact Hi. rewrite (Z.mod_small n) by lia. rewrite i32_id by (unfold is_i32; lia).
  split; [reflexivity|]. rewrite !decide_True by lia. unfold n. rewrite Nat2Z.id.
  assert (E3 : (le_bytes 2 i ++ le_bytes 4 n ++ value c) ++ rest = (le_bytes 2 i ++ le_bytes 4 n) ++ value c ++ rest) by (rewrite <- !app_assoc; reflexivity).
  fold n. split; [rewrite E3; f_equal; apply field_app_here; [rewrite length_app, !length_le_bytes|]; reflexivity|].
  split; [f_equal; apply drop_app_exact; rewrite !length_app, !length_le_bytes; lia|]. apply andb_true_iff. split; apply Z.leb_le; lia.
Qed.

Lemma written_nonempty c : (0 < length (written c))%nat.
Proof. unfold written, kvw_short. rewrite length_app, length_le_bytes. lia. Qed.

Lemma read_cells l : Forall cell_ok l -> forall fuel, (length (concat (written <$> l)) < fuel)%nat ->
  check_all fuel (concat (written <$> l)) = Some [] /\ visit fuel (concat (written <$> l)) = Some l.
Proof.
  induction 1 as [|c l Hc _ IH]; intros [|fuel] Hf; try (cbn in Hf; lia); [auto|]. cbn [fmap list_fmap concat] in *. cbn [check_all visit].
  destruct (read_cell c (concat (written <$> l)) Hc) as (E1 & E2 & E3 & E4). pose proof (written_nonempty c). rewrite length_app in Hf.
  rewrite bool_decide_false by (intros E; apply (f_equal length) in E; rewrite length_app in E; cbn in E; lia). cbn [negb andb]. rewrite E1, E2, E3, E4. cbn [mbind option_bind].
  destruct (IH fuel ltac:(lia)) as [-> ->]. destruct c. auto.
Qed.

(** ** The requests of put_col *)

(** make_put_col_request begins with a count that serial_changeset does not expect:
    the constructor takes the request for malformed. *)
Lemma put_col_lost fid v : 0 <= fid < 2 ^ 15 -> (0 < length v)%nat -> Z.of_nat (length v) < 2 ^ 16 -> serial_changeset (make_put_col_request fid v) = Some [].
Proof.
  intros Hfid Hv0 Hv. unfold serial_changeset, make_put_col_request, kvw_str, kvw_short. set (n := Z.of_nat (length v)) in *. rewrite i32_id by (unfold is_i32; lia).
  set (str := _ ++ _).
  assert (Hc : check str = false).
  { unfold check, value_length, head_size. assert (Hl : length str = (8 + length v)%nat) by (unfold str; rewrite !length_app, !length_le_bytes; lia). rewrite decide_True by lia. rewrite Hl.
    assert (E : field 2 4 str = le_bytes 2 fid ++ le_bytes 2 n).
    { unfold str. assert (E4 : le_bytes 4 n = le_bytes 2 n ++ le_bytes 2 (n / 256 / 256)) by reflexivity. rewrite E4, <- !app_assoc, (app_assoc (le_bytes 2 fid)). apply field_app_here; reflexivity. }
    rewrite E. assert (Ev : le_value (le_bytes 2 fid ++ le_bytes 2 n) = fid + 2 ^ 16 * n).
    { change (le_value (le_bytes 2 fid ++ le_bytes 2 n)) with (Z_of_byte (byte_of_Z fid) + 256 * (Z_of_byte (byte_of_Z (fid / 256)) + 256 * le_value (le_bytes 2 n))).
      rewrite !Z_of_byte_of_Z, le_value_bytes. change (256 ^ Z.of_nat 2) with (2 ^ 16). rewrite (Z.mod_small n) by lia. pose proof (Z_div_mod_eq_full fid 256). pose proof (Z.mod_pos_bound fid 256 ltac:(lia)).
      rewrite (Z.mod_small (fid / 256)); [lia|]. split; [apply Z.div_pos; lia|apply Z.div_lt_upper_bound; lia]. }
    rewrite Ev. destruct (Z.leb_spec 0 (i32 (fid + 2 ^ 16 * n))) as [H0|]; [|reflexivity]. apply Z.leb_gt. destruct (decide (n < 2 ^ 15)).
    - rewrite i32_id by (unfold is_i32; lia). lia.
    - exfalso. assert (E32 : i32 (fid + 2 ^ 16 * n) = fid + 2 ^ 16 * n - 2 ^ 32); [|lia].
      unfold i32. replace (fid + 2 ^ 16 * n + 2 ^ 31) with (fid + 2 ^ 16 * n + 2 ^ 31 - 2 ^ 32 + 1 * 2 ^ 32) by lia. rewrite Z_mod_plus_full, Z.mod_small; lia. }
  cbn [check_all]. rewrite Hc, andb_false_r. cbn [mbind option_bind]. rewrite bool_decide_false; [reflexivity|]. intros E. apply (f_equal length) in E. unfold str in E. rewrite !length_app, !length_le_bytes in E. cbn in E. lia.
Qed.

(** C29: a client's change set arrives.  The bytes kvwrite_change writes, when it does
    not exit, are taken by serial_changeset as they are, the iterator visits the
    changes that were written, in the order of their indices, and single_index says
    whether there is one. *)
Theorem changeset_roundtrip (c : list change) (bs : list byte) : Forall cell_ok c -> Z.of_nat (length c) < 2 ^ 15 -> kvwrite_change c = Some bs ->
  serial_changeset bs = Some bs /\ changes bs = Some c /\ sorted_cells c = true /\ serial_single_index bs = Some (single_index c).
Proof.
  intros Hc Hl. unfold kvwrite_change. rewrite i16_id, Nat2Z.id, firstn_all by lia. destruct (sorted_cells c); [|discriminate]. intros [= <-].
 destruct (read_cells c Hc (S (length (concat (written <$> c)))) ltac:(lia)) as [E1 E2].
  unfold serial_changeset. rewrite E1. cbn [mbind option_bind]. rewrite bool_decide_true by reflexivity. split; [reflexivity|]. split; [exact E2|]. split; [reflexivity|]. apply single_index_agrees, E2.
Qed.

Lemma changeset_roundtrip_witness :
  exists bs, kvwrite_change [mkChange 0 [x61; x62]; mkChange 3 []; mkChange 7 [x63]] = Some bs /\
    changes bs = Some [mkChange 0 [x61; x62]; mkChange 3 []; mkChange 7 [x63]] /\ serial_single_index bs = Some false.
Proof.
  eexists. split; [reflexivity|]. destruct (changeset_roundtrip [mkChange 0 [x61; x62]; mkChange 3 []; mkChange 7 [x63]] _ ltac:(repeat constructor; cbn; lia) ltac:(cbn; lia) eq_refl) as (_ & E & _ & E1). auto.
Defined.

End changeset.
