(* ===== verification/ValueBag.v ===== *)
(** * Rows of the Masstree store (src/masstree/value_bag.hh)

    A row is a timestamp and an array of bytes: the number of columns, the offsets
    of the columns, then the columns.  Reads and writes of the array are checked:
    [None] is a read or write outside of it. *)

From S2P Require Import Prelude Changeset.

Open Scope Z_scope.

Module bag.

Import changeset.

Record row := mkRow { ts_ : Z; d_ : list byte }.

Section Bag.
(** sizeof(offset_type); what [ti.allocate] returns for a number of bytes. *)
Context (osize : nat) (allocate : nat -> list byte).

Definition sizeof_bagdata : Z := 2 * Z.of_nat osize.

(** memcpy from one array to another, or to itself. *)
Definition read_at (d : list byte) (off n : Z) : option (list byte) :=
  if (0 <=? off) && (0 <=? n) && (off + n <=? Z.of_nat (length d)) then Some (field (Z.to_nat off) (Z.to_nat n) d) else None.
Definition write_at (d : list byte) (off : Z) (bs : list byte) : option (list byte) :=
  if 0 <=? off then splice d (Z.to_nat off) bs else None.

(** The array of offset_type at the beginning: ncol_ and pos_. *)
Definition offset_at (d : list byte) (j : Z) : option Z := bs ← read_at d (Z.of_nat osize * j) (Z.of_nat osize); Some (le_value bs).
Definition set_offset (d : list byte) (j z : Z) : option (list byte) := write_at d (Z.of_nat osize * j) (le_bytes osize z).
Definition ncol_ (d : list byte) : option Z := offset_at d 0.
Definition pos_ (d : list byte) (i : Z) : option Z := offset_at d (1 + i).

Definition size (r : row) : option Z := n ← ncol_ (d_ r); p ← pos_ (d_ r) n; Some (8 + p).
Definition column_length (d : list byte) (i : Z) : option Z :=
  p ← pos_ d i; p' ← pos_ d (i + 1); Some ((p' - p) mod 256 ^ Z.of_nat osize).
Definition col (r : row) (i : Z) : option (list byte) :=
  n ← ncol_ (d_ r);
  if (0 <=? i) && (i <? n) then p ← pos_ (d_ r) i; len ← column_length (d_ r) i; read_at (d_ r) p len else Some [].
Definition row_string (r : row) : option (list byte) := n ← ncol_ (d_ r); p ← pos_ (d_ r) n; read_at (d_ r) 0 p.

(** The constructor. *)
Definition value_bag : row := mkRow 0 (le_bytes osize 0 ++ le_bytes osize sizeof_bagdata).

(** ** update *)

(** The first loop: the size of the new row and its number of columns. *)
Fixpoint measure (d : list byte) (oncol : Z) (changeset : list change) (sz ncol : Z) : option (Z * Z) :=
  match changeset with
  | [] => Some (sz, ncol)
  | c :: changeset' =>
      let sz := u64 (sz + Z.of_nat (length (value c))) in
      if index c <? oncol then len ← column_length d (index c); measure d oncol changeset' (u64 (sz - len)) ncol
      else measure d oncol changeset' sz (index c + 1)
  end.

(** [for (int i = col; i < end_col; ++i) row->d_.pos_[i] = d_.pos_[i] + delta;] *)
Fixpoint move_offsets (cnt : nat) (d : list byte) (i delta : Z) (new : list byte) : option (list byte) :=
  match cnt with
  | O => Some new
  | S cnt' => p ← pos_ d i; new ← set_offset new (1 + i) (p + delta); move_offsets cnt' d (i + 1) delta new
  end.

(** "copy data from old row": the new row, col and sz. *)
Definition copy_old (d : list byte) (oncol this_col col sz : Z) (new : list byte) : option (list byte * Z * Z) :=
  if negb (col =? this_col) && (col <? oncol) then
    let end_col := Z.min this_col oncol in
    p ← pos_ d col;
    let delta := sz - p in
    new ← (if delta =? 0 then
             bs ← read_at d (Z.of_nat osize * (1 + col)) (Z.of_nat osize * (end_col - col)); write_at new (Z.of_nat osize * (1 + col)) bs
           else move_offsets (Z.to_nat (end_col - col)) d col delta new);
    p' ← pos_ d end_col;
    let amt := p' - p in
    bs ← read_at d (sz - delta) amt;
    new ← write_at new sz bs;
    Some (new, end_col, sz + amt)
  else Some (new, col, sz).

(** "mark empty columns if we're extending" *)
Fixpoint mark_empty (fuel : nat) (this_col col sz : Z) (new : list byte) : option (list byte * Z) :=
  match fuel with
  | O => None
  | S fuel' =>
      if negb (col =? this_col) then new ← set_offset new (1 + col) sz; mark_empty fuel' this_col (col + 1) sz new
      else Some (new, col)
  end.

(** [while (1)], from the change [first] on. *)
Fixpoint update_loop (d : list byte) (oncol ncol : Z) (first : list change) (col sz : Z) (new : list byte) : option (list byte * Z) :=
  let this_col := match first with c :: _ => index c | [] => ncol end in
  '(new, col, sz) ← copy_old d oncol this_col col sz new;
  '(new, col) ← mark_empty (S (length new)) this_col col sz new;
  if col =? ncol then Some (new, sz)
  else
    match first with
    | [] => None
    | c :: first' =>
        new ← set_offset new (1 + col) sz;
        new ← write_at new sz (value c);
        update_loop d oncol ncol first' (col + 1) (sz + Z.of_nat (length (value c))) new
    end.

Definition update (r : row) (changeset : list change) (ts : Z) : option row :=
  let d := d_ r in
  osz ← size r;
  oncol ← ncol_ d;
  '(sz, ncol) ← measure d oncol changeset osz oncol;
  let sz := if oncol <? ncol then u64 (sz + (ncol - oncol) * Z.of_nat osize) else sz in
  let new := allocate (Z.to_nat sz - 8) in
  match changeset with
  | first :: _ =>
      if (ncol =? oncol) && (sz =? osz) && single_index changeset && (Z.of_nat (length (value first)) <=? 16) then
        bs ← read_at d 0 (sz - 8);
        new ← write_at new 0 bs;
        p ← pos_ d (index first);
        new ← write_at new p (value first);
        Some (mkRow ts new)
      else
        new ← set_offset new 0 ncol;
        '(new, sz) ← update_loop d oncol ncol changeset 0 (sizeof_bagdata + ncol * Z.of_nat osize) new;
        new ← set_offset new (1 + ncol) sz;
        Some (mkRow ts new)
  | [] =>
      new ← set_offset new 0 ncol;
      '(new, sz) ← update_loop d oncol ncol changeset 0 (sizeof_bagdata + ncol * Z.of_nat osize) new;
      new ← set_offset new (1 + ncol) sz;
      Some (mkRow ts new)
  end.

(** update of one column. *)
Definition update_col (r : row) (col : Z) (v : list byte) (ts : Z) : option row := update r [mkChange (i16 col) v] ts.
Definition create (changeset : list change) (ts : Z) : option row := update value_bag changeset ts.
Definition create1 (str : list byte) (ts : Z) : option row :=
  let new := allocate (Z.to_nat (sizeof_bagdata + Z.of_nat osize) + length str) in
  let p0 := sizeof_bagdata + Z.of_nat osize in
  new ← set_offset new 0 1;
  new ← set_offset new 1 p0;
  new ← set_offset new 2 (p0 + Z.of_nat (length str));
  p ← pos_ new 0;
  new ← write_at new p str;
  Some (mkRow ts new).

(** checkpoint_write writes row_string; checkpoint_read makes a row of it. *)
Definition checkpoint_read (str : list byte) (ts : Z) : option row :=
  new ← write_at (allocate (length str)) 0 str; Some (mkRow ts new).

(** ** Rows as lists of columns *)

(** Where columns begin that follow each other from [start] on, and where they end. *)
Fixpoint offsets (start : Z) (cs : list (list byte)) : list Z :=
  match cs with [] => [start] | c :: cs' => start :: offsets (start + Z.of_nat (length c)) cs' end.
Definition header (n : nat) : Z := Z.of_nat (osize * (n + 2)).
(** The values of the array of offset_type. *)
Definition slots (cs : list (list byte)) : list Z := Z.of_nat (length cs) :: offsets (header (length cs)) cs.
Definition le_all (zs : list Z) : list byte := concat (le_bytes osize <$> zs).
Definition row_image (cs : list (list byte)) : list byte := le_all (slots cs) ++ concat cs.
Definition row_size (cs : list (list byte)) : Z := header (length cs) + Z.of_nat (length (concat cs)).
Definition fits (cs : list (list byte)) : Prop := row_size cs < 256 ^ Z.of_nat osize.

Lemma length_le_all zs : length (le_all zs) = (osize * length zs)%nat.
Proof. unfold le_all. induction zs as [|z zs IH]; cbn [fmap list_fmap concat length]; [lia|]. rewrite length_app, length_le_bytes, IH. lia. Qed.
Lemma le_all_app zs zs' : le_all (zs ++ zs') = le_all zs ++ le_all zs'.
Proof. unfold le_all. rewrite fmap_app, concat_app. reflexivity. Qed.
Lemma offsets_lookup cs : forall start i, (i <= length cs)%nat -> offsets start cs !! i = Some (start + Z.of_nat (length (concat (take i cs)))).
Proof.
  induction cs as [|c cs IH]; intros start i Hi.
  - destruct i; cbn in *; [f_equal; lia|lia].
  - destruct i as [|i]; [cbn; f_equal; lia|]. cbn in Hi. cbn [offsets]. rewrite lookup_cons, IH by lia. cbn [take concat]. rewrite length_app. f_equal. lia.
Qed.
Lemma length_offsets cs : forall start, length (offsets start cs) = S (length cs).
Proof. induction cs as [|c cs IH]; intros start; cbn; [reflexivity|]. rewrite IH. reflexivity. Qed.
Lemma length_slots cs : length (slots cs) = (length cs + 2)%nat.
Proof. unfold slots. cbn. rewrite length_offsets. lia. Qed.
Lemma slot_pos cs i : (i <= length cs)%nat -> slots cs !! S i = Some (header (length cs) + Z.of_nat (length (concat (take i cs)))).
Proof. intros Hi. apply offsets_lookup, Hi. Qed.
Lemma length_image cs : Z.of_nat (length (row_image cs)) = row_size cs.
Proof. unfold row_image, row_size, header. rewrite length_app, length_le_all, length_slots. lia. Qed.
Lemma concat_take_drop {A} (l : list (list A)) i k : length (concat (take (i + k) l)) = (length (concat (take i l)) + length (concat (take k (drop i l))))%nat.
Proof. rewrite <- length_app, <- concat_app. f_equal. f_equal. rewrite <- (take_drop i (take (i + k) l)), take_take, Nat.min_l, <- take_drop_commute by lia. reflexivity. Qed.
Lemma concat_take_le {A} (l : list (list A)) i : (length (concat (take i l)) <= length (concat l))%nat.
Proof. rewrite <- (take_drop i l) at 2. rewrite concat_app, length_app. lia. Qed.

(** ** Reading a row *)

Lemma read_here l1 x l3 off n : Z.of_nat (length l1) = off -> Z.of_nat (length x) = n -> read_at (l1 ++ x ++ l3) off n = Some x.
Proof.
  intros <- <-. unfold read_at. rewrite !length_app. destruct (Z.leb_spec 0 (Z.of_nat (length l1))); [|lia]. destruct (Z.leb_spec 0 (Z.of_nat (length x))); [|lia]. cbn [andb].
  destruct (Z.leb_spec (Z.of_nat (length l1) + Z.of_nat (length x)) (Z.of_nat (length l1 + (length x + length l3)))); [|lia]. rewrite !Nat2Z.id. f_equal. apply field_app_here; reflexivity.
Qed.
Lemma write_here l1 x l3 off bs : Z.of_nat (length l1) = off -> length x = length bs -> write_at (l1 ++ x ++ l3) off bs = Some (l1 ++ bs ++ l3).
Proof.
  intros <- Hx. unfold write_at, splice. destruct (Z.leb_spec 0 (Z.of_nat (length l1))); [|lia]. rewrite Nat2Z.id, decide_True by (rewrite !length_app; lia).
  rewrite take_app_exact by reflexivity. rewrite (app_assoc l1 x l3), drop_app_exact by (rewrite length_app; lia). reflexivity.
Qed.

(** Some of the entries of the array of offsets. *)
Lemma read_slots zs rest i k : (i + k <= length zs)%nat ->
  read_at (le_all zs ++ rest) (Z.of_nat osize * Z.of_nat i) (Z.of_nat osize * Z.of_nat k) = Some (le_all (take k (drop i zs))).
Proof.
  intros H. rewrite <- (take_drop i zs) at 1. rewrite <- (take_drop k (drop i zs)) at 1. rewrite !le_all_app, <- !app_assoc.
  apply read_here; rewrite length_le_all, length_take, ?length_drop, Nat.min_l, Nat2Z.inj_mul by lia; reflexivity.
Qed.
Lemma offset_slot zs rest i z : zs !! i = Some z -> 0 <= z < 256 ^ Z.of_nat osize -> offset_at (le_all zs ++ rest) (Z.of_nat i) = Some z.
Proof.
  intros Hi Hz. pose proof (lookup_lt_Some _ _ _ Hi). unfold offset_at. replace (Z.of_nat osize) with (Z.of_nat osize * Z.of_nat 1) at 2 by lia.
  rewrite read_slots by lia. cbn [mbind option_bind]. rewrite (drop_S _ _ _ Hi). cbn [take]. unfold le_all. cbn [fmap list_fmap concat]. rewrite app_nil_r, le_value_bytes, Z.mod_small by exact Hz. reflexivity.
Qed.

Section Read.
Context (cs : list (list byte)).
Hypothesis Hfits : fits cs.

Lemma image_pos_range i : 0 <= header (length cs) + Z.of_nat (length (concat (take i cs))) < 256 ^ Z.of_nat osize.
Proof. unfold fits, row_size, header in *. pose proof (concat_take_le cs i). lia. Qed.
Lemma image_ncol : (0 < osize)%nat -> ncol_ (row_image cs) = Some (Z.of_nat (length cs)).
Proof.
  intros H0. apply (offset_slot (slots cs) (concat cs) 0); [reflexivity|]. unfold fits, row_size, header in Hfits. nia.
Qed.
Lemma image_pos i : (i <= length cs)%nat -> pos_ (row_image cs) (Z.of_nat i) = Some (header (length cs) + Z.of_nat (length (concat (take i cs)))).
Proof.
  intros Hi. unfold pos_. replace (1 + Z.of_nat i) with (Z.of_nat (S i)) by lia. apply offset_slot; [apply slot_pos, Hi|apply image_pos_range].
Qed.
Lemma image_columns i k : (i + k <= length cs)%nat ->
  read_at (row_image cs) (header (length cs) + Z.of_nat (length (concat (take i cs)))) (Z.of_nat (length (concat (take k (drop i cs))))) = Some (concat (take k (drop i cs))).
Proof.
  intros H. unfold row_image. rewrite <- (take_drop i cs) at 2. rewrite <- (take_drop k (drop i cs)) at 1. rewrite !concat_app, app_assoc, <- !app_assoc, app_assoc.
  apply read_here; [|reflexivity]. rewrite length_app, length_le_all, length_slots. unfold header. lia.
Qed.
End Read.

(** ** Filling a new row *)

Section Fill.
Context (cs : list (list byte)).
Hypothesis Hfits : fits cs.

(** The first [a] entries of the offsets and the first [b] columns have been written. *)
Definition filled (new : list byte) (a b : nat) : Prop :=
  exists j1 j2, new = le_all (take a (slots cs)) ++ j1 ++ concat (take b cs) ++ j2 /\
    (length j1 + osize * a = osize * (length cs + 2))%nat /\ length j2 = length (concat (drop b cs)) /\ (a <= length cs + 2)%nat.

Lemma fill_start new : Z.of_nat (length new) = row_size cs -> filled new 0 0.
Proof.
  intros H. unfold row_size, header in H. unfold filled. set (m := (osize * (length cs + 2))%nat) in *. exists (take m new), (drop m new).
  split; [symmetry; apply take_drop|]. rewrite length_take, length_drop. rewrite drop_0. lia.
Qed.
Lemma fill_end new : filled new (length cs + 2) (length cs) -> new = row_image cs.
Proof.
  intros (j1 & j2 & -> & H1 & H2 & _). rewrite drop_all in H2. destruct j1; [|cbn in H1; lia]. destruct j2; [|discriminate].
  rewrite (take_ge (slots cs)) by (rewrite length_slots; lia). rewrite take_ge by lia. rewrite app_nil_r. reflexivity.
Qed.

Lemma fill_slots new a b k : filled new a b -> (a + k <= length cs + 2)%nat ->
  exists new', write_at new (Z.of_nat osize * Z.of_nat a) (le_all (take k (drop a (slots cs)))) = Some new' /\ filled new' (a + k) b.
Proof.
  intros (j1 & j2 & -> & H1 & H2 & H3) Hk. pose proof (length_slots cs) as Hl.
  assert (Hk1 : (osize * k <= length j1)%nat) by nia. rewrite <- (take_drop (osize * k) j1), <- app_assoc.
  eexists. split; [apply write_here|].
  - rewrite length_le_all, length_take, Nat.min_l by lia. lia.
  - rewrite length_take, Nat.min_l by exact Hk1. rewrite length_le_all, length_take, length_drop, Nat.min_l by lia. reflexivity.
  - exists (drop (osize * k) j1), j2. split; [|rewrite length_drop; lia]. rewrite app_assoc, <- le_all_app. do 2 f_equal.
    rewrite <- (take_drop a (take (a + k) (slots cs))), take_take, Nat.min_l, <- take_drop_commute by lia. reflexivity.
Qed.
Lemma fill_slot new a b z : filled new a b -> slots cs !! a = Some z -> exists new', set_offset new (Z.of_nat a) z = Some new' /\ filled new' (S a) b.
Proof.
  intros Hf Hz. pose proof (lookup_lt_Some _ _ _ Hz) as Hlt. rewrite length_slots in Hlt. destruct (fill_slots new a b 1 Hf ltac:(lia)) as (new' & E & Hf').
  rewrite (drop_S _ _ _ Hz) in E. cbn [take] in E. unfold le_all in E. cbn [fmap list_fmap concat] in E. rewrite app_nil_r in E. exists new'. split; [exact E|].
  rewrite Nat.add_1_r in Hf'. exact Hf'.
Qed.
Lemma fill_columns new a b k : filled new a b -> (b + k <= length cs)%nat ->
  exists new', write_at new (header (length cs) + Z.of_nat (length (concat (take b cs)))) (concat (take k (drop b cs))) = Some new' /\ filled new' a (b + k).
Proof.
  intros (j1 & j2 & -> & H1 & H2 & H3) Hk. pose proof (length_slots cs) as Hl.
  assert (Hd : drop b cs = take k (drop b cs) ++ drop (b + k) cs) by (rewrite <- drop_drop, take_drop; reflexivity).
  assert (Hk1 : length (concat (drop b cs)) = (length (concat (take k (drop b cs))) + length (concat (drop (b + k) cs)))%nat) by (rewrite Hd at 1; rewrite concat_app, length_app; reflexivity).
  set (c := concat (take k (drop b cs))) in *. rewrite <- (take_drop (length c) j2), !app_assoc, <- app_assoc.
  eexists. split; [apply write_here|].
  - rewrite !length_app, length_le_all, length_take, Nat.min_l by lia. unfold header. lia.
  - rewrite length_take. lia.
  - exists j1, (drop (length c) j2). split; [|rewrite length_drop; lia]. rewrite <- !app_assoc. do 2 f_equal. rewrite (app_assoc (concat (take b cs))). f_equal. unfold c. rewrite <- concat_app. f_equal.
    rewrite <- (take_drop b (take (b + k) cs)), take_take, Nat.min_l, <- take_drop_commute by lia. reflexivity.
Qed.
Lemma fill_column new a b c : filled new a b -> cs !! b = Some c ->
  exists new', write_at new (header (length cs) + Z.of_nat (length (concat (take b cs)))) c = Some new' /\ filled new' a (S b).
Proof.
  intros Hf Hc. pose proof (lookup_lt_Some _ _ _ Hc) as Hlt. destruct (fill_columns new a b 1 Hf ltac:(lia)) as (new' & E & Hf').
  rewrite (drop_S _ _ _ Hc) in E. cbn [take concat] in E. rewrite app_nil_r in E. rewrite Nat.add_1_r in Hf'. eauto.
Qed.
Lemma fill_empty new a b : filled new a b -> cs !! b = Some [] -> filled new a (S b).
Proof.
  intros (j1 & j2 & -> & H1 & H2 & H3) Hc. exists j1, j2. rewrite (take_S_r _ _ _ Hc), concat_app. cbn [concat]. rewrite !app_nil_r. split; [reflexivity|]. split; [exact H1|]. split; [|exact H3].
  rewrite (drop_S _ _ _ Hc) in H2. exact H2.
Qed.
Lemma filled_length new a b : filled new a b -> (b <= length cs)%nat -> Z.of_nat (length new) = row_size cs.
Proof.
  intros (j1 & j2 & -> & H1 & H2 & H3) Hb. rewrite !length_app, length_le_all, length_take, Nat.min_l by (rewrite length_slots; lia). unfold row_size, header.
  pose proof (f_equal length (concat_app (take b cs) (drop b cs))) as Hc. rewrite take_drop, length_app in Hc. lia.
Qed.
End Fill.

(** ** The new row *)

(** Where column [i] begins. *)
Definition start_of (cs : list (list byte)) (i : nat) : Z := header (length cs) + Z.of_nat (length (concat (take i cs))).

Lemma start_add cs i k : start_of cs (i + k) = start_of cs i + Z.of_nat (length (concat (take k (drop i cs)))).
Proof. unfold start_of. rewrite concat_take_drop. lia. Qed.
Lemma start_S cs i c : cs !! i = Some c -> start_of cs (S i) = start_of cs i + Z.of_nat (length c).
Proof. intros H. rewrite <- Nat.add_1_r, start_add, (drop_S _ _ _ H). cbn [take concat]. rewrite app_nil_r. reflexivity. Qed.

Section Update.
(** The columns of the old row, and those of the new one. *)
Context (cs ns : list (list byte)).
Hypothesis Hosize : (0 < osize)%nat.
Hypothesis Hcs : fits cs.
Hypothesis Hlen : (length cs <= length ns)%nat.

Abbreviation kept i := (ns !! i = Some (default [] (cs !! i))).

(** From column [col] on the new row has the changes [rest] and else what the old
    one has. *)
Fixpoint agrees (col : nat) (rest : list change) : Prop :=
  match rest with
  | [] => forall i, (col <= i < length ns)%nat -> kept i
  | c :: rest' => exists j, index c = Z.of_nat j /\ (col <= j < length ns)%nat /\ (forall i, (col <= i < j)%nat -> kept i) /\
      ns !! j = Some (value c) /\ agrees (S j) rest'
  end.

Lemma kept_columns i k : (forall j, (i <= j < i + k)%nat -> kept j) -> (i + k <= length cs)%nat -> take k (drop i ns) = take k (drop i cs).
Proof.
  intros H Hk. apply list_eq. intros j. destruct (decide (j < k)%nat); [|rewrite !lookup_take_ge by lia; reflexivity].
  rewrite !lookup_take_lt, !lookup_drop by lia. rewrite H by lia. destruct (lookup_lt_is_Some_2 cs (i + j) ltac:(lia)) as [c ->]. reflexivity.
Qed.

Lemma move_offsets_ok k : forall i new b, filled ns new (S i) b -> (i + k <= length cs)%nat -> (forall j, (i <= j < i + k)%nat -> kept j) ->
  exists new', move_offsets k (row_image cs) (Z.of_nat i) (start_of ns i - start_of cs i) new = Some new' /\ filled ns new' (S i + k) b.
Proof.
  induction k as [|k IH]; intros i new b Hf Hk Hkept; cbn [move_offsets].
  - exists new. rewrite Nat.add_0_r. auto.
  - rewrite (image_pos cs Hcs) by lia. cbn [mbind option_bind]. fold (start_of cs i).
    replace (start_of cs i + (start_of ns i - start_of cs i)) with (start_of ns i) by lia.
    destruct (fill_slot ns new (S i) b (start_of ns i) Hf) as (new' & E & Hf'); [apply slot_pos; lia|].
    replace (1 + Z.of_nat i) with (Z.of_nat (S i)) by lia. rewrite E. cbn [mbind option_bind].
    assert (Ed : start_of ns i - start_of cs i = start_of ns (S i) - start_of cs (S i)).
    { rewrite <- Nat.add_1_r, !start_add, (kept_columns i 1); [lia| |lia]. intros j Hj. apply Hkept. lia. }
    rewrite Ed. replace (Z.of_nat i + 1) with (Z.of_nat (S i)) by lia. destruct (IH (S i) new' b Hf' ltac:(lia)) as (new2 & E2 & Hf2); [intros j Hj; apply Hkept; lia|].
    exists new2. split; [exact E2|]. replace (S i + S k)%nat with (S (S i) + k)%nat by lia. exact Hf2.
Qed.

Lemma same_slots i k : start_of ns i = start_of cs i -> (i + k <= length cs)%nat -> (forall j, (i <= j < i + k)%nat -> kept j) ->
  take k (drop (S i) (slots cs)) = take k (drop (S i) (slots ns)).
Proof.
  intros E Hk Hkept. apply list_eq. intros j. destruct (decide (j < k)%nat); [|rewrite !lookup_take_ge by lia; reflexivity].
  rewrite !lookup_take_lt, !lookup_drop, Nat.add_succ_l by lia. rewrite !slot_pos by lia. f_equal. fold (start_of cs (i + j)) (start_of ns (i + j)).
  rewrite !start_add, (kept_columns i j), E; [reflexivity| |lia]. intros x Hx. apply Hkept. lia.
Qed.

Lemma copy_old_ok this col new : filled ns new (S col) col -> (col <= this <= length ns)%nat -> (forall i, (col <= i < this)%nat -> kept i) ->
  exists new' col', copy_old (row_image cs) (Z.of_nat (length cs)) (Z.of_nat this) (Z.of_nat col) (start_of ns col) new = Some (new', Z.of_nat col', start_of ns col') /\
    filled ns new' (S col') col' /\ (col <= col' <= this)%nat /\ (col' = this \/ length cs <= col')%nat.
Proof.
  intros Hf Hc Hkept. unfold copy_old. destruct (Z.eqb_spec (Z.of_nat col) (Z.of_nat this)); cbn [negb andb].
  { exists new, col. split; [reflexivity|]. split; [exact Hf|]. lia. }
  destruct (Z.ltb_spec (Z.of_nat col) (Z.of_nat (length cs))); [|exists new, col; split; [reflexivity|]; split; [exact Hf|]; lia].
  set (e := Nat.min this (length cs)). replace (Z.min (Z.of_nat this) (Z.of_nat (length cs))) with (Z.of_nat e) by lia.
  set (k := (e - col)%nat). assert (He : e = (col + k)%nat) by lia. assert (Hk : (col + k <= length cs)%nat) by lia.
  assert (Hkk : forall j, (col <= j < col + k)%nat -> kept j) by (intros j Hj; apply Hkept; lia).
  rewrite (image_pos cs Hcs col) by lia. cbn [mbind option_bind]. fold (start_of cs col).
  replace (Z.of_nat e - Z.of_nat col) with (Z.of_nat k) by lia. replace (1 + Z.of_nat col) with (Z.of_nat (S col)) by lia. rewrite Nat2Z.id.
  assert (Hoff : exists new1, (if start_of ns col - start_of cs col =? 0 then
      bs ← read_at (row_image cs) (Z.of_nat osize * Z.of_nat (S col)) (Z.of_nat osize * Z.of_nat k); write_at new (Z.of_nat osize * Z.of_nat (S col)) bs
      else move_offsets k (row_image cs) (Z.of_nat col) (start_of ns col - start_of cs col) new) = Some new1 /\ filled ns new1 (S col + k) col).
  { destruct (Z.eqb_spec (start_of ns col - start_of cs col) 0) as [E0|_]; [|apply move_offsets_ok; assumption].
    unfold row_image. rewrite read_slots by (rewrite length_slots; lia). cbn [mbind option_bind]. rewrite (same_slots col k) by (first [lia | assumption]). apply fill_slots; [exact Hf|lia]. }
  destruct Hoff as (new1 & Eoff & Hf1). cbn [mbind option_bind] in Eoff |- *. rewrite Eoff. cbn [mbind option_bind]. rewrite (image_pos cs Hcs e) by lia. cbn [mbind option_bind]. fold (start_of cs e).
  rewrite He, start_add. replace (start_of cs col + _ - start_of cs col) with (Z.of_nat (length (concat (take k (drop col cs))))) by lia.
  replace (start_of ns col - (start_of ns col - start_of cs col)) with (start_of cs col) by lia. pose proof (image_columns cs col k ltac:(lia)) as Er. fold (start_of cs col) in Er. rewrite Er. cbn [mbind option_bind].
  destruct (fill_columns ns new1 (S col + k) col k Hf1 ltac:(lia)) as (new2 & E2 & Hf2). rewrite (kept_columns col k Hkk Hk) in E2. fold (start_of ns col) in E2. rewrite E2. cbn [mbind option_bind].
  exists new2, (col + k)%nat. split; [rewrite start_add, (kept_columns col k Hkk Hk); reflexivity|]. split; [exact Hf2|]. lia.
Qed.

Lemma mark_empty_ok fuel : forall this col new, filled ns new (S col) col -> (col <= this <= length ns)%nat -> (length cs <= col \/ col = this)%nat -> (this - col < fuel)%nat ->
  (forall i, (col <= i < this)%nat -> kept i) ->
  exists new', mark_empty fuel (Z.of_nat this) (Z.of_nat col) (start_of ns col) new = Some (new', Z.of_nat this) /\ filled ns new' (S this) this /\ start_of ns this = start_of ns col.
Proof.
  induction fuel as [|fuel IH]; intros this col new Hf Hc Ho Hfu Hkept; [lia|]. cbn [mark_empty]. destruct (Z.eqb_spec (Z.of_nat col) (Z.of_nat this)) as [E|E]; cbn [negb].
  { assert (col = this) as -> by lia. exists new. auto. }
  assert (Hn : ns !! col = Some []) by (rewrite Hkept by lia; rewrite lookup_ge_None_2 by lia; reflexivity).
  destruct (fill_slot ns new (S col) col (start_of ns col) Hf) as (new1 & E1 & Hf1); [apply slot_pos; lia|].
  replace (1 + Z.of_nat col) with (Z.of_nat (S col)) by lia. rewrite E1. cbn [mbind option_bind].
  apply fill_empty in Hf1; [|exact Hn]. pose proof (start_S ns col [] Hn) as Es. cbn in Es. rewrite Z.add_0_r in Es. rewrite <- Es. replace (Z.of_nat col + 1) with (Z.of_nat (S col)) by lia.
  destruct (IH this (S col) new1 Hf1 ltac:(lia) ltac:(lia) ltac:(lia)) as (new2 & E2 & Hf2 & Es2); [intros i Hi; apply Hkept; lia|]. rewrite E2. exists new2. auto.
Qed.

Lemma update_loop_ok rest : forall col new, filled ns new (S col) col -> (col <= length ns)%nat -> agrees col rest ->
  exists new', update_loop (row_image cs) (Z.of_nat (length cs)) (Z.of_nat (length ns)) rest (Z.of_nat col) (start_of ns col) new = Some (new', row_size ns) /\
    filled ns new' (S (length ns)) (length ns).
Proof.
  induction rest as [|c rest IH]; intros col new Hf Hc Ha; cbn [update_loop agrees] in *.
  - destruct (copy_old_ok (length ns) col new Hf ltac:(lia)) as (new1 & col1 & -> & Hf1 & Hc1 & Ho1); [intros i Hi; apply Ha; lia|]. cbn [mbind option_bind].
    pose proof (filled_length ns new1 _ _ Hf1 ltac:(lia)) as Hl1. unfold row_size, header in Hl1.
    destruct (mark_empty_ok (S (length new1)) (length ns) col1 new1 Hf1 ltac:(lia) ltac:(lia) ltac:(nia)) as (new2 & -> & Hf2 & Es); [intros i Hi; apply Ha; lia|]. cbn [mbind option_bind].
    rewrite Z.eqb_refl, <- Es. exists new2. split; [|exact Hf2]. unfold start_of, row_size. rewrite take_ge by lia. reflexivity.
  - destruct Ha as (j & -> & Hj & Hkept & Hv & Ha).
    destruct (copy_old_ok j col new Hf ltac:(lia) Hkept) as (new1 & col1 & -> & Hf1 & Hc1 & Ho1). cbn [mbind option_bind].
    pose proof (filled_length ns new1 _ _ Hf1 ltac:(lia)) as Hl1. unfold row_size, header in Hl1.
    destruct (mark_empty_ok (S (length new1)) j col1 new1 Hf1 ltac:(lia) ltac:(lia) ltac:(nia)) as (new2 & -> & Hf2 & Es); [intros i Hi; apply Hkept; lia|]. cbn [mbind option_bind].
    destruct (Z.eqb_spec (Z.of_nat j) (Z.of_nat (length ns))); [lia|]. rewrite <- Es.
    destruct (fill_slot ns new2 (S j) j (start_of ns j) Hf2) as (new3 & E3 & Hf3); [apply slot_pos; lia|].
    replace (1 + Z.of_nat j) with (Z.of_nat (S j)) by lia. rewrite E3. cbn [mbind option_bind].
    destruct (fill_column ns new3 _ j (value c) Hf3 Hv) as (new4 & E4 & Hf4). fold (start_of ns j) in E4. rewrite E4. cbn [mbind option_bind].
    rewrite <- (start_S ns j (value c) Hv). replace (Z.of_nat j + 1) with (Z.of_nat (S j)) by lia. apply IH; [exact Hf4|lia|exact Ha].
Qed.
End Update.

(** ** What a change set does *)

Definition set_column (cs : list (list byte)) (c : change) : list (list byte) :=
  <[Z.to_nat (index c) := value c]> (cs ++ replicate (S (Z.to_nat (index c)) - length cs) []).
Definition changed (cs : list (list byte)) (changeset : list change) : list (list byte) := foldl set_column cs changeset.
(** The indices increase. *)
Fixpoint in_order (lo : Z) (changeset : list change) : Prop :=
  match changeset with [] => True | c :: changeset' => lo <= index c /\ in_order (index c + 1) changeset' end.

#[global] Instance in_order_dec lo changeset : Decision (in_order lo changeset).
Proof. revert lo. induction changeset as [|c changeset IH]; intros lo; cbn [in_order]; apply _. Defined.
#[global] Instance fits_dec cs : Decision (fits cs).
Proof. unfold fits. apply _. Defined.

Lemma length_set cs c : length (set_column cs c) = Nat.max (length cs) (S (Z.to_nat (index c))).
Proof. unfold set_column. rewrite length_insert, length_app, length_replicate. lia. Qed.
Lemma set_here cs c : set_column cs c !! Z.to_nat (index c) = Some (value c).
Proof. unfold set_column. apply list_lookup_insert_eq. rewrite length_app, length_replicate. lia. Qed.
Lemma set_other cs c i : i <> Z.to_nat (index c) -> set_column cs c !! i = if decide (i < length cs)%nat then cs !! i else if decide (i < Z.to_nat (index c))%nat then Some [] else None.
Proof.
  intros Hi. unfold set_column. rewrite list_lookup_insert_ne by congruence. destruct (decide (i < length cs)%nat); [apply lookup_app_l; lia|]. rewrite lookup_app_r by lia.
  destruct (decide (i < Z.to_nat (index c))%nat); [apply lookup_replicate_2; lia|]. apply lookup_ge_None_2. rewrite length_replicate. lia.
Qed.

(** What the new row shares with the old. *)
Lemma changed_agrees cs ch : forall (col : nat) acc, in_order (Z.of_nat col) ch -> (length cs <= length acc)%nat -> (col <= length acc)%nat ->
  (forall i, (col <= i < length acc)%nat -> acc !! i = Some (default [] (cs !! i))) ->
  agrees cs (changed acc ch) col ch /\ (length acc <= length (changed acc ch))%nat /\ (forall i, (i < col)%nat -> changed acc ch !! i = acc !! i).
Proof.
  induction ch as [|c ch IH]; intros col acc Ho Hl Hc Hk; cbn [changed foldl agrees in_order] in *; [auto|].
  destruct Ho as [Ho Ho']. set (j := Z.to_nat (index c)) in *. assert (Ej : index c = Z.of_nat j) by lia. fold (changed (set_column acc c) ch).
  pose proof (length_set acc c) as Hls. fold j in Hls. pose proof (set_here acc c) as Hh. fold j in Hh. pose proof (set_other acc c) as Hot. fold j in Hot.
  destruct (IH (S j) (set_column acc c)) as (Ha & Hla & Hb); [rewrite Ej in Ho'; replace (Z.of_nat (S j)) with (Z.of_nat j + 1) by lia; exact Ho'|lia|lia| |].
  { intros i Hi. rewrite Hot by lia. rewrite decide_True by lia. apply Hk. lia. }
  split; [|split; [lia|]].
  - exists j. split; [exact Ej|]. split; [lia|]. split; [|split; [rewrite Hb by lia; exact Hh|exact Ha]].
    intros i Hi. rewrite Hb, Hot by lia. destruct (decide (i < length acc)%nat); [apply Hk; lia|]. rewrite decide_True by lia. rewrite lookup_ge_None_2 by lia. reflexivity.
  - intros i Hi. rewrite Hb, Hot by lia. rewrite decide_True by lia. reflexivity.
Qed.

Lemma concat_insert (cs : list (list byte)) j c v : cs !! j = Some c -> (length (concat (<[j := v]> cs)) + length c = length (concat cs) + length v)%nat.
Proof.
  intros H. rewrite <- (take_drop_middle cs j c H) at 2. rewrite insert_take_drop by (eapply lookup_lt_Some, H). rewrite !concat_app. cbn [concat]. rewrite !length_app. lia.
Qed.
Lemma concat_empty n : length (concat (replicate n ([] : list byte))) = 0%nat.
Proof. induction n; [reflexivity|exact IHn]. Qed.

(** The length of the columns after one change. *)
Lemma set_data cs c : (length (concat (set_column cs c)) + length (default [] (cs !! Z.to_nat (index c))) = length (concat cs) + length (value c))%nat.
Proof.
  set (j := Z.to_nat (index c)). set (k := (S j - length cs)%nat).
  assert (Hj : (cs ++ replicate k []) !! j = Some (default [] (cs !! j))).
  { destruct (decide (j < length cs)%nat) as [Hlt|Hge].
    - rewrite lookup_app_l by exact Hlt. destruct (lookup_lt_is_Some_2 cs j Hlt) as [x ->]. reflexivity.
    - rewrite lookup_app_r, (lookup_ge_None_2 cs) by lia. apply lookup_replicate_2. lia. }
  pose proof (concat_insert _ _ _ (value c) Hj) as H. rewrite concat_app, length_app, concat_empty in H. unfold set_column. fold j k. lia.
Qed.

(** ** The operations *)

Hypothesis Hosize : (0 < osize < 8)%nat.
Hypothesis Hallocate : forall n, length (allocate n) = n.

Lemma u64_add_l a b : u64 (u64 a + b) = u64 (a + b).
Proof. unfold u64. apply Zplus_mod_idemp_l. Qed.
Lemma u64_sub_l a b : u64 (u64 a - b) = u64 (a - b).
Proof. unfold u64. apply Zminus_mod_idemp_l. Qed.

Lemma image_length cs i c : fits cs -> cs !! i = Some c -> column_length (row_image cs) (Z.of_nat i) = Some (Z.of_nat (length c)).
Proof.
  intros Hf Hi. pose proof (lookup_lt_Some _ _ _ Hi) as Hlt. unfold column_length. rewrite (image_pos cs Hf) by lia. cbn [mbind option_bind].
  replace (Z.of_nat i + 1) with (Z.of_nat (S i)) by lia. rewrite (image_pos cs Hf) by lia. cbn [mbind option_bind]. fold (start_of cs i) (start_of cs (S i)).
  rewrite (start_S cs i c Hi). f_equal. rewrite Z.mod_small; [lia|]. pose proof (image_pos_range cs Hf (S i)) as H. fold (start_of cs (S i)) in H. rewrite (start_S cs i c Hi) in H. unfold start_of, header in H. lia.
Qed.

(** The first loop finds the number of columns and the size of the new row. *)
Lemma measure_ok cs ch : fits cs -> forall (col : nat) acc s0, in_order (Z.of_nat col) ch -> (length cs <= length acc)%nat -> (length acc = length cs \/ length acc = col)%nat ->
  (col <= length acc)%nat -> (forall i, (col <= i < length cs)%nat -> acc !! i = cs !! i) ->
  measure (row_image cs) (Z.of_nat (length cs)) ch (u64 (s0 + Z.of_nat (length (concat acc)))) (Z.of_nat (length acc)) =
    Some (u64 (s0 + Z.of_nat (length (concat (changed acc ch)))), Z.of_nat (length (changed acc ch))).
Proof.
  intros Hf. induction ch as [|c ch IH]; intros col acc s0 Ho Hl Hor Hc Hk; cbn [measure changed foldl in_order] in *; [reflexivity|].
  destruct Ho as [Ho Ho']. set (j := Z.to_nat (index c)) in *. assert (Ej : index c = Z.of_nat j) by lia. fold (changed (set_column acc c) ch). rewrite Ej in *.
  pose proof (length_set acc c) as Hls. pose proof (set_data acc c) as Hd. fold j in Hls, Hd. rewrite u64_add_l.
  assert (Ho2 : in_order (Z.of_nat (S j)) ch) by (replace (Z.of_nat (S j)) with (Z.of_nat j + 1) by lia; exact Ho').
  assert (Hk2 : forall i, (S j <= i < length cs)%nat -> set_column acc c !! i = cs !! i).
  { intros i Hi. rewrite set_other by lia. rewrite decide_True by lia. apply Hk. lia. }
  destruct (Z.ltb_spec (Z.of_nat j) (Z.of_nat (length cs))).
  - destruct (lookup_lt_is_Some_2 cs j ltac:(lia)) as [x Hx]. rewrite (image_length cs j x Hf Hx). cbn [mbind option_bind]. rewrite (Hk j) in Hd by lia. rewrite Hx in Hd. cbn [default] in Hd.
    rewrite u64_sub_l. replace (s0 + Z.of_nat (length (concat acc)) + Z.of_nat (length (value c)) - Z.of_nat (length x)) with (s0 + Z.of_nat (length (concat (set_column acc c)))) by (cbn in Hd; lia).
    replace (Z.of_nat (length acc)) with (Z.of_nat (length (set_column acc c))) by lia. apply (IH (S j)); try assumption; lia.
  - rewrite lookup_ge_None_2 in Hd by lia. cbn in Hd. replace (s0 + Z.of_nat (length (concat acc)) + Z.of_nat (length (value c))) with (s0 + Z.of_nat (length (concat (set_column acc c)))) by lia.
    replace (Z.of_nat j + 1) with (Z.of_nat (length (set_column acc c))) by lia. apply (IH (S j)); try assumption; lia.
Qed.

(** Columns of the same lengths lie at the same offsets. *)
Lemma offsets_same cs : forall cs' start, length <$> cs = length <$> cs' -> offsets start cs = offsets start cs'.
Proof. induction cs as [|c cs IH]; intros [|c' cs'] start H; try discriminate; [reflexivity|]. injection H as H1 H2. cbn [offsets]. rewrite H1, (IH cs') by exact H2. reflexivity. Qed.
Lemma slots_insert cs j c v : cs !! j = Some c -> length v = length c -> slots (<[j := v]> cs) = slots cs.
Proof.
  intros Hj Hv. unfold slots. rewrite length_insert. f_equal. apply offsets_same. rewrite list_fmap_insert. apply list_insert_id. rewrite list_lookup_fmap, Hj. cbn. congruence.
Qed.
Lemma image_overwrite cs j c v : cs !! j = Some c -> length v = length c -> write_at (row_image cs) (start_of cs j) v = Some (row_image (<[j := v]> cs)).
Proof.
  intros Hj Hv. unfold row_image. rewrite (slots_insert cs j c v Hj Hv). rewrite <- (take_drop_middle cs j c Hj) at 2. rewrite insert_take_drop by (eapply lookup_lt_Some, Hj).
  rewrite !concat_app. cbn [concat]. rewrite !app_assoc, <- (app_assoc _ c), <- (app_assoc _ v). apply write_here; [|congruence]. rewrite length_app, length_le_all, length_slots. unfold start_of, header. lia.
Qed.
Lemma image_whole cs : read_at (row_image cs) 0 (row_size cs) = Some (row_image cs).
Proof. pose proof (read_here [] (row_image cs) [] 0 (row_size cs) eq_refl (length_image cs)) as H. rewrite app_nil_r in H. exact H. Qed.
Lemma write_whole d bs : length d = length bs -> write_at d 0 bs = Some bs.
Proof. intros H. pose proof (write_here [] d [] 0 bs eq_refl H) as E. rewrite !app_nil_r in E. exact E. Qed.

(** The general way, for any change set. *)
Lemma general_ok cs ch ts new : fits cs -> in_order 0 ch -> Z.of_nat (length new) = row_size (changed cs ch) ->
  (new ← set_offset new 0 (Z.of_nat (length (changed cs ch)));
   '(new, sz) ← update_loop (row_image cs) (Z.of_nat (length cs)) (Z.of_nat (length (changed cs ch))) ch 0
                  (sizeof_bagdata + Z.of_nat (length (changed cs ch)) * Z.of_nat osize) new;
   new ← set_offset new (1 + Z.of_nat (length (changed cs ch))) sz;
   Some (mkRow ts new)) = Some (mkRow ts (row_image (changed cs ch))).
Proof.
  intros Hf Ho Hnew. set (ns := changed cs ch) in *. destruct (changed_agrees cs ch 0 cs Ho ltac:(lia) ltac:(lia)) as (Ha & Hl & _).
  { intros i Hi. destruct (lookup_lt_is_Some_2 cs i ltac:(lia)) as [x ->]. reflexivity. }
  fold ns in Ha, Hl. destruct (fill_slot ns new 0 0 (Z.of_nat (length ns)) (fill_start ns new Hnew) eq_refl) as (new1 & E1 & Hf1).
  change (Z.of_nat 0) with 0 in E1. rewrite E1. cbn [mbind option_bind].
  destruct (update_loop_ok cs ns ltac:(lia) Hf Hl ch 0 new1 Hf1 ltac:(lia) Ha) as (new2 & E2 & Hf2).
  replace (sizeof_bagdata + Z.of_nat (length ns) * Z.of_nat osize) with (start_of ns 0) by (unfold start_of, header, sizeof_bagdata; change (length (concat (take 0 ns))) with 0%nat; lia).
  change (Z.of_nat 0) with 0 in E2. rewrite E2. cbn [mbind option_bind].
  destruct (fill_slot ns new2 (S (length ns)) (length ns) (row_size ns) Hf2) as (new3 & E3 & Hf3); [rewrite slot_pos by lia; rewrite take_ge by lia; reflexivity|].
  replace (1 + Z.of_nat (length ns)) with (Z.of_nat (S (length ns))) by lia. rewrite E3. cbn [mbind option_bind].
  rewrite (fill_end ns new3); [reflexivity|]. replace (length ns + 2)%nat with (S (S (length ns))) by lia. exact Hf3.
Qed.

Lemma image_size cs ts : fits cs -> size (mkRow ts (row_image cs)) = Some (8 + row_size cs).
Proof.
  intros Hf. unfold size. cbn [d_]. rewrite (image_ncol cs Hf) by lia. cbn [mbind option_bind]. rewrite (image_pos cs Hf) by lia. cbn [mbind option_bind]. rewrite take_ge by lia. reflexivity.
Qed.
Lemma fits_u64 cs : fits cs -> is_u64 (8 + row_size cs).
Proof.
  unfold fits, row_size, header, is_u64. intros H. assert (256 ^ Z.of_nat osize <= 256 ^ 7) by (apply Z.pow_le_mono_r; lia). lia.
Qed.

(** The short way, for one change that keeps the length of its column. *)
Lemma fast_ok cs c ts new : fits cs -> 0 <= index c -> length (set_column cs c) = length cs -> row_size (set_column cs c) = row_size cs -> Z.of_nat (length new) = row_size cs ->
  (bs ← read_at (row_image cs) 0 (row_size cs);
   new ← write_at new 0 bs;
   p ← pos_ (row_image cs) (index c);
   new ← write_at new p (value c);
   Some (mkRow ts new)) = Some (mkRow ts (row_image (set_column cs c))).
Proof.
  intros Hf H0 Hl Hsz Hnew. set (j := Z.to_nat (index c)) in *. pose proof (length_set cs c) as Hls. fold j in Hls.
  destruct (lookup_lt_is_Some_2 cs j ltac:(lia)) as [x Hx]. pose proof (set_data cs c) as Hd. fold j in Hd. rewrite Hx in Hd. cbn in Hd.
  assert (Ens : set_column cs c = <[j := value c]> cs) by (unfold set_column; fold j; replace (S j - length cs)%nat with 0%nat by lia; cbn; rewrite app_nil_r; reflexivity).
  unfold row_size in Hsz. rewrite Hl in Hsz. assert (Hv : length (value c) = length x) by lia.
  rewrite image_whole. cbn [mbind option_bind]. rewrite write_whole by (pose proof (length_image cs); lia). cbn [mbind option_bind].
  replace (index c) with (Z.of_nat j) by lia. rewrite (image_pos cs Hf) by lia. cbn [mbind option_bind]. fold (start_of cs j). rewrite (image_overwrite cs j x (value c) Hx Hv). cbn [mbind option_bind]. rewrite Ens. reflexivity.
Qed.

Lemma row_update_ok cs ch ts0 ts : fits cs -> fits (changed cs ch) -> in_order 0 ch ->
  update (mkRow ts0 (row_image cs)) ch ts = Some (mkRow ts (row_image (changed cs ch))).
Proof.
  intros Hf Hf' Ho. unfold update. rewrite (image_size cs ts0 Hf). cbn [d_ mbind option_bind]. rewrite (image_ncol cs Hf) by lia. cbn [mbind option_bind].
  pose proof (fits_u64 cs Hf) as Hu. pose proof (fits_u64 _ Hf') as Hu'.
  pose proof (measure_ok cs ch Hf 0 cs (8 + header (length cs)) Ho ltac:(lia) ltac:(auto) ltac:(lia) ltac:(auto)) as Em.
  replace (8 + header (length cs) + Z.of_nat (length (concat cs))) with (8 + row_size cs) in Em by (unfold row_size; lia). rewrite u64_id in Em by exact Hu. rewrite Em. cbn [mbind option_bind].
  destruct (changed_agrees cs ch 0 cs Ho ltac:(lia) ltac:(lia)) as (_ & Hl & _); [intros i Hi; destruct (lookup_lt_is_Some_2 cs i ltac:(lia)) as [x ->]; reflexivity|].
  set (ns := changed cs ch) in *.
  assert (Esz : (if Z.of_nat (length cs) <? Z.of_nat (length ns) then u64 (u64 (8 + header (length cs) + Z.of_nat (length (concat ns))) + (Z.of_nat (length ns) - Z.of_nat (length cs)) * Z.of_nat osize)
    else u64 (8 + header (length cs) + Z.of_nat (length (concat ns)))) = 8 + row_size ns).
  { rewrite u64_add_l. rewrite <- (u64_id (8 + row_size ns)) by exact Hu'. unfold row_size, header. destruct (Z.ltb_spec (Z.of_nat (length cs)) (Z.of_nat (length ns))); f_equal; [lia|].
    replace (length cs) with (length ns) by lia. lia. }
  rewrite Esz. set (new := allocate _).
  assert (Hnew : Z.of_nat (length new) = row_size ns) by (unfold new; rewrite Hallocate; unfold row_size, header, is_u64 in *; lia).
  pose proof (general_ok cs ch ts new Hf Ho Hnew) as Hgen. fold ns in Hgen. destruct ch as [|c ch']; [exact Hgen|].
  destruct (_ && _ && _ && _) eqn:Efast; [|exact Hgen]. rewrite !andb_true_iff in Efast. destruct Efast as [[[E1 E2] E3] _].
  apply Z.eqb_eq in E1, E2. unfold single_index in E3. apply Nat.eqb_eq in E3. destruct ch' as [|]; [|discriminate]. destruct Ho as [Ho _].
  assert (Ers : row_size ns = row_size cs) by lia. replace (8 + row_size ns - 8) with (row_size cs) by lia.
  change ns with (set_column cs c) in *. apply fast_ok; [exact Hf|exact Ho|lia|exact Ers|congruence].
Qed.

(** A row is read column by column, what it does not have is empty. *)
Lemma col_ok cs ts i : fits cs -> 0 <= i -> col (mkRow ts (row_image cs)) i = Some (default [] (cs !! Z.to_nat i)).
Proof.
  intros Hf Hi. unfold col. cbn [d_]. rewrite (image_ncol cs Hf) by lia. cbn [mbind option_bind]. destruct (Z.leb_spec 0 i); [|lia]. cbn [andb].
  destruct (Z.ltb_spec i (Z.of_nat (length cs))); [|rewrite lookup_ge_None_2 by lia; reflexivity].
  set (j := Z.to_nat i). replace i with (Z.of_nat j) by lia. destruct (lookup_lt_is_Some_2 cs j ltac:(lia)) as [c Hc]. rewrite Hc. cbn [default].
  rewrite (image_pos cs Hf) by lia. cbn [mbind option_bind]. rewrite (image_length cs j c Hf Hc). cbn [mbind option_bind].
  pose proof (image_columns cs j 1 ltac:(lia)) as H1. rewrite (drop_S _ _ _ Hc) in H1. cbn [take concat] in H1. rewrite app_nil_r in H1. exact H1.
Qed.

Lemma empty_image : value_bag = mkRow 0 (row_image []).
Proof. unfold value_bag, row_image, slots, le_all, sizeof_bagdata, header. cbn [length offsets fmap list_fmap concat]. rewrite !app_nil_r. do 3 f_equal. lia. Qed.

Lemma create1_ok str ts : fits [str] -> create1 str ts = Some (mkRow ts (row_image [str])).
Proof.
  intros Hf. unfold create1. set (p0 := sizeof_bagdata + Z.of_nat osize). set (new := allocate _).
  assert (Ep : p0 = start_of [str] 0) by (unfold p0, start_of, header, sizeof_bagdata; cbn; lia).
  assert (Ep1 : p0 + Z.of_nat (length str) = start_of [str] 1) by (rewrite (start_S [str] 0 str eq_refl); lia).
  assert (Hnew : Z.of_nat (length new) = row_size [str]).
  { unfold new. rewrite Hallocate. unfold row_size, header. cbn [length concat]. rewrite app_nil_r. unfold p0, sizeof_bagdata. lia. }
  destruct (fill_slot [str] new 0 0 1 (fill_start [str] new Hnew) eq_refl) as (new1 & E1 & Hf1). change (Z.of_nat 0) with 0 in E1. rewrite E1. cbn [mbind option_bind].
  destruct (fill_slot [str] new1 1 0 p0 Hf1) as (new2 & E2 & Hf2); [rewrite Ep; apply (slot_pos [str] 0); cbn; lia|]. change (Z.of_nat 1) with 1 in E2. rewrite E2. cbn [mbind option_bind].
  rewrite Ep1. destruct (fill_slot [str] new2 2 0 (start_of [str] 1) Hf2) as (new3 & E3 & Hf3); [apply (slot_pos [str] 1); cbn; lia|]. change (Z.of_nat 2) with 2 in E3. rewrite E3. cbn [mbind option_bind].
  assert (Epos : pos_ new3 0 = Some (start_of [str] 0)).
  { destruct Hf3 as (j1 & j2 & -> & _). apply (offset_slot _ _ 1 (start_of [str] 0)); [apply (slot_pos [str] 0); cbn; lia|]. exact (image_pos_range [str] Hf 0). }
  rewrite Epos. cbn [mbind option_bind]. destruct (fill_column [str] new3 3 0 str Hf3 eq_refl) as (new4 & E4 & Hf4). fold (start_of [str] 0) in E4. cbn [length] in E4. rewrite E4. cbn [mbind option_bind].
  rewrite (fill_end [str] new4 Hf4). reflexivity.
Qed.

(** What a checkpoint holds of a row. *)
Lemma row_string_ok cs ts : fits cs -> row_string (mkRow ts (row_image cs)) = Some (row_image cs).
Proof.
  intros Hf. unfold row_string. cbn [d_]. rewrite (image_ncol cs Hf) by lia. cbn [mbind option_bind]. rewrite (image_pos cs Hf) by lia. cbn [mbind option_bind].
  rewrite take_ge by lia. apply image_whole.
Qed.
Lemma checkpoint_read_ok d ts : checkpoint_read d ts = Some (mkRow ts d).
Proof. unfold checkpoint_read. rewrite write_whole by apply Hallocate. reflexivity. Qed.
End Bag.

(** ** What a row holds after a change set *)

(** The bytes of column [i]: those of its change, or the old ones. *)
Definition new_column (cs : list (list byte)) (ch : list change) (i : Z) : list byte :=
  match list_find (fun c => index c = i) ch with Some (_, c) => value c | None => default [] (cs !! Z.to_nat i) end.

Lemma in_order_above ch : forall lo c, in_order lo ch -> c ∈ ch -> lo <= index c.
Proof.
  induction ch as [|x ch IH]; intros lo c Ho Hc; [inversion Hc|]. destruct Ho as [Hx Ho]. apply elem_of_cons in Hc as [->|Hc]; [exact Hx|]. specialize (IH _ _ Ho Hc). lia.
Qed.
Lemma sorted_in_order c : forall lo, sorted_cells c = true -> (forall x, head c = Some x -> lo <= index x) -> in_order lo c.
Proof.
  induction c as [|a c IH]; intros lo Hs Hh; cbn [in_order]; [exact I|]. split; [apply Hh; reflexivity|]. destruct c as [|b c]; [exact I|].
  cbn [sorted_cells] in Hs. apply andb_true_iff in Hs as [Hab Hs]. apply Z.ltb_lt in Hab. apply IH; [exact Hs|]. intros x [= <-]. lia.
Qed.

Lemma set_default cs c i : 0 <= index c -> 0 <= i -> default [] (set_column cs c !! Z.to_nat i) = if decide (index c = i) then value c else default [] (cs !! Z.to_nat i).
Proof.
  intros Hc Hi. destruct (decide (index c = i)) as [<-|Hne]; [rewrite set_here; reflexivity|]. rewrite set_other by lia.
  destruct (decide (Z.to_nat i < length cs)%nat) as [|Hge]; [reflexivity|]. rewrite (lookup_ge_None_2 cs) by lia. destruct (decide _); reflexivity.
Qed.
Lemma changed_column ch i : 0 <= i -> forall cs lo, 0 <= lo -> in_order lo ch -> default [] (changed cs ch !! Z.to_nat i) = new_column cs ch i.
Proof.
  intros Hi. unfold new_column. induction ch as [|c ch IH]; intros cs lo Hlo Ho; [reflexivity|]. destruct Ho as [Hc Ho]. cbn [changed foldl list_find]. fold (changed (set_column cs c) ch).
  rewrite (IH (set_column cs c) (index c + 1) ltac:(lia) Ho). destruct (decide (index c = i)) as [E|E].
  - replace (list_find (fun x => index x = i) ch) with (None : option (nat * change)); [rewrite set_default, decide_True by lia; reflexivity|].
    symmetry. apply list_find_None, Forall_forall. intros x Hx Ex. pose proof (in_order_above ch _ x Ho Hx). lia.
  - destruct (list_find (fun x => index x = i) ch) as [[k x]|]; [reflexivity|]. cbn. rewrite set_default, decide_False by lia. reflexivity.
Qed.
Lemma length_changed ch : forall cs lo, 0 <= lo -> in_order lo ch -> Z.of_nat (length (changed cs ch)) = Z.max (Z.of_nat (length cs)) (last_index ch + 1).
Proof.
  unfold last_index. induction ch as [|c ch IH]; intros cs lo Hlo Ho; [cbn; lia|]. destruct Ho as [Hc Ho]. cbn [changed foldl]. fold (changed (set_column cs c) ch).
  rewrite (IH _ (index c + 1) ltac:(lia) Ho), length_set. destruct ch as [|d ch]; [cbn; lia|]. rewrite last_cons_cons. destruct (last (d :: ch)) as [x|] eqn:El; [|apply last_None in El; discriminate].
  pose proof (in_order_above _ _ x Ho (list_elem_of_lookup_2 _ _ _ (eq_trans (eq_sym (last_lookup _)) El))). lia.
Qed.

(** C28: update makes the row it should.  For every change set with increasing
    indices, as long as old and new row fit their offset type, update stays inside
    of the old row and of the memory it has asked for, on the short way for one
    column that keeps its length and on the general one.  The new row has the new
    timestamp and the columns up to the last change; each column is that of its
    change if it has one, else what the old row had, columns in between are empty.
    What a checkpoint writes of it is read back as the same row. *)
Theorem row_update (osize : nat) (allocate : nat -> list byte) (cs : list (list byte)) (ch : list change) (ts0 ts : Z) :
  (0 < osize < 8)%nat -> (forall n, length (allocate n) = n) -> fits osize cs -> fits osize (changed cs ch) -> in_order 0 ch ->
  exists r, update osize allocate (mkRow ts0 (row_image osize cs)) ch ts = Some r /\ ts_ r = ts /\
    ncol_ osize (d_ r) = Some (Z.max (Z.of_nat (length cs)) (last_index ch + 1)) /\
    (forall i, 0 <= i -> col osize r i = Some (new_column cs ch i)) /\
    (s ← row_string osize r; checkpoint_read allocate s ts) = Some r.
Proof.
  intros Ho Ha Hf Hf' Hch. exists (mkRow ts (row_image osize (changed cs ch))). split; [apply row_update_ok; assumption|]. split; [reflexivity|]. cbn [d_].
  split; [rewrite image_ncol by (assumption || lia); f_equal; exact (length_changed ch cs 0 ltac:(lia) Hch)|].
  split; [intros i Hi; rewrite col_ok by assumption; f_equal; exact (changed_column ch i Hi cs 0 ltac:(lia) Hch)|].
  rewrite row_string_ok by assumption. cbn [mbind option_bind]. apply checkpoint_read_ok, Ha.
Qed.

Definition example_memory (n : nat) : list byte := replicate n x00.
Definition example_columns : list (list byte) := [[x61; x62; x63]; []; [x64]].
Lemma row_update_witness :
  exists r, update 2 example_memory (mkRow 4 (row_image 2 example_columns)) [mkChange 1 [x78]; mkChange 4 [x79; x7a]] 6 = Some r /\
    col 2 r 0 = Some [x61; x62; x63] /\ col 2 r 1 = Some [x78] /\ col 2 r 2 = Some [x64] /\ col 2 r 3 = Some [] /\ col 2 r 4 = Some [x79; x7a].
Proof.
  destruct (row_update 2 example_memory example_columns [mkChange 1 [x78]; mkChange 4 [x79; x7a]] 4 6) as (r & E & _ & _ & Hc & _);
    [lia|intros n; apply length_replicate|vm_compute; reflexivity|vm_compute; reflexivity|cbn; lia|].
  exists r. split; [exact E|]. rewrite !Hc by lia. repeat (split; [reflexivity|]). reflexivity.
Defined.

(** Indices that do not increase, as a request may hold them, make update write past
    the end of the new row. *)
Example unsorted_update : update 2 example_memory (mkRow 4 (row_image 2 example_columns)) [mkChange 2 [x78]; mkChange 0 [x79]] 6 = None.
Proof. vm_compute. reflexivity. Qed.
Example unsorted_request : (s ← serial_changeset (written (mkChange 2 [x78]) ++ written (mkChange 0 [x79])); changes s) = Some [mkChange 2 [x78]; mkChange 0 [x79]].
Proof. vm_compute. reflexivity. Qed.

End bag.
