(* ===== verification/LeafLink.v ===== *)
(** * The linked list of leaves (src/masstree/btree_leaflink.hh)

    Leaves of one layer form a doubly linked list that readers walk without
    locks.  A writer first takes a "next" pointer by marking its low bit; the
    functions are translated as the sequences of memory writes they perform, so
    that the theorems speak about what a reader can see between any two writes. *)

From S2P Require Import Prelude.

Open Scope nat_scope.

Module leaflink.

(** A "next" pointer: its target and its mark bit. *)
Definition link : Type := option nat * bool.
Record lnode := mk { next_ : link; prev_ : option nat }.
Abbreviation heap := (gmap nat lnode).

Definition mark (p : option nat) : link := (p, true).
Definition is_marked (p : link) : bool := p.2.
(** leaf::safe_next (masstree_struct.hh). *)
Definition safe_next (n : lnode) : option nat := (next_ n).1.

Definition set_next (v : link) (n : lnode) : lnode := mk v (prev_ n).
Definition set_prev (v : option nat) (n : lnode) : lnode := mk (next_ n) v.

(** The successive states of memory, the latest first. *)
Abbreviation trace := (list heap).
Definition write (x : nat) (f : lnode -> lnode) (t : trace) : option trace :=
  h ← head t; nd ← h !! x; Some (<[x := f nd]> h :: t).
Definition write_opt (x : option nat) (f : lnode -> lnode) (t : trace) : option trace :=
  match x with Some x => write x f t | None => Some t end.
Definition read (x : nat) (t : trace) : option lnode := h ← head t; h !! x.

(** One turn of [lock_next]; [None] if the pointer is marked: the loop spins. *)
Definition lock_next (n : nat) (t : trace) : option (option nat * trace) :=
  nd ← read n t;
  let next := next_ nd in
  match next.1 with
  | None => Some (None, t)
  | Some _ => if is_marked next then None else t' ← write n (set_next (mark next.1)) t; Some (next.1, t')
  end.

Definition link_split (n nr : nat) (t : trace) : option trace :=
  t ← write nr (set_prev (Some n)) t;
  '(next, t) ← lock_next n t;
  t ← write nr (set_next (next, false)) t;
  t ← write_opt next (set_prev (Some nr)) t;
  write n (set_next (Some nr, false)) t.

(** [None] where the compare-and-exchange on the predecessor keeps failing. *)
Definition unlink (n : nat) (t : trace) : option trace :=
  '(next, t) ← lock_next n t;
  nd ← read n t;
  prev ← prev_ nd;
  pd ← read prev t;
  t ← (if bool_decide (next_ pd = (Some n, false)) then write prev (set_next (mark (Some n))) t else None);
  t ← write_opt next (set_prev (Some prev)) t;
  write prev (set_next (next, false)) t.

(** btree_leaflink<N, false>. *)
Definition st_link_split (n nr : nat) (t : trace) : option trace :=
  t ← write nr (set_prev (Some n)) t;
  nd ← read n t;
  t ← write nr (set_next (next_ nd)) t;
  t ← write n (set_next (Some nr, false)) t;
  nrd ← read nr t;
  write_opt (next_ nrd).1 (set_prev (Some nr)) t.

Definition st_unlink (n : nat) (t : trace) : option trace :=
  nd ← read n t;
  t ← write_opt (next_ nd).1 (set_prev (prev_ nd)) t;
  prev ← prev_ nd;
  write prev (set_next (next_ nd)) t.

(** ** Lists in memory *)

(** What a reader walking forward from the first leaf of [l] meets. *)
Fixpoint chain (h : heap) (l : list nat) (nxt : option nat) : Prop :=
  match l with
  | [] => True
  | x :: l' => (exists nd, h !! x = Some nd /\ safe_next nd = default nxt (Some <$> head l')) /\ chain h l' nxt
  end.

(** A well-formed segment at rest: no marks, both links right. *)
Fixpoint seg (h : heap) (prv : option nat) (l : list nat) (nxt : option nat) : Prop :=
  match l with
  | [] => True
  | x :: l' => h !! x = Some (mk (default nxt (Some <$> head l'), false) prv) /\ seg h (Some x) l' nxt
  end.

Lemma chain_insert h l nxt x nd : x ∉ l -> chain h l nxt -> chain (<[x := nd]> h) l nxt.
Proof.
  revert nxt. induction l as [|y l IH]; intros nxt Hx; [done|]. intros [(ny & Hy & Hn) Hl].
  apply not_elem_of_cons in Hx as [Hne Hx]. split; [|apply IH; assumption].
  exists ny. rewrite lookup_insert_ne by congruence. auto.
Qed.
Lemma seg_insert h p l nxt x nd : x ∉ l -> seg h p l nxt -> seg (<[x := nd]> h) p l nxt.
Proof.
  revert p. induction l as [|y l IH]; intros p Hx; [done|]. intros [Hy Hl].
  apply not_elem_of_cons in Hx as [Hne Hx]. split; [|apply IH; assumption].
  rewrite lookup_insert_ne by congruence. exact Hy.
Qed.
Lemma seg_chain h p l nxt : seg h p l nxt -> chain h l nxt.
Proof. revert p. induction l as [|x l IH]; intros p; [done|]. intros [Hx Hl]. split; [eauto|eapply IH, Hl]. Qed.

Lemma head_app (l1 : list nat) x l2 nxt :
  default (Some x) (Some <$> head l1) = default nxt (Some <$> head (l1 ++ x :: l2)).
Proof. destruct l1; reflexivity. Qed.

Lemma seg_app h p l1 x l2 nxt :
  seg h p (l1 ++ x :: l2) nxt <-> seg h p l1 (Some x) /\ seg h (default p (Some <$> last l1)) (x :: l2) nxt.
Proof.
  revert p. induction l1 as [|y l1 IH]; intros p.
  - simpl. tauto.
  - cbn [app seg]. rewrite IH, <- (head_app l1 x l2 nxt). cbn [seg].
    replace (default (Some y) (Some <$> last l1)) with (default p (Some <$> last (y :: l1))); [tauto|].
    rewrite last_cons. destruct (last l1); reflexivity.
Qed.
Lemma chain_app h l1 x l2 nxt : chain h (l1 ++ x :: l2) nxt <-> chain h l1 (Some x) /\ chain h (x :: l2) nxt.
Proof.
  induction l1 as [|y l1 IH]; [simpl; tauto|]. cbn [app chain]. rewrite IH, <- (head_app l1 x l2 nxt). cbn [chain]. tauto.
Qed.

(** Only the first leaf has no predecessor. *)
Lemma seg_prev h p l nxt x : seg h p l nxt -> x ∈ l -> exists nd, h !! x = Some nd /\ (prev_ nd = p \/ exists y, prev_ nd = Some y /\ y ∈ l).
Proof.
  revert p. induction l as [|z l IH]; intros p; [intros _ H; set_solver|]. intros [Hz Hl] Hx. apply elem_of_cons in Hx as [->|Hx].
  - eexists. split; [exact Hz|]. left. reflexivity.
  - destruct (IH _ Hl Hx) as (nd & E & [H|(y & H & Hy)]); exists nd; (split; [exact E|]); right; [exists z|exists y]; (split; [exact H|]); set_solver.
Qed.
Lemma seg_head h l nxt x : seg h None l nxt -> NoDup l -> x ∈ l -> exists nd, h !! x = Some nd /\ (prev_ nd = None <-> head l = Some x).
Proof.
  intros Hs Hnd Hx. destruct l as [|z l]; [set_solver|]. destruct Hs as [Hz Hl]. apply NoDup_cons in Hnd as [Hzl _]. apply elem_of_cons in Hx as [->|Hx].
  - eexists. split; [exact Hz|]. split; reflexivity.
  - destruct (seg_prev _ _ _ _ _ Hl Hx) as (nd & E & H). exists nd. split; [exact E|]. cbn. split; [|intros [= ->]; contradiction].
    intros H0. destruct H as [H|(y & H & _)]; congruence.
Qed.
Lemma seg_same h h' p l nxt : (forall x, x ∈ l -> h' !! x = h !! x) -> seg h p l nxt -> seg h' p l nxt.
Proof.
  revert p. induction l as [|x l IH]; intros p H; [done|]. intros [Hx Hl]. split; [rewrite H by set_solver; exact Hx|].
  apply IH; [|exact Hl]. intros y Hy. apply H. set_solver.
Qed.

(** A write that keeps the target of the next pointer is invisible to a walk. *)
Lemma chain_same h l nxt x nd nd' :
  h !! x = Some nd -> safe_next nd' = safe_next nd -> chain h l nxt -> chain (<[x := nd']> h) l nxt.
Proof.
  intros Hx Hs. induction l as [|y l IH]; [done|]. intros [(ny & Hy & Hn) Hl]. split; [|apply IH, Hl].
  destruct (decide (x = y)) as [<-|Hne].
  - exists nd'. rewrite lookup_insert_eq. split; [reflexivity|]. congruence.
  - exists ny. rewrite lookup_insert_ne by exact Hne. auto.
Qed.

Lemma write_some x f h t nd : h !! x = Some nd -> write x f (h :: t) = Some (<[x := f nd]> h :: h :: t).
Proof. intros H. unfold write. simpl. rewrite H. reflexivity. Qed.
Lemma read_some x h t nd : h !! x = Some nd -> read x (h :: t) = Some nd.
Proof. intros H. exact H. Qed.

Ltac lk := repeat first [rewrite lookup_insert_eq | rewrite lookup_insert_ne by congruence].

Lemma seg_link_split h l1 n l2 nr nd0 :
  seg h None (l1 ++ n :: l2) None -> NoDup (nr :: l1 ++ n :: l2) -> h !! nr = Some nd0 ->
  exists h' t, link_split n nr [h] = Some (h' :: t) /\ seg h' None (l1 ++ n :: nr :: l2) None /\
    Forall (fun g => chain g (l1 ++ n :: l2) None) t /\
    (exists t', st_link_split n nr [h] = Some (h' :: t')) /\
    (forall x, x <> nr -> x ∉ n :: l2 -> h' !! x = h !! x).
Proof.
  intros Hseg Hnd Hnr. pose proof (seg_chain _ _ _ _ Hseg) as Hch.
  apply seg_app in Hseg as [H1 [Hn H2]]. apply NoDup_cons in Hnd as [Hnin Hnd].
  assert (Hnn : nr <> n) by (intros ->; set_solver). assert (Hn1 : nr ∉ l1) by set_solver.
  assert (Hn2 : nr ∉ l2) by set_solver.
  apply NoDup_app in Hnd as (_ & Hd & Hnd2). apply NoDup_cons in Hnd2 as [Hnl2 Hnd2].
  assert (Hnl1 : n ∉ l1) by (intros H; apply (Hd n H); set_solver).
  set (pn := default None (Some <$> last l1)) in *.
  destruct l2 as [|m l3]; cbn in Hn.
  - unfold link_split, st_link_split. erewrite write_some by exact Hnr. cbn [mbind option_bind].
    unfold lock_next. erewrite !read_some by (rewrite lookup_insert_ne by exact Hnn; exact Hn).
    cbn [mbind option_bind next_ fst snd]. erewrite write_some by apply lookup_insert_eq. cbn [mbind option_bind write_opt].
    erewrite write_some by (rewrite !lookup_insert_ne by exact Hnn; exact Hn).
    eexists _, _. split; [reflexivity|]. split; [|split; [|split]]; [| | |intros x Hx Hxl; rewrite !lookup_insert_ne by set_solver; reflexivity].
    + apply seg_app. split; [repeat apply seg_insert; assumption|]. cbn [seg]. rewrite lookup_insert_eq.
      split; [reflexivity|]. split; [|exact I]. rewrite lookup_insert_ne, lookup_insert_eq by congruence. reflexivity.
    + repeat apply Forall_cons_2; [| |exact Hch|constructor]; rewrite ?insert_insert_eq;
        (apply chain_insert; [set_solver|exact Hch]).
    + cbn [mbind option_bind]. erewrite read_some by (rewrite lookup_insert_ne, lookup_insert_eq by congruence; reflexivity). eexists. reflexivity.
  - assert (Hnm : n <> m) by set_solver. assert (Hrm : nr <> m) by set_solver.
    assert (Hm1 : m ∉ l1) by (intros H; apply (Hd m H); set_solver).
    destruct H2 as [Hm H3]. unfold link_split, st_link_split. erewrite write_some by exact Hnr. cbn [mbind option_bind].
    unfold lock_next. erewrite !read_some by (rewrite lookup_insert_ne by exact Hnn; exact Hn).
    cbn [mbind option_bind next_ fst snd is_marked].
    erewrite write_some by (rewrite lookup_insert_ne by exact Hnn; exact Hn). cbn [mbind option_bind write_opt].
    erewrite write_some by (rewrite lookup_insert_ne, lookup_insert_eq by congruence; reflexivity). cbn [mbind option_bind].
    erewrite write_some by (rewrite !lookup_insert_ne by congruence; exact Hm). cbn [mbind option_bind].
    erewrite write_some by (rewrite !lookup_insert_ne, lookup_insert_eq by congruence; reflexivity).
    eexists _, _. split; [reflexivity|]. split; [|split; [|split]]; [| | |intros x Hx Hxl; rewrite !lookup_insert_ne by set_solver; reflexivity].
    + apply seg_app. split; [repeat apply seg_insert; assumption|]. cbn [seg].
      split; [lk; reflexivity|]. split; [lk; reflexivity|]. split; [lk; reflexivity|].
      apply NoDup_cons in Hnd2 as [Hml3 _]. repeat apply seg_insert; set_solver.
    + assert (Hc1 : chain (<[nr:=set_prev (Some n) nd0]> h) (l1 ++ n :: m :: l3) None)
        by (apply chain_insert; [set_solver|exact Hch]).
      assert (Hc2 : chain (<[n:=set_next (mark (Some m)) (mk (Some m, false) pn)]> (<[nr:=set_prev (Some n) nd0]> h))
                      (l1 ++ n :: m :: l3) None).
      { eapply chain_same; [rewrite lookup_insert_ne by exact Hnn; exact Hn|reflexivity|exact Hc1]. }
      assert (Hc3 : chain (<[nr:=set_next (Some m, false) (set_prev (Some n) nd0)]>
                      (<[n:=set_next (mark (Some m)) (mk (Some m, false) pn)]> (<[nr:=set_prev (Some n) nd0]> h)))
                      (l1 ++ n :: m :: l3) None) by (apply chain_insert; [set_solver|exact Hc2]).
      repeat apply Forall_cons_2; [|exact Hc3|exact Hc2|exact Hc1|exact Hch|constructor].
      eapply chain_same; [rewrite !lookup_insert_ne by congruence; exact Hm|reflexivity|exact Hc3].
    + erewrite write_some by apply lookup_insert_eq. cbn [mbind option_bind].
      erewrite write_some by (rewrite !lookup_insert_ne by congruence; exact Hn). cbn [mbind option_bind].
      erewrite read_some by (rewrite lookup_insert_ne, lookup_insert_eq by congruence; reflexivity).
      cbn [mbind option_bind write_opt next_ fst set_next].
      erewrite write_some by (rewrite !lookup_insert_ne by congruence; exact Hm). eexists. do 2 f_equal.
      apply map_eq. intros k. destruct (decide (k = n)) as [->|]; [|destruct (decide (k = m)) as [->|];
        [|destruct (decide (k = nr)) as [->|]]]; lk; reflexivity.
Qed.

(** [n] locked: its next pointer is marked while its neighbours change. *)
Lemma seg_unlink h l1 a n l2 :
  seg h None (l1 ++ a :: n :: l2) None -> NoDup (l1 ++ a :: n :: l2) ->
  exists h' t, unlink n [h] = Some (h' :: t) /\ seg h' None (l1 ++ a :: l2) None /\
    Forall (fun g => chain g (l1 ++ a :: n :: l2) None) t /\ chain h' (n :: l2) None /\
    exists h'' t', st_unlink n [h] = Some (h'' :: t') /\ seg h'' None (l1 ++ a :: l2) None /\ delete n h'' = delete n h'.
Proof.
  intros Hseg Hnd. pose proof (seg_chain _ _ _ _ Hseg) as Hch.
  apply seg_app in Hseg as [H1 [Ha [Hn H2]]].
  apply NoDup_app in Hnd as (_ & Hd & Hnd2). apply NoDup_cons in Hnd2 as [Hal Hnd2]. apply NoDup_cons in Hnd2 as [Hnl Hnd2].
  assert (Han : a <> n) by set_solver. assert (Ha1 : a ∉ l1) by (intros H; apply (Hd a H); set_solver).
  assert (Hn1 : n ∉ l1) by (intros H; apply (Hd n H); set_solver).
  assert (Ha2 : a ∉ l2) by set_solver.
  set (pa := default None (Some <$> last l1)) in *.
  destruct l2 as [|m l3]; cbn in Hn, Ha; unfold unlink, st_unlink, lock_next.
  - erewrite !read_some by exact Hn. cbn [mbind option_bind next_ fst snd prev_]. erewrite !read_some by exact Hn.
    cbn [mbind option_bind prev_ write_opt]. erewrite read_some by exact Ha. cbn [mbind option_bind next_ set_next prev_].
    rewrite bool_decide_true by reflexivity. erewrite !write_some by exact Ha. cbn [mbind option_bind].
    erewrite write_some by apply lookup_insert_eq.
    eexists _, _. split; [reflexivity|]. split; [|split; [|split]].
    + apply seg_app. split; [repeat apply seg_insert; assumption|]. cbn [seg]. lk. split; [reflexivity|exact I].
    + repeat apply Forall_cons_2; [|exact Hch|constructor]. eapply chain_same; [exact Ha|reflexivity|exact Hch].
    + repeat (apply chain_insert; [set_solver|]). cbn [chain]. eauto.
    + eexists _, _. split; [reflexivity|]. rewrite insert_insert_eq. split; [|reflexivity].
      apply seg_app. split; [repeat apply seg_insert; assumption|]. cbn [seg]. lk. split; [reflexivity|exact I].
  - assert (Hnm : n <> m) by set_solver. assert (Ham : a <> m) by set_solver. destruct H2 as [Hm H3].
    assert (Hm1 : m ∉ l1) by (intros H; apply (Hd m H); set_solver). apply NoDup_cons in Hnd2 as [Hml3 _].
    erewrite !read_some by exact Hn. cbn [mbind option_bind next_ fst snd prev_ is_marked].
    erewrite write_some by exact Hn. cbn [mbind option_bind]. erewrite read_some by apply lookup_insert_eq.
    cbn [mbind option_bind prev_ set_next write_opt]. erewrite read_some by (lk; exact Ha). cbn [mbind option_bind next_].
    rewrite bool_decide_true by reflexivity. erewrite write_some by (lk; exact Ha). cbn [mbind option_bind].
    erewrite write_some by (lk; exact Hm). cbn [mbind option_bind].
    erewrite write_some by (lk; reflexivity).
    erewrite (write_some m) by exact Hm. cbn [mbind option_bind]. erewrite (write_some a) by (lk; exact Ha).
    eexists _, _. split; [reflexivity|]. split; [|split; [|split]].
    + apply seg_app. split; [repeat apply seg_insert; assumption|]. cbn [seg]. split; [lk; reflexivity|].
      split; [lk; reflexivity|]. repeat apply seg_insert; set_solver.
    + assert (Hc1 := chain_same _ _ _ _ _ (set_next (mark (Some m)) (mk (Some m, false) (Some a))) Hn eq_refl Hch).
      assert (Hc2 := chain_same _ _ _ a _ (set_next (mark (Some n)) (mk (Some n, false) pa))
                       (eq_trans (lookup_insert_ne _ _ _ _ (not_eq_sym Han)) Ha) eq_refl Hc1).
      repeat apply Forall_cons_2; [|exact Hc2|exact Hc1|exact Hch|constructor].
      eapply chain_same; [lk; exact Hm|reflexivity|exact Hc2].
    + eapply chain_insert; [set_solver|]. eapply chain_same; [lk; exact Hm|reflexivity|].
      apply chain_insert; [set_solver|]. eapply chain_same; [exact Hn|reflexivity|].
      apply chain_app with (l1 := l1 ++ [a]). rewrite <- app_assoc. exact Hch.
    + eexists _, _. split; [reflexivity|]. split.
      * apply seg_app. split; [repeat apply seg_insert; assumption|]. cbn [seg]. split; [lk; reflexivity|].
        split; [lk; reflexivity|]. repeat apply seg_insert; set_solver.
      * apply map_eq. intros k. destruct (decide (k = n)) as [->|]; [rewrite !lookup_delete_eq; reflexivity|].
        rewrite !lookup_delete_ne by congruence.
        destruct (decide (k = a)) as [->|]; [|destruct (decide (k = m)) as [->|]]; lk; reflexivity.
Qed.

(** C38: On a well-formed list of leaves, [link_split n nr] ends with [nr]
    linked right after [n] (forward and backward, no mark left) and [unlink m]
    ends with [m] gone, both terminating without a retry when nothing
    interferes; in every state of memory in between, a reader that walks the
    next pointers still meets exactly the old leaves in order; a reader that
    stands on the unlinked leaf still finds the rest of the list; and the
    single-threaded versions build the same list. *)
Theorem leaf_list h l1 n l2 nr nd0 :
  seg h None (l1 ++ n :: l2) None -> NoDup (nr :: l1 ++ n :: l2) -> h !! nr = Some nd0 ->
  (exists h' t, link_split n nr [h] = Some (h' :: t) /\ seg h' None (l1 ++ n :: nr :: l2) None /\
    Forall (fun g => chain g (l1 ++ n :: l2) None) t /\
    exists t', st_link_split n nr [h] = Some (h' :: t')) /\
  (forall k1 a m k2, l1 ++ n :: l2 = k1 ++ a :: m :: k2 ->
   exists h' t, unlink m [h] = Some (h' :: t) /\ seg h' None (k1 ++ a :: k2) None /\
     Forall (fun g => chain g (l1 ++ n :: l2) None) t /\ chain h' (m :: k2) None /\
     exists h'' t', st_unlink m [h] = Some (h'' :: t') /\ seg h'' None (k1 ++ a :: k2) None /\ delete m h'' = delete m h').
Proof.
  intros Hs Hnd Hnr. split; [destruct (seg_link_split h l1 n l2 nr nd0 Hs Hnd Hnr) as (h' & t & H1 & H2 & H3 & H4 & _); exists h', t; auto|].
  intros k1 a m k2 E. rewrite E in *. apply seg_unlink; [exact Hs|].
  apply NoDup_cons in Hnd as [_ Hnd]. exact Hnd.
Qed.

(** Leaves 1, 2, 3 and a fresh leaf 4. *)
Definition example_heap : heap :=
  <[1 := mk (Some 2, false) None]> (<[2 := mk (Some 3, false) (Some 1)]>
  (<[3 := mk (None, false) (Some 2)]> (<[4 := mk (None, false) None]> ∅))).

Lemma leaf_list_witness :
  seg example_heap None ([1] ++ 2 :: [3]) None /\
  exists h' t, link_split 2 4 [example_heap] = Some (h' :: t) /\ seg h' None [1; 2; 4; 3] None.
Proof.
  assert (H : seg example_heap None ([1] ++ 2 :: [3]) None) by (repeat split; reflexivity).
  split; [exact H|].
  destruct (leaf_list example_heap [1] 2 [3] 4 (mk (None, false) None) H) as [(h' & t & Hs & Hseg & _) _].
  - apply (bool_decide_unpack _). vm_compute. exact I.
  - reflexivity.
  - exists h', t. split; [exact Hs|exact Hseg].
Defined.

(** Two unlinks of neighbours cannot both pass the exchange: once leaf 3 holds
    the mark on 2's pointer, an unlink of 2 spins in [lock_next]. *)
Example unlink_waits :
  unlink 2 [<[2 := mk (Some 3, true) (Some 1)]> example_heap] = None.
Proof. vm_compute. reflexivity. Qed.

End leaflink.
