(* ===== verification/Internode.v ===== *)
(** * Interior nodes and their splits (src/masstree/masstree_struct.hh, masstree_split.hh)

    An interior node holds [nkeys_] keys and one more child than keys in fixed
    arrays.  The operations are translated with their copies between arrays;
    [None] stands for an access out of bounds, a call through a null pointer or a
    failed precondition.  The theorem shows that the code that puts a new child
    under a parent, splitting it when it is full, is the insertion of a key and a
    child into two lists. *)

From S2P Require Import Prelude KSearch StringSlice NodeVersion.

Open Scope nat_scope.

Module internode.

(** ** Arrays *)
(** [memcpy] and [memmove] of [n] elements from [src + xp] to [dst + p]. *)
Definition blit {A} (dst : list A) (p : nat) (src : list A) (xp n : nat) : option (list A) :=
  if decide (p + n <= length dst /\ xp + n <= length src)
  then Some (take p dst ++ take n (drop xp src) ++ drop (p + n) dst) else None.

(** [for (a, b; n; --a, --b, --n) *a = *b] and its upward counterpart. *)
Fixpoint copy_down {A} (n a b : nat) (l : list A) : option (list A) :=
  match n with
  | O => Some l
  | S n' => v ← l !! b; l ← poke l a v; copy_down n' (a - 1) (b - 1) l
  end.
Fixpoint copy_up {A} (n a b : nat) (l : list A) : option (list A) :=
  match n with
  | O => Some l
  | S n' => v ← l !! b; l ← poke l a v; copy_up n' (S a) (S b) l
  end.

(** ** Nodes

    A node is known by its address; the parent pointers of all nodes are a map. *)
Abbreviation ptr := (option nat).
Abbreviation parents := (gmap nat ptr).

Definition set_parent (x p : ptr) (ps : parents) : option parents :=
  x ← x; _ ← ps !! x; Some (<[x := p]> ps).

Record internode := mk { v_ : Z; nkeys_ : nat; ikey0_ : list Z; child_ : list ptr }.

Definition set_v (v : Z) (n : internode) : internode := mk v (nkeys_ n) (ikey0_ n) (child_ n).
Definition set_nkeys (k : nat) (n : internode) : internode := mk (v_ n) k (ikey0_ n) (child_ n).

Section Internode.
(** P::internode_width, and the node version layout. *)
Context (width : nat) (nv : nodeversion_parameters).

Definition size (n : internode) : nat := nkeys_ n.

(** The arrays of a new node hold whatever the allocator returned. *)
Definition make (ikey0 : list Z) (child : list ptr) : internode := mk (new_nodeversion nv false) 0 ikey0 child.

Definition ikey (n : internode) (p : nat) : option Z := ikey0_ n !! p.

(** [self] is the address of the node. *)
Definition assign (self : nat) (n : internode) (p : nat) (ikey : Z) (child : ptr) (ps : parents) : option (internode * parents) :=
  ps ← set_parent child (Some self) ps;
  c ← poke (child_ n) (p + 1) child;
  k ← poke (ikey0_ n) p ikey;
  Some (mk (v_ n) (nkeys_ n) k c, ps).

Definition shift_from (n : internode) (p : nat) (x : internode) (xp cnt : nat) : option internode :=
  if decide (cnt = 0) then Some n
  else k ← blit (ikey0_ n) p (ikey0_ x) xp cnt;
       c ← blit (child_ n) (p + 1) (child_ x) (xp + 1) cnt;
       Some (mk (v_ n) (nkeys_ n) k c).

Definition shift_up (n : internode) (p xp cnt : nat) : option internode :=
  k ← blit (ikey0_ n) p (ikey0_ n) xp cnt;
  c ← copy_down cnt (p + cnt) (xp + cnt) (child_ n);
  Some (mk (v_ n) (nkeys_ n) k c).

Definition shift_down (n : internode) (p xp cnt : nat) : option internode :=
  k ← blit (ikey0_ n) p (ikey0_ n) xp cnt;
  c ← copy_up cnt (p + 1) (xp + 1) (child_ n);
  Some (mk (v_ n) (nkeys_ n) k c).

(** [child_[i]->set_parent(self)] for [cnt] children from [i] on. *)
Fixpoint set_parents (self : nat) (c : list ptr) (i cnt : nat) (ps : parents) : option parents :=
  match cnt with
  | O => Some ps
  | S cnt' => x ← c !! i; ps ← set_parent x (Some self) ps; set_parents self c (S i) cnt' ps
  end.

(** The two nodes, split_ikey, the position left to insert at ([None] for -1). *)
Definition internode_split (nl nr : internode) (nrp p : nat) (ka : Z) (value : ptr) (split_type : Z) (ps : parents)
  : option (internode * internode * Z * option nat * parents) :=
  if negb (locked nv (v_ nl) && locked nv (v_ nr)) then None else
  let mid := if (split_type =? 2)%Z then width else (width + 1) / 2 in
  let nr := set_nkeys (width + 1 - (mid + 1)) nr in
  let set_child0 (x : ptr) := c ← poke (child_ nr) 0 x; Some (mk (v_ nr) (nkeys_ nr) (ikey0_ nr) c) in
  '(nr, split_ikey, ps) ←
    (if decide (p < mid) then
       x ← child_ nl !! mid; nr ← set_child0 x;
       nr ← shift_from nr 0 nl mid (width - mid);
       s ← ikey0_ nl !! (mid - 1); Some (nr, s, ps)
     else if decide (p = mid) then
       nr ← set_child0 value;
       nr ← shift_from nr 0 nl mid (width - mid);
       Some (nr, ka, ps)
     else
       x ← child_ nl !! (mid + 1); nr ← set_child0 x;
       nr ← shift_from nr 0 nl (mid + 1) (p - (mid + 1));
       '(nr, ps) ← assign nrp nr (p - (mid + 1)) ka value ps;
       nr ← shift_from nr (p + 1 - (mid + 1)) nl p (width - p);
       s ← ikey0_ nl !! mid; Some (nr, s, ps));
  ps ← set_parents nrp (child_ nr) 0 (nkeys_ nr + 1) ps;
  v ← mark_split nv (v_ nl);
  let nl := set_v v nl in
  Some (if decide (p < mid) then (set_nkeys (mid - 1) nl, nr, split_ikey, Some p, ps)
        else (set_nkeys mid nl, nr, split_ikey, None, ps)).

(** key_compare of an ikey with a key of an internode (masstree_key.hh). *)
Definition key_compare (a : Z) (n : internode) (bp : Z) : Z := StringSlice.compare a (nth (Z.to_nat bp) (ikey0_ n) 0%Z).

(** internode_type::bound_type::upper. *)
Definition bound_upper (binary : bool) (a : Z) (n : internode) : option nat :=
  Z.to_nat <$> upper (Z.of_nat (size n)) (fun i => i) (key_compare a n) binary.

(** finish_split's work on the parent of the node that was split: its loop body
    from the search for [xikey] to the end of the insertion.  [fresh], at
    [freshp], is the node internode::make returns.  The parent, and the new
    sibling with the key that separates them if the parent was split. *)
Definition insert_into_parent (binary : bool) (pp : nat) (p : internode) (freshp : nat) (fresh : internode)
  (xikey : Z) (child : nat) (split_type : Z) (ps : parents)
  : option (internode * option (Z * internode) * parents) :=
  kp ← bound_upper binary xikey p;
  '(p, kp, next_child, ps) ←
    (if decide (size p < width) then
       v ← mark_insert nv (v_ p); Some (set_v v p, Some kp, None, ps)
     else
       let next_child := set_v (mark_nonroot nv (v_ p)) fresh in
       '(p, next_child, s, kp, ps) ← internode_split p next_child freshp kp xikey (Some child) split_type ps;
       Some (p, kp, Some (s, next_child), ps));
  match kp with
  | None => Some (p, next_child, ps)
  | Some kp =>
      p ← shift_up p (kp + 1) kp (size p - kp);
      '(p, ps) ← assign pp p kp xikey (Some child) ps;
      Some (set_nkeys (S (nkeys_ p)) p, next_child, ps)
  end.

(** finish_split's other branch: the node that was split had no parent.  [n] and
    [child] go under a new root. *)
Definition new_root (nnp : nat) (nn : internode) (n child : nat) (xikey : Z) (ps : parents)
  : option (internode * parents) :=
  c ← poke (child_ nn) 0 (Some n);
  '(nn, ps) ← assign nnp (mk (v_ nn) (nkeys_ nn) (ikey0_ nn) c) 0 xikey (Some child) ps;
  let nn := set_nkeys 1 nn in
  ps ← set_parent (Some nnp) None ps;
  let nn := set_v (mark_root nv (v_ nn)) nn in
  ps ← set_parent (Some n) (Some nnp) ps;
  Some (nn, ps).

End Internode.

(** ** Lists *)

(** Insertion at a position, the specification of it all. *)
Definition ins {A} (i : nat) (v : A) (l : list A) : list A := take i l ++ v :: drop i l.

Lemma length_ins {A} i (v : A) l : i <= length l -> length (ins i v l) = S (length l).
Proof. intros H. unfold ins. rewrite length_app, length_take. cbn [length]. rewrite length_drop. lia. Qed.

Lemma lookup_ins {A} i (v : A) l j : i <= length l ->
  ins i v l !! j = if decide (j < i) then l !! j else if decide (j = i) then Some v else l !! (j - 1).
Proof.
  intros H. unfold ins. rewrite lookup_app, lookup_take, length_take. replace (i `min` length l) with i by lia.
  destruct (decide (j < i)).
  - destruct (l !! j) as [x|] eqn:E; [reflexivity|]. apply lookup_ge_None in E. lia.
  - replace (match (None : option A) with Some x => Some x | None => (v :: drop i l) !! (j - i) end)
      with ((v :: drop i l) !! (j - i)) by reflexivity.
    destruct (decide (j = i)) as [->|]; [rewrite Nat.sub_diag; reflexivity|].
    rewrite lookup_cons_ne_0, lookup_drop by lia. f_equal. lia.
Qed.


Definition blitted {A} (dst : list A) (p : nat) (src : list A) (xp n : nat) : list A :=
  take p dst ++ take n (drop xp src) ++ drop (p + n) dst.
Lemma blit_in {A} (dst src : list A) p xp n :
  p + n <= length dst -> xp + n <= length src -> blit dst p src xp n = Some (blitted dst p src xp n).
Proof. intros. unfold blit. rewrite decide_True by lia. reflexivity. Qed.
Lemma length_blitted {A} (dst src : list A) p xp n :
  p + n <= length dst -> xp + n <= length src -> length (blitted dst p src xp n) = length dst.
Proof. intros. unfold blitted. rewrite !length_app, !length_take, !length_drop. lia. Qed.
Lemma lookup_blitted {A} (dst src : list A) p xp n j :
  p + n <= length dst -> xp + n <= length src ->
  blitted dst p src xp n !! j = if decide (p <= j < p + n) then src !! (xp + (j - p)) else dst !! j.
Proof.
  intros H1 H2. unfold blitted. destruct (decide (p <= j < p + n)).
  - rewrite lookup_app_r; rewrite length_take; [|lia]. rewrite lookup_app_l by (rewrite length_take, length_drop; lia).
    rewrite lookup_take_lt, lookup_drop by lia. f_equal. lia.
  - destruct (decide (j < p)).
    + rewrite lookup_app_l by (rewrite length_take; lia). apply lookup_take_lt. lia.
    + rewrite lookup_app_r; rewrite length_take; [|lia]. rewrite lookup_app_r; rewrite length_take, length_drop; [|lia].
      rewrite lookup_drop. f_equal. lia.
Qed.

(** The overlapping copy loops are memmove when they run away from the source. *)
Lemma copy_down_blit {A} (l : list A) n p xp : xp <= p -> p + n < length l ->
  copy_down n (p + n) (xp + n) l = blit l (p + 1) l (xp + 1) n.
Proof.
  intros Hp. revert l. induction n as [|n IH]; intros l Hl; rewrite blit_in by lia.
  - cbn. f_equal. apply list_eq. intros j. rewrite lookup_blitted by lia. rewrite decide_False by lia. reflexivity.
  - cbn [copy_down]. destruct (lookup_lt_is_Some_2 l (xp + S n) ltac:(lia)) as [v Hv]. rewrite Hv. cbn [mbind option_bind].
    rewrite poke_in by lia. cbn [mbind option_bind].
    replace (p + S n - 1) with (p + n) by lia. replace (xp + S n - 1) with (xp + n) by lia.
    rewrite IH by (rewrite length_insert; lia). rewrite blit_in by (rewrite length_insert; lia). f_equal.
    apply list_eq. intros j. rewrite !lookup_blitted by (rewrite ?length_insert; lia). rewrite !lookup_insert_if by lia.
    repeat case_decide; subst; try lia; try reflexivity. rewrite <- Hv. f_equal. lia.
Qed.
Lemma copy_up_blit {A} (l : list A) n p xp : p <= xp -> xp + n <= length l ->
  copy_up n p xp l = blit l p l xp n.
Proof.
  intros Hp. revert p xp Hp l. induction n as [|n IH]; intros p xp Hp l Hl; rewrite blit_in by lia.
  - cbn. f_equal. apply list_eq. intros j. rewrite lookup_blitted by lia. rewrite decide_False by lia. reflexivity.
  - cbn [copy_up]. destruct (lookup_lt_is_Some_2 l xp ltac:(lia)) as [v Hv]. rewrite Hv. cbn [mbind option_bind].
    rewrite poke_in by lia. cbn [mbind option_bind].
    rewrite IH by (rewrite ?length_insert; lia). rewrite blit_in by (rewrite length_insert; lia). f_equal.
    apply list_eq. intros j. rewrite !lookup_blitted by (rewrite ?length_insert; lia). rewrite !lookup_insert_if by lia.
    repeat case_decide; subst; try lia; try (f_equal; lia). rewrite <- Hv. f_equal. lia.
Qed.

(** ** Nodes as lists *)

Definition keys (n : internode) : list Z := take (nkeys_ n) (ikey0_ n).
Definition children (n : internode) : list ptr := take (S (nkeys_ n)) (child_ n).

Section Facts.
Context (width : nat) (nv : nodeversion_parameters).

Record wf (n : internode) : Prop := {
  wf_ikey0 : length (ikey0_ n) = width;
  wf_child : length (child_ n) = S width;
  wf_nkeys : nkeys_ n <= width
}.

Ltac len := repeat first [rewrite length_insert | rewrite length_blitted by len]; lia.
Ltac arr :=
  apply list_eq; intros ?j; cbn [ikey0_ child_ nkeys_ v_];
  repeat first [rewrite lookup_take | rewrite lookup_drop | rewrite lookup_ins by len
               | rewrite lookup_blitted by len | rewrite lookup_insert_if by len];
  repeat case_decide; try lia; try congruence; try (f_equal; lia);
  try (symmetry; apply lookup_ge_None_2; len); try (apply lookup_ge_None_2; len).

Lemma shift_from_in n p x xp cnt :
  p + cnt <= length (ikey0_ n) -> p + cnt < length (child_ n) ->
  xp + cnt <= length (ikey0_ x) -> xp + cnt < length (child_ x) ->
  shift_from n p x xp cnt =
    Some (mk (v_ n) (nkeys_ n) (blitted (ikey0_ n) p (ikey0_ x) xp cnt) (blitted (child_ n) (p + 1) (child_ x) (xp + 1) cnt)).
Proof.
  intros. unfold shift_from. destruct (decide (cnt = 0)) as [->|].
  - destruct n as [v nk k c]. cbn in *. f_equal. f_equal; symmetry; arr.
  - rewrite !blit_in by lia. reflexivity.
Qed.

Lemma set_parent_in x (p : ptr) ps : is_Some (ps !! x) -> set_parent (Some x) p ps = Some (<[x := p]> ps).
Proof. intros [q H]. unfold set_parent. cbn. rewrite H. reflexivity. Qed.

(** Non-null pointers to nodes the map knows. *)
Definition known (ps : parents) (x : ptr) : Prop := exists y, x = Some y /\ is_Some (ps !! y).

Lemma set_parents_in self c i cnt ps :
  i + cnt <= length c -> Forall (known ps) (take cnt (drop i c)) ->
  exists ps', set_parents self c i cnt ps = Some ps' /\
    forall x, ps' !! x = if decide (Some x ∈ take cnt (drop i c)) then Some (Some self) else ps !! x.
Proof.
  revert i ps. induction cnt as [|cnt IH]; intros i ps Hl Hk.
  - exists ps. split; [reflexivity|]. intros x. rewrite decide_False; [reflexivity|]. apply not_elem_of_nil.
  - destruct (lookup_lt_is_Some_2 c i ltac:(lia)) as [o Ho]. rewrite (drop_S _ _ _ Ho) in *. cbn [take] in *.
    apply Forall_cons in Hk as [(y & -> & Hy) Hk]. cbn [set_parents]. rewrite Ho. cbn [mbind option_bind].
    rewrite set_parent_in by exact Hy. cbn [mbind option_bind].
    destruct (IH (S i) (<[y := Some self]> ps)) as (ps' & E & Hps); [lia| |].
    { eapply Forall_impl; [exact Hk|]. intros o' (z & -> & Hz). exists z. split; [reflexivity|].
      destruct (decide (y = z)) as [->|]; [rewrite lookup_insert_eq|rewrite lookup_insert_ne by assumption]; eauto. }
    exists ps'. split; [exact E|]. intros x. rewrite Hps. destruct (decide (x = y)) as [->|].
    + rewrite lookup_insert_eq, (decide_True (P := Some y ∈ _ :: _)) by left. destruct decide; reflexivity.
    + rewrite lookup_insert_ne by congruence. apply decide_ext. rewrite elem_of_cons. split; [auto|]. intros [[=]|]; [congruence|auto].
Qed.

(** shift_up and assign, as finish_split and the growth of a parent use them. *)
Lemma insert_at self n kp k child ps :
  wf n -> nkeys_ n < width -> kp <= nkeys_ n -> is_Some (ps !! child) ->
  exists n', (n1 ← shift_up n (kp + 1) kp (nkeys_ n - kp); assign self n1 kp k (Some child) ps) =
      Some (n', <[child := Some self]> ps) /\
    wf (set_nkeys (S (nkeys_ n)) n') /\ nkeys_ n' = nkeys_ n /\ v_ n' = v_ n /\
    take (S (nkeys_ n)) (ikey0_ n') = ins kp k (keys n) /\
    take (S (S (nkeys_ n))) (child_ n') = ins (S kp) (Some child) (children n).
Proof.
  intros [Hk Hc _] Hlt Hkp Hps. unfold shift_up. rewrite copy_down_blit, !blit_in by lia. cbn [mbind option_bind].
  unfold assign. rewrite set_parent_in by exact Hps. cbn [mbind option_bind child_ ikey0_].
  rewrite !poke_in by len. cbn [mbind option_bind v_ nkeys_]. eexists. split; [reflexivity|].
  assert (length (take (nkeys_ n) (ikey0_ n)) = nkeys_ n) by (rewrite length_take; lia).
  assert (length (take (S (nkeys_ n)) (child_ n)) = S (nkeys_ n)) by (rewrite length_take; lia).
  unfold keys, children. split; [split; cbn; [len|len|lia]|]. repeat (split; [reflexivity|]). split; arr.
Qed.

(** shift_down, as remove_leaf takes out child [kp] and the key before it. *)
Lemma remove_at n kp : wf n -> 0 < kp <= nkeys_ n ->
  exists n', shift_down n (kp - 1) kp (nkeys_ n - kp) = Some n' /\ nkeys_ n' = nkeys_ n /\ v_ n' = v_ n /\
    keys (set_nkeys (nkeys_ n - 1) n') = delete (kp - 1) (keys n) /\
    children (set_nkeys (nkeys_ n - 1) n') = delete kp (children n).
Proof.
  intros [Hk Hc Hn] Hkp. unfold shift_down. rewrite copy_up_blit, !blit_in by lia. cbn [mbind option_bind].
  eexists. split; [reflexivity|]. repeat (split; [reflexivity|]).
  assert (Hd : forall A (l : list A) i j, delete i l !! j = if decide (j < i) then l !! j else l !! S j).
  { intros A l i j. destruct (decide (j < i)); [apply list_lookup_delete_lt|apply list_lookup_delete_ge]; lia. }
  unfold keys, children. cbn [set_nkeys nkeys_ ikey0_ child_]. split; apply list_eq; intros j; rewrite Hd, !lookup_take, lookup_blitted by lia;
    repeat case_decide; try lia; try reflexivity; f_equal; lia.
Qed.

Definition mid_of (split_type : Z) : nat := if (split_type =? 2)%Z then width else (width + 1) / 2.
Lemma mid_range st : 1 <= width -> 1 <= mid_of st <= width.
Proof.
  intros H. unfold mid_of. destruct (_ =? _)%Z; [lia|].
  pose proof (Nat.div_mod (width + 1) 2). pose proof (Nat.mod_upper_bound (width + 1) 2). lia.
Qed.

(** The right node of a split, before its children learn their parent. *)
Lemma split_right nl nr nrp p ka value st ps :
  1 <= width -> wf nl -> wf nr -> p <= width -> is_Some (ps !! value) ->
  let mid := mid_of st in
  let nr := set_nkeys (width + 1 - (mid + 1)) nr in
  let set_child0 (x : ptr) := c ← poke (child_ nr) 0 x; Some (mk (v_ nr) (nkeys_ nr) (ikey0_ nr) c) in
  let K := ins p ka (ikey0_ nl) in let C := ins (S p) (Some value) (child_ nl) in
  exists nr' s ps',
    (if decide (p < mid) then
       x ← child_ nl !! mid; nr ← set_child0 x;
       nr ← shift_from nr 0 nl mid (width - mid);
       s ← ikey0_ nl !! (mid - 1); Some (nr, s, ps)
     else if decide (p = mid) then
       nr ← set_child0 (Some value);
       nr ← shift_from nr 0 nl mid (width - mid);
       Some (nr, ka, ps)
     else
       x ← child_ nl !! (mid + 1); nr ← set_child0 x;
       nr ← shift_from nr 0 nl (mid + 1) (p - (mid + 1));
       '(nr, ps) ← assign nrp nr (p - (mid + 1)) ka (Some value) ps;
       nr ← shift_from nr (p + 1 - (mid + 1)) nl p (width - p);
       s ← ikey0_ nl !! mid; Some (nr, s, ps)) = Some (nr', s, ps') /\
    wf nr' /\ nkeys_ nr' = width - mid /\ v_ nr' = v_ nr /\ K !! mid = Some s /\
    keys nr' = drop (S mid) K /\ children nr' = drop (S mid) C /\
    ps' = if decide (mid < p) then <[value := Some nrp]> ps else ps.
Proof.
  intros Hw [Hk Hc _] [Hk' Hc' _] Hp Hv. cbv zeta. pose proof (mid_range st Hw) as Hm. set (mid := mid_of st) in *.
  cbn [set_nkeys child_ v_ nkeys_ ikey0_]. rewrite lookup_ins by lia.
  destruct (decide (p < mid)); [|destruct (decide (p = mid)) as [->|]].
  - destruct (lookup_lt_is_Some_2 (child_ nl) mid ltac:(lia)) as [x Hx].
    destruct (lookup_lt_is_Some_2 (ikey0_ nl) (mid - 1) ltac:(lia)) as [y Hy].
    rewrite Hx. cbn [mbind option_bind]. rewrite poke_in by lia. cbn [mbind option_bind].
    rewrite shift_from_in by (cbn; len). cbn [mbind option_bind]. rewrite Hy. cbn [mbind option_bind v_ nkeys_ ikey0_ child_].
    eexists _, _, _. split; [reflexivity|]. split; [split; cbn [ikey0_ child_ nkeys_]; [len|len|lia]|]. split; [cbn [nkeys_]; lia|]. split; [reflexivity|].
    rewrite !decide_False by lia. split; [congruence|]. unfold keys, children. cbn [ikey0_ child_ nkeys_].
    replace (S (width + 1 - (mid + 1))) with (S (width - mid)) by lia. replace (width + 1 - (mid + 1)) with (width - mid) by lia.
    split; [|split; [|reflexivity]]; arr. rewrite <- Hx. f_equal. lia.
  - rewrite poke_in by lia. cbn [mbind option_bind].
    rewrite shift_from_in by (cbn; len). cbn [mbind option_bind v_ nkeys_ ikey0_ child_].
    eexists _, _, _. split; [reflexivity|]. split; [split; cbn [ikey0_ child_ nkeys_]; [len|len|lia]|]. split; [cbn [nkeys_]; lia|]. split; [reflexivity|].
    rewrite (decide_True (P := mid = mid)), !(decide_False (P := mid < mid)) by lia. split; [reflexivity|]. unfold keys, children. cbn [ikey0_ child_ nkeys_].
    replace (S (width + 1 - (mid + 1))) with (S (width - mid)) by lia. replace (width + 1 - (mid + 1)) with (width - mid) by lia.
    split; [|split; [|reflexivity]]; arr.
  - destruct (lookup_lt_is_Some_2 (child_ nl) (mid + 1) ltac:(lia)) as [x Hx].
    destruct (lookup_lt_is_Some_2 (ikey0_ nl) mid ltac:(lia)) as [y Hy].
    rewrite Hx. cbn [mbind option_bind]. rewrite poke_in by lia. cbn [mbind option_bind].
    rewrite shift_from_in by (cbn; len). cbn [mbind option_bind]. unfold assign.
    rewrite set_parent_in by exact Hv. cbn [mbind option_bind child_ ikey0_]. rewrite !poke_in by len.
    cbn [mbind option_bind v_ nkeys_ ikey0_ child_]. rewrite shift_from_in by (cbn [ikey0_ child_ nkeys_]; len). cbn [mbind option_bind]. rewrite Hy.
    cbn [mbind option_bind v_ nkeys_ ikey0_ child_].
    eexists _, _, _. split; [reflexivity|]. split; [split; cbn [ikey0_ child_ nkeys_]; [len|len|lia]|]. split; [cbn [nkeys_]; lia|]. split; [reflexivity|].
    rewrite !(decide_True (P := mid < p)) by lia. split; [reflexivity|]. unfold keys, children. cbn [ikey0_ child_ nkeys_].
    replace (S (width + 1 - (mid + 1))) with (S (width - mid)) by lia. replace (width + 1 - (mid + 1)) with (width - mid) by lia.
    split; [|split; [|reflexivity]]; arr. rewrite <- Hx. f_equal. lia.
Qed.

Lemma internode_split_in nl nr nrp p ka value st ps :
  1 <= width -> wf nl -> wf nr -> p <= width -> is_Some (ps !! value) -> Forall (known ps) (drop 1 (child_ nl)) ->
  locked nv (v_ nl) = true -> locked nv (v_ nr) = true ->
  let mid := mid_of st in
  let K := ins p ka (ikey0_ nl) in let C := ins (S p) (Some value) (child_ nl) in
  exists v nr' s ps',
    mark_split nv (v_ nl) = Some v /\
    internode_split width nv nl nr nrp p ka (Some value) st ps =
      Some (mk v (if decide (p < mid) then mid - 1 else mid) (ikey0_ nl) (child_ nl), nr', s,
            if decide (p < mid) then Some p else None, ps') /\
    wf nr' /\ v_ nr' = v_ nr /\ K !! mid = Some s /\ keys nr' = drop (S mid) K /\ children nr' = drop (S mid) C /\
    forall x, ps' !! x = if decide (Some x ∈ drop (S mid) C) then Some (Some nrp) else ps !! x.
Proof.
  intros Hw Hl Hr Hp Hv Hk Hll Hlr mid K C. pose proof (mid_range st Hw) as Hm. fold mid in Hm.
  destruct (split_right nl nr nrp p ka value st ps Hw Hl Hr Hp Hv) as (nr' & s & ps1 & E & Hwf & Hn & Hnv & Hs & Hkeys & Hch & Hps).
  unfold internode_split. rewrite Hll, Hlr. cbn [andb negb]. fold (mid_of st). rewrite E. clear E. cbn [mbind option_bind].
  fold mid in Hn, Hs, Hkeys, Hch, Hps |- *. fold K in Hs, Hkeys. fold C in Hch.
  assert (Hval : Forall (known ps) (drop (S mid) C)).
  { destruct Hl as [_ Hc _]. apply Forall_lookup. intros i o Ho. rewrite lookup_drop in Ho. unfold C in Ho.
    rewrite lookup_ins in Ho by lia. rewrite Forall_lookup in Hk.
    destruct (decide (S mid + i < S p)); [|destruct (decide (S mid + i = S p))].
    - apply (Hk (S mid + i - 1)). rewrite lookup_drop. rewrite <- Ho. f_equal. lia.
    - injection Ho as <-. exists value. auto.
    - apply (Hk (S mid + i - 2)). rewrite lookup_drop. rewrite <- Ho. f_equal. lia. }
  destruct (set_parents_in nrp (child_ nr') 0 (nkeys_ nr' + 1) ps1) as (ps2 & E2 & Hps2).
  { destruct Hwf as [_ H1 H2]. lia. }
  { rewrite drop_0, Nat.add_1_r. change (take _ _) with (children nr'). rewrite Hch.
    eapply Forall_impl; [exact Hval|]. intros o (y & -> & Hy). exists y. split; [reflexivity|]. rewrite Hps.
    destruct (decide (mid < p)); [|exact Hy]. destruct (decide (value = y)) as [->|];
      [rewrite lookup_insert_eq|rewrite lookup_insert_ne by assumption]; eauto. }
  rewrite E2. cbn [mbind option_bind]. unfold mark_split. rewrite Hll. cbn [mbind option_bind].
  eexists _, nr', s, ps2. split; [reflexivity|]. split; [destruct (decide (p < mid)); reflexivity|].
  repeat (split; [assumption|]). intros x. rewrite Hps2, drop_0, Nat.add_1_r. change (take _ _) with (children nr'). rewrite Hch.
  destruct (decide (Some x ∈ drop (S mid) C)) as [|Hx]; [reflexivity|]. rewrite Hps. destruct (decide (mid < p)); [|reflexivity].
  rewrite lookup_insert_ne; [reflexivity|]. intros ->. apply Hx. destruct Hl as [_ Hc _].
  apply list_elem_of_lookup_2 with (S p - S mid). rewrite lookup_drop. unfold C. rewrite lookup_ins by lia.
  rewrite decide_False, decide_True by lia. reflexivity.
Qed.

(** ** Searching *)

Definition sorted (l : list Z) : Prop := forall i j a b, i < j -> l !! i = Some a -> l !! j = Some b -> (a < b)%Z.

Lemma keys_lookup n i k : keys n !! i = Some k -> i < nkeys_ n /\ nth i (ikey0_ n) 0%Z = k.
Proof.
  unfold keys. intros H. apply lookup_take_Some in H as [H Hi]. split; [exact Hi|]. apply nth_lookup_Some with (d := 0%Z) in H. exact H.
Qed.
Lemma keys_nth n i : wf n -> i < nkeys_ n -> keys n !! i = Some (nth i (ikey0_ n) 0%Z).
Proof.
  intros [Hk _ Hn] Hi. unfold keys. rewrite lookup_take_lt by exact Hi.
  destruct (lookup_lt_is_Some_2 (ikey0_ n) i ltac:(lia)) as [x Hx]. rewrite Hx. f_equal. symmetry.
  apply nth_lookup_Some. exact Hx.
Qed.

Lemma bound_upper_spec binary a n : wf n -> sorted (keys n) ->
  exists kp, bound_upper binary a n = Some kp /\ kp <= nkeys_ n /\
    (forall i k, i < kp -> keys n !! i = Some k -> (k <= a)%Z) /\ (forall i k, kp <= i -> keys n !! i = Some k -> (a < k)%Z).
Proof.
  intros Hw Hs. unfold bound_upper, size.
  assert (Hcmp : forall x y, (StringSlice.compare x y < 0 <-> x < y)%Z /\ (0 <= StringSlice.compare x y <-> y <= x)%Z /\
    (0 < StringSlice.compare x y <-> y < x)%Z).
  { intros x y. unfold StringSlice.compare. destruct (Z.eqb_spec x y), (Z.ltb_spec x y); lia. }
  destruct (upper_bounds (Z.of_nat (nkeys_ n)) (fun i => i) (key_compare a n) binary) as (r & E & Hr & Hlo & Hhi); [|lia|].
  { intros i j Hij Hj. unfold key_compare. rewrite (proj1 (proj2 (Hcmp _ _))), (proj2 (proj2 (Hcmp _ _))). intros Hge.
    assert (H1 := keys_nth n (Z.to_nat i) Hw ltac:(lia)). assert (H2 := keys_nth n (Z.to_nat j) Hw ltac:(lia)).
    pose proof (Hs _ _ _ _ (ltac:(lia) : Z.to_nat i < Z.to_nat j) H1 H2). lia. }
  exists (Z.to_nat r). rewrite E. split; [reflexivity|]. split; [lia|]. split; intros i k Hi Hk; apply keys_lookup in Hk as [Hn <-].
  - specialize (Hlo (Z.of_nat i) ltac:(lia)). unfold key_compare in Hlo. rewrite Nat2Z.id in Hlo. apply (proj1 (proj2 (Hcmp _ _))), Hlo.
  - specialize (Hhi (Z.of_nat i) ltac:(lia)). unfold key_compare in Hhi. rewrite Nat2Z.id in Hhi. apply (proj1 (Hcmp _ _)), Hhi.
Qed.

Lemma ins_sorted kp a l : kp <= length l -> sorted l -> a ∉ l ->
  (forall i k, i < kp -> l !! i = Some k -> (k <= a)%Z) -> (forall i k, kp <= i -> l !! i = Some k -> (a < k)%Z) ->
  sorted (ins kp a l).
Proof.
  intros Hkp Hs Hn Hlo Hhi i j x y Hij. rewrite !lookup_ins by exact Hkp.
  assert (Hne : forall i, l !! i = Some a -> False) by (intros i0 H0; apply Hn; eapply list_elem_of_lookup_2, H0).
  repeat case_decide; subst; try lia; intros Hx Hy.
  - apply (Hs i j); assumption.
  - injection Hy as <-. specialize (Hlo i x ltac:(lia) Hx). assert (x <> a) by (intros ->; eauto). lia.
  - apply (Hs i (j - 1)); [lia|assumption..].
  - injection Hx as <-. apply (Hhi (j - 1)); [lia|assumption].
  - apply (Hs (i - 1) (j - 1)); [lia|assumption..].
Qed.

(** ** Putting a child under a parent *)

(** Where a child's parent pointer goes: to the new sibling, the old parent or
    nowhere new. *)
Definition reparented (ps ps' : parents) (right : list ptr) (rp child pp : nat) : Prop :=
  forall x, ps' !! x = if decide (Some x ∈ right) then Some (Some rp) else if decide (x = child) then Some (Some pp) else ps !! x.

Lemma full_node n : wf n -> nkeys_ n = width -> keys n = ikey0_ n /\ children n = child_ n.
Proof. intros [Hk Hc _] E. unfold keys, children. rewrite !take_ge by lia. auto. Qed.

Lemma split_parent `{!NvLayout nv} pp p freshp fresh xikey child st ps kp :
  1 <= width -> wf p -> nkeys_ p = width -> wf fresh -> kp <= width ->
  Forall (known ps) (drop 1 (children p)) -> is_Some (ps !! child) -> Some child ∉ children p ->
  locked nv (v_ p) = true ->
  exists p' s r ps',
    ('(p, next_child, s, kp, ps) ← internode_split width nv p (set_v (mark_nonroot nv (v_ p)) fresh) freshp kp xikey (Some child) st ps;
     match kp with
     | None => Some (p, Some (s, next_child), ps)
     | Some kp =>
         p ← shift_up p (kp + 1) kp (size p - kp);
         '(p, ps) ← assign pp p kp xikey (Some child) ps;
         Some (set_nkeys (S (nkeys_ p)) p, Some (s, next_child), ps)
     end) = Some (p', Some (s, r), ps') /\
    wf p' /\ wf r /\ v_ p' = Z.lor (v_ p) (splitting_bit nv) /\ v_ r = mark_nonroot nv (v_ p) /\ length (keys p') = mid_of st /\
    ins kp xikey (keys p) = keys p' ++ s :: keys r /\
    ins (S kp) (Some child) (children p) = children p' ++ children r /\
    reparented ps ps' (children r) freshp child pp.
Proof.
  intros Hw Hp Hn Hf Hkp Hk Hc Hnin Hl. destruct (full_node p Hp Hn) as [Ek Ec]. rewrite Ek, Ec in *.
  pose proof (mid_range st Hw) as Hm. pose proof Hp as [Hlk Hlc _].
  destruct (internode_split_in p (set_v (mark_nonroot nv (v_ p)) fresh) freshp kp xikey child st ps)
    as (v & r & s & ps1 & Ev & E & Hr & Hvr & Hs & Hkr & Hcr & Hps); try assumption.
  { destruct Hf as [H1 H2 H3]. split; assumption. }
  { cbn [v_ set_v]. rewrite (locked_mark_nonroot nv). exact Hl. }
  unfold mark_split in Ev. rewrite Hl in Ev. injection Ev as <-. cbn [v_ set_v] in Hvr.
  rewrite E. clear E. cbn [mbind option_bind]. set (K := ins kp xikey (ikey0_ p)) in *.
  set (C := ins (S kp) (Some child) (child_ p)) in *. set (mid := mid_of st) in *.
  assert (HK : K = take mid K ++ s :: drop (S mid) K) by (symmetry; apply take_drop_middle, Hs).
  assert (HC : C = take (S mid) C ++ drop (S mid) C) by (symmetry; apply take_drop).
  destruct (decide (kp < mid)).
  - destruct (insert_at pp (mk (Z.lor (v_ p) (splitting_bit nv)) (mid - 1) (ikey0_ p) (child_ p)) kp xikey child ps1) as (p' & Ei & Hwf & En & Ev & Ek' & Ec').
    { split; cbn [ikey0_ child_ nkeys_]; lia. }
    { cbn [nkeys_]. lia. }
    { cbn [nkeys_]. lia. }
    { rewrite Hps. destruct decide; eauto. }
    unfold size. cbn [nkeys_] in *. apply bind_Some in Ei as (p1 & Es & Ea). rewrite Es. cbn [mbind option_bind]. rewrite Ea. cbn [mbind option_bind].
    eexists _, s, r, _. split; [reflexivity|]. rewrite En. split; [exact Hwf|]. split; [exact Hr|]. split; [exact Ev|]. split; [exact Hvr|].
    assert (EK : keys (set_nkeys (S (mid - 1)) p') = take mid K).
    { unfold keys in *. cbn [nkeys_ ikey0_ set_nkeys] in *. rewrite Ek'.
      assert (length (take (mid - 1) (ikey0_ p)) = mid - 1) by (rewrite length_take; lia). unfold K. arr. }
    assert (EC : children (set_nkeys (S (mid - 1)) p') = take (S mid) C).
    { unfold children in *. cbn [nkeys_ child_ set_nkeys] in *. rewrite Ec'.
      assert (length (take (S (mid - 1)) (child_ p)) = mid) by (rewrite length_take; lia). unfold C. arr. }
    rewrite EK, EC, Hkr, Hcr. split; [rewrite length_take; unfold K; rewrite length_ins by lia; lia|].
    split; [exact HK|]. split; [exact HC|].
    intros x. destruct (decide (x = child)) as [->|].
    + rewrite lookup_insert_eq. rewrite decide_False; [reflexivity|]. intros Hin. apply list_elem_of_lookup_1 in Hin as [i Hi].
      rewrite lookup_drop in Hi. unfold C in Hi. rewrite lookup_ins in Hi by lia. rewrite !decide_False in Hi by lia.
      apply Hnin. eapply list_elem_of_lookup_2, Hi.
    + rewrite lookup_insert_ne by congruence. apply Hps.
  - eexists _, s, r, ps1. split; [reflexivity|]. split; [split; cbn [ikey0_ child_ nkeys_]; lia|]. split; [exact Hr|]. split; [reflexivity|]. split; [exact Hvr|].
    set (v := Z.lor (v_ p) (splitting_bit nv)) in *.
    assert (EK : keys (mk v mid (ikey0_ p) (child_ p)) = take mid K) by (unfold keys, K; arr).
    assert (EC : children (mk v mid (ikey0_ p) (child_ p)) = take (S mid) C) by (unfold children, C; arr).
    rewrite EK, EC, Hkr, Hcr. split; [rewrite length_take; unfold K; rewrite length_ins by lia; lia|].
    split; [exact HK|]. split; [exact HC|].
    intros x. rewrite Hps. destruct (decide (Some x ∈ drop (S mid) C)) as [|Hx]; [reflexivity|].
    destruct (decide (x = child)) as [->|]; [|reflexivity]. destruct Hx.
    apply list_elem_of_lookup_2 with (kp - mid). rewrite lookup_drop. unfold C. rewrite lookup_ins by lia.
    rewrite decide_False, decide_True by lia. reflexivity.
Qed.

(** finish_split's work on the parent, with or without a split of it. *)
Lemma insert_into_parent_ok `{!NvLayout nv} binary pp p freshp fresh xikey child st ps :
  1 <= width -> wf p -> wf fresh -> sorted (keys p) -> xikey ∉ keys p ->
  Forall (known ps) (drop 1 (children p)) -> is_Some (ps !! child) -> Some child ∉ children p -> locked nv (v_ p) = true ->
  exists kp, kp <= nkeys_ p /\
    (forall i k, i < kp -> keys p !! i = Some k -> (k <= xikey)%Z) /\ (forall i k, kp <= i -> keys p !! i = Some k -> (xikey < k)%Z) /\
    let K := ins kp xikey (keys p) in let C := ins (S kp) (Some child) (children p) in
    sorted K /\
    if decide (nkeys_ p < width) then
      exists p', insert_into_parent width nv binary pp p freshp fresh xikey child st ps
                   = Some (p', None, <[child := Some pp]> ps) /\
        wf p' /\ v_ p' = Z.lor (v_ p) (inserting_bit nv) /\ keys p' = K /\ children p' = C
    else
      exists p' s r ps', insert_into_parent width nv binary pp p freshp fresh xikey child st ps = Some (p', Some (s, r), ps') /\
        wf p' /\ wf r /\ v_ p' = Z.lor (v_ p) (splitting_bit nv) /\ v_ r = mark_nonroot nv (v_ p) /\ length (keys p') = mid_of st /\
        K = keys p' ++ s :: keys r /\ C = children p' ++ children r /\
        reparented ps ps' (children r) freshp child pp.
Proof.
  intros Hw Hp Hf Hs Hx Hk Hc Hnin Hl. pose proof Hp as [Hlk Hlc Hn].
  destruct (bound_upper_spec binary xikey p Hp Hs) as (kp & Eb & Hkp & Hlo & Hhi).
  exists kp. split; [exact Hkp|]. split; [exact Hlo|]. split; [exact Hhi|]. cbv zeta. split.
  { apply ins_sorted; try assumption. unfold keys. rewrite length_take. lia. }
  unfold insert_into_parent, size. rewrite Eb. cbn [mbind option_bind]. destruct (decide (nkeys_ p < width)).
  - unfold mark_insert. rewrite Hl. cbn [mbind option_bind].
    destruct (insert_at pp (set_v (Z.lor (v_ p) (inserting_bit nv)) p) kp xikey child ps)
      as (p' & E & Hwf & En & Ev & Ek & Ec); [split; assumption|assumption..|].
    cbn [nkeys_ set_v] in *. apply bind_Some in E as (p1 & Es & Ea). rewrite Es. cbn [mbind option_bind]. rewrite Ea.
    cbn [mbind option_bind]. eexists. split; [reflexivity|]. rewrite En. split; [exact Hwf|]. split; [exact Ev|]. split; [exact Ek|exact Ec].
  - destruct (split_parent pp p freshp fresh xikey child st ps kp) as (p' & s & r & ps' & E & H); try assumption; try lia.
    exists p', s, r, ps'. split; [|exact H]. rewrite <- E.
    destruct (internode_split _ _ _ _ _ _ _ _ _ _) as [[[[[p1 n1] s1] [k1|]] ps1]|]; reflexivity.
Qed.

(** The new root over a split one. *)
Lemma new_root_ok nnp nn n child xikey ps : 1 <= width -> wf nn -> is_Some (ps !! nnp) -> is_Some (ps !! n) -> is_Some (ps !! child) ->
  exists nn', new_root nv nnp nn n child xikey ps = Some (nn', <[n := Some nnp]> (<[nnp := None]> (<[child := Some nnp]> ps))) /\
    wf nn' /\ v_ nn' = mark_root nv (v_ nn) /\ keys nn' = [xikey] /\ children nn' = [Some n; Some child].
Proof.
  intros Hw [Hk Hc _] H1 H2 H3. unfold new_root, assign. rewrite poke_in by lia. cbn [mbind option_bind child_ ikey0_].
  rewrite set_parent_in by exact H3. cbn [mbind option_bind]. rewrite !poke_in by len. cbn [mbind option_bind].
  assert (Hin : forall x y o (qs : parents), is_Some (qs !! x) -> is_Some (<[y := o]> qs !! x)).
  { intros x y o qs H. destruct (decide (y = x)) as [->|]; [rewrite lookup_insert_eq|rewrite lookup_insert_ne by assumption]; eauto. }
  rewrite !set_parent_in by auto. cbn [mbind option_bind]. rewrite set_parent_in by auto. cbn [mbind option_bind].
  eexists. split; [reflexivity|]. split; [split; cbn; [len|len|lia]|]. split; [reflexivity|].
  destruct (ikey0_ nn) as [|k0 K]; [cbn in Hk; lia|]. destruct (child_ nn) as [|c0 [|c1 C]]; cbn in Hc; try lia. split; reflexivity.
Qed.

End Facts.

(** C39: a child goes under its parent as a list insertion.  On a locked node with
    increasing keys, finish_split's work on the parent finds the place of the new
    key by either search, keeps the keys increasing and, if there is room, ends
    with the key and the child inserted into the two lists.  If the node is full,
    the insertion happens as well but its result is cut at the middle key (at the
    end for a sequential load): the old node keeps the keys before it, the new
    sibling gets those after it, children likewise, no key and no child is lost,
    and exactly the children that moved point to the sibling.  No access is out
    of bounds and no precondition fails. *)
Theorem parent_insertion width nv `{!NvLayout nv} binary pp p freshp fresh xikey child st ps :
  1 <= width -> wf width p -> wf width fresh -> sorted (keys p) -> xikey ∉ keys p ->
  Forall (known ps) (drop 1 (children p)) -> is_Some (ps !! child) -> Some child ∉ children p ->
  locked nv (v_ p) = true ->
  exists kp, kp <= nkeys_ p /\
    let K := ins kp xikey (keys p) in let C := ins (S kp) (Some child) (children p) in
    sorted K /\
    if decide (nkeys_ p < width) then
      exists p', insert_into_parent width nv binary pp p freshp fresh xikey child st ps
                   = Some (p', None, <[child := Some pp]> ps) /\
        wf width p' /\ keys p' = K /\ children p' = C
    else
      exists p' s r ps', insert_into_parent width nv binary pp p freshp fresh xikey child st ps = Some (p', Some (s, r), ps') /\
        wf width p' /\ wf width r /\ length (keys p') = mid_of width st /\
        K = keys p' ++ s :: keys r /\ C = children p' ++ children r /\
        reparented ps ps' (children r) freshp child pp.
Proof.
  intros Hw Hp Hf Hs Hx Hk Hc Hnin Hl.
  destruct (insert_into_parent_ok width nv binary pp p freshp fresh xikey child st ps) as (kp & Hkp & _ & _ & HK & H); try assumption.
  exists kp. split; [exact Hkp|]. split; [exact HK|]. destruct (decide (nkeys_ p < width)).
  - destruct H as (p' & E & Hwf & _ & H). eauto.
  - destruct H as (p' & s & r & ps' & E & H1 & H2 & _ & _ & H). exists p', s, r, ps'. auto.
Qed.

(** A full node of width 3 with children 10 to 13, parent address 1; node 20
    comes in between 11 and 12 and the node splits. *)
Definition example_node : internode := mk 0x40000001 3 [10; 20; 30]%Z [Some 10; Some 11; Some 12; Some 13].
Definition example_fresh : internode := make nodeversion32_parameters [0; 0; 0]%Z [None; None; None; None].
Definition example_parents : parents :=
  <[10 := Some 1]> (<[11 := Some 1]> (<[12 := Some 1]> (<[13 := Some 1]> (<[20 := None]> ∅)))).

Lemma parent_insertion_witness :
  exists kp, kp <= 3 /\
    let K := ins kp 15%Z [10; 20; 30]%Z in let C := ins (S kp) (Some 20) [Some 10; Some 11; Some 12; Some 13] in
    sorted K /\
    exists p' s r ps', insert_into_parent 3 nodeversion32_parameters true 1 example_node 2 example_fresh 15 20 0 example_parents
        = Some (p', Some (s, r), ps') /\
      wf 3 p' /\ wf 3 r /\ length (keys p') = mid_of 3 0 /\
      K = keys p' ++ s :: keys r /\ C = children p' ++ children r /\
      reparented example_parents ps' (children r) 2 20 1.
Proof.
  apply (parent_insertion 3 nodeversion32_parameters true 1 example_node 2 example_fresh 15 20 0 example_parents).
  - lia.
  - split; cbn; lia.
  - split; cbn; lia.
  - intros i j a b Hij Ha Hb. destruct i as [|[|[|i]]], j as [|[|[|j]]];
      cbn in Ha, Hb; try discriminate; try lia; injection Ha as <-; injection Hb as <-; lia.
  - cbn. rewrite !elem_of_cons, elem_of_nil. lia.
  - cbn. repeat constructor; eexists; (split; [reflexivity|vm_compute; eauto]).
  - vm_compute. eauto.
  - cbn. rewrite !elem_of_cons, elem_of_nil. intros H. decompose [or] H; congruence.
  - reflexivity.
Defined.

Example parent_split_example :
  match insert_into_parent 3 nodeversion32_parameters true 1 example_node 2 example_fresh 25 20 0 example_parents with
  | Some (p, Some (s, r), ps) =>
      (keys p, children p, s, keys r, children r, ps !! 11, ps !! 13, ps !! 20)
      = ([10; 20]%Z, [Some 10; Some 11; Some 12], 25%Z, [30%Z], [Some 20; Some 13], Some (Some 1), Some (Some 2), Some (Some 2))
  | _ => False
  end.
Proof. vm_compute. reflexivity. Qed.

End internode.
