(* ===== verification/Leaf.v ===== *)
(** * Leaves: insertion, removal, split (src/masstree/masstree_struct.hh,
    masstree_insert.hh, masstree_remove.hh, masstree_split.hh)

    A leaf keeps its entries in slots and their order in a permuter
    (KPermuter.v); an entry is written to a free slot first and becomes visible
    when the permuter word is replaced.  Slot 0 is special: its key bounds the
    keys of the leaf even after the entry is removed, so it must not be reused
    for another key.  The definitions follow the code that picks a slot, inserts,
    removes and splits; [None] is a failed invariant or precondition. *)

From S2P Require Import Prelude KPermuter NodeVersion StringSlice MtKey LeafLink Internode.

Open Scope Z_scope.

(** compiler.hh, for 64-bit values. *)
Definition ctz (x : Z) : Z := Z.log2 (Z.land x (- x)).
Definition find_lowest_zero_nibble (x : Z) : Z :=
  let h := 0x8888888888888888 in
  let l := 0x1111111111111111 in
  let t := Z.land (Z.land h (u64 (x - l))) (u64 (Z.lnot x)) in
  if t =? 0 then -1 else Z.shiftr (ctz t) 2.

Module leaf.

(** ** Data

    What the arrays keylenx_, ikey0_ and lv_ and the suffix bags (StringBag.v)
    hold for one slot. *)
Record slot := mkSlot { keylenx : Z; ikey0 : Z; lv : Z; suf : list byte }.

Record leaf := mk { v_ : Z; nremoved_ : Z; permutation_ : Z; slots : list slot }.

Definition set_v (v : Z) (n : leaf) : leaf := mk v (nremoved_ n) (permutation_ n) (slots n).
Definition set_permutation (x : Z) (n : leaf) : leaf := mk (v_ n) (nremoved_ n) x (slots n).
Definition set_nremoved (r : Z) (n : leaf) : leaf := mk (v_ n) r (permutation_ n) (slots n).

Definition keylenx_ikeylen (keylenx : Z) : Z := Z.land keylenx 63.
Definition keylenx_is_node (keylenx : Z) : bool := 63 <? keylenx.
Definition keylenx_is_unstable_node (keylenx : Z) : bool := negb (Z.land keylenx 64 =? 0).
Definition keylenx_is_stable_node (keylenx : Z) : bool := 127 <? keylenx.
Definition keylenx_has_ksuf (keylenx : Z) : bool := keylenx =? key.ikey_size + 1.

Definition size (n : leaf) : Z := KPermuter.size (permutation_ n).
Definition slot_at (n : leaf) (p : Z) : option slot := slots n !! Z.to_nat p.
Definition ikey (n : leaf) (p : Z) : option Z := ikey0 <$> slot_at n p.
Definition ikey_bound (n : leaf) : option Z := ikey n 0.

(** make_empty() of leafvalue. *)
Definition empty_value : Z := 0.

Section Leaf.
(** P::leaf_width, the version layout, and the memory keys point into. *)
Context (width : Z) (nv : nodeversion_parameters) (mem : memory).

(** leaf::leaf; the slots are what the allocator returned. *)
Definition new_leaf (s : list slot) : leaf := mk (new_nodeversion nv true) 0 (make_empty width) s.

Definition deleted_layer (n : leaf) : bool := width <? nremoved_ n.
Definition mark_deleted_layer (n : leaf) : leaf := set_nremoved (width + 1) n.

Definition suffix_of (ka : key.key) : list byte :=
  bytes mem (key.suffix ka).1 (Z.to_nat (key.suffix ka).2).

(** assign and assign_initialize of a key: they differ in how much of an outgrown
    suffix bag is copied.  (Where a new bag replaces an old one in a leaf with
    removed slots, hard_assign_ksuf marks the locked version as inserting for the
    readers; the version is left as it is here.) *)
Definition assign (n : leaf) (p : Z) (ka : key.key) : option leaf :=
  s ← slot_at n p;
  sl ← poke (slots n) (Z.to_nat p)
         (mkSlot (key.ikeylen ka) (key.ikey ka) empty_value (if key.has_suffix ka then suffix_of ka else suf s));
  Some (mk (v_ n) (nremoved_ n) (permutation_ n) sl).

(** assign_initialize from slot [xp] of another leaf. *)
Definition assign_initialize_from (n : leaf) (p : Z) (x : leaf) (xp : Z) : option leaf :=
  s ← slot_at n p;
  y ← slot_at x xp;
  sl ← poke (slots n) (Z.to_nat p)
         (mkSlot (keylenx y) (ikey0 y) (lv y) (if keylenx_has_ksuf (keylenx y) then suf y else suf s));
  Some (mk (v_ n) (nremoved_ n) (permutation_ n) sl).

(** ** Insertion *)

Inductive insert_outcome :=
  | Inserted (kp : Z) (n : leaf)
  | ResetRetry
  | NeedSplit (n : leaf).

(** check_leaf_insert from do_insert on.  [has_prev]: prev_ is not null.  The
    jump back to do_insert happens at most once: [fuel] 2 is enough. *)
Fixpoint do_insert (fuel : nat) (has_prev : bool) (n : leaf) (ka : key.key) : option insert_outcome :=
  match fuel with
  | O => None
  | S fuel' =>
      bound ← ikey_bound n;
      let kp := back width (permutation_ n) in
      if (size n + nremoved_ n <? width) && (negb (kp =? 0) || negb has_prev || (bound =? key.ikey ka)) then
        n' ← assign n kp ka; Some (Inserted kp n')
      else if 0 <? nremoved_ n then
        if deleted_layer n then Some ResetRetry
        else
          v ← mark_insert nv (v_ n);
          let perm := permutation_ n in
          let zeroidx := find_lowest_zero_nibble (value_from perm 0) in
          if negb ((at_ perm zeroidx =? 0) && (zeroidx <? width)) then None
          else
            let perm' := if (KPermuter.size perm <? zeroidx) && has_prev
                         then exchange width perm (KPermuter.size perm) zeroidx else perm in
            do_insert fuel' has_prev (mk v 0 perm' (slots n)) ka
      else Some (NeedSplit n)
  end.

Definition finish_insert (n : leaf) (ki kp : Z) : option leaf :=
  let perm := permutation_ n in
  if negb (back width perm =? kp) then None
  else Some (set_permutation (insert_from_back width perm ki).2 n).

(** ** Removal: the leaf, and whether it is now empty and handed to remove_leaf. *)
Definition finish_remove (n : leaf) (ki : Z) : leaf * bool :=
  let perm := remove width (permutation_ n) ki in
  (mk (v_ n) (nremoved_ n + 1) perm (slots n), KPermuter.size perm =? 0).

(** ** Split *)

Definition leaf_ikey (nl : leaf) (perml : Z) (ka : key.key) (ka_i i : Z) : option Z :=
  if i <? ka_i then ikey nl (at_ perml i)
  else if i =? ka_i then Some (key.ikey ka)
  else ikey nl (at_ perml (i - 1)).

(** [while (1)]: look on both sides of the middle for another ikey. *)
Fixpoint find_mid (fuel : nat) (nl : leaf) (perml : Z) (ka : key.key) (p width' mid_ikey midl midr : Z) : option Z :=
  match fuel with
  | O => None
  | S fuel' =>
      r ← (if midr <=? width' then k ← leaf_ikey nl perml ka p midr; Some (negb (mid_ikey =? k)) else Some false);
      if (r : bool) then Some midr
      else
        l ← (if 0 <=? midl then k ← leaf_ikey nl perml ka p midl; Some (negb (mid_ikey =? k)) else Some false);
        if (l : bool) then Some (midl + 1)
        else find_mid fuel' nl perml ka p width' mid_ikey (midl - 1) (midr + 1)
  end.

(** [for (int x = mid; x <= width; ++x)], [cnt] turns from [x] on. *)
Fixpoint fill_right (cnt : nat) (nl nr : leaf) (ka : key.key) (p mid x pv : Z) : option leaf :=
  match cnt with
  | O => Some nr
  | S cnt' =>
      if x =? p then nr ← assign nr (x - mid) ka; fill_right cnt' nl nr ka p mid (x + 1) pv
      else nr ← assign_initialize_from nr (x - mid) nl (Z.land pv 15);
           fill_right cnt' nl nr ka p mid (x + 1) (Z.shiftr pv 4)
  end.

(** The two leaves are at [nlp] and [nrp]; the links of all leaves are the heap
    of LeafLink.v.  The new leaf, the links, split_ikey and the split type. *)
Definition leaf_split (nl nr : leaf) (nlp nrp : nat) (p : Z) (ka : key.key) (t : list (gmap nat leaflink.lnode))
  : option (leaf * list (gmap nat leaflink.lnode) * Z * Z) :=
  if negb (locked nv (v_ nl) && locked nv (v_ nr)) then None else
  if negb ((nremoved_ nl =? 0) && (width - 1 <=? size nl)) then None else
  links ← leaflink.read nlp t;
  let width' := size nl in
  let mid := if (p =? 0) && bool_decide (leaflink.prev_ links = None) then 1
             else if (p =? width') && bool_decide ((leaflink.next_ links).1 = None) then width'
             else width / 2 + 1 in
  let perml := permutation_ nl in
  mid_ikey ← leaf_ikey nl perml ka p mid;
  before ← leaf_ikey nl perml ka p (mid - 1);
  mid ← (if mid_ikey =? before then
           mid ← find_mid (Z.to_nat width') nl perml ka p width' mid_ikey (mid - 2) (mid + 1);
           if (0 <? mid) && (mid <=? width') then Some mid else None
         else Some mid);
  let pv := value_from perml (mid - Z.b2z (p <? mid)) in
  nr ← fill_right (Z.to_nat (width' + 1 - mid)) nl nr ka p mid mid pv;
  let permr := make_sorted width (width' + 1 - mid) in
  let permr := if mid <=? p then remove_to_back width permr (p - mid) else permr in
  let nr := set_permutation permr nr in
  t ← leaflink.link_split nlp nrp t;
  split_ikey ← ikey nr 0;
  Some (nr, t, split_ikey, if mid <=? p then 1 + Z.b2z (mid =? width') else 0).

(** finish_split's work on the leaf that was split: the two leaves, whether the
    cursor moves to the new one, ki_ and kp_. *)
Definition finish_leaf_split (nl nr : leaf) (split_type ki : Z) (ka : key.key)
  : option (leaf * leaf * bool * Z * Z) :=
  let perml := permutation_ nl in
  let width' := KPermuter.size perml in
  let perml := set_size width perml (width' - size nr) in
  let perml := if negb (width' =? width) then exchange width perml (KPermuter.size perml) (width - 1) else perml in
  v ← mark_split nv (v_ nl);
  let nl := set_permutation perml (set_v v nl) in
  if split_type =? 0 then
    let kp := back width perml in
    nl ← assign nl kp ka;
    Some (nl, nr, false, ki, kp)
  else
    let ki := ki - KPermuter.size perml in
    Some (nl, nr, true, ki, ki).

End Leaf.

(** ** The lowest zero nibble *)

Lemma land_bound a b k : 0 <= k -> 0 <= a < 2 ^ k -> 0 <= Z.land a b < 2 ^ k.
Proof.
  intros Hk Ha. rewrite <- (Z.mod_small a (2 ^ k)) by exact Ha.
  rewrite <- Z.land_ones, <- Z.land_assoc, (Z.land_comm (Z.ones k)), Z.land_assoc, Z.land_ones by lia.
  apply Z.mod_pos_bound, Z.pow_pos_nonneg; lia.
Qed.
Lemma land_nibble a b c d : 0 <= b < 16 -> 0 <= d < 16 ->
  Z.land (16 * a + b) (16 * c + d) = 16 * Z.land a c + Z.land b d.
Proof.
  intros Hb Hd. assert (Hl := land_bound b d 4 ltac:(lia) ltac:(lia)). change (2 ^ 4) with 16 in Hl.
  assert (E : forall x y i, 0 <= y < 16 -> 0 <= i -> Z.testbit (16 * x + y) i = if i <? 4 then Z.testbit y i else Z.testbit x (i - 4)).
  { intros x y i Hy Hi. destruct (Z.ltb_spec i 4).
    - transitivity (Z.testbit ((16 * x + y) mod 2 ^ 4) i); [rewrite Z.mod_pow2_bits_low by lia; reflexivity|].
      change (2 ^ 4) with 16. rewrite Z.add_comm, Z.mul_comm, Z.mod_add, Z.mod_small by lia. reflexivity.
    - transitivity (Z.testbit ((16 * x + y) / 2 ^ 4) (i - 4)).
      + rewrite Z.div_pow2_bits by lia. f_equal. lia.
      + change (2 ^ 4) with 16. rewrite Z.add_comm, Z.mul_comm, Z.div_add, Z.div_small by lia. reflexivity. }
  apply Z.bits_inj'. intros i Hi. rewrite Z.land_spec, !E by lia. destruct (Z.ltb_spec i 4); rewrite Z.land_spec; reflexivity.
Qed.

Fixpoint lows (m : nat) : Z := match m with O => 0 | S m => 16 * lows m + 1 end.
Definition zero_test (m : nat) (x : Z) : Z := Z.land (Z.land (8 * lows m) (x - lows m)) (Z.lnot x).

Lemma zero_test_first m x i :
  (i < m)%nat -> nib x (Z.of_nat i) = 0 -> (forall j, (j < i)%nat -> nib x (Z.of_nat j) <> 0) ->
  exists c, zero_test m x = 2 ^ (4 * Z.of_nat i + 3) * (2 * c + 1).
Proof.
  revert x i. induction m as [|m IH]; intros x i Hi H0 Hj; [lia|]. unfold zero_test.
  pose proof (Z.div_mod x 16 ltac:(lia)) as Ex. pose proof (Z.mod_pos_bound x 16 ltac:(lia)) as Hr.
  set (q := x / 16) in *. set (r := x mod 16) in *. cbn [lows].
  replace (8 * (16 * lows m + 1)) with (16 * (8 * lows m) + 8) by lia.
  unfold Z.lnot. destruct i as [|i].
  - rewrite nib_mod in H0. fold r in H0.
    replace (x - (16 * lows m + 1)) with (16 * (q - lows m - 1) + 15) by lia.
    replace (Z.pred (- x)) with (16 * (- q - 1) + 15) by lia.
    rewrite (land_nibble _ 8 _ 15) by lia. change (Z.land 8 15) with 8. rewrite land_nibble by lia. change (Z.land 8 15) with 8.
    cbn [Z.of_nat]. change (2 ^ (4 * 0 + 3)) with 8. match goal with |- context [16 * ?c + 8 = _] => exists c end. lia.
  - assert (Hr0 : r <> 0) by (specialize (Hj 0%nat ltac:(lia)); rewrite nib_mod in Hj; exact Hj).
    replace (x - (16 * lows m + 1)) with (16 * (q - lows m) + (r - 1)) by lia.
    replace (Z.pred (- x)) with (16 * Z.lnot q + (15 - r)) by (unfold Z.lnot; lia).
    rewrite (land_nibble _ 8) by lia.
    assert (E8 : Z.land (Z.land 8 (r - 1)) (15 - r) = 0).
    { assert (Hc : r = 1 \/ r = 2 \/ r = 3 \/ r = 4 \/ r = 5 \/ r = 6 \/ r = 7 \/ r = 8 \/ r = 9 \/ r = 10 \/ r = 11 \/ r = 12 \/ r = 13 \/ r = 14 \/ r = 15) by lia.
      clear - Hc. clearbody r. decompose [or] Hc; subst r; reflexivity. }
    assert (H8 := land_bound 8 (r - 1) 4 ltac:(lia) ltac:(lia)). change (2 ^ 4) with 16 in H8.
    rewrite land_nibble by lia. rewrite E8.
    assert (Hnib : forall j : nat, nib q (Z.of_nat j) = nib x (Z.of_nat (S j))).
    { intros j. rewrite nib_div, (nib_div16 x) by lia. unfold q. do 4 f_equal. lia. }
    destruct (IH q i ltac:(lia)) as [c Hc].
    + rewrite Hnib. exact H0.
    + intros j Hlt. rewrite Hnib. apply Hj. lia.
    + exists c. unfold zero_test in Hc. rewrite Hc. replace (4 * Z.of_nat (S i) + 3) with (4 + (4 * Z.of_nat i + 3)) by lia.
      rewrite (Z.pow_add_r 2 4) by lia. change (2 ^ 4) with 16. ring.
Qed.

Lemma ctz_odd k c : 0 <= k -> ctz (2 ^ k * (2 * c + 1)) = k.
Proof.
  intros Hk. unfold ctz. replace (Z.land _ _) with (2 ^ k); [apply Z.log2_pow2, Hk|]. symmetry.
  rewrite <- Z.mul_opp_r, !(Z.mul_comm (2 ^ k)), <- !Z.shiftl_mul_pow2, <- Z.shiftl_land by lia.
  replace (Z.land (2 * c + 1) (- (2 * c + 1))) with 1; [apply Z.shiftl_1_l|]. symmetry.
  replace (- (2 * c + 1)) with (2 * Z.lnot c + 1) by (unfold Z.lnot; lia).
  apply Z.bits_inj'. intros i Hi. rewrite Z.land_spec. destruct (Z.eq_dec i 0) as [->|Hn].
  - rewrite !Z.testbit_odd_0. reflexivity.
  - replace i with (Z.succ (i - 1)) by lia. rewrite !Z.testbit_odd_succ by lia. rewrite Z.lnot_spec by lia.
    rewrite andb_negb_r. destruct (i - 1) eqn:E; [reflexivity|symmetry; apply (Z.bits_above_log2 1); cbn; lia|lia].
Qed.

Lemma find_lowest_zero_nibble_spec x (i : nat) :
  (i < 16)%nat -> nib x (Z.of_nat i) = 0 -> (forall j, (j < i)%nat -> nib x (Z.of_nat j) <> 0) ->
  find_lowest_zero_nibble x = Z.of_nat i.
Proof.
  intros Hi H0 Hj. destruct (zero_test_first 16 x i Hi H0 Hj) as [c Hc].
  assert (Eu : forall h y, 0 <= h < 2 ^ 64 -> Z.land h (u64 y) = Z.land h y).
  { intros h y Hh. unfold u64. rewrite <- Z.land_ones, (Z.land_comm y), Z.land_assoc, Z.land_ones, Z.mod_small by lia. reflexivity. }
  assert (Et : Z.land (Z.land 0x8888888888888888 (u64 (x - 0x1111111111111111))) (u64 (Z.lnot x)) = zero_test 16 x).
  { rewrite !Eu; [reflexivity|lia|apply land_bound; lia]. }
  unfold find_lowest_zero_nibble. rewrite Et, Hc, ctz_odd by lia.
  assert (2 ^ (4 * Z.of_nat i + 3) > 0) by (apply Z.lt_gt, Z.pow_pos_nonneg; lia).
  destruct (Z.eqb_spec (2 ^ (4 * Z.of_nat i + 3) * (2 * c + 1)) 0) as [E|]; [apply Z.mul_eq_0 in E; lia|].
  rewrite Z.shiftr_div_pow2 by lia. change (2 ^ 2) with 4. symmetry. apply (Z.div_unique _ _ _ 3); lia.
Qed.

(** ** Leaves as lists of entries *)

Definition entry : Type := Z * Z * Z * list byte.
Definition entry_of (s : slot) : entry :=
  (ikey0 s, keylenx s, lv s, if keylenx_has_ksuf (keylenx s) then suf s else []).
Definition no_slot : slot := mkSlot 0 0 0 [].
Definition entry_at (n : leaf) (p : Z) : entry := entry_of (nth (Z.to_nat p) (slots n) no_slot).

Section Facts.
Context (width : Z) (nv : nodeversion_parameters) `{L : !NvLayout nv} (mem : memory).
Hypothesis Hwidth : 3 <= width <= 15.

(** The entry a new key gets. *)
Definition key_entry (ka : key.key) : entry :=
  (key.ikey ka, key.ikeylen ka, empty_value, if key.has_suffix ka then suffix_of mem ka else []).

(** [n]'s live slots, in order, are [l], its free slots [f]. *)
Record rep (n : leaf) (l f : list Z) : Prop := {
  rep_holds : holds width (permutation_ n) l f;
  rep_perm : l ++ f ≡ₚ seqZ 0 width;
  rep_slots : Z.of_nat (length (slots n)) = width
}.

Definition contents (n : leaf) : list entry :=
  entry_at n <$> take (Z.to_nat (size n)) (elems width (permutation_ n)).

Lemma rep_size n l f : rep n l f -> size n = Z.of_nat (length l).
Proof. intros [[H _] _ _]. exact H. Qed.
Lemma rep_contents n l f : rep n l f -> contents n = entry_at n <$> l.
Proof.
  intros H. unfold contents. rewrite (rep_size _ _ _ H), Nat2Z.id. destruct H as [[_ ->] _ _]. rewrite take_app_length. reflexivity.
Qed.
Lemma rep_length n l f : rep n l f -> Z.of_nat (length l) + Z.of_nat (length f) = width.
Proof. intros [H _ _]. exact (holds_length width ltac:(lia) _ _ _ H). Qed.
Lemma rep_range n l f p : rep n l f -> p ∈ l ++ f -> 0 <= p < width.
Proof. intros [_ H _] Hp. rewrite H in Hp. apply elem_of_seqZ in Hp. lia. Qed.
Lemma rep_NoDup n l f : rep n l f -> NoDup (l ++ f).
Proof. intros [_ H _]. rewrite H. apply NoDup_seqZ. Qed.
Lemma rep_slot n l f p : rep n l f -> 0 <= p < width -> exists s, slot_at n p = Some s /\ entry_at n p = entry_of s.
Proof.
  intros [_ _ H] Hp. unfold slot_at, entry_at. destruct (lookup_lt_is_Some_2 (slots n) (Z.to_nat p) ltac:(lia)) as [s Hs].
  exists s. split; [exact Hs|]. f_equal. apply nth_lookup_Some, Hs.
Qed.
Lemma rep_back n l f v : rep n l (f ++ [v]) -> back width (permutation_ n) = v.
Proof.
  intros H. pose proof (rep_length _ _ _ H) as Hl. destruct H as [[_ He] _ _]. rewrite length_app in Hl. cbn [length] in Hl.
  rewrite back_nib. replace width with (Z.of_nat (length l + length f) + 1) by lia. eapply (elems_nib width); [lia|exact He|].
  rewrite lookup_app_r, lookup_app_r by lia. replace (length l + length f - length l - length f)%nat with 0%nat by lia. reflexivity.
Qed.

Lemma has_ksuf_ikeylen ka : keylenx_has_ksuf (key.ikeylen ka) = key.has_suffix ka.
Proof. unfold keylenx_has_ksuf, key.ikeylen, key.has_suffix, key.length. destruct (Z.ltb_spec key.ikey_size (key.len_ ka)); lia. Qed.

(** Writing one slot. *)
Lemma entry_poke n sl p s q : poke (slots n) (Z.to_nat p) s = Some sl -> 0 <= p -> 0 <= q ->
  entry_of (nth (Z.to_nat q) sl no_slot) = if q =? p then entry_of s else entry_at n q.
Proof.
  intros H Hp Hq. apply poke_Some in H as [Hl ->]. unfold entry_at. destruct (Z.eqb_spec q p) as [->|Hn].
  - f_equal. apply nth_lookup_Some. apply list_lookup_insert_eq, Hl.
  - f_equal. rewrite !nth_lookup, list_lookup_insert_ne by lia. reflexivity.
Qed.

Lemma assign_in n p ka : Z.of_nat (length (slots n)) = width -> 0 <= p < width ->
  exists n', assign mem n p ka = Some n' /\ v_ n' = v_ n /\ nremoved_ n' = nremoved_ n /\ permutation_ n' = permutation_ n /\
    Z.of_nat (length (slots n')) = width /\
    (forall q, 0 <= q -> entry_at n' q = if q =? p then key_entry ka else entry_at n q).
Proof.
  intros Hs Hp. unfold assign, slot_at. destruct (lookup_lt_is_Some_2 (slots n) (Z.to_nat p) ltac:(lia)) as [s E]. rewrite E.
  cbn [mbind option_bind]. rewrite poke_in by lia. cbn [mbind option_bind]. eexists. split; [reflexivity|].
  repeat (split; [reflexivity|]). split; [cbn [slots]; rewrite length_insert; exact Hs|]. intros q Hq.
  unfold entry_at at 1. cbn [slots]. erewrite entry_poke by first [lia | apply poke_in; lia].
  destruct (q =? p); [|reflexivity]. unfold entry_of, key_entry. cbn [ikey0 keylenx lv suf]. rewrite has_ksuf_ikeylen.
  destruct (key.has_suffix ka); reflexivity.
Qed.

Lemma entries_ext n n' (l : list Z) : (forall p, p ∈ l -> entry_at n' p = entry_at n p) -> entry_at n' <$> l = entry_at n <$> l.
Proof. intros H. apply list_fmap_ext. intros i p Hp. apply H. eapply list_elem_of_lookup_2, Hp. Qed.

(** finish_insert makes the entry in the last free slot visible. *)
Lemma finish_insert_ok n l f kp (ki : nat) : rep n l (f ++ [kp]) -> (ki <= length l)%nat ->
  exists n', finish_insert width n (Z.of_nat ki) kp = Some n' /\ v_ n' = v_ n /\ nremoved_ n' = nremoved_ n /\ slots n' = slots n /\
    rep n' (internode.ins ki kp l) f /\ contents n' = internode.ins ki (entry_at n kp) (contents n).
Proof.
  intros Hr Hki. pose proof Hr as [Hh Hp Hs]. destruct (insert_from_back_holds width ltac:(lia) _ l f kp ki Hh Hki) as [_ Hh'].
  unfold finish_insert. rewrite (rep_back _ _ _ _ Hr), Z.eqb_refl. cbn [negb]. eexists. split; [reflexivity|].
  repeat (split; [reflexivity|]). set (n' := set_permutation _ n).
  assert (Hr' : rep n' (internode.ins ki kp l) f).
  { split; [exact Hh'| |exact Hs]. unfold internode.ins. rewrite <- Hp. rewrite <- (take_drop ki l) at 3.
    rewrite <- !app_assoc. cbn [app]. apply Permutation_app_head. rewrite Permutation_middle. apply Permutation_app_head.
    apply Permutation_cons_append. }
  split; [exact Hr'|]. rewrite (rep_contents _ _ _ Hr), (rep_contents _ _ _ Hr'). change (entry_at n') with (entry_at n).
  unfold internode.ins. rewrite fmap_app, fmap_cons, fmap_take, fmap_drop. reflexivity.
Qed.

Lemma rep_last_free n l f kp : rep n l (f ++ [kp]) -> 0 <= kp < width /\ kp ∉ l.
Proof.
  intros Hr. split; [apply (rep_range _ _ _ kp Hr); set_solver|]. intros Hin.
  pose proof (rep_NoDup _ _ _ Hr) as Hnd. apply NoDup_app in Hnd as (_ & H & _). apply (H kp Hin). set_solver.
Qed.

(** Another leaf with the same permuter and the same entries but for a free slot. *)
Lemma contents_free n n' l f kp : rep n l (f ++ [kp]) -> permutation_ n' = permutation_ n -> length (slots n') = length (slots n) ->
  (forall q, 0 <= q -> q <> kp -> entry_at n' q = entry_at n q) -> rep n' l (f ++ [kp]) /\ contents n' = contents n.
Proof.
  intros Hr Hp Hl He. destruct (rep_last_free _ _ _ _ Hr) as [_ Hnl]. pose proof Hr as [Hh Hpm Hs].
  assert (Hr' : rep n' l (f ++ [kp])) by (split; [rewrite Hp; exact Hh|exact Hpm|lia]). split; [exact Hr'|].
  rewrite (rep_contents _ _ _ Hr), (rep_contents _ _ _ Hr'). apply entries_ext. intros p Hin. apply He; [|congruence].
  apply (rep_range _ _ _ p Hr), elem_of_app. auto.
Qed.

(** The new entry is written to the last free slot, then made visible. *)
Lemma assign_finish_insert n l f kp ka (ki : nat) :
  rep n l (f ++ [kp]) -> (ki <= length l)%nat ->
  exists n' n'', assign mem n kp ka = Some n' /\ v_ n' = v_ n /\ finish_insert width n' (Z.of_nat ki) kp = Some n'' /\
    contents n' = contents n /\ rep n' l (f ++ [kp]) /\
    rep n'' (internode.ins ki kp l) f /\ contents n'' = internode.ins ki (key_entry ka) (contents n) /\
    nremoved_ n'' = nremoved_ n /\ nremoved_ n' = nremoved_ n /\
    (forall q, 0 <= q -> entry_at n'' q = if q =? kp then key_entry ka else entry_at n q).
Proof.
  intros Hr Hki. destruct (rep_last_free _ _ _ _ Hr) as [Hkp _]. pose proof Hr as [_ _ Hs].
  destruct (assign_in n kp ka Hs Hkp) as (n' & Ea & Ev & En & Epm & Hs' & He).
  destruct (contents_free n n' l f kp Hr Epm ltac:(lia)) as [Hr' Ec].
  { intros q Hq Hne. rewrite He by exact Hq. destruct (Z.eqb_spec q kp); [contradiction|reflexivity]. }
  destruct (finish_insert_ok n' l f kp ki Hr' Hki) as (n'' & Ef & Ev' & En' & Esl & Hr'' & Ec'').
  exists n', n''. do 5 (split; [assumption|]). split; [assumption|]. split; [rewrite Ec'', Ec, He, Z.eqb_refl by lia; reflexivity|].
  split; [congruence|]. split; [exact En|]. intros q Hq. unfold entry_at at 1. rewrite Esl. apply He, Hq.
Qed.

(** Slot 0, if it is free, comes first among the free slots and is used last. *)
Definition zero_last (f : list Z) : Prop := 0 ∈ f -> head f = Some 0.

Lemma zero_last_pop f v : zero_last (f ++ [v]) -> zero_last f.
Proof. intros H H0. destruct f as [|a f]; [set_solver|]. apply H. set_solver. Qed.

Lemma zero_last_back n l f : rep n l (f ++ [0]) -> zero_last (f ++ [0]) -> f = [].
Proof.
  intros Hr Hz. destruct f as [|a f]; [reflexivity|]. exfalso. specialize (Hz ltac:(set_solver)). cbn in Hz. injection Hz as ->.
  pose proof (rep_NoDup _ _ _ Hr) as Hnd. apply NoDup_app in Hnd as (_ & _ & Hnd). cbn [app] in Hnd. apply NoDup_cons in Hnd as [H _].
  apply H. set_solver.
Qed.

Lemma ikey_bound_entry n l f : rep n l f -> ikey_bound n = Some (entry_at n 0).1.1.1.
Proof.
  intros Hr. destruct (rep_slot n l f 0 Hr ltac:(lia)) as (s & Hs & He). unfold ikey_bound, ikey. rewrite Hs, He. reflexivity.
Qed.

Lemma free_cases (f : list Z) : f = [] \/ exists f' v, f = f' ++ [v].
Proof. destruct f as [|a f] using rev_ind; [auto|eauto]. Qed.

(** What an insertion that found a slot leaves behind: the entry in the last free
    slot, for finish_insert. *)
Definition inserted (has_prev : bool) (n : leaf) (ka : key.key) (kp : Z) (n1 : leaf) : Prop :=
  exists l f, rep n1 l (f ++ [kp]) /\ contents n1 = contents n /\ entry_at n1 kp = key_entry ka /\
    0 <= nremoved_ n1 /\ size n1 + nremoved_ n1 < width /\
    (has_prev = true -> nremoved_ n1 = 0 -> zero_last (f ++ [kp])) /\
    (has_prev = true -> ikey_bound n1 = ikey_bound n).

Lemma insert_guard has_prev n l f ka :
  rep n l f -> 0 <= nremoved_ n -> (has_prev = true -> nremoved_ n = 0 -> zero_last f) ->
  size n + nremoved_ n < width ->
  (back width (permutation_ n) <> 0 \/ has_prev = false \/ ikey_bound n = Some (key.ikey ka)) ->
  exists n1, assign mem n (back width (permutation_ n)) ka = Some n1 /\ v_ n1 = v_ n /\
    inserted has_prev n ka (back width (permutation_ n)) n1.
Proof.
  intros Hr Hn Hz Hs Hg. pose proof (rep_length _ _ _ Hr) as Hl. pose proof Hs as Hs0. rewrite (rep_size _ _ _ Hr) in Hs.
  destruct (free_cases f) as [->|(f' & v & ->)]; [cbn in Hl; lia|]. rewrite (rep_back _ _ _ _ Hr) in *.
  destruct (rep_last_free _ _ _ _ Hr) as [Hkp _]. pose proof Hr as [_ _ Hsl].
  destruct (assign_in n v ka Hsl Hkp) as (n1 & Ea & Ev & En & Epm & Hs' & He).
  destruct (contents_free n n1 l f' v Hr Epm ltac:(lia)) as [Hr1 Ec].
  { intros q Hq Hne. rewrite He by exact Hq. destruct (Z.eqb_spec q v); [contradiction|reflexivity]. }
  exists n1. split; [exact Ea|]. split; [exact Ev|]. exists l, f'. split; [exact Hr1|]. split; [exact Ec|].
  split; [rewrite He, Z.eqb_refl by lia; reflexivity|]. split; [lia|]. split; [unfold size in *; rewrite Epm; lia|].
  split; [intros Hp H0; apply Hz; congruence|].
  intros Hp. rewrite (ikey_bound_entry _ _ _ Hr1), (ikey_bound_entry _ _ _ Hr), He by lia. destruct (Z.eqb_spec 0 v) as [<-|]; [|reflexivity].
  destruct Hg as [Hg|[Hg|Hg]]; [congruence|congruence|]. rewrite (ikey_bound_entry _ _ _ Hr) in Hg. symmetry. exact Hg.
Qed.

(** The outcome that the rest of check_leaf_insert relies on. *)
Definition insert_ok (has_prev : bool) (n : leaf) (ka : key.key) (r : insert_outcome) : Prop :=
  match r with
  | Inserted kp n1 => inserted has_prev n ka kp n1 /\ (v_ n1 = v_ n \/ v_ n1 = Z.lor (v_ n) (inserting_bit nv))
  | ResetRetry => width < nremoved_ n
  | NeedSplit n1 => contents n1 = contents n /\ nremoved_ n1 = 0 /\ width - 1 <= size n1 /\ locked nv (v_ n1) = true /\
      (exists l f, rep n1 l f) /\ (v_ n1 = v_ n \/ v_ n1 = Z.lor (v_ n) (inserting_bit nv)) /\ ikey_bound n1 = ikey_bound n
  end.

(** Without removals the first turn decides. *)
Lemma do_insert_fresh fuel has_prev n l f ka :
  rep n l f -> nremoved_ n = 0 -> (has_prev = true -> zero_last f) -> locked nv (v_ n) = true ->
  exists r, do_insert width nv mem (S fuel) has_prev n ka = Some r /\ insert_ok has_prev n ka r /\ r <> ResetRetry /\
    (forall kp n1, r = Inserted kp n1 -> v_ n1 = v_ n) /\ (forall n1, r = NeedSplit n1 -> n1 = n).
Proof.
  intros Hr Hn Hz Hl. cbn [do_insert]. pose proof (ikey_bound_entry _ _ _ Hr) as Hb. rewrite Hb. cbn [mbind option_bind].
  set (bound := (entry_at n 0).1.1.1) in *. destruct (andb _ _) eqn:E.
  - apply andb_true_iff in E as [E1 E2]. apply Z.ltb_lt in E1.
    destruct (insert_guard has_prev n l f ka) as (n1 & Ea & Ev & Hi); try assumption; try lia; [auto| |].
    { rewrite Hb. destruct (Z.eqb_spec (back width (permutation_ n)) 0), has_prev, (Z.eqb_spec bound (key.ikey ka)); auto; try discriminate; right; right; congruence. }
    rewrite Ea. eexists. split; [reflexivity|]. split; [split; [exact Hi|auto]|]. split; [discriminate|]. split; [congruence|discriminate].
  - rewrite Hn. cbn [Z.ltb Z.compare]. eexists. split; [reflexivity|]. split; [|split; [discriminate|split; [discriminate|congruence]]]. cbn [insert_ok]. split; [reflexivity|]. split; [exact Hn|].
    split; [|eauto 8]. rewrite Hn, (rep_size _ _ _ Hr) in *. pose proof (rep_length _ _ _ Hr) as HL.
    destruct (Z.ltb_spec (Z.of_nat (length l) + 0) width) as [Hlt|]; [|lia]. cbn [andb] in E.
    destruct (free_cases f) as [->|(f' & v & ->)]; [cbn in HL; lia|]. rewrite (rep_back _ _ _ _ Hr) in E.
    destruct (Z.eqb_spec v 0) as [->|], has_prev; try discriminate E.
    rewrite (zero_last_back _ _ _ Hr (Hz eq_refl)) in HL. cbn in HL. lia.
Qed.

(** Slot 0 is where the nibble search says. *)
Lemma zero_index n l f : rep n l f ->
  exists i : nat, (l ++ f) !! i = Some 0 /\ Z.of_nat i < width /\
    find_lowest_zero_nibble (value_from (permutation_ n) 0) = Z.of_nat i /\ at_ (permutation_ n) (Z.of_nat i) = 0.
Proof.
  intros Hr. pose proof Hr as [[_ He] Hp _]. pose proof (rep_length _ _ _ Hr) as HL.
  assert (H0 : 0 ∈ l ++ f) by (rewrite Hp; apply elem_of_seqZ; lia).
  apply list_elem_of_lookup_1 in H0 as [i Hi]. exists i. split; [exact Hi|].
  pose proof (lookup_lt_Some _ _ _ Hi) as Hlt. rewrite length_app in Hlt. split; [lia|].
  assert (Hn : forall j v, (l ++ f) !! j = Some v -> nib (permutation_ n) (Z.of_nat j + 1) = v)
    by (intros j v; apply (elems_nib width); [lia|exact He]).
  assert (Ev : forall j : nat, nib (value_from (permutation_ n) 0) (Z.of_nat j) = nib (permutation_ n) (Z.of_nat j + 1)).
  { intros j. unfold value_from. change (Z.shiftl (0 + 1) 2) with (4 * 1). apply nib_shiftr; lia. }
  split; [|rewrite at_nib; apply Hn, Hi]. apply find_lowest_zero_nibble_spec; [lia|rewrite Ev; apply Hn, Hi|].
  intros j Hj E. rewrite Ev in E. destruct (lookup_lt_is_Some_2 (l ++ f) j) as [v Hv]; [rewrite length_app; lia|].
  rewrite (Hn _ _ Hv) in E. subst v. pose proof (rep_NoDup _ _ _ Hr) as Hnd. pose proof (NoDup_lookup _ _ _ _ Hnd Hi Hv). lia.
Qed.

(** The exchange that puts a free slot 0 in front. *)
Lemma zero_exchange n l f (i : nat) v : rep n l f -> (l ++ f) !! i = Some 0 -> (length l < i)%nat ->
  exists f', rep (mk v 0 (exchange width (permutation_ n) (Z.of_nat (length l)) (Z.of_nat i)) (slots n)) l f' /\ zero_last f'.
Proof.
  intros Hr Hi Hlt. pose proof Hr as [[Hs He] Hp Hsl]. pose proof (lookup_lt_Some _ _ _ Hi) as Hil. rewrite length_app in Hil.
  destruct (lookup_lt_is_Some_2 (l ++ f) (length l)) as [a Ha]; [rewrite length_app; lia|].
  destruct (exchange_elems width ltac:(lia) (permutation_ n) (length l) i a 0) as [Es Ee]; [rewrite He; assumption..|].
  rewrite He in Ee. rewrite lookup_app_r, Nat.sub_diag in Ha by lia. rewrite lookup_app_r in Hi by lia.
  exists (<[0%nat := 0]> (<[(i - length l)%nat := a]> f)). split.
  - split; cbn [permutation_ slots].
    + split; [rewrite Es; exact Hs|]. rewrite Ee, insert_app_r_alt by lia. rewrite insert_app_r_alt by lia. rewrite Nat.sub_diag. reflexivity.
    + rewrite (exchange_perm f 0 (i - length l) a 0) by assumption. exact Hp.
    + exact Hsl.
  - intros _. destruct f as [|b f]; [discriminate Ha|]. destruct (i - length l)%nat; reflexivity.
Qed.

Lemma do_insert_ok has_prev n l f ka :
  rep n l f -> 0 <= nremoved_ n -> (has_prev = true -> nremoved_ n = 0 -> zero_last f) -> locked nv (v_ n) = true ->
  exists r, do_insert width nv mem 2 has_prev n ka = Some r /\ insert_ok has_prev n ka r.
Proof.
  intros Hr Hn Hz Hl. destruct (Z.eq_dec (nremoved_ n) 0) as [E0|Hn0].
  { destruct (do_insert_fresh 1 has_prev n l f ka) as (r & E & Hok & _); auto. eauto. }
  remember 1%nat as one eqn:Eone. cbn [do_insert]. pose proof (ikey_bound_entry _ _ _ Hr) as Hb. rewrite Hb. cbn [mbind option_bind].
  set (bound := (entry_at n 0).1.1.1) in *. destruct (andb _ _) eqn:E.
  - apply andb_true_iff in E as [E1 E2]. apply Z.ltb_lt in E1.
    destruct (insert_guard has_prev n l f ka) as (n1 & Ea & Ev & Hi); try assumption; try lia.
    { rewrite Hb. destruct (Z.eqb_spec (back width (permutation_ n)) 0), has_prev, (Z.eqb_spec bound (key.ikey ka)); auto; try discriminate; right; right; congruence. }
    rewrite Ea. eexists. split; [reflexivity|]. split; [exact Hi|auto].
  - destruct (Z.ltb_spec 0 (nremoved_ n)); [|lia]. unfold deleted_layer. destruct (Z.ltb_spec width (nremoved_ n)).
    { eexists. split; [reflexivity|assumption]. }
    unfold mark_insert. rewrite Hl. cbn [mbind option_bind].
    destruct (zero_index n l f Hr) as (i & Hi & Hiw & -> & ->). rewrite Z.eqb_refl. destruct (Z.ltb_spec (Z.of_nat i) width); [|lia].
    cbn [andb negb]. change (KPermuter.size (permutation_ n)) with (size n). rewrite (rep_size _ _ _ Hr).
    set (v := Z.lor (v_ n) (inserting_bit nv)).
    assert (Hlv : locked nv v = true).
    { rewrite (locked_bit nv) in Hl |- *. unfold v. rewrite Z.lor_spec, Hl. reflexivity. }
    assert (H2 : forall perm f', rep (mk v 0 perm (slots n)) l f' -> (has_prev = true -> zero_last f') ->
      exists r, do_insert width nv mem one has_prev (mk v 0 perm (slots n)) ka = Some r /\ insert_ok has_prev n ka r).
    { intros perm f' Hr' Hz'. subst one. destruct (do_insert_fresh 0 has_prev _ _ _ ka Hr' eq_refl Hz' Hlv) as (r & -> & Hok & Hnr & Hv & Hsame).
      exists r. split; [reflexivity|].
      assert (Ec : contents (mk v 0 perm (slots n)) = contents n) by (rewrite (rep_contents _ _ _ Hr'), (rep_contents _ _ _ Hr); reflexivity).
      destruct r as [kp n1| |n1]; [|contradiction|]; cbn [insert_ok] in *; unfold inserted in *; rewrite Ec in Hok;
        [|rewrite (Hsame n1 eq_refl) in *; destruct Hok as (A1 & A2 & A3 & A4 & A5 & _); repeat (split; [assumption|]); auto].
      destruct Hok as [Hok _]. split; [exact Hok|]. right. apply (Hv kp n1), eq_refl. }
    destruct (Z.ltb_spec (Z.of_nat (length l)) (Z.of_nat i)) as [Hlt|Hge].
    + destruct has_prev; cbn [andb].
      * destruct (zero_exchange n l f i v Hr Hi ltac:(lia)) as (f' & Hr' & Hz'). eapply H2; [exact Hr'|auto].
      * apply (H2 _ f); [destruct Hr; split; assumption|discriminate].
    + cbn [andb]. apply (H2 _ f); [destruct Hr; split; assumption|]. intros _ Hz0.
      destruct (decide (i < length l)%nat) as [Hil|].
      * rewrite lookup_app_l in Hi by exact Hil. pose proof (rep_NoDup _ _ _ Hr) as Hnd. apply NoDup_app in Hnd as (_ & Hd & _).
        destruct (Hd 0); [eapply list_elem_of_lookup_2, Hi|exact Hz0].
      * rewrite lookup_app_r in Hi by lia. replace (i - length l)%nat with 0%nat in Hi by lia. destruct f; [discriminate|exact Hi].
Qed.

Lemma finish_remove_ok has_prev n l f ki :
  rep n l f -> 0 <= nremoved_ n -> (ki < length l)%nat ->
  let '(n', empty) := finish_remove width n (Z.of_nat ki) in
  contents n' = delete ki (contents n) /\ empty = bool_decide (contents n' = []) /\ nremoved_ n' = nremoved_ n + 1 /\
  ikey_bound n' = ikey_bound n /\
  exists l' f', rep n' l' f' /\ (has_prev = true -> nremoved_ n' = 0 -> zero_last f').
Proof.
  intros Hr Hn Hki. pose proof Hr as [Hh Hp Hs]. destruct (lookup_lt_is_Some_2 l ki Hki) as [v Hv].
  destruct (mid_split l ki v Hv) as [El Elen]. unfold finish_remove.
  set (l1 := take ki l) in *. set (l2 := drop (S ki) l) in *. rewrite El in Hh.
  pose proof (remove_holds width ltac:(lia) _ _ _ _ _ Hh) as Hh'. rewrite Elen in Hh'.
  assert (Hr' : rep (mk (v_ n) (nremoved_ n + 1) (remove width (permutation_ n) (Z.of_nat ki)) (slots n)) (l1 ++ l2) (v :: f)).
  { split; [exact Hh'| |exact Hs]. rewrite <- Hp, El, <- !app_assoc. apply Permutation_app_head. cbn [app]. symmetry. apply Permutation_middle. }
  assert (Ec : contents (mk (v_ n) (nremoved_ n + 1) (remove width (permutation_ n) (Z.of_nat ki)) (slots n)) = delete ki (contents n)).
  { rewrite (rep_contents _ _ _ Hr'), (rep_contents _ _ _ Hr). change (entry_at (mk _ _ _ (slots n))) with (entry_at n).
    rewrite El, !fmap_app, fmap_cons. replace ki with (length (entry_at n <$> l1)) by (rewrite length_fmap; exact Elen).
    rewrite delete_middle. reflexivity. }
  split; [exact Ec|]. split; [|split; [reflexivity|split; [reflexivity|]]].
  - rewrite (rep_contents _ _ _ Hr'). destruct Hh' as [Hsz _]. rewrite Hsz. destruct (l1 ++ l2); reflexivity.
  - eexists _, _. split; [exact Hr'|]. cbn [nremoved_]. lia.
Qed.

(** ** Splitting *)

Definition no_entry : entry := (0, 0, 0, []).
Definition ikey_of (e : entry) : Z := e.1.1.1.

Section Split.
(** The leaf to split, its slots, and where the new key belongs. *)
Context (nl : leaf) (l f : list Z) (ka : key.key) (p : nat).
Hypothesis Hrep : rep nl l f.
Hypothesis Hp : (p <= length l)%nat.

Definition joined : list entry := internode.ins p (key_entry ka) (contents nl).
Definition joined_at (i : Z) : entry := nth (Z.to_nat i) joined no_entry.
Definition last_pos : Z := Z.of_nat (length l).

Lemma length_contents : length (contents nl) = length l.
Proof. rewrite (rep_contents _ _ _ Hrep), length_fmap. reflexivity. Qed.
Lemma length_joined : length joined = S (length l).
Proof. unfold joined. rewrite internode.length_ins, length_contents by (rewrite length_contents; exact Hp). reflexivity. Qed.

(** Position [i] of the joined sequence: the new key, or a slot of the leaf. *)
Lemma joined_cases i : 0 <= i <= last_pos ->
  (i = Z.of_nat p /\ joined_at i = key_entry ka) \/
  (i <> Z.of_nat p /\ exists q, l !! Z.to_nat (i - Z.b2z (Z.of_nat p <? i)) = Some q /\
     at_ (permutation_ nl) (i - Z.b2z (Z.of_nat p <? i)) = q /\ 0 <= q < width /\ joined_at i = entry_at nl q).
Proof.
  intros Hi. unfold last_pos in Hi. unfold joined_at, joined. rewrite nth_lookup, internode.lookup_ins by (rewrite length_contents; exact Hp).
  destruct (Z.eq_dec i (Z.of_nat p)) as [->|Hn].
  - left. rewrite Nat2Z.id, decide_False, decide_True by lia. auto.
  - right. split; [exact Hn|]. set (j := i - Z.b2z (Z.of_nat p <? i)).
    assert (Hj : 0 <= j < Z.of_nat (length l)) by (unfold j; destruct (Z.ltb_spec (Z.of_nat p) i); cbn [Z.b2z]; lia).
    destruct (lookup_lt_is_Some_2 l (Z.to_nat j) ltac:(lia)) as [q Hq]. exists q. split; [exact Hq|].
    pose proof Hrep as [[_ He] _ _]. split; [|split].
    + rewrite at_nib. replace j with (Z.of_nat (Z.to_nat j)) by lia. apply (elems_nib width ltac:(lia) _ (l ++ f)); [exact He|].
      rewrite lookup_app_l by lia. exact Hq.
    + apply (rep_range _ _ _ q Hrep), elem_of_app. left. eapply list_elem_of_lookup_2, Hq.
    + rewrite (rep_contents _ _ _ Hrep), !list_lookup_fmap. unfold j in *. clear j.
      destruct (Z.ltb_spec (Z.of_nat p) i); cbn [Z.b2z] in *.
      * rewrite !decide_False by lia. replace (Z.to_nat i - 1)%nat with (Z.to_nat (i - 1)) by lia. rewrite Hq. reflexivity.
      * rewrite decide_True by lia. rewrite Z.sub_0_r in Hq. rewrite Hq. reflexivity.
Qed.

Lemma leaf_ikey_in i : 0 <= i <= last_pos ->
  leaf_ikey nl (permutation_ nl) ka (Z.of_nat p) i = Some (ikey_of (joined_at i)).
Proof.
  intros Hi. destruct (joined_cases i Hi) as [[-> ->]|(Hn & q & _ & Hq & Hr & ->)]; unfold leaf_ikey.
  - rewrite Z.ltb_irrefl, Z.eqb_refl. reflexivity.
  - destruct (rep_slot _ _ _ q Hrep Hr) as (s & Hs & ->). unfold ikey.
    destruct (Z.ltb_spec (Z.of_nat p) i); cbn [Z.b2z] in Hq.
    + destruct (Z.ltb_spec i (Z.of_nat p)), (Z.eqb_spec i (Z.of_nat p)); try lia. rewrite Hq, Hs. reflexivity.
    + destruct (Z.ltb_spec i (Z.of_nat p)); [|lia]. rewrite Z.sub_0_r in Hq. rewrite Hq, Hs. reflexivity.
Qed.

(** The search for another ikey succeeds unless all are equal. *)
Lemma find_mid_ok fuel mid t k :
  1 <= mid <= last_pos -> 0 <= t -> last_pos < Z.of_nat fuel + t + 1 ->
  (exists i, 0 <= i <= last_pos /\ ikey_of (joined_at i) <> k) ->
  (forall i, 0 <= i <= last_pos -> mid - 2 - t < i < mid + 1 + t -> ikey_of (joined_at i) = k) ->
  exists m, find_mid fuel nl (permutation_ nl) ka (Z.of_nat p) last_pos k (mid - 2 - t) (mid + 1 + t) = Some m /\
    1 <= m <= last_pos /\ ikey_of (joined_at (m - 1)) <> ikey_of (joined_at m).
Proof.
  intros Hm. revert t. induction fuel as [|fuel IH]; intros t Ht Hf Hex Heq.
  { destruct Hex as (i & Hi & []). apply Heq; lia. }
  cbn [find_mid]. set (midr := mid + 1 + t) in *. set (midl := mid - 2 - t) in *.
  assert (Er : (if midr <=? last_pos then k' ← leaf_ikey nl (permutation_ nl) ka (Z.of_nat p) midr; Some (negb (k =? k')) else Some false)
    = Some ((midr <=? last_pos) && negb (k =? ikey_of (joined_at midr)))).
  { destruct (Z.leb_spec midr last_pos); [|reflexivity]. rewrite leaf_ikey_in by lia. reflexivity. }
  rewrite Er. cbn [mbind option_bind]. destruct (Z.leb_spec midr last_pos) as [H1|H1], (Z.eqb_spec k (ikey_of (joined_at midr))) as [H2|H2];
    cbn [andb negb]; try (exists midr; split; [reflexivity|]; split; [lia|]; rewrite (Heq (midr - 1)) by lia; congruence).
  all: assert (El : (if 0 <=? midl then k' ← leaf_ikey nl (permutation_ nl) ka (Z.of_nat p) midl; Some (negb (k =? k')) else Some false)
    = Some ((0 <=? midl) && negb (k =? ikey_of (joined_at midl))))
    by (destruct (Z.leb_spec 0 midl); [rewrite leaf_ikey_in by lia|]; reflexivity).
  all: rewrite El; cbn [mbind option_bind]; destruct (Z.leb_spec 0 midl) as [H3|H3], (Z.eqb_spec k (ikey_of (joined_at midl))) as [H4|H4];
    cbn [andb negb]; try (exists (midl + 1); split; [reflexivity|]; split; [lia|]; rewrite (Heq (midl + 1)) by lia;
      replace (midl + 1 - 1) with midl by lia; congruence).
  all: replace (midl - 1) with (mid - 2 - (t + 1)) by lia; replace (midr + 1) with (mid + 1 + (t + 1)) by lia;
    apply IH; [lia|lia|exact Hex|]; intros i Hi Hr; destruct (Z.eq_dec i midr) as [->|]; [lia || congruence|];
    destruct (Z.eq_dec i midl) as [->|]; [lia || congruence|]; apply Heq; lia.
Qed.

Lemma fill_right_ok cnt nr mid x :
  Z.of_nat (length (slots nr)) = width -> 1 <= mid <= x -> x + Z.of_nat cnt = last_pos + 1 ->
  exists nr', fill_right mem cnt nl nr ka (Z.of_nat p) mid x (value_from (permutation_ nl) (x - Z.b2z (Z.of_nat p <? x))) = Some nr' /\
    v_ nr' = v_ nr /\ nremoved_ nr' = nremoved_ nr /\ Z.of_nat (length (slots nr')) = width /\
    forall j, 0 <= j -> entry_at nr' j = if (x - mid <=? j) && (j <? x - mid + Z.of_nat cnt) then joined_at (mid + j) else entry_at nr j.
Proof.
  pose proof (rep_length _ _ _ Hrep) as HL. unfold last_pos.
  revert nr x. induction cnt as [|cnt IH]; intros nr x Hs Hm Hx; cbn [fill_right].
  { exists nr. do 3 (split; [reflexivity|]). split; [exact Hs|]. intros j Hj.
    destruct (Z.leb_spec (x - mid) j), (Z.ltb_spec j (x - mid + Z.of_nat 0)); reflexivity || lia. }
  assert (Hpos : 0 <= x - mid < width) by lia.
  assert (Hx' : 0 <= x <= last_pos) by (unfold last_pos; lia).
  assert (Hstep : forall n1, Z.of_nat (length (slots n1)) = width -> v_ n1 = v_ nr -> nremoved_ n1 = nremoved_ nr ->
    (forall q, 0 <= q -> entry_at n1 q = if q =? x - mid then joined_at x else entry_at nr q) ->
    exists nr', fill_right mem cnt nl n1 ka (Z.of_nat p) mid (x + 1) (value_from (permutation_ nl) (x + 1 - Z.b2z (Z.of_nat p <? x + 1))) = Some nr' /\
      v_ nr' = v_ nr /\ nremoved_ nr' = nremoved_ nr /\ Z.of_nat (length (slots nr')) = width /\
      forall j, 0 <= j -> entry_at nr' j = if (x - mid <=? j) && (j <? x - mid + Z.of_nat (S cnt)) then joined_at (mid + j) else entry_at nr j).
  { intros n1 Hs1 Hv1 Hn1 He1. destruct (IH n1 (x + 1) Hs1 ltac:(lia) ltac:(lia)) as (nr' & E & Ev & En & Hs' & He).
    exists nr'. split; [exact E|]. split; [congruence|]. split; [congruence|]. split; [exact Hs'|]. intros j Hj. rewrite He, He1 by lia.
    destruct (Z.eqb_spec j (x - mid)) as [Ejx|]; destruct (Z.leb_spec (x + 1 - mid) j), (Z.leb_spec (x - mid) j),
      (Z.ltb_spec j (x + 1 - mid + Z.of_nat cnt)), (Z.ltb_spec j (x - mid + Z.of_nat (S cnt))); cbn [andb]; try lia; try reflexivity.
    all: f_equal; lia. }
  destruct (joined_cases x Hx') as [[-> Ej]|(Hn & q & _ & Hq & Hr & Ej)].
  - rewrite Z.eqb_refl. destruct (assign_in nr (Z.of_nat p - mid) ka Hs Hpos) as (n1 & -> & Ev & En & _ & Hs1 & He1). cbn [mbind option_bind].
    replace (Z.of_nat p - Z.b2z (Z.of_nat p <? Z.of_nat p)) with (Z.of_nat p + 1 - Z.b2z (Z.of_nat p <? Z.of_nat p + 1)).
    + apply Hstep; try assumption. intros q Hq. rewrite He1, Ej by lia. reflexivity.
    + destruct (Z.ltb_spec (Z.of_nat p) (Z.of_nat p)), (Z.ltb_spec (Z.of_nat p) (Z.of_nat p + 1)); cbn [Z.b2z]; lia.
  - destruct (Z.eqb_spec x (Z.of_nat p)) as [|_]; [contradiction|].
    set (d := x - Z.b2z (Z.of_nat p <? x)) in *.
    assert (Hd : 0 <= d) by (unfold d; destruct (Z.ltb_spec (Z.of_nat p) x); cbn [Z.b2z]; lia).
    assert (Epv : Z.land (value_from (permutation_ nl) d) 15 = q).
    { rewrite <- Hq. unfold value_from, at_. do 2 f_equal. rewrite !Z.shiftl_mul_pow2 by lia. lia. }
    rewrite Epv. destruct (rep_slot _ _ _ q Hrep Hr) as (sq & Hsq & Eq).
    unfold assign_initialize_from. change (slot_at nr (x - mid)) with (slots nr !! Z.to_nat (x - mid)). destruct (lookup_lt_is_Some_2 (slots nr) (Z.to_nat (x - mid)) ltac:(lia)) as [so Hso].
    rewrite Hso, Hsq. cbn [mbind option_bind]. rewrite poke_in by lia. cbn [mbind option_bind].
    replace (Z.shiftr (value_from (permutation_ nl) d) 4) with (value_from (permutation_ nl) (x + 1 - Z.b2z (Z.of_nat p <? x + 1))).
    + apply Hstep; cbn [slots v_ nremoved_]; [rewrite length_insert; exact Hs|reflexivity|reflexivity|].
      intros q' Hq'. unfold entry_at at 1. cbn [slots]. erewrite entry_poke by first [lia | apply poke_in; lia].
      destruct (q' =? x - mid); [|reflexivity]. rewrite Ej, Eq. unfold entry_of. cbn [ikey0 keylenx lv suf].
      destruct (keylenx_has_ksuf (keylenx sq)); reflexivity.
    + replace (x + 1 - Z.b2z (Z.of_nat p <? x + 1)) with (d + 1).
      * unfold value_from. rewrite Z.shiftr_shiftr by lia. f_equal. rewrite !Z.shiftl_mul_pow2 by lia. lia.
      * unfold d. destruct (Z.ltb_spec (Z.of_nat p) x), (Z.ltb_spec (Z.of_nat p) (x + 1)); cbn [Z.b2z]; lia.
Qed.

(** The right leaf, once its permuter shows all of its slots. *)
Lemma right_contents nr l' f' mid :
  1 <= mid <= last_pos -> rep nr l' f' -> l' = seqZ 0 (last_pos + 1 - mid) ->
  (forall j, 0 <= j < last_pos + 1 - mid -> entry_at nr j = joined_at (mid + j)) ->
  contents nr = drop (Z.to_nat mid) joined.
Proof.
  intros Hm Hr -> He. rewrite (rep_contents _ _ _ Hr). apply list_eq. intros j. unfold last_pos in *. rewrite list_lookup_fmap, lookup_drop.
  destruct (decide (Z.of_nat j < Z.of_nat (length l) + 1 - mid)) as [Hj|Hj].
  - rewrite lookup_seqZ_lt by lia. cbn. rewrite He by lia. unfold joined_at. replace (Z.to_nat (mid + (0 + Z.of_nat j))) with (Z.to_nat mid + j)%nat by lia.
    destruct (lookup_lt_is_Some_2 joined (Z.to_nat mid + j)) as [e He']; [rewrite length_joined; lia|]. rewrite He'. f_equal. apply nth_lookup_Some, He'.
  - rewrite lookup_seqZ_ge, lookup_ge_None_2 by (rewrite ?length_joined; lia). reflexivity.
Qed.

(** The left leaf keeps its first [m] slots. *)
Lemma left_rep m v : (m <= length l)%nat -> width - 1 <= last_pos ->
  let perm := set_size width (permutation_ nl) (Z.of_nat m) in
  let perm := if negb (last_pos =? width) then exchange width perm (KPermuter.size perm) (width - 1) else perm in
  exists f', rep (set_permutation perm (set_v v nl)) (take m l) f' /\ (f = [0] -> zero_last f').
Proof.
  intros Hm Hl. pose proof Hrep as [[Hs He] Hpm Hsl]. pose proof (rep_length _ _ _ Hrep) as HL. unfold last_pos in *. cbv zeta.
  destruct (set_size_elems width ltac:(lia) (permutation_ nl) (Z.of_nat m) ltac:(lia)) as [Es Ee]. rewrite He in Ee.
  set (x := set_size width (permutation_ nl) (Z.of_nat m)) in *. destruct (Z.eqb_spec (Z.of_nat (length l)) width) as [Ew|Hn]; cbn [negb].
  - exists (drop m l ++ f). split; [split; cbn [set_permutation set_v permutation_ slots]|].
    + split; [rewrite length_take, Nat.min_l by lia; exact Es|]. rewrite app_assoc, take_drop. exact Ee.
    + rewrite app_assoc, take_drop. exact Hpm.
    + exact Hsl.
    + intros ->. cbn in HL. lia.
  - assert (Hlen : length (l ++ f) = Z.to_nat width) by (rewrite length_app; lia).
    destruct (lookup_lt_is_Some_2 (l ++ f) m ltac:(lia)) as [a Ha].
    destruct (lookup_lt_is_Some_2 (l ++ f) (Z.to_nat width - 1) ltac:(lia)) as [b Hb].
    destruct (exchange_elems width ltac:(lia) x m (Z.to_nat width - 1) a b) as [Exs Exe]; [rewrite Ee; assumption..|].
    rewrite Ee in Exe. rewrite Es. replace (width - 1) with (Z.of_nat (Z.to_nat width - 1)) by lia.
    set (es := <[m := b]> (<[(Z.to_nat width - 1)%nat := a]> (l ++ f))) in *.
    assert (Et : take m es = take m l).
    { unfold es. rewrite !take_insert_ge by lia. rewrite take_app_le by lia. reflexivity. }
    exists (drop m es). split; [split; cbn [set_permutation set_v permutation_ slots]|].
    + split; [rewrite length_take, Nat.min_l, Exs by lia; exact Es|]. rewrite <- Et, take_drop. exact Exe.
    + rewrite <- Et, take_drop. unfold es. rewrite exchange_perm by assumption. exact Hpm.
    + exact Hsl.
    + intros Ef _. rewrite lookup_app_r in Hb by lia. rewrite Ef in Hb. replace (Z.to_nat width - 1 - length l)%nat with 0%nat in Hb by lia. injection Hb as <-.
      assert (Em : es !! m = Some 0) by (unfold es; apply list_lookup_insert_eq; rewrite length_insert, Hlen; lia).
      rewrite (drop_S _ _ _ Em). reflexivity.
Qed.

Lemma left_joined_lt mid : (p < mid)%nat -> (mid <= length l)%nat ->
  internode.ins p (key_entry ka) (take (mid - 1) (contents nl)) = take mid joined.
Proof.
  intros Hpm Hm. pose proof length_contents as Hc. unfold joined. apply list_eq. intros j.
  rewrite lookup_take, !internode.lookup_ins by (rewrite ?length_take; lia). rewrite !lookup_take.
  repeat case_decide; try lia; reflexivity.
Qed.
Lemma left_joined_ge mid : (mid <= p)%nat -> take mid (contents nl) = take mid joined.
Proof.
  intros Hpm. pose proof length_contents as Hc. unfold joined. apply list_eq. intros j.
  rewrite !lookup_take, internode.lookup_ins by lia. repeat case_decide; try lia; reflexivity.
Qed.

(** The middle the code picks. *)
Lemma choose_mid mid0 : 1 <= mid0 <= last_pos ->
  (exists i j, 0 <= i <= last_pos /\ 0 <= j <= last_pos /\ ikey_of (joined_at i) <> ikey_of (joined_at j)) ->
  exists mid, 1 <= mid <= last_pos /\ ikey_of (joined_at (mid - 1)) <> ikey_of (joined_at mid) /\
    (mid_ikey ← leaf_ikey nl (permutation_ nl) ka (Z.of_nat p) mid0;
     before ← leaf_ikey nl (permutation_ nl) ka (Z.of_nat p) (mid0 - 1);
     if mid_ikey =? before then
       mid ← find_mid (Z.to_nat last_pos) nl (permutation_ nl) ka (Z.of_nat p) last_pos mid_ikey (mid0 - 2) (mid0 + 1);
       if (0 <? mid) && (mid <=? last_pos) then Some mid else None
     else Some mid0) = Some mid.
Proof.
  intros Hm (i & j & Hi & Hj & Hij). rewrite !leaf_ikey_in by lia. cbn [mbind option_bind].
  destruct (Z.eqb_spec (ikey_of (joined_at mid0)) (ikey_of (joined_at (mid0 - 1)))) as [E|Hn].
  - destruct (find_mid_ok (Z.to_nat last_pos) mid0 0 (ikey_of (joined_at mid0))) as (m & Ef & Hm' & Hd); [exact Hm|lia|lia| | |].
    + destruct (Z.eq_dec (ikey_of (joined_at i)) (ikey_of (joined_at mid0))) as [Ei|Hi']; [exists j; split; [exact Hj|congruence]|eauto].
    + intros k Hk Hr. assert (k = mid0 - 1 \/ k = mid0) as [-> | ->] by lia; congruence.
    + rewrite Z.sub_0_r, Z.add_0_r in Ef. rewrite Ef. cbn [mbind option_bind].
      destruct (Z.ltb_spec 0 m), (Z.leb_spec m last_pos); try lia. exists m. auto.
  - exists mid0. repeat split; try lia; congruence.
Qed.

(** The new leaf's permuter hides the slot of the new key until finish_insert. *)
Lemma right_rep mid v nrm sl : 1 <= mid <= last_pos -> Z.of_nat (length sl) = width ->
  let n := last_pos + 1 - mid in
  if mid <=? Z.of_nat p
  then exists l1 l2 f', rep (mk v nrm (remove_to_back width (make_sorted width n) (Z.of_nat p - mid)) sl) (l1 ++ l2) (f' ++ [Z.of_nat p - mid]) /\
         Z.of_nat (length l1) = Z.of_nat p - mid /\ l1 ++ (Z.of_nat p - mid) :: l2 = seqZ 0 n
  else exists f', rep (mk v nrm (make_sorted width n) sl) (seqZ 0 n) f'.
Proof.
  intros Hm Hsl n. pose proof (rep_length _ _ _ Hrep) as HL. unfold last_pos in *.
  pose proof (make_sorted_holds width n ltac:(lia) ltac:(lia)) as Hh. pose proof (sorted_slots_perm width n ltac:(lia)) as Hpm.
  unfold sorted_slots in *. cbn [fst snd] in *. destruct (Z.leb_spec mid (Z.of_nat p)) as [Hmp|]; [|eexists; split; eassumption].
  set (q := Z.of_nat p - mid) in *.
  assert (Hq : seqZ 0 n = seqZ 0 q ++ q :: seqZ (q + 1) (n - q - 1)).
  { replace n with (q + (1 + (n - q - 1))) at 1 by lia. rewrite !seqZ_app by lia. rewrite Z.add_0_l. reflexivity. }
  exists (seqZ 0 q), (seqZ (q + 1) (n - q - 1)), (rev (seqZ n (width - n))). rewrite Hq in Hh, Hpm.
  split; [|split; [rewrite length_seqZ; lia|symmetry; exact Hq]]. split; [|rewrite <- Hpm|exact Hsl]; cbn [permutation_].
  - pose proof (remove_to_back_holds width ltac:(lia) _ _ _ _ _ Hh) as H. rewrite length_seqZ in H.
    replace (Z.of_nat (Z.to_nat q)) with q in H by lia. exact H.
  - rewrite <- !app_assoc. apply Permutation_app_head. cbn [app]. rewrite app_assoc. symmetry. apply Permutation_cons_append.
Qed.

Section Links.
(** The list of leaves, with the leaf to split in the middle and a new one beside. *)
Context (h : gmap nat leaflink.lnode) (k1 k2 : list nat) (nlp nrp : nat) (nd0 : leaflink.lnode).
Hypothesis Hseg : leaflink.seg h None (k1 ++ nlp :: k2) None.
Hypothesis Hnd : NoDup (nrp :: k1 ++ nlp :: k2).
Hypothesis Hnew : h !! nrp = Some nd0.
Context (nr : leaf).
Hypothesis Hnr : Z.of_nat (length (slots nr)) = width.
Hypothesis Hlocks : locked nv (v_ nl) = true /\ locked nv (v_ nr) = true.
Hypothesis Hnrm : nremoved_ nl = 0.
Hypothesis Hfull : width - 1 <= last_pos.
Hypothesis Hdiff : exists i j, 0 <= i <= last_pos /\ 0 <= j <= last_pos /\ ikey_of (joined_at i) <> ikey_of (joined_at j).

Lemma leaf_split_in : exists mid nr1 h' t,
  let permr := make_sorted width (last_pos + 1 - mid) in
  let permr := if mid <=? Z.of_nat p then remove_to_back width permr (Z.of_nat p - mid) else permr in
  1 <= mid <= last_pos /\ ikey_of (joined_at (mid - 1)) <> ikey_of (joined_at mid) /\
  leaf_split width nv mem nl nr nlp nrp (Z.of_nat p) ka [h] =
    Some (mk (v_ nr) (nremoved_ nr) permr (slots nr1), h' :: t, ikey_of (joined_at mid),
          if mid <=? Z.of_nat p then 1 + Z.b2z (mid =? last_pos) else 0) /\
  Z.of_nat (length (slots nr1)) = width /\
  (forall j, 0 <= j < last_pos + 1 - mid -> entry_at nr1 j = joined_at (mid + j)) /\
  leaflink.seg h' None (k1 ++ nlp :: nrp :: k2) None /\
  (forall x, x <> nrp -> x ∉ nlp :: k2 -> h' !! x = h !! x) /\
  Forall (fun g => leaflink.chain g (k1 ++ nlp :: k2) None) t.
Proof.
  pose proof (rep_length _ _ _ Hrep) as HL. pose proof (rep_size _ _ _ Hrep) as Hsz. fold last_pos in Hsz.
  unfold leaf_split. rewrite (proj1 Hlocks), (proj2 Hlocks), Hnrm, Hsz. cbn [andb negb]. rewrite Z.eqb_refl.
  destruct (Z.leb_spec (width - 1) last_pos); [|lia]. cbn [andb negb].
  pose proof Hseg as Hs. apply leaflink.seg_app in Hs as [_ [Hn _]].
  erewrite leaflink.read_some by exact Hn. cbn [mbind option_bind].
  match goal with |- context [leaf_ikey nl (permutation_ nl) ka (Z.of_nat p) (?m - 1)] => set (mid0 := m) end.
  assert (Hm0 : 1 <= mid0 <= last_pos).
  { unfold mid0, last_pos in *. pose proof (Z.div_mod width 2 ltac:(lia)). pose proof (Z.mod_pos_bound width 2 ltac:(lia)).
    repeat (match goal with |- context [if ?b then _ else _] => destruct b end); lia. }
  destruct (choose_mid mid0 Hm0 Hdiff) as (mid & Hm & Hd & Emid). exists mid.
  destruct (fill_right_ok (Z.to_nat (last_pos + 1 - mid)) nr mid mid Hnr ltac:(lia) ltac:(lia)) as (nr1 & Ef & Ev & En & Hs1 & He).
  destruct (leaflink.seg_link_split h k1 nlp k2 nrp nd0 Hseg Hnd Hnew) as (h' & t & El & Hs' & Hch & _ & Hfr).
  exists nr1, h', t. cbv zeta. split; [exact Hm|]. split; [exact Hd|]. split.
  - apply bind_Some in Emid as (mk_ & E1 & Emid). rewrite E1. cbn [mbind option_bind].
    apply bind_Some in Emid as (bf & E2 & Emid). rewrite E2. cbn [mbind option_bind]. rewrite Emid. cbn [mbind option_bind].
    rewrite Ef. cbn [mbind option_bind]. rewrite El. cbn [mbind option_bind]. unfold set_permutation. rewrite Ev, En.
    assert (Ek : ikey (mk (v_ nr) (nremoved_ nr) (if mid <=? Z.of_nat p then remove_to_back width (make_sorted width (last_pos + 1 - mid)) (Z.of_nat p - mid)
        else make_sorted width (last_pos + 1 - mid)) (slots nr1)) 0 = Some (ikey_of (joined_at mid))).
    { replace (joined_at mid) with (entry_at nr1 0).
      - unfold ikey, slot_at, entry_at. cbn [slots]. destruct (lookup_lt_is_Some_2 (slots nr1) (Z.to_nat 0) ltac:(lia)) as [s0 E0].
        rewrite E0. cbn. f_equal. rewrite (nth_lookup_Some _ _ no_slot _ E0). reflexivity.
      - rewrite He by lia. rewrite Z.sub_diag, Z.add_0_r. destruct (Z.leb_spec 0 0), (Z.ltb_spec 0 (0 + Z.of_nat (Z.to_nat (last_pos + 1 - mid)))); reflexivity || lia. }
    rewrite Ek. reflexivity.
  - split; [exact Hs1|]. split; [|split; [exact Hs'|split; [exact Hfr|exact Hch]]]. intros j Hj. rewrite He by lia.
    destruct (Z.leb_spec (mid - mid) j), (Z.ltb_spec j (mid - mid + Z.of_nat (Z.to_nat (last_pos + 1 - mid)))); reflexivity || lia.
Qed.

Lemma joined_at_lookup i : 0 <= i <= last_pos -> joined !! Z.to_nat i = Some (joined_at i).
Proof.
  intros Hi. unfold last_pos in Hi. destruct (lookup_lt_is_Some_2 joined (Z.to_nat i)) as [e He]; [rewrite length_joined; lia|].
  rewrite He. f_equal. symmetry. apply nth_lookup_Some, He.
Qed.

(** The two leaves before finish_insert: the entries of the old one, cut in two, and
    the new key in the last free slot of one of them. *)
Definition split_cut (mid : nat) (nl2 nr2 : leaf) (moved : bool) (ki kp : Z) : Prop :=
  exists l2 f2 l3 f3, (f = [0] -> zero_last f2) /\ 0 ∉ f3 /\
  if moved
  then (mid <= p)%nat /\ ki = Z.of_nat (p - mid) /\ rep nl2 l2 f2 /\ contents nl2 = take mid (contents nl) /\ l2 = take mid l /\
       rep nr2 l3 (f3 ++ [kp]) /\ contents nr2 = drop mid (contents nl) /\ entry_at nr2 kp = key_entry ka
  else (p < mid)%nat /\ ki = Z.of_nat p /\ rep nl2 l2 f2 /\ contents nl2 = take (mid - 1) (contents nl) /\ l2 = take (mid - 1) l /\
       (exists f2', f2 = f2' ++ [kp]) /\ entry_at nl2 kp = key_entry ka /\
       rep nr2 l3 f3 /\ contents nr2 = drop (mid - 1) (contents nl).

Lemma split_parts : exists nr' h' t s st nl2 nr2 moved ki kp mid,
  leaf_split width nv mem nl nr nlp nrp (Z.of_nat p) ka [h] = Some (nr', h' :: t, s, st) /\
  finish_leaf_split width nv mem nl nr' st (Z.of_nat p) ka = Some (nl2, nr2, moved, ki, kp) /\
  (1 <= mid <= length l)%nat /\ split_cut mid nl2 nr2 moved ki kp /\
  (exists a b, joined !! (mid - 1)%nat = Some a /\ joined !! mid = Some b /\ ikey_of a <> ikey_of b /\ s = ikey_of b) /\
  ikey_bound nr2 = Some s /\ (kp <> 0 \/ moved = true -> ikey_bound nl2 = ikey_bound nl) /\
  v_ nl2 = Z.lor (v_ nl) (splitting_bit nv) /\ nremoved_ nl2 = 0 /\ v_ nr2 = v_ nr /\ nremoved_ nr2 = nremoved_ nr /\
  leaflink.seg h' None (k1 ++ nlp :: nrp :: k2) None /\ (forall x, x <> nrp -> x ∉ nlp :: k2 -> h' !! x = h !! x) /\
  Forall (fun g => leaflink.chain g (k1 ++ nlp :: k2) None) t.
Proof.
  destruct leaf_split_in as (mid & nr1 & h' & t & Hm & Hd & Es & Hs1 & He & Hseg' & Hfr & Hch).
  pose proof (rep_length _ _ _ Hrep) as HL. pose proof (rep_size _ _ _ Hrep) as Hsz. fold last_pos in Hsz. pose proof length_contents as Hlc.
  pose proof (right_rep mid (v_ nr) (nremoved_ nr) (slots nr1) Hm Hs1) as Hrr. cbv zeta in Hrr.
  assert (Hmid : (1 <= Z.to_nat mid <= length l)%nat) by (unfold last_pos in Hm; lia).
  assert (Hkeys : exists a b, joined !! (Z.to_nat mid - 1)%nat = Some a /\ joined !! Z.to_nat mid = Some b /\ ikey_of a <> ikey_of b /\ ikey_of (joined_at mid) = ikey_of b).
  { exists (joined_at (mid - 1)), (joined_at mid). replace (Z.to_nat mid - 1)%nat with (Z.to_nat (mid - 1)) by lia.
    rewrite !joined_at_lookup by (unfold last_pos in *; lia). auto. }
  assert (Hbound : forall n l' f', rep n l' f' -> slots n = slots nr1 -> ikey_bound n = Some (ikey_of (joined_at mid))).
  { intros n l' f' Hr E. rewrite (ikey_bound_entry _ _ _ Hr). unfold entry_at. rewrite E. change (entry_of _) with (entry_at nr1 0).
    rewrite He by (unfold last_pos in *; lia). rewrite Z.add_0_r. reflexivity. }
  assert (H0 : forall n l' f', rep n l' f' -> 0 ∈ l' -> 0 ∉ f').
  { intros n l' f' Hr Hin Hin'. pose proof (rep_NoDup _ _ _ Hr) as Hnd'. apply NoDup_app in Hnd' as (_ & Hx & _). exact (Hx 0 Hin Hin'). }
  assert (Hin0 : 0 ∈ seqZ 0 (last_pos + 1 - mid)) by (apply elem_of_seqZ; lia).
  destruct (Z.leb_spec mid (Z.of_nat p)) as [Hmp|Hmp].
  - destruct Hrr as (l1 & l2 & f' & Hr & Hlen & El).
    set (nr' := mk (v_ nr) (nremoved_ nr) _ (slots nr1)) in *. assert (Hsl : Z.of_nat (length (l1 ++ l2)) = last_pos - mid).
    { apply (f_equal length) in El. rewrite length_seqZ, length_app in El. cbn [length] in El. rewrite length_app. lia. }
    destruct (left_rep (Z.to_nat mid) (Z.lor (v_ nl) (splitting_bit nv)) ltac:(unfold last_pos in *; lia) Hfull) as (f2 & Hr2 & Hz2).
    pose proof (rep_size _ _ _ Hr2) as Hsz2. rewrite length_take, Nat.min_l in Hsz2 by (unfold last_pos in *; lia).
    exists nr', h', t, (ikey_of (joined_at mid)), (1 + Z.b2z (mid =? last_pos)).
    unfold finish_leaf_split. change (KPermuter.size (permutation_ nl)) with (size nl). rewrite Hsz, (rep_size _ _ _ Hr), Hsl.
    replace (last_pos - (last_pos - mid)) with (Z.of_nat (Z.to_nat mid)) by lia. unfold mark_split. rewrite (proj1 Hlocks). cbn [mbind option_bind].
    replace (1 + Z.b2z (mid =? last_pos) =? 0) with false by (destruct (mid =? last_pos); reflexivity).
    unfold size in Hsz2. cbn [set_permutation permutation_] in Hsz2. rewrite Hsz2.
    eexists _, _, _, _, _, (Z.to_nat mid). split; [exact Es|]. split; [reflexivity|]. split; [exact Hmid|].
    split; [|repeat (split; [first [assumption | reflexivity | intros _; reflexivity | eapply Hbound; [exact Hr|reflexivity]]|]); assumption].
    replace (Z.of_nat p - Z.of_nat (Z.to_nat mid)) with (Z.of_nat p - mid) in * by lia.
    exists (take (Z.to_nat mid) l), f2, (l1 ++ l2), f'. split; [exact Hz2|]. cbn iota. split.
    + intros Hin. rewrite <- El in Hin0. pose proof (rep_NoDup _ _ _ Hr) as Hnd'. rewrite app_assoc in Hnd'. apply NoDup_app in Hnd' as (Hnd1 & Hx & _).
      rewrite elem_of_app, elem_of_cons in Hin0. destruct Hin0 as [Hin0|[E0|Hin0]].
      * apply NoDup_app in Hnd1 as (_ & Hy & _). apply (Hy 0); [set_solver|exact Hin].
      * apply (Hx 0); [set_solver|]. rewrite <- E0. set_solver.
      * apply NoDup_app in Hnd1 as (_ & Hy & _). apply (Hy 0); [set_solver|exact Hin].
    + split; [lia|]. split; [lia|]. split; [exact Hr2|].
      split; [rewrite (rep_contents _ _ _ Hr2); change (entry_at (set_permutation _ (set_v _ nl))) with (entry_at nl); rewrite fmap_take, <- (rep_contents _ _ _ Hrep); reflexivity|].
      split; [reflexivity|]. split; [exact Hr|].
      assert (Eall : entry_at nr1 <$> seqZ 0 (last_pos + 1 - mid) = drop (Z.to_nat mid) joined).
      { apply list_eq. intros j. rewrite list_lookup_fmap, lookup_drop. destruct (decide (Z.of_nat j < last_pos + 1 - mid)) as [Hj|Hj].
        - rewrite lookup_seqZ_lt by lia. cbn [fmap option_fmap option_map]. rewrite He by lia. rewrite <- joined_at_lookup by lia. f_equal. lia.
        - rewrite lookup_seqZ_ge, lookup_ge_None_2 by (rewrite ?length_joined; unfold last_pos in *; lia). reflexivity. }
      rewrite <- El, fmap_app, fmap_cons in Eall. change (entry_at nr') with (entry_at nr1). rewrite (rep_contents _ _ _ Hr), fmap_app. change (entry_at nr') with (entry_at nr1).
      assert (Ej : drop (Z.to_nat mid) joined = internode.ins (p - Z.to_nat mid) (key_entry ka) (drop (Z.to_nat mid) (contents nl))).
      { apply list_eq. intros j. unfold joined. rewrite lookup_drop, !internode.lookup_ins by (rewrite ?length_drop; lia). rewrite !lookup_drop.
        repeat case_decide; try lia; try reflexivity. f_equal. lia. }
      rewrite Ej in Eall. unfold internode.ins in Eall. apply app_inj_1 in Eall as [E1 E2].
      * pose proof (f_equal (@tail entry) E2) as E3. apply (f_equal (@head entry)), Some_inj in E2. cbn [tail] in E3. split; [rewrite E1, E3, take_drop; reflexivity|exact E2].
      * rewrite length_fmap, length_take, length_drop, Hlc. lia.
  - destruct Hrr as (f' & Hr). set (nr' := mk (v_ nr) (nremoved_ nr) _ (slots nr1)) in *.
    pose proof (rep_size _ _ _ Hr) as Hsn. rewrite length_seqZ in Hsn.
    destruct (left_rep (Z.to_nat (mid - 1)) (Z.lor (v_ nl) (splitting_bit nv)) ltac:(unfold last_pos in *; lia) Hfull) as (f2 & Hr2 & Hz2).
    pose proof (rep_length _ _ _ Hr2) as HL2. rewrite length_take in HL2.
    destruct (free_cases f2) as [->|(f4 & kp & ->)]; [cbn in HL2; lia|]. destruct (rep_last_free _ _ _ _ Hr2) as [Hkp _].
    set (n0 := set_permutation _ (set_v _ nl)) in Hr2. destruct (assign_in n0 kp ka (rep_slots _ _ _ Hr2) Hkp) as (n1 & Ea & Ev & En & Epm & Hs1' & He1).
    destruct (contents_free n0 n1 _ f4 kp Hr2 Epm) as [Hr1 Ec1].
    { pose proof (rep_slots _ _ _ Hr2). lia. }
    { intros q Hq Hne. rewrite He1 by exact Hq. destruct (Z.eqb_spec q kp); [contradiction|reflexivity]. }
    exists nr', h', t, (ikey_of (joined_at mid)), 0.
    unfold finish_leaf_split. change (KPermuter.size (permutation_ nl)) with (size nl). rewrite Hsz, Hsn.
    replace (last_pos - Z.of_nat (Z.to_nat (last_pos + 1 - mid))) with (Z.of_nat (Z.to_nat (mid - 1))) by (unfold last_pos; lia).
    unfold mark_split. rewrite (proj1 Hlocks). cbn [mbind option_bind]. rewrite Z.eqb_refl.
    pose proof (rep_back _ _ _ _ Hr2) as Eb. unfold n0 in Eb. cbn [set_permutation permutation_] in Eb. rewrite Eb. fold n0. rewrite Ea. cbn [mbind option_bind].
    eexists _, _, _, _, _, (Z.to_nat mid). split; [exact Es|]. split; [reflexivity|]. split; [exact Hmid|].
    assert (Hb1 : kp <> 0 \/ false = true -> ikey_bound n1 = ikey_bound nl).
    { intros [Hk|[=]]. rewrite (ikey_bound_entry _ _ _ Hr1), (ikey_bound_entry _ _ _ Hrep), He1 by lia. destruct (Z.eqb_spec 0 kp); [congruence|reflexivity]. }
    split; [|repeat (split; [first [assumption | reflexivity | rewrite En; exact Hnrm | eapply Hbound; [exact Hr|reflexivity]]|]); assumption].
    exists (take (Z.to_nat (mid - 1)) l), (f4 ++ [kp]), (seqZ 0 (last_pos + 1 - mid)), f'. split; [exact Hz2|]. split; [eapply H0; [exact Hr|exact Hin0]|]. cbn iota.
    replace (Z.to_nat mid - 1)%nat with (Z.to_nat (mid - 1)) by lia.
    split; [lia|]. split; [reflexivity|]. split; [exact Hr1|].
    split; [rewrite Ec1, (rep_contents _ _ _ Hr2); change (entry_at n0) with (entry_at nl); rewrite fmap_take, <- (rep_contents _ _ _ Hrep); reflexivity|].
    split; [reflexivity|]. split; [eauto|]. split; [rewrite He1, Z.eqb_refl by lia; reflexivity|]. split; [exact Hr|].
    rewrite (right_contents nr' _ f' mid Hm Hr eq_refl He). apply list_eq. intros j. unfold joined. rewrite !lookup_drop, internode.lookup_ins by lia.
    repeat case_decide; try lia. f_equal. lia.
Qed.

(** What leaf_split, finish_split and finish_insert make of the leaf together. *)
Definition split_result (mid : nat) (left right : leaf) (s : Z) (h' : gmap nat leaflink.lnode) : Prop :=
  (1 <= mid <= length l)%nat /\ contents left = take mid joined /\ contents right = drop mid joined /\
  (exists a b, joined !! (mid - 1)%nat = Some a /\ joined !! mid = Some b /\ ikey_of a <> ikey_of b /\ s = ikey_of b) /\
  ikey_bound right = Some s /\
  leaflink.seg h' None (k1 ++ nlp :: nrp :: k2) None.

Lemma split_insert : exists nr' h' t s st nl2 nr2 moved ki kp n3 mid,
  leaf_split width nv mem nl nr nlp nrp (Z.of_nat p) ka [h] = Some (nr', h' :: t, s, st) /\
  finish_leaf_split width nv mem nl nr' st (Z.of_nat p) ka = Some (nl2, nr2, moved, ki, kp) /\
  finish_insert width (if moved : bool then nr2 else nl2) ki kp = Some n3 /\
  split_result mid (if moved then nl2 else n3) (if moved then n3 else nr2) s h' /\
  Forall (fun g => leaflink.chain g (k1 ++ nlp :: k2) None) t.
Proof.
  destruct split_parts as (nr' & h' & t & s & st & nl2 & nr2 & moved & ki & kp & mid & E1 & E2 & Hmid & (l2 & f2 & l3 & f3 & _ & _ & Hcut) & Hk & Hb & _ & _ & _ & _ & _ & Hseg' & _ & Hch).
  pose proof length_contents as Hlc. exists nr', h', t, s, st, nl2, nr2, moved, ki, kp. destruct moved.
  - destruct Hcut as (Hmp & -> & Hr2 & Hc2 & El2 & Hr3 & Hc3 & He).
    assert (Hlen3 : length l3 = (length l - mid)%nat).
    { pose proof (rep_contents _ _ _ Hr3) as X. rewrite Hc3 in X. apply (f_equal length) in X. rewrite length_drop, length_fmap, Hlc in X. lia. }
    destruct (finish_insert_ok nr2 l3 f3 kp (p - mid) Hr3 ltac:(lia)) as (n3 & Ef & _ & _ & Esl & Hr4 & Hc4). exists n3, mid.
    split; [exact E1|]. split; [exact E2|]. split; [exact Ef|]. split; [|exact Hch]. rewrite He, Hc3 in Hc4.
    split; [exact Hmid|]. split; [rewrite Hc2; apply left_joined_ge; lia|]. split; [|split; [exact Hk|split; [|exact Hseg']]].
    + rewrite Hc4. apply list_eq. intros j. unfold joined. rewrite lookup_drop, !internode.lookup_ins by (rewrite ?length_drop; lia). rewrite !lookup_drop.
      repeat case_decide; try lia; try reflexivity. f_equal. lia.
    + rewrite <- Hb. unfold ikey_bound, ikey, slot_at. rewrite Esl. reflexivity.
  - destruct Hcut as (Hmp & -> & Hr2 & Hc2 & El2 & (f2' & ->) & He & Hr3 & Hc3).
    destruct (finish_insert_ok nl2 l2 f2' kp p Hr2) as (n3 & Ef & _ & _ & Esl & Hr4 & Hc4); [rewrite El2, length_take; lia|]. exists n3, mid.
    split; [exact E1|]. split; [exact E2|]. split; [exact Ef|]. split; [|exact Hch]. rewrite He, Hc2 in Hc4.
    split; [exact Hmid|]. split; [rewrite Hc4; apply left_joined_lt; lia|]. split; [|split; [exact Hk|split; [exact Hb|exact Hseg']]].
    rewrite Hc3. apply list_eq. intros j. unfold joined. rewrite !lookup_drop, internode.lookup_ins by lia. repeat case_decide; try lia. f_equal. lia.
Qed.

End Links.
End Split.

End Facts.

(** A key is its ikey and its length up to 8, or 9 for anything longer. *)
Definition rank (e : entry) : Z * Z := (e.1.1.1, keylenx_ikeylen e.1.1.2).

(** Eleven keys of a layer cannot share their ikey. *)
Lemma ikeys_differ (es : list entry) :
  NoDup (rank <$> es) -> Forall (fun e => 0 <= keylenx_ikeylen e.1.1.2 <= 9) es -> (10 < length es)%nat ->
  exists i j a b, es !! i = Some a /\ es !! j = Some b /\ ikey_of a <> ikey_of b.
Proof.
  intros Hnd Hr Hl. destruct es as [|e0 es']; [cbn in Hl; lia|]. set (es := e0 :: es') in *.
  destruct (Forall_dec (fun e => ikey_of e = ikey_of e0) es) as [Hall|Hn].
  - exfalso. assert (Hnd2 : NoDup (snd <$> (rank <$> es))).
    { apply NoDup_fmap_2_strong; [|exact Hnd]. intros x y Hx Hy E. apply list_elem_of_fmap in Hx as (a & -> & Ha). apply list_elem_of_fmap in Hy as (b & -> & Hb).
      rewrite Forall_forall in Hall. unfold rank in *. cbn [snd] in E. f_equal; [|exact E]. unfold ikey_of in Hall. rewrite (Hall a Ha), (Hall b Hb). reflexivity. }
    assert (Hsub : snd <$> (rank <$> es) ⊆+ seqZ 0 10).
    { apply NoDup_submseteq; [exact Hnd2|]. intros x Hx. apply list_elem_of_fmap in Hx as (y & -> & (e & -> & He)%list_elem_of_fmap).
      rewrite Forall_forall in Hr. apply elem_of_seqZ. specialize (Hr e He). cbn. lia. }
    apply submseteq_length in Hsub. rewrite !length_fmap, length_seqZ in Hsub. lia.
  - apply not_Forall_Exists, Exists_exists in Hn; [|intros ?; apply _]. destruct Hn as (a & Ha & Hne).
    apply list_elem_of_lookup_1 in Ha as [i Hi]. exists i, 0%nat, a, e0. auto.
Qed.

(** Inserting into and removing from a leaf.  On a locked leaf whose permuter
    is valid, check_leaf_insert's search for a slot ends after at most one jump
    back: it either has written the new entry to a free slot, unseen by readers,
    and finish_insert's invariant holds and makes exactly this entry appear at
    its position; or tells that the layer is deleted; or asks for a split, with
    the preconditions of leaf_split met.  In a leaf that has a left neighbour
    the key in slot 0, which bounds the leaf's keys, survives, because a free
    slot 0 is always kept to be reused last.  finish_remove takes out exactly
    one entry, keeps the bound, and reports whether the leaf became empty. *)
Theorem leaf_update width nv `{!NvLayout nv} mem has_prev n l f ka ki :
  3 <= width <= 15 -> rep width n l f -> 0 <= nremoved_ n -> (has_prev = true -> nremoved_ n = 0 -> zero_last f) ->
  locked nv (v_ n) = true -> (ki <= length l)%nat ->
  match do_insert width nv mem 2 has_prev n ka with
  | Some (Inserted kp n1) => contents width n1 = contents width n /\
      exists n2 l' f', finish_insert width n1 (Z.of_nat ki) kp = Some n2 /\
        contents width n2 = internode.ins ki (key_entry mem ka) (contents width n) /\
        rep width n2 l' f' /\ (has_prev = true -> nremoved_ n2 = 0 -> zero_last f') /\
        (has_prev = true -> ikey_bound n2 = ikey_bound n)
  | Some ResetRetry => width < nremoved_ n
  | Some (NeedSplit n1) => contents width n1 = contents width n /\ nremoved_ n1 = 0 /\ width - 1 <= size n1 /\
      locked nv (v_ n1) = true /\ exists l' f', rep width n1 l' f'
  | None => False
  end /\
  ((ki < length l)%nat ->
   let '(n', empty) := finish_remove width n (Z.of_nat ki) in
   contents width n' = delete ki (contents width n) /\ empty = bool_decide (contents width n' = []) /\
   ikey_bound n' = ikey_bound n /\
   exists l' f', rep width n' l' f' /\ (has_prev = true -> nremoved_ n' = 0 -> zero_last f')).
Proof.
  intros Hw Hr Hn Hz Hl Hki. split.
  - destruct (do_insert_ok width nv mem Hw has_prev n l f ka Hr Hn Hz Hl) as (r & -> & Hok).
    destruct r as [kp n1| |n1]; cbn in Hok; [|exact Hok|tauto]. destruct Hok as [(l1 & f1 & Hr1 & Ec1 & Ee & _ & _ & Hz1 & Hb) _].
    assert (Hki1 : (ki <= length l1)%nat).
    { rewrite (rep_contents _ _ _ _ Hr), (rep_contents _ _ _ _ Hr1) in Ec1. apply (f_equal length) in Ec1. rewrite !length_fmap in Ec1. lia. }
    destruct (finish_insert_ok width Hw n1 l1 f1 kp ki Hr1 Hki1) as (n2 & Ef & _ & En & Esl & Hr2 & Ec2).
    split; [exact Ec1|]. exists n2, (internode.ins ki kp l1), f1. split; [exact Ef|]. split; [rewrite Ec2, Ec1, Ee; reflexivity|]. split; [exact Hr2|].
    split; [intros Hp H0; eapply zero_last_pop; try eassumption; apply (Hz1 Hp); congruence|]. intros Hp. rewrite <- (Hb Hp). unfold ikey_bound, ikey, slot_at. rewrite Esl. reflexivity.
  - intros Hlt. pose proof (finish_remove_ok width Hw has_prev n l f ki Hr Hn Hlt) as H.
    destruct (finish_remove width n (Z.of_nat ki)) as [n' empty]. destruct H as (H1 & H2 & _ & H3 & H4). auto.
Qed.

(** C31: splitting a full leaf.  For a full leaf of distinct keys and a new key at
    its place, leaf_split returns (its unbounded search for a middle between two
    ikeys ends), and together with finish_split's work on the leaves and
    finish_insert, whose invariant holds, it leaves the old leaf with the first
    [mid] entries of the sequence with the new key inserted and the new leaf with
    the rest, suffixes included; keys with equal ikeys stay together; split_ikey
    is the first ikey of the new leaf, in slot 0 as its bound; and the new leaf
    is linked behind the old one without a reader ever seeing a broken list. *)
Theorem leaf_split_insert width nv `{!NvLayout nv} mem nl l f ka p h k1 k2 nlp nrp nd0 nr :
  11 <= width <= 15 -> rep width nl l f -> width - 1 <= Z.of_nat (length l) -> (p <= length l)%nat -> nremoved_ nl = 0 ->
  NoDup (rank <$> joined width mem nl ka p) ->
  Forall (fun e => 0 <= keylenx_ikeylen e.1.1.2 <= 9) (joined width mem nl ka p) ->
  locked nv (v_ nl) = true -> locked nv (v_ nr) = true -> Z.of_nat (length (slots nr)) = width ->
  leaflink.seg h None (k1 ++ nlp :: k2) None -> NoDup (nrp :: k1 ++ nlp :: k2) -> h !! nrp = Some nd0 ->
  exists nr' h' t s st nl2 nr2 moved ki kp n3 mid,
    leaf_split width nv mem nl nr nlp nrp (Z.of_nat p) ka [h] = Some (nr', h' :: t, s, st) /\
    finish_leaf_split width nv mem nl nr' st (Z.of_nat p) ka = Some (nl2, nr2, moved, ki, kp) /\
    finish_insert width (if moved : bool then nr2 else nl2) ki kp = Some n3 /\
    let left := if moved then nl2 else n3 in
    let right := if moved then n3 else nr2 in
    (1 <= mid <= length l)%nat /\
    contents width left = take mid (joined width mem nl ka p) /\
    contents width right = drop mid (joined width mem nl ka p) /\
    (exists a b, joined width mem nl ka p !! (mid - 1)%nat = Some a /\ joined width mem nl ka p !! mid = Some b /\
       ikey_of a <> ikey_of b /\ s = ikey_of b) /\
    ikey_bound right = Some s /\
    leaflink.seg h' None (k1 ++ nlp :: nrp :: k2) None /\
    Forall (fun g => leaflink.chain g (k1 ++ nlp :: k2) None) t.
Proof.
  intros Hw Hr Hfull Hp Hn Hnd Hrk Hl1 Hl2 Hs Hseg Hd Hnew. assert (Hw' : 3 <= width <= 15) by lia.
  assert (Hdiff : exists i j, 0 <= i <= last_pos l /\ 0 <= j <= last_pos l /\
    ikey_of (joined_at width mem nl ka p i) <> ikey_of (joined_at width mem nl ka p j)).
  { pose proof (length_joined width mem nl l f ka p Hr Hp) as Hlen.
    destruct (ikeys_differ _ Hnd Hrk ltac:(lia)) as (i & j & a & b & Hi & Hj & Hab).
    pose proof (lookup_lt_Some _ _ _ Hi). pose proof (lookup_lt_Some _ _ _ Hj).
    exists (Z.of_nat i), (Z.of_nat j). unfold last_pos, joined_at. rewrite !Nat2Z.id.
    rewrite (nth_lookup_Some _ _ _ _ Hi), (nth_lookup_Some _ _ _ _ Hj). split; [lia|]. split; [lia|exact Hab]. }
  destruct (split_insert width nv mem Hw' nl l f ka p Hr Hp h k1 k2 nlp nrp nd0 Hseg Hd Hnew nr Hs (conj Hl1 Hl2) Hn Hfull Hdiff)
    as (nr' & h' & t & s & st & nl2 & nr2 & moved & ki & kp & n3 & mid & E1 & E2 & E3 & (R1 & R2 & R3 & R4 & R5 & R6) & E5).
  exists nr', h', t, s, st, nl2, nr2, moved, ki, kp, n3, mid. cbv zeta. auto 20.
Qed.

(** ** Examples: leaves of width 15 *)

(** Bytes 'a' onwards; keys of one to eight bytes. *)
Definition example_mem : memory := fun a => byte_of_Z (a + 97).
Definition example_key (len : Z) : key.key := key.of_str example_mem 0 len.
Definition example_slot (i : Z) : slot := mkSlot 8 (Z.shiftl (i + 1) 56) (100 + i) [].
Definition example_leaf (live : Z) : leaf :=
  mk 0x80000001 0 (make_sorted 15 live) (example_slot <$> seqZ 0 15).

Lemma example_rep live : 0 <= live <= 15 -> rep 15 (example_leaf live) (seqZ 0 live) (rev (seqZ live (15 - live))).
Proof.
  intros H. split; [apply (make_sorted_holds 15 live); lia|apply (sorted_slots_perm 15 live H)|reflexivity].
Qed.

(** The key "abc" goes after two smaller entries of a leaf with three. *)
Lemma leaf_update_witness : exists kp n1 n2,
  do_insert 15 nodeversion32_parameters example_mem 2 true (example_leaf 3) (example_key 3) = Some (Inserted kp n1) /\
  finish_insert 15 n1 2 kp = Some n2 /\
  contents 15 n2 = internode.ins 2 (key_entry example_mem (example_key 3)) (contents 15 (example_leaf 3)).
Proof.
  destruct (leaf_update 15 nodeversion32_parameters example_mem true (example_leaf 3) (seqZ 0 3) (rev (seqZ 3 12)) (example_key 3) 2)
    as [H _].
  - lia.
  - apply (example_rep 3). lia.
  - cbn. lia.
  - intros _ _ H0. apply list_elem_of_In, in_rev, list_elem_of_In, elem_of_seqZ in H0. lia.
  - reflexivity.
  - rewrite length_seqZ. lia.
  - assert (E : exists kp n1, do_insert 15 nodeversion32_parameters example_mem 2 true (example_leaf 3) (example_key 3) = Some (Inserted kp n1))
      by (vm_compute; eauto).
    destruct E as (kp & n1 & E). rewrite E in H. destruct H as (_ & n2 & l' & f' & Ef & Ec & _).
    exists kp, n1, n2. auto.
Defined.

(** A full leaf, alone in the list, and a key for its middle. *)
Definition example_links : gmap nat leaflink.lnode :=
  <[1%nat := leaflink.mk (None, false) None]> (<[2%nat := leaflink.mk (None, false) None]> ∅).

Lemma leaf_split_insert_witness : exists nr' h' t s st nl2 nr2 moved ki kp n3 mid,
    leaf_split 15 nodeversion32_parameters example_mem (example_leaf 15) (example_leaf 0) 1 2 5 (example_key 3) [example_links]
      = Some (nr', h' :: t, s, st) /\
    finish_leaf_split 15 nodeversion32_parameters example_mem (example_leaf 15) nr' st 5 (example_key 3) = Some (nl2, nr2, moved, ki, kp) /\
    finish_insert 15 (if moved : bool then nr2 else nl2) ki kp = Some n3 /\
    let left := if moved then nl2 else n3 in
    let right := if moved then n3 else nr2 in
    (1 <= mid <= 15)%nat /\
    contents 15 left = take mid (joined 15 example_mem (example_leaf 15) (example_key 3) 5) /\
    contents 15 right = drop mid (joined 15 example_mem (example_leaf 15) (example_key 3) 5) /\
    (exists a b, joined 15 example_mem (example_leaf 15) (example_key 3) 5 !! (mid - 1)%nat = Some a /\
       joined 15 example_mem (example_leaf 15) (example_key 3) 5 !! mid = Some b /\ ikey_of a <> ikey_of b /\ s = ikey_of b) /\
    ikey_bound right = Some s /\
    leaflink.seg h' None [1; 2]%nat None /\
    Forall (fun g => leaflink.chain g [1%nat] None) t.
Proof.
  apply (leaf_split_insert 15 nodeversion32_parameters example_mem (example_leaf 15) (seqZ 0 15) (rev (seqZ 15 0)) (example_key 3) 5
    example_links [] [] 1 2 (leaflink.mk (None, false) None) (example_leaf 0)).
  - lia.
  - apply (example_rep 15). lia.
  - vm_compute. discriminate.
  - vm_compute. lia.
  - reflexivity.
  - apply (bool_decide_unpack _). vm_compute. exact I.
  - apply (bool_decide_unpack _). vm_compute. exact I.
  - reflexivity.
  - reflexivity.
  - reflexivity.
  - repeat split; reflexivity.
  - apply (bool_decide_unpack _). vm_compute. exact I.
  - reflexivity.
Defined.

End leaf.
