(* ===== verification/Tree.v ===== *)
(** * Looking up a key (src/masstree/masstree_traverse.hh, masstree_get.hh)

    A Masstree is a trie of B+trees: each layer is indexed by eight bytes of the
    key, and an entry of a leaf is a value, a value with the rest of its key, or
    the root of the next layer.  The lookup is translated for a tree at rest: the
    versions are read and compared as the code does, and a comparison that only a
    concurrent writer can make fail ends the model with [None]. *)

From S2P Require Import Prelude KPermuter NodeVersion KSearch StringSlice MtKey LeafLink Internode Leaf.

Open Scope Z_scope.

Module tree.

Import leaf (entry, entry_of, entry_at, contents, keylenx_has_ksuf, keylenx_is_node, keylenx_is_stable_node).

Inductive node := NInternode (n : internode.internode) | NLeaf (n : leaf.leaf).
Definition version (x : node) : Z := match x with NInternode n => internode.v_ n | NLeaf n => leaf.v_ n end.

(** Nodes by address; an address in a leaf value is a layer's root. *)
Abbreviation heap := (gmap nat node).

Section Get.
Context (width : Z) (nv : nodeversion_parameters) (binary : bool) (mem : memory).
Context (h : heap) (ps : internode.parents).

(** [while (x->has_split() && (p = x->parent())) x = p;] *)
Fixpoint unsplit_ancestor (fuel : nat) (x : nat) : option nat :=
  match fuel with
  | O => None
  | S fuel' =>
      nd ← h !! x;
      if has_split nv (version nd) then
        parent ← ps !! x;
        match parent with None => Some x | Some p => unsplit_ancestor fuel' p end
      else Some x
  end.

(** "Get a non-stale root": the node and its version. *)
Fixpoint find_root (fuel : nat) (n : nat) : option (nat * Z) :=
  match fuel with
  | O => None
  | S fuel' =>
      nd ← h !! n;
      v ← stable_try nv (version nd);
      if negb (has_split nv v) then Some (n, v)
      else n ← unsplit_ancestor fuel n; find_root fuel' n
  end.

(** "Loop over internal nodes": the leaf and its version, or [Some None] for a
    jump to retry. *)
Fixpoint descend (fuel : nat) (n : nat) (v : Z) (ka : key.key) : option (option (nat * Z)) :=
  match fuel with
  | O => None
  | S fuel' =>
      if isleaf nv v then Some (Some (n, v))
      else
        match h !! n with
        | Some (NInternode i) =>
            kp ← internode.bound_upper binary (key.ikey ka) i;
            c ← internode.child_ i !! kp;
            match c with
            | None => Some None
            | Some c =>
                nd ← h !! c;
                v' ← stable_try nv (version nd);
                if has_changed nv (internode.v_ i) v then None
                else descend fuel' c v' ka
            end
        | _ => None
        end
  end.

(** The leaf, its address and version. *)
Fixpoint reach_leaf (fuel : nat) (root : nat) (ka : key.key) : option (nat * leaf.leaf * Z) :=
  match fuel with
  | O => None
  | S fuel' =>
      '(n, v) ← find_root fuel root;
      r ← descend fuel n v ka;
      match r with
      | None => reach_leaf fuel' root ka
      | Some (n, v) => match h !! n with Some (NLeaf lf) => Some (n, lf, v) | _ => None end
      end
  end.

(** key_compare with an entry of a leaf. *)
Definition leaf_compare (ka : key.key) (n : leaf.leaf) (bp : Z) : Z :=
  let s := nth (Z.to_nat bp) (leaf.slots n) leaf.no_slot in key.compare ka (leaf.ikey0 s) (leaf.keylenx s).

(** leaf::bound_type::lower_check. *)
Definition bound_lower_check (ka : key.key) (n : leaf.leaf) : option Z :=
  lower_check (leaf.size n) (at_ (leaf.permutation_ n)) (leaf_compare ka n) binary.

(** The suffix bags compare the bytes (StringBag.v). *)
Definition ksuf_equals (ka : key.key) (s : leaf.slot) (keylenx : Z) : bool :=
  negb (keylenx_has_ksuf keylenx) || bool_decide (leaf.suf s = leaf.suffix_of mem ka).

(** What find_unlocked does with the fields it read, once the version is checked. *)
Inductive leaf_read := NextLayer (root : nat) | Again | Found (value : Z) | NotFound.
Definition after_search (keylenx entry : Z) (ksuf_match : bool) : leaf_read :=
  if keylenx_is_node keylenx then
    if keylenx_is_stable_node keylenx then NextLayer (Z.to_nat entry) else Again
  else if ksuf_match then Found entry
  else NotFound.

(** find_unlocked from label retry on: [Some None] is "not found". *)
Fixpoint find_unlocked (fuel : nat) (root : nat) (ka : key.key) : option (option Z) :=
  match fuel with
  | O => None
  | S fuel' =>
      '(_, n, v) ← reach_leaf fuel root ka;
      if deleted nv v then find_unlocked fuel' root ka
      else
        kp ← bound_lower_check ka n;
        if kp <? 0 then (if has_changed nv (leaf.v_ n) v then None else Some None)
        else
          s ← leaf.slot_at n kp;
          let keylenx := leaf.keylenx s in
          let entry := leaf.lv s in
          let ksuf_match := ksuf_equals ka s keylenx in
          if has_changed nv (leaf.v_ n) v then None
          else match after_search keylenx entry ksuf_match with
               | NextLayer root => find_unlocked fuel' root (key.shift mem ka)
               | Again => None
               | Found entry => Some (Some entry)
               | NotFound => Some None
               end
  end.

(** basic_table::get. *)
Definition get (fuel : nat) (root : nat) (s len : Z) : option (option Z) := find_unlocked fuel root (key.of_str mem s len).

(** ** Well-formed trees *)

(** How the code orders entries: by slice, then by length up to 9. *)
Definition erank (e : entry) : Z * Z := (e.1.1.1, Z.min e.1.1.2 9).
Definition krank (ka : key.key) : Z * Z := (key.ikey ka, Z.min (key.length ka) 9).
Definition rlt (a b : Z * Z) : Prop := a.1 < b.1 \/ (a.1 = b.1 /\ a.2 < b.2).

(** A version at rest. *)
Definition at_rest (leaf : bool) (v : Z) : Prop := dirty nv v = false /\ deleted nv v = false /\ isleaf nv v = leaf.

Record leaf_ok (n : leaf.leaf) (es : list entry) : Prop := {
  lo_rest : at_rest true (leaf.v_ n);
  lo_rep : exists l f, leaf.rep width n l f;
  lo_contents : contents width n = es;
  lo_len : Forall (fun e => 0 <= e.1.1.2) es;
  lo_sorted : forall i j a b, (i < j)%nat -> es !! i = Some a -> es !! j = Some b -> rlt (erank a) (erank b)
}.

Record internode_ok (w : nat) (n : internode.internode) : Prop := {
  io_rest : at_rest false (internode.v_ n);
  io_wf : internode.wf w n;
  io_sorted : internode.sorted (internode.keys n)
}.

(** The subtree at [p], of depth at most [d], holds the entries [es], whose ikeys
    are from [lo] (included) to [hi] (excluded). *)
Inductive subtree (w : nat) : nat -> nat -> Z -> Z -> list entry -> Prop :=
| subtree_leaf d p lo hi n es :
    h !! p = Some (NLeaf n) -> leaf_ok n es -> Forall (fun e => lo <= e.1.1.1 < hi) es -> subtree w (S d) p lo hi es
| subtree_internode d p lo hi n (bounds : list Z) (cs : list nat) (ess : list (list entry)) :
    h !! p = Some (NInternode n) -> internode_ok w n -> internode.children n = Some <$> cs ->
    bounds = lo :: internode.keys n ++ [hi] -> internode.sorted bounds -> length ess = length cs ->
    (forall i c es a b, cs !! i = Some c -> ess !! i = Some es -> bounds !! i = Some a -> bounds !! S i = Some b ->
       subtree w d c a b es) ->
    subtree w (S d) p lo hi (concat ess).

(** ** Facts *)

Context `{L : !NvLayout nv} (Hwidth : 3 <= width <= 15).

Lemma not_changed_self v : has_changed nv v v = false.
Proof.
  unfold has_changed. rewrite Z.lxor_nilpotent. apply Z.ltb_ge. unfold lock_bit. apply Z.shiftl_nonneg. lia.
Qed.

(** What the comparison with an entry decides. *)
Lemma compare_rank ka ik kl : 0 <= key.length ka -> 0 <= kl ->
  (0 < key.compare ka ik kl <-> rlt (ik, Z.min kl 9) (krank ka)) /\
  (key.compare ka ik kl = 0 <-> (ik, Z.min kl 9) = krank ka) /\
  (key.compare ka ik kl < 0 <-> rlt (krank ka) (ik, Z.min kl 9)).
Proof.
  intros Hl Hk. unfold key.compare, krank, rlt, StringSlice.compare, key.ikey_size. cbn [fst snd].
  set (x := key.ikey ka). set (len := key.length ka) in *.
  destruct (Z.eqb_spec x ik) as [->|Hn].
  - change (0 =? 0) with true. cbv iota. destruct (Z.ltb_spec 8 len); [destruct (Z.leb_spec kl 8)|]; (split; [|split]);
      try (rewrite pair_equal_spec); lia.
  - destruct (Z.ltb_spec x ik); [change (-1 =? 0) with false|change (1 =? 0) with false]; cbv iota; (split; [|split]);
      try (rewrite pair_equal_spec); lia.
Qed.

Lemma rlt_trans a b c : rlt a b -> rlt b c -> rlt a c.
Proof. unfold rlt. lia. Qed.
Lemma rlt_irrefl a : ~ rlt a a.
Proof. unfold rlt. lia. Qed.

(** The search of a leaf compares the key with the entries in their order. *)
Lemma leaf_entry_at ka n es l f i p : leaf_ok n es -> leaf.rep width n l f -> 0 <= key.length ka -> l !! i = Some p ->
  at_ (leaf.permutation_ n) (Z.of_nat i) = p /\ 0 <= p < width /\
  exists s, leaf.slot_at n p = Some s /\ es !! i = Some (entry_of s) /\
    (0 < leaf_compare ka n p <-> rlt (erank (entry_of s)) (krank ka)) /\
    (leaf_compare ka n p = 0 <-> erank (entry_of s) = krank ka) /\
    (leaf_compare ka n p < 0 <-> rlt (krank ka) (erank (entry_of s))).
Proof.
  intros [_ _ Hc Hpos _] Hr Hlen Hp. rewrite (leaf.rep_contents width n l f Hr) in Hc. split; [|split].
  - destruct Hr as [[_ He] _ _]. rewrite at_nib. apply (elems_nib width ltac:(lia) _ (l ++ f)); [exact He|].
    rewrite lookup_app_l; [exact Hp|]. eapply lookup_lt_Some, Hp.
  - apply (leaf.rep_range width n l f p Hr). apply elem_of_app. left. eapply list_elem_of_lookup_2, Hp.
  - assert (Hpr : 0 <= p < width) by (apply (leaf.rep_range width n l f p Hr), elem_of_app; left; eapply list_elem_of_lookup_2, Hp).
    destruct (leaf.rep_slot width Hwidth n l f p Hr Hpr) as (s & Hs & He). exists s. split; [exact Hs|].
    assert (Hes : es !! i = Some (entry_of s)) by (rewrite <- Hc, list_lookup_fmap, Hp; cbn; rewrite He; reflexivity).
    split; [exact Hes|]. rewrite Forall_lookup in Hpos.
    replace (leaf_compare ka n p) with (key.compare ka (entry_of s).1.1.1 (entry_of s).1.1.2).
    + apply compare_rank; [exact Hlen|apply (Hpos i), Hes].
    + unfold leaf_compare. rewrite (nth_lookup_Some _ _ _ _ Hs). reflexivity.
Qed.

Lemma leaf_increasing ka n es : leaf_ok n es -> 0 <= key.length ka ->
  increasing (leaf.size n) (at_ (leaf.permutation_ n)) (leaf_compare ka n).
Proof.
  intros Hn Hlen i j Hij Hj. pose proof Hn as [_ (l & f & Hr) _ _ Hsort]. rewrite (leaf.rep_size width n l f Hr) in Hj.
  destruct (lookup_lt_is_Some_2 l (Z.to_nat i) ltac:(lia)) as [pi Hi]. destruct (lookup_lt_is_Some_2 l (Z.to_nat j) ltac:(lia)) as [pj Hpj].
  destruct (leaf_entry_at ka n es l f _ _ Hn Hr Hlen Hi) as (Ei & _ & si & _ & Hei & Hi1 & _).
  destruct (leaf_entry_at ka n es l f _ _ Hn Hr Hlen Hpj) as (Ej & _ & sj & _ & Hej & Hj1 & Hj2 & _).
  rewrite Z2Nat.id in Ei, Ej by lia. rewrite Ei, Ej. intros Hge. apply Hi1.
  pose proof (Hsort _ _ _ _ (ltac:(lia) : (Z.to_nat i < Z.to_nat j)%nat) Hei Hej) as Hlt.
  destruct (Z.eq_dec (leaf_compare ka n pj) 0) as [E0|].
  - apply Hj2 in E0. rewrite <- E0. exact Hlt.
  - eapply rlt_trans; [exact Hlt|]. apply Hj1. lia.
Qed.

(** What the search finds: the only entry with the key's rank, or its place. *)
Definition leaf_place (ka : key.key) (n : leaf.leaf) (es : list entry) (l : list Z) (fd : KSearch.found) : Prop :=
  match fd with
  | KSearch.Found ki kp => 0 <= ki /\ 0 <= kp < width /\ l !! Z.to_nat ki = Some kp /\
      exists s, leaf.slot_at n kp = Some s /\ es !! Z.to_nat ki = Some (entry_of s) /\ erank (entry_of s) = krank ka
  | KSearch.Absent ki => 0 <= ki <= Z.of_nat (length l) /\
      (forall i e, (i < Z.to_nat ki)%nat -> es !! i = Some e -> rlt (erank e) (krank ka)) /\
      (forall i e, (Z.to_nat ki <= i)%nat -> es !! i = Some e -> rlt (krank ka) (erank e))
  end.

Lemma leaf_locates ka n es l f fd : leaf_ok n es -> leaf.rep width n l f -> 0 <= key.length ka ->
  locates (leaf.size n) (at_ (leaf.permutation_ n)) (leaf_compare ka n) fd -> leaf_place ka n es l fd.
Proof.
  intros Hn Hr Hlen Hf. rewrite (leaf.rep_size width n l f Hr) in Hf. destruct fd as [m mp|k]; cbn [leaf_place locates] in *.
  - destruct Hf as (Hm & -> & H0). destruct (lookup_lt_is_Some_2 l (Z.to_nat m) ltac:(lia)) as [p Hp].
    destruct (leaf_entry_at ka n es l f _ _ Hn Hr Hlen Hp) as (Ep & Hpr & s & Hs & Hes & _ & Hc & _). rewrite Z2Nat.id in Ep by lia.
    rewrite Ep in *. split; [lia|]. split; [exact Hpr|]. split; [exact Hp|]. exists s. split; [exact Hs|]. split; [exact Hes|]. apply Hc, H0.
  - destruct Hf as (Hk & Hb & Ha). split; [exact Hk|].
    assert (Hat : forall i e, es !! i = Some e -> exists p, l !! i = Some p).
    { intros i e Hi. destruct Hn as [_ _ Hc _ _]. rewrite (leaf.rep_contents width n l f Hr) in Hc. rewrite <- Hc, list_lookup_fmap in Hi.
      destruct (l !! i) as [p|]; [eauto|discriminate]. }
    split; intros i e Hi He; destruct (Hat i e He) as [p Hp];
      destruct (leaf_entry_at ka n es l f _ _ Hn Hr Hlen Hp) as (Ep & Hpr & s & Hs & Hes & Hc1 & Hc2 & Hc3);
      rewrite He in Hes; injection Hes as ->; pose proof (lookup_lt_Some _ _ _ Hp).
    + apply Hc1. rewrite <- Ep. apply Hb. lia.
    + apply Hc3. rewrite <- Ep. apply Ha. lia.
Qed.

(** Searching a leaf: the slot of the only entry with the key's rank. *)
Lemma bound_lower_check_ok ka n es : leaf_ok n es -> 0 <= key.length ka ->
  exists kp, bound_lower_check ka n = Some kp /\
    (if kp <? 0 then forall e, e ∈ es -> erank e <> krank ka
     else exists s, leaf.slot_at n kp = Some s /\ entry_of s ∈ es /\ erank (entry_of s) = krank ka).
Proof.
  intros Hn Hlen. pose proof Hn as [_ (l & f & Hr) _ _ _].
  destruct (lower_check_locates _ _ _ binary (leaf_increasing ka n es Hn Hlen)) as (fd & Hf & E).
  { rewrite (leaf.rep_size width n l f Hr). lia. }
  unfold bound_lower_check. rewrite E. eexists. split; [reflexivity|]. pose proof (leaf_locates ka n es l f fd Hn Hr Hlen Hf) as Hp.
  destruct fd as [m mp|k]; cbn [leaf_place] in Hp.
  - destruct Hp as (_ & Hmp & _ & s & Hs & Hes & Er). destruct (Z.ltb_spec mp 0); [lia|]. exists s. split; [exact Hs|].
    split; [eapply list_elem_of_lookup_2, Hes|exact Er].
  - destruct Hp as (Hk & Hb & Ha). destruct (Z.ltb_spec (- k - 1) 0); [|lia]. intros e He Er.
    apply list_elem_of_lookup_1 in He as [i Hi]. destruct (Nat.lt_ge_cases i (Z.to_nat k)) as [Hlt|Hge].
    + specialize (Hb i e Hlt Hi). rewrite Er in Hb. exact (rlt_irrefl _ Hb).
    + specialize (Ha i e Hge Hi). rewrite Er in Ha. exact (rlt_irrefl _ Ha).
Qed.

(** ** Descending *)

Context (w : nat).

Lemma subtree_rest d p lo hi es : subtree w d p lo hi es ->
  exists nd, h !! p = Some nd /\ stable_try nv (version nd) = Some (version nd).
Proof.
  intros H. destruct H as [d p lo hi n es Hp Hn _|d p lo hi n bounds cs ess Hp Hn _ _ _ _ _]; eexists; (split; [exact Hp|]);
    unfold stable_try; cbn [version].
  - destruct Hn as [[-> _] _ _ _ _]. reflexivity.
  - destruct Hn as [[-> _] _ _]. reflexivity.
Qed.

(** The bounds of a node around its [kp]-th child. *)
Lemma bounds_around (keys : list Z) lo hi x kp : (kp <= length keys)%nat -> lo <= x < hi ->
  (forall i k, (i < kp)%nat -> keys !! i = Some k -> k <= x) -> (forall i k, (kp <= i)%nat -> keys !! i = Some k -> x < k) ->
  exists a b, (lo :: keys ++ [hi]) !! kp = Some a /\ (lo :: keys ++ [hi]) !! S kp = Some b /\ a <= x < b.
Proof.
  intros Hkp Hx Hlo Hhi.
  assert (Ha : exists a, (lo :: keys ++ [hi]) !! kp = Some a /\ a <= x).
  { destruct kp as [|j]; [exists lo; split; [reflexivity|lia]|]. destruct (lookup_lt_is_Some_2 keys j ltac:(lia)) as [k Hk].
    exists k. split; [|apply (Hlo j); [lia|exact Hk]].
    change ((lo :: keys ++ [hi]) !! S j) with ((keys ++ [hi]) !! j). rewrite lookup_app_l by lia. exact Hk. }
  destruct Ha as (a & Ha & Hax). exists a. change ((lo :: keys ++ [hi]) !! S kp) with ((keys ++ [hi]) !! kp).
  destruct (decide (kp < length keys)%nat).
  - destruct (lookup_lt_is_Some_2 keys kp ltac:(lia)) as [k Hk]. exists k. split; [exact Ha|]. split; [rewrite lookup_app_l by lia; exact Hk|].
    specialize (Hhi kp k ltac:(lia) Hk). lia.
  - exists hi. split; [exact Ha|]. split; [|lia]. rewrite lookup_app_r by lia. replace (kp - length keys)%nat with 0%nat by lia. reflexivity.
Qed.

(** Strictly increasing bounds keep the children's ranges apart. *)
Lemma bounds_apart bounds i j a b a' b' x : internode.sorted bounds ->
  bounds !! i = Some a -> bounds !! S i = Some b -> bounds !! j = Some a' -> bounds !! S j = Some b' ->
  a <= x < b -> a' <= x < b' -> i = j.
Proof.
  intros Hs Ha Hb Ha' Hb' Hx Hx'. destruct (Nat.lt_trichotomy i j) as [Hlt|[?|Hlt]]; [|assumption|]; exfalso.
  - assert (b <= a') by (destruct (decide (S i = j)) as [<-|]; [replace b with a' by congruence; lia|
      pose proof (Hs (S i) j b a' ltac:(lia) Hb Ha'); lia]). lia.
  - assert (b' <= a) by (destruct (decide (S j = i)) as [<-|]; [replace b' with a by congruence; lia|
      pose proof (Hs (S j) i b' a ltac:(lia) Hb' Ha); lia]). lia.
Qed.
Lemma bounds_inside bounds i a b lo hi n : internode.sorted bounds -> bounds !! 0%nat = Some lo -> bounds !! n = Some hi ->
  length bounds = S n -> bounds !! i = Some a -> bounds !! S i = Some b -> lo <= a /\ b <= hi.
Proof.
  intros Hs H0 Hn Hl Ha Hb. split.
  - destruct (decide (i = 0)%nat) as [->|]; [replace lo with a by congruence; lia|]. pose proof (Hs 0%nat i lo a ltac:(lia) H0 Ha). lia.
  - pose proof (lookup_lt_Some _ _ _ Hb). destruct (decide (S i = n)) as [<-|]; [replace hi with b by congruence; lia|].
    pose proof (Hs (S i) n b hi ltac:(lia) Hb Hn). lia.
Qed.

Lemma subtree_internode_inv n cs : internode_ok w n -> internode.children n = Some <$> cs ->
  length cs = S (internode.nkeys_ n) /\ length (internode.keys n) = internode.nkeys_ n.
Proof.
  intros [_ [Hk Hc Hn] _] E. apply (f_equal length) in E. unfold internode.children, internode.keys in *.
  rewrite length_take, length_fmap in E. split; [|rewrite length_take]; lia.
Qed.

Lemma subtree_range d p lo hi es : subtree w d p lo hi es -> Forall (fun e => lo <= e.1.1.1 < hi) es.
Proof.
  revert p lo hi es. induction d as [|d IH]; intros p lo hi es H; inversion H as [? ? ? ? n ? Hp Hn Hf|? ? ? ? n bounds cs ess Hp Hn Hcs Hb Hs Hl Hsub]; subst.
  { exact Hf. }
  destruct (subtree_internode_inv n cs Hn Hcs) as [Hlc Hlk].
  apply Forall_forall. intros e He. apply list_elem_of_In, in_concat in He as (es & Hes & He).
  apply list_elem_of_In in Hes, He. apply list_elem_of_lookup_1 in Hes as [i Hi].
  pose proof (lookup_lt_Some _ _ _ Hi) as Hlt. destruct (lookup_lt_is_Some_2 cs i ltac:(lia)) as [c Hc].
  set (bounds := lo :: internode.keys n ++ [hi]) in *.
  assert (Hlb : length bounds = S (S (internode.nkeys_ n))) by (unfold bounds; cbn [length]; rewrite length_app; cbn [length]; lia).
  destruct (lookup_lt_is_Some_2 bounds i ltac:(lia)) as [a Ha]. destruct (lookup_lt_is_Some_2 bounds (S i) ltac:(lia)) as [b Hb].
  assert (Hlast : bounds !! S (internode.nkeys_ n) = Some hi).
  { change (bounds !! S (internode.nkeys_ n)) with ((internode.keys n ++ [hi]) !! internode.nkeys_ n).
    rewrite lookup_app_r by lia. rewrite Hlk, Nat.sub_diag. reflexivity. }
  destruct (bounds_inside bounds i a b lo hi _ Hs eq_refl Hlast Hlb Ha Hb) as [H1 H2].
  pose proof (IH _ _ _ _ (Hsub i c es a b Hc Hi Ha Hb)) as Hr. rewrite Forall_forall in Hr. specialize (Hr e He). lia.
Qed.

Lemma descend_ok d p lo hi es fuel ka nd :
  subtree w d p lo hi es -> lo <= key.ikey ka < hi -> h !! p = Some nd -> (d <= fuel)%nat ->
  exists q n es', descend fuel p (version nd) ka = Some (Some (q, leaf.v_ n)) /\ h !! q = Some (NLeaf n) /\ leaf_ok n es' /\
    (forall e, e.1.1.1 = key.ikey ka -> e ∈ es <-> e ∈ es').
Proof.
  revert p lo hi es fuel nd. induction d as [|d IH]; intros p lo hi es fuel nd H Hx Hnd Hf;
    inversion H as [? ? ? ? n ? Hp Hn Hfl|? ? ? ? n bounds cs ess Hp Hn Hcs Hbe Hs Hl Hsub]; subst; rewrite Hp in Hnd; injection Hnd as <-;
    (destruct fuel as [|fuel]; [lia|]); cbn [descend version].
  { pose proof Hn as [[_ [_ Hleaf]] _ _ _ _]. rewrite Hleaf. exists p, n, es. auto. }
  pose proof Hn as [[_ [_ Hleaf]] Hwf Hsk]. rewrite Hleaf, Hp.
  destruct (subtree_internode_inv n cs Hn Hcs) as [Hlc Hlk].
  destruct (internode.bound_upper_spec w binary (key.ikey ka) n Hwf Hsk) as (kp & -> & Hkp & Hlo & Hhi). cbn [mbind option_bind].
  destruct (lookup_lt_is_Some_2 cs kp ltac:(lia)) as [c Hc].
  assert (Hch : internode.child_ n !! kp = Some (Some c)).
  { assert (E : internode.children n !! kp = Some (Some c)) by (rewrite Hcs, list_lookup_fmap, Hc; reflexivity).
    unfold internode.children in E. rewrite lookup_take_lt in E by lia. exact E. }
  rewrite Hch. cbn [mbind option_bind]. destruct (lookup_lt_is_Some_2 ess kp ltac:(lia)) as [es Hes].
  destruct (bounds_around (internode.keys n) lo hi (key.ikey ka) kp ltac:(lia) Hx Hlo Hhi) as (a & b & Ha & Hb & Hab).
  pose proof (Hsub kp c es a b Hc Hes Ha Hb) as Hst. destruct (subtree_rest _ _ _ _ _ Hst) as (nd & Hnd & Hstb).
  rewrite Hnd. cbn [mbind option_bind]. rewrite Hstb. cbn [mbind option_bind]. rewrite not_changed_self.
  destruct (IH c a b es fuel nd Hst Hab Hnd ltac:(lia)) as (q & n' & es' & Ed & Hq & Hn' & Hiff).
  exists q, n', es'. split; [exact Ed|]. split; [exact Hq|]. split; [exact Hn'|]. intros e He. rewrite <- (Hiff e He). split.
  - intros Hin. apply list_elem_of_In, in_concat in Hin as (es1 & Hes1 & Hin). apply list_elem_of_In in Hes1, Hin.
    apply list_elem_of_lookup_1 in Hes1 as [i Hi]. pose proof (lookup_lt_Some _ _ _ Hi) as Hlt.
    destruct (lookup_lt_is_Some_2 cs i ltac:(lia)) as [c1 Hc1]. set (bounds := lo :: internode.keys n ++ [hi]) in *.
    assert (Hlb : length bounds = S (S (internode.nkeys_ n))) by (unfold bounds; cbn [length]; rewrite length_app; cbn [length]; lia).
    destruct (lookup_lt_is_Some_2 bounds i ltac:(lia)) as [a1 Ha1]. destruct (lookup_lt_is_Some_2 bounds (S i) ltac:(lia)) as [b1 Hb1].
    pose proof (subtree_range _ _ _ _ _ (Hsub i c1 es1 a1 b1 Hc1 Hi Ha1 Hb1)) as Hr. rewrite Forall_forall in Hr. specialize (Hr e Hin).
    assert (i = kp) as -> by (eapply (bounds_apart bounds i kp a1 b1 a b (key.ikey ka)); eauto; lia). replace es with es1 by congruence. exact Hin.
  - intros Hin. apply list_elem_of_In, in_concat. exists es. split; apply list_elem_of_In; [eapply list_elem_of_lookup_2, Hes|exact Hin].
Qed.

(** ** Stale roots *)

(** [x] is the root [p], or [k] splits behind it. *)
Inductive leads : nat -> nat -> nat -> Prop :=
| leads_root p nd : h !! p = Some nd -> has_split nv (version nd) = false -> leads 0 p p
| leads_up k x nd y p : h !! x = Some nd -> has_split nv (version nd) = true -> stable_try nv (version nd) = Some (version nd) ->
    ps !! x = Some (Some y) -> leads k y p -> leads (S k) x p.

Lemma leads_end k x p : leads k x p -> exists nd, h !! p = Some nd /\ has_split nv (version nd) = false.
Proof. induction 1; eauto. Qed.

Lemma unsplit_ancestor_ok k x p fuel : leads k x p -> (k < fuel)%nat -> unsplit_ancestor fuel x = Some p.
Proof.
  intros H. revert fuel. induction H as [p nd Hp Hs|k x nd y p Hx Hs _ Hy _ IH]; intros fuel Hf; (destruct fuel as [|fuel]; [lia|]);
    cbn [unsplit_ancestor].
  - rewrite Hp. cbn [mbind option_bind]. rewrite Hs. reflexivity.
  - rewrite Hx. cbn [mbind option_bind]. rewrite Hs, Hy. cbn [mbind option_bind]. apply IH. lia.
Qed.

Lemma find_root_ok k x p fuel nd : leads k x p -> h !! p = Some nd -> stable_try nv (version nd) = Some (version nd) ->
  (S k < fuel)%nat -> find_root fuel x = Some (p, version nd).
Proof.
  intros Hl Hp Hst Hf. pose proof (leads_end _ _ _ Hl) as (nd' & Hp' & Hroot). rewrite Hp in Hp'. injection Hp' as <-.
  assert (Hend : forall f, find_root (S f) p = Some (p, version nd)).
  { intros f. cbn [find_root]. rewrite Hp. cbn [mbind option_bind]. rewrite Hst. cbn [mbind option_bind]. rewrite Hroot. reflexivity. }
  destruct fuel as [|[|fuel]]; [lia|lia|]. destruct Hl as [|k x ndx y p Hx Hs Hstx Hy Hl]; [apply Hend|].
  remember (S fuel) as f1 eqn:Ef. cbn [find_root]. rewrite Hx. cbn [mbind option_bind]. rewrite Hstx. cbn [mbind option_bind]. rewrite Hs. cbn [negb].
  rewrite (unsplit_ancestor_ok (S k) x p) by (lia || (eapply leads_up; eassumption)). cbn [mbind option_bind]. subst f1. apply Hend.
Qed.

(** ** Layers *)

(** The entries of each layer, by the address other layers know its root by. *)
Abbreviation table := (gmap nat (list entry)).

(** The heap holds the layers of [tab], none deeper than [D]. *)
Definition layers_ok (D : nat) (tab : table) : Prop :=
  forall root es, tab !! root = Some es ->
    (exists k p d, leads k root p /\ (k <= D)%nat /\ (d <= D)%nat /\ subtree w d p 0 (2 ^ 64) es) /\
    Forall (fun e => 9 < e.1.1.2 -> 127 < e.1.1.2 /\ is_Some (tab !! Z.to_nat e.1.2)) es.

(** The key [k] has the value [v] below the layer [root]. *)
Inductive maps (tab : table) : nat -> list byte -> Z -> Prop :=
| maps_value root es e k :
    tab !! root = Some es -> e ∈ es -> e.1.1.2 <= 8 -> Z.of_nat (length k) = e.1.1.2 -> slice_of k = e.1.1.1 ->
    maps tab root k e.1.2
| maps_suffix root es e k :
    tab !! root = Some es -> e ∈ es -> e.1.1.2 = 9 -> 8 < Z.of_nat (length k) -> slice_of k = e.1.1.1 -> drop 8 k = e.2 ->
    maps tab root k e.1.2
| maps_layer root es e k v :
    tab !! root = Some es -> e ∈ es -> 127 < e.1.1.2 -> 8 < Z.of_nat (length k) -> slice_of k = e.1.1.1 ->
    maps tab (Z.to_nat e.1.2) (drop 8 k) v -> maps tab root k v.

(** A key object that stands at a string, shifted or not. *)
Definition key_at (ka : key.key) (s len : Z) : Prop :=
  0 <= len /\ key.ikey ka = slice_of (bytes mem s (Z.to_nat len)) /\ key.length ka = len /\ key.s_ ka = s.

Lemma slice_of_range l : 0 <= slice_of l < 2 ^ 64.
Proof.
  unfold slice_of. pose proof (le_value_range (rev (pad8 l))) as H. rewrite length_rev, length_pad8 in H. exact H.
Qed.

(** From [root] every key gets to the leaf that has the layer's entries [es] with the
    key's slice. *)
Definition reaches (D : nat) (root : nat) (es : list entry) : Prop :=
  forall ka s len fuel, key_at ka s len -> (S D < fuel)%nat ->
  exists q n es', reach_leaf fuel root ka = Some (q, n, leaf.v_ n) /\ leaf_ok n es' /\
    (forall e, e.1.1.1 = key.ikey ka -> e ∈ es <-> e ∈ es').

(** The layers that the entries of a layer lead to. *)
Definition refs_in (tab : table) (es : list entry) : Prop :=
  Forall (fun e => 9 < e.1.1.2 -> 127 < e.1.1.2 /\ is_Some (tab !! Z.to_nat e.1.2)) es.

Lemma reach_leaf_ok D tab root es : layers_ok D tab -> tab !! root = Some es -> reaches D root es.
Proof.
  intros Hok Ht ka s len fuel (Hlen & Hik & _ & _) Hf. destruct (Hok root es Ht) as [(k & p & d & Hl & Hk & Hd & Hst) _].
  destruct (subtree_rest _ _ _ _ _ Hst) as (nd & Hp & Hstb).
  assert (Hx : 0 <= key.ikey ka < 2 ^ 64) by (rewrite Hik; apply slice_of_range).
  destruct (descend_ok d p 0 (2 ^ 64) es fuel ka nd Hst Hx Hp ltac:(lia)) as (q & n & es' & Ed & Hq & Hn & Hiff).
  destruct fuel as [|fuel]; [lia|]. cbn [reach_leaf]. rewrite (find_root_ok k root p (S fuel) nd Hl Hp Hstb ltac:(lia)).
  cbn [mbind option_bind]. rewrite Ed. cbn [mbind option_bind]. rewrite Hq. exists q, n, es'. auto.
Qed.

(** Entries of one layer with equal rank are equal. *)
Lemma rank_unique n es : leaf_ok n es -> forall a b, a ∈ es -> b ∈ es -> erank a = erank b -> a = b.
Proof.
  intros [_ _ _ _ Hs] a b Ha Hb E. apply list_elem_of_lookup_1 in Ha as [i Hi], Hb as [j Hj].
  destruct (Nat.lt_trichotomy i j) as [Hlt|[->|Hlt]]; [|congruence|].
  - destruct (rlt_irrefl (erank b)). rewrite <- E at 1. exact (Hs i j a b Hlt Hi Hj).
  - destruct (rlt_irrefl (erank a)). rewrite E at 1. exact (Hs j i b a Hlt Hj Hi).
Qed.

(** The rank of any entry that can give the key a value. *)
Lemma maps_rank tab root es k v : tab !! root = Some es -> maps tab root k v ->
  exists e, e ∈ es /\ erank e = (slice_of k, Z.min (Z.of_nat (length k)) 9) /\
    (if e.1.1.2 <=? 8 then v = e.1.2
     else if e.1.1.2 =? 9 then drop 8 k = e.2 /\ v = e.1.2
     else maps tab (Z.to_nat e.1.2) (drop 8 k) v).
Proof.
  intros Ht H. inversion H as [? es' e ? Ht' He Hkl Hlen Hsl|? es' e ? Ht' He Hkl Hlen Hsl Hsuf|? es' e ? ? Ht' He Hkl Hlen Hsl Hm]; subst;
    rewrite Ht in Ht'; injection Ht' as <-; exists e; (split; [exact He|]); unfold erank; rewrite Hsl; (split; [f_equal; lia|]).
  - destruct (Z.leb_spec e.1.1.2 8); [reflexivity|lia].
  - rewrite Hkl. cbn. auto.
  - destruct (Z.leb_spec e.1.1.2 8); [lia|]. destruct (Z.eqb_spec e.1.1.2 9); [lia|exact Hm].
Qed.

Lemma shift_at ka s len : key_at ka s len -> 8 <= len -> key_at (key.shift mem ka) (s + 8) (len - 8).
Proof.
  intros (_ & _ & Hl & Hs) H8. unfold key.length in Hl. unfold key_at, key.shift, key.ikey, key.length, key.ikey_size. cbn [key.ikey0_ key.len_ key.s_].
  rewrite Hl, Hs, make_comparable_sloppy_slice by lia. repeat split; lia.
Qed.

(** The entry of a layer that can give the key a value decides what it maps to. *)
Lemma maps_entry tab root es n es' e k v :
  tab !! root = Some es -> leaf_ok n es' -> (forall x, x.1.1.1 = slice_of k -> x ∈ es <-> x ∈ es') ->
  e ∈ es' -> erank e = (slice_of k, Z.min (Z.of_nat (length k)) 9) -> (9 < e.1.1.2 -> 127 < e.1.1.2) ->
  maps tab root k v <->
  (if e.1.1.2 <=? 8 then v = e.1.2
   else if e.1.1.2 =? 9 then drop 8 k = e.2 /\ v = e.1.2
   else maps tab (Z.to_nat e.1.2) (drop 8 k) v).
Proof.
  intros Ht Hn Hiff He Hr Hnode. pose proof Hr as Hr'. unfold erank in Hr'. apply pair_equal_spec in Hr' as [Hsl Hkl]. split.
  - intros Hm. destruct (maps_rank _ _ _ _ _ Ht Hm) as (x & Hx & Hxr & Hv).
    assert (x = e) as ->; [|exact Hv]. apply (rank_unique n es' Hn); [|exact He|congruence].
    apply Hiff; [|exact Hx]. unfold erank in Hxr. congruence.
  - apply Hiff in He; [|exact Hsl]. destruct (Z.leb_spec e.1.1.2 8).
    + intros ->. eapply maps_value; eauto; lia.
    + destruct (Z.eqb_spec e.1.1.2 9).
      * intros [Hd ->]. eapply maps_suffix; eauto; lia.
      * intros Hm. eapply maps_layer; eauto; lia.
Qed.

Lemma find_unlocked_S fuel root ka : find_unlocked (S fuel) root ka =
  '(_, n, v) ← reach_leaf (S fuel) root ka;
  if deleted nv v then find_unlocked fuel root ka
  else
    kp ← bound_lower_check ka n;
    if kp <? 0 then (if has_changed nv (leaf.v_ n) v then None else Some None)
    else
      s ← leaf.slot_at n kp;
      if has_changed nv (leaf.v_ n) v then None
      else if keylenx_is_node (leaf.keylenx s) then
        if keylenx_is_stable_node (leaf.keylenx s) then find_unlocked fuel (Z.to_nat (leaf.lv s)) (key.shift mem ka) else None
      else if ksuf_equals ka s (leaf.keylenx s) then Some (Some (leaf.lv s)) else Some None.
Proof.
  cbn [find_unlocked]. destruct (reach_leaf (S fuel) root ka) as [[[q n] v]|]; [|reflexivity]. cbn [mbind option_bind].
  destruct (deleted nv v), (bound_lower_check ka n) as [kp|]; try reflexivity. cbn [mbind option_bind].
  destruct (kp <? 0); [reflexivity|]. destruct (leaf.slot_at n kp) as [s|]; [|reflexivity]. cbn [mbind option_bind].
  destruct (has_changed nv (leaf.v_ n) v); [reflexivity|]. unfold after_search.
  destruct (keylenx_is_node (leaf.keylenx s)), (keylenx_is_stable_node (leaf.keylenx s)), (ksuf_equals ka s (leaf.keylenx s)); reflexivity.
Qed.

(** The slot found holds a value, a suffix to compare, or the next layer. *)
Lemma found_value ka s k sl len : key_at ka sl len -> k = bytes mem sl (Z.to_nat len) ->
  erank (entry_of s) = (slice_of k, Z.min (Z.of_nat (length k)) 9) -> leaf.keylenx s <= 9 ->
  exists r, (if ksuf_equals ka s (leaf.keylenx s) then Some (Some (leaf.lv s)) else Some None) = Some r /\
    forall v, r = Some v <->
      (if leaf.keylenx s <=? 8 then v = leaf.lv s else drop 8 k = (entry_of s).2 /\ v = leaf.lv s).
Proof.
  intros (Hlen & _ & Hkl & Hks) -> Hr H9. unfold erank in Hr. apply pair_equal_spec in Hr as [_ Hr]. cbn in Hr. rewrite length_bytes in Hr.
  unfold ksuf_equals, entry_of, keylenx_has_ksuf, leaf.suffix_of, key.suffix. unfold key.length in Hkl. rewrite Hkl, Hks.
  change (key.ikey_size + 1) with 9. change key.ikey_size with 8. cbn [fst snd].
  destruct (Z.leb_spec (leaf.keylenx s) 8).
  - destruct (Z.eqb_spec (leaf.keylenx s) 9); [lia|]. eexists. split; [reflexivity|]. intros v. split; congruence.
  - destruct (Z.eqb_spec (leaf.keylenx s) 9); [|lia]. cbn [negb orb]. rewrite drop_bytes by lia.
    replace (Z.to_nat len - 8)%nat with (Z.to_nat (len - 8)) by lia. change (Z.of_nat 8) with 8.
    case_bool_decide as E; (eexists; split; [reflexivity|]); intros v; split; intros Hv; try congruence.
    + injection Hv as <-. auto.
    + destruct Hv as [_ ->]. reflexivity.
    + destruct Hv as [Hd _]. congruence.
Qed.

Lemma find_unlocked_ok D tab : (forall root es, tab !! root = Some es -> reaches D root es /\ refs_in tab es) -> forall fuel root x es ka s len,
  tab !! root = Some es -> reaches D x es -> key_at ka s len -> (S D + Z.to_nat len < fuel)%nat ->
  exists r, find_unlocked fuel x ka = Some r /\ forall v, r = Some v <-> maps tab root (bytes mem s (Z.to_nat len)) v.
Proof.
  intros Hok. induction fuel as [|fuel IH]; intros root x es ka s len Ht Hx Hka Hf; [lia|].
  pose proof Hka as (Hlen & Hik & Hkl & Hks). remember (bytes mem s (Z.to_nat len)) as k eqn:Ek.
  assert (Hkr : krank ka = (slice_of k, Z.min (Z.of_nat (length k)) 9)).
  { unfold krank. rewrite Hik, Hkl, Ek, length_bytes. f_equal. lia. }
  destruct (Hx ka s len (S fuel) Hka ltac:(lia)) as (q & n & es' & Er & Hn & Hiff).
  rewrite Hik in Hiff. rewrite find_unlocked_S, Er. cbn [mbind option_bind]. pose proof Hn as [[_ [-> _]] _ _ _ _].
  destruct (bound_lower_check_ok ka n es' Hn ltac:(lia)) as (kp & -> & Hkp). cbn [mbind option_bind]. rewrite not_changed_self, Hkr in *.
  destruct (kp <? 0).
  { eexists. split; [reflexivity|]. intros v. split; [discriminate|]. intros Hm.
    destruct (maps_rank _ _ _ _ _ Ht Hm) as (e & He & Hxr & _). destruct (Hkp e); [|exact Hxr]. apply Hiff; [|exact He]. unfold erank in Hxr. congruence. }
  destruct Hkp as (sl & -> & He & Hr). cbn [mbind option_bind].
  destruct (Hok root es Ht) as [_ Hnode]. unfold refs_in in Hnode. rewrite Forall_forall in Hnode.
  assert (Hes : entry_of sl ∈ es) by (apply Hiff; [unfold erank in Hr; congruence|exact He]). specialize (Hnode _ Hes).
  pose proof (fun v => maps_entry tab root es n es' _ k v Ht Hn Hiff He Hr ltac:(tauto)) as Hmaps. cbn [entry_of fst snd] in Hmaps, Hnode.
  unfold keylenx_is_node, keylenx_is_stable_node. destruct (Z.ltb_spec 63 (leaf.keylenx sl)) as [H63|H63].
  - destruct Hnode as [H127 [es2 Ht2]]; [lia|]. destruct (Z.ltb_spec 127 (leaf.keylenx sl)); [|lia].
    assert (H8 : 8 < len).
    { unfold erank in Hr. apply pair_equal_spec in Hr as [_ Hr]. cbn in Hr. rewrite Ek, length_bytes in Hr. lia. }
    destruct (IH (Z.to_nat (leaf.lv sl)) _ es2 _ _ _ Ht2 (proj1 (Hok _ _ Ht2)) (shift_at _ _ _ Hka ltac:(lia)) ltac:(lia)) as (r & E & Hv).
    exists r. split; [exact E|]. intros v. rewrite Hv, Hmaps. destruct (Z.leb_spec (leaf.keylenx sl) 8); [lia|].
    destruct (Z.eqb_spec (leaf.keylenx sl) 9); [lia|]. rewrite Ek, drop_bytes by lia.
    replace (Z.to_nat len - 8)%nat with (Z.to_nat (len - 8)) by lia. reflexivity.
  - assert (H9 : leaf.keylenx sl <= 9) by (destruct (Z.le_gt_cases (leaf.keylenx sl) 9); [assumption|destruct Hnode; lia]).
    destruct (found_value ka sl k s len Hka Ek Hr H9) as (r & E & Hv). exists r. split; [exact E|]. intros v. rewrite Hv, Hmaps.
    destruct (Z.leb_spec (leaf.keylenx sl) 8); [reflexivity|]. destruct (Z.eqb_spec (leaf.keylenx sl) 9); [reflexivity|lia].
Qed.

Lemma of_str_at s len : 0 <= len -> key_at (key.of_str mem s len) s len.
Proof.
  intros H. unfold key_at, key.of_str, key.ikey, key.length. cbn [key.ikey0_ key.len_ key.s_].
  repeat split; try lia. rewrite make_comparable_slice by lia. reflexivity.
Qed.

(** C30: a lookup in a well-formed tree of layers at rest ends, with fuel for the
    depth of one layer and the length of the key, and finds a value exactly when
    the tree maps the key's bytes to it: from the root of the first layer, which
    may be a node the layer has split away from, down through the internodes by
    the key's slice, and through a next layer for each eight bytes. *)
Theorem masstree_get D tab root es s len fuel :
  layers_ok D tab -> tab !! root = Some es -> 0 <= len -> (S D + Z.to_nat len < fuel)%nat ->
  exists r, get fuel root s len = Some r /\ forall v, r = Some v <-> maps tab root (bytes mem s (Z.to_nat len)) v.
Proof.
  intros Hok Ht Hlen Hf. apply (find_unlocked_ok D tab) with (es := es); [|exact Ht|eapply reach_leaf_ok; eassumption|apply of_str_at, Hlen|exact Hf].
  intros r es' Hr. split; [eapply reach_leaf_ok; eassumption|]. apply (Hok r es' Hr).
Qed.

End Get.

(** ** A tree of two layers *)

(** The first layer is known by leaf 5, which has split; its root is the internode
    1.  The entry of "abcdefgh" is the layer whose root is leaf 4. *)
Definition example_leaf_of (v : Z) (l : list leaf.slot) : leaf.leaf :=
  leaf.mk v 0 (make_sorted 15 (Z.of_nat (length l))) (l ++ replicate (15 - length l) leaf.no_slot).
Definition left_slots : list leaf.slot :=
  [leaf.mkSlot 8 0x0100000000000000 100 []; leaf.mkSlot 128 0x6162636465666768 4 []].
Definition right_slots : list leaf.slot := [leaf.mkSlot 9 0x7000000000000000 101 [x79]].
Definition next_slots : list leaf.slot := [leaf.mkSlot 3 0x696a6b0000000000 42 []].
Definition example_heap : heap :=
  <[1%nat := NInternode (internode.mk 0x40000000 1 (0x7000000000000000 :: replicate 14 0) (Some 5%nat :: Some 3%nat :: replicate 14 None))]>
  (<[5%nat := NLeaf (example_leaf_of 0x80000000 left_slots)]>
  (<[3%nat := NLeaf (example_leaf_of 0x80000000 right_slots)]>
  (<[4%nat := NLeaf (example_leaf_of 0xc0000000 next_slots)]> ∅))).
Definition example_up : internode.parents := <[5%nat := Some 1%nat]> (<[3%nat := Some 1%nat]> (<[1%nat := None]> (<[4%nat := None]> ∅))).
Definition example_tab : gmap nat (list entry) :=
  <[5%nat := entry_of <$> left_slots ++ right_slots]> (<[4%nat := entry_of <$> next_slots]> ∅).

Abbreviation nv32 := nodeversion32_parameters.

Lemma example_leaf_ok v l : at_rest nv32 true v -> (length l <= 15)%nat -> Forall (fun s => 0 <= leaf.keylenx s) l ->
  (forall i j a b, (i < j)%nat -> l !! i = Some a -> l !! j = Some b -> rlt (erank (entry_of a)) (erank (entry_of b))) ->
  leaf_ok 15 nv32 (example_leaf_of v l) (entry_of <$> l).
Proof.
  intros Hv Hl Hk Hs. set (k := Z.of_nat (length l)).
  assert (Hr : leaf.rep 15 (example_leaf_of v l) (seqZ 0 k) (rev (seqZ k (15 - k)))).
  { split; [apply (make_sorted_holds 15); lia|apply (sorted_slots_perm 15); lia|]. cbn. rewrite length_app, length_replicate. lia. }
  split; [exact Hv|eauto| |apply Forall_fmap, Hk|].
  - rewrite (leaf.rep_contents _ _ _ _ Hr). apply list_eq. intros i. rewrite !list_lookup_fmap.
    destruct (decide (i < length l)%nat) as [Hi|Hi].
    + rewrite lookup_seqZ_lt by lia. destruct (lookup_lt_is_Some_2 l i Hi) as [s E]. rewrite E. cbn [fmap option_fmap option_map].
      unfold entry_at. f_equal. f_equal. apply nth_lookup_Some. cbn. replace (Z.to_nat (0 + Z.of_nat i)) with i by lia.
      rewrite lookup_app_l by exact Hi. exact E.
    + rewrite lookup_seqZ_ge by lia. rewrite (lookup_ge_None_2 l i) by lia. reflexivity.
  - intros i j a b Hij Ha Hb. rewrite list_lookup_fmap in Ha, Hb.
    destruct (l !! i) eqn:Ei, (l !! j) eqn:Ej; try discriminate. injection Ha as <-. injection Hb as <-. eauto.
Qed.

Ltac small_forall := apply Forall_forall; intros ? Hin; apply list_elem_of_In in Hin; cbn in Hin; repeat destruct Hin as [<-|Hin]; try contradiction; cbn.
Ltac small_sorted := intros i j a b Hij Ha Hb; destruct i as [|[|[|[|i]]]], j as [|[|[|[|j]]]]; cbn in Ha, Hb; try discriminate; try lia;
  injection Ha as <-; injection Hb as <-; unfold rlt; cbn; lia.

Lemma example_layers : layers_ok 15 nv32 example_heap example_up 15 2 example_tab.
Proof.
  assert (H5 : leaf_ok 15 nv32 (example_leaf_of 0x80000000 left_slots) (entry_of <$> left_slots)).
  { apply example_leaf_ok; [repeat split|cbn; lia|small_forall; lia|small_sorted]. }
  assert (H3 : leaf_ok 15 nv32 (example_leaf_of 0x80000000 right_slots) (entry_of <$> right_slots)).
  { apply example_leaf_ok; [repeat split|cbn; lia|small_forall; lia|small_sorted]. }
  assert (H4 : leaf_ok 15 nv32 (example_leaf_of 0xc0000000 next_slots) (entry_of <$> next_slots)).
  { apply example_leaf_ok; [repeat split|cbn; lia|small_forall; lia|small_sorted]. }
  intros root es Ht. unfold example_tab in Ht.
  apply lookup_insert_Some in Ht as [[<- <-]|[_ Ht]]; [|apply lookup_insert_Some in Ht as [[<- <-]|[_ Ht]]; [|discriminate]].
  - split; [|small_forall; intros; try lia; split; [lia|eexists; reflexivity]].
    exists 1%nat, 1%nat, 2%nat. split; [|split; [lia|split; [lia|]]].
    + eapply leads_up; [reflexivity|reflexivity|reflexivity|reflexivity|]. eapply leads_root; reflexivity.
    + rewrite fmap_app. change ((entry_of <$> left_slots) ++ (entry_of <$> right_slots)) with (concat [entry_of <$> left_slots; entry_of <$> right_slots]).
      eapply (subtree_internode _ _ _ _ _ _ _ _ _ _ [5; 3]%nat); [reflexivity| |reflexivity|reflexivity| |reflexivity|].
      * split; [repeat split|split; cbn; lia|small_sorted].
      * small_sorted.
      * intros i c es a b Hc Hes Ha Hb. destruct i as [|[|i]]; cbn in Hc, Hes, Ha, Hb; try discriminate;
          injection Hc as <-; injection Hes as <-; injection Ha as <-; injection Hb as <-.
        -- eapply subtree_leaf; [reflexivity|exact H5|small_forall; lia].
        -- eapply subtree_leaf; [reflexivity|exact H3|small_forall; lia].
  - split; [|small_forall; lia]. exists 0%nat, 4%nat, 1%nat. split; [eapply leads_root; reflexivity|]. split; [lia|]. split; [lia|].
    eapply subtree_leaf; [reflexivity|exact H4|small_forall; lia].
Qed.

(** "abcdefghijk" is found in the second layer. *)
Lemma masstree_get_witness : exists r, get nv32 true leaf.example_mem example_heap example_up 20 5 0 11 = Some r /\
  (forall v, r = Some v <-> maps example_tab 5 (bytes leaf.example_mem 0 11) v) /\ r = Some 42.
Proof.
  destruct (masstree_get 15 nv32 true leaf.example_mem example_heap example_up ltac:(lia) 15 2 example_tab 5 _ 0 11 20 example_layers eq_refl)
    as (r & E & Hr); [lia|cbn; lia|]. exists r. split; [exact E|]. split; [exact Hr|].
  assert (E' : get nv32 true leaf.example_mem example_heap example_up 20 5 0 11 = Some (Some 42)) by (vm_compute; reflexivity). congruence.
Defined.

End tree.
