(* ===== verification/Layer.v ===== *)
(** * New layers (src/masstree/masstree_insert.hh, tcursor::check_leaf_insert)

    When a key meets an entry with the same eight bytes and another suffix, the
    entry becomes the root of a new layer that holds the old suffix, and the new
    one unless the next eight bytes agree as well.  The leaf's slot changes from a
    value to a layer by three writes which readers may see in between: unlike the
    writers of NodeVersion.v, this one sets no dirty bit. *)

From S2P Require Import Prelude KPermuter NodeVersion StringSlice MtKey Internode Leaf Tree.

Open Scope Z_scope.

Module layer.

Import leaf (entry, entry_of, entry_at, contents, rep, slot_at).
Import tree (erank, krank, rlt, leaf_ok, at_rest, maps, maps_value, maps_suffix, maps_layer, key_at, after_search, ksuf_equals).

Section Layer.
Context (width : Z) (nv : nodeversion_parameters) (mem : memory).

Definition put_slot (n : leaf.leaf) (p : Z) (s : leaf.slot) : option leaf.leaf :=
  sl ← poke (leaf.slots n) (Z.to_nat p) s;
  Some (leaf.mk (leaf.v_ n) (leaf.nremoved_ n) (leaf.permutation_ n) sl).

(** Assignments to keylenx_[p] and lv_[p]. *)
Definition set_keylenx (n : leaf.leaf) (p x : Z) : option leaf.leaf :=
  s ← slot_at n p; put_slot n p (leaf.mkSlot x (leaf.ikey0 s) (leaf.lv s) (leaf.suf s)).
Definition set_lv (n : leaf.leaf) (p x : Z) : option leaf.leaf :=
  s ← slot_at n p; put_slot n p (leaf.mkSlot (leaf.keylenx s) (leaf.ikey0 s) x (leaf.suf s)).

(** key_compare of two keys. *)
Definition key_compare (a b : key.key) : Z := key.compare a (key.ikey b) (key.length b).

(** The new leaf: the old key [oka] and its value, and a place for [ka]. *)
Definition layer_leaf (fresh : list leaf.slot) (oka ka : key.key) (kc value : Z) : option leaf.leaf :=
  let nl := leaf.new_leaf width nv fresh in
  let nl := leaf.set_v (mark_root nv (leaf.v_ nl)) nl in
  nl ← leaf.assign mem nl 0 (if kc <=? 0 then oka else ka);
  nl ← (if negb (kc =? 0) then leaf.assign mem nl 1 (if kc <=? 0 then ka else oka) else Some nl);
  nl ← set_lv nl (Z.b2z (0 <? kc)) value;
  nl ← (if negb (kc =? 0) then
          match lock_try nv (leaf.v_ nl) (leaf.v_ nl) with
          | LockTaken v => set_lv (leaf.set_v v nl) (Z.b2z (kc <? 0)) leaf.empty_value
          | LockRetry _ => None
          end
        else Some nl);
  Some (leaf.set_permutation
    (if kc <=? 0 then make_sorted width 1 else remove_to_back width (make_sorted width 2) 0) nl).

(** found_marker, or a new layer: the states of the leaf after each write, the new
    leaf, the shifted key, and ki_ = kp_ in the new leaf for insert_marker. *)
Inductive layer_outcome :=
| LFound
| LNew (states : list leaf.leaf) (nl : leaf.leaf) (ka : key.key) (kp : option Z).

(** [sa]: where the suffix bag keeps the entry's suffix; [nlp]: the new leaf. *)
Definition check_layer (n : leaf.leaf) (kp : Z) (ka : key.key) (sa : Z) (fresh : list leaf.slot) (nlp : nat) : option layer_outcome :=
  s ← slot_at n kp;
  if ksuf_equals mem ka s (leaf.keylenx s) then Some LFound
  else if negb (leaf.keylenx_has_ksuf (leaf.keylenx s)) then None
  else
    let oka := key.of_str mem sa (Z.of_nat (length (leaf.suf s))) in
    let ka := key.shift mem ka in
    let kc := key_compare oka ka in
    nl ← layer_leaf fresh oka ka kc (leaf.lv s);
    n1 ← set_keylenx n kp (key.ikey_size + 65);
    n2 ← set_lv n1 kp (Z.of_nat nlp);
    n3 ← set_keylenx n2 kp (key.ikey_size + 129);
    v ← unlock nv (leaf.v_ n3) (leaf.v_ n);
    Some (LNew [n; n1; n2; n3; leaf.set_v v n3] nl ka (if kc =? 0 then None else Some (Z.b2z (kc <? 0)))).

(** ** Entries of byte strings *)

(** The entry of a key that ends in this layer or has a suffix here. *)
Definition entry_for (kv : list byte * Z) : entry :=
  (slice_of kv.1, Z.min (Z.of_nat (length kv.1)) 9, kv.2, if decide (8 < length kv.1)%nat then drop 8 kv.1 else []).

Lemma slice_take k k' : slice_of k = slice_of k' -> Nat.min 8 (length k) = Nat.min 8 (length k') -> take 8 k = take 8 k'.
Proof.
  intros E Hl. unfold slice_of in E. apply le_value_inj in E; [|rewrite !length_rev, !length_pad8; reflexivity].
  apply (f_equal (@rev byte)) in E. rewrite !rev_involutive in E. unfold pad8 in E. apply app_inj_1 in E as [E _]; [exact E|].
  rewrite !length_take. exact Hl.
Qed.

Lemma entry_for_inj k k' : slice_of k = slice_of k' -> Z.min (Z.of_nat (length k)) 9 = Z.min (Z.of_nat (length k')) 9 ->
  drop 8 k = drop 8 k' -> k = k'.
Proof. intros Hs Hl Hd. rewrite <- (take_drop 8 k), <- (take_drop 8 k'), Hd. f_equal. apply slice_take; [exact Hs|lia]. Qed.

(** A layer of such entries maps exactly their keys. *)
Lemma maps_entries tab r kvs k v : tab !! r = Some (entry_for <$> kvs) -> maps tab r k v <-> (k, v) ∈ kvs.
Proof.
  intros Ht. split.
  - intros H. inversion H as [? es e ? Ht' He Hkl Hlen Hsl|? es e ? Ht' He Hkl Hlen Hsl Hsuf|? es e ? ? Ht' He Hkl Hlen Hsl _]; subst;
      rewrite Ht in Ht'; injection Ht' as <-; apply list_elem_of_fmap in He as ([k' v'] & -> & He); cbn in *.
    + replace k with k'; [exact He|]. apply entry_for_inj; [exact (eq_sym Hsl)|lia|].
      rewrite !drop_ge by lia. reflexivity.
    + replace k with k'; [exact He|]. apply entry_for_inj; [exact (eq_sym Hsl)|lia|].
      destruct (decide (8 < length k')%nat); [congruence|lia].
    + lia.
  - intros Hin. assert (He : entry_for (k, v) ∈ entry_for <$> kvs) by (apply list_elem_of_fmap; eauto).
    destruct (decide (8 < length k)%nat).
    + apply (maps_suffix tab r _ (entry_for (k, v)) k Ht He); cbn; try lia; try reflexivity. destruct (decide _); [reflexivity|lia].
    + apply (maps_value tab r _ (entry_for (k, v)) k Ht He); cbn; try lia; reflexivity.
Qed.

(** Every layer an entry leads to is in the table. *)
Definition refs_ok (tab : gmap nat (list entry)) : Prop :=
  forall r es e, tab !! r = Some es -> e ∈ es -> 9 < e.1.1.2 -> is_Some (tab !! Z.to_nat e.1.2).

Section Replace.
Context (tab : gmap nat (list entry)) (root nlp : nat) (A B : list entry) (ik value : Z) (suf : list byte).
Hypothesis Hrefs : refs_ok tab.
Hypothesis Hnew : tab !! nlp = None.
Hypothesis Hroot : tab !! root = Some (A ++ (ik, 9, value, suf) :: B).

Let tab' := <[nlp := [entry_for (suf, value)]]> (<[root := A ++ (ik, 137, Z.of_nat nlp, []) :: B]> tab).

Lemma root_new : root <> nlp.
Proof. intros ->. rewrite Hnew in Hroot. discriminate. Qed.

Lemma new_lookup : tab' !! nlp = Some (entry_for <$> [(suf, value)]).
Proof. unfold tab'. apply lookup_insert_eq. Qed.

(** An entry of the old table is in the new one, or is the one replaced. *)
Lemma entry_kept r es e : tab !! r = Some es -> e ∈ es ->
  (exists es', tab' !! r = Some es' /\ e ∈ es') \/ (r = root /\ e = (ik, 9, value, suf)).
Proof.
  intros Ht He. assert (r <> nlp) by congruence. unfold tab'. rewrite lookup_insert_ne by congruence.
  destruct (decide (r = root)) as [->|]; [|left; rewrite lookup_insert_ne by congruence; eauto].
  rewrite Hroot in Ht. injection Ht as <-. rewrite lookup_insert_eq. rewrite elem_of_app, elem_of_cons in He.
  destruct He as [He|[->|He]]; [left|right; auto|left]; eexists; (split; [reflexivity|]); rewrite elem_of_app, elem_of_cons; auto.
Qed.
Lemma entry_was r es' e : tab' !! r = Some es' -> e ∈ es' -> r <> nlp ->
  (exists es, tab !! r = Some es /\ e ∈ es) \/ (r = root /\ e = (ik, 137, Z.of_nat nlp, [])).
Proof.
  intros Ht He Hr. unfold tab' in Ht. rewrite lookup_insert_ne in Ht by congruence.
  destruct (decide (r = root)) as [->|]; [|left; rewrite lookup_insert_ne in Ht by congruence; eauto].
  rewrite lookup_insert_eq in Ht. injection Ht as <-. rewrite elem_of_app, elem_of_cons in He.
  destruct He as [He|[->|He]]; [left|right; auto|left]; eexists; (split; [exact Hroot|]); rewrite elem_of_app, elem_of_cons; auto.
Qed.

Lemma replace_maps r k v : r <> nlp -> maps tab' r k v <-> maps tab r k v.
Proof.
  intros Hr. split; intros H.
  - revert Hr. induction H as [r es e k Ht He Hkl Hlen Hsl|r es e k Ht He Hkl Hlen Hsl Hsf|r es e k v Ht He Hkl Hlen Hsl Hm IH]; intros Hr;
      destruct (entry_was _ _ _ Ht He Hr) as [(es0 & Ht0 & He0)|[-> ->]]; cbn in *; try lia.
    + eapply maps_value; eauto.
    + eapply maps_suffix; eauto.
    + eapply maps_layer; eauto. apply IH. destruct (Hrefs _ _ _ Ht0 He0 ltac:(lia)) as [? Hx]. congruence.
    + rewrite Nat2Z.id in Hm. apply (maps_entries _ _ _ _ _ new_lookup), list_elem_of_singleton in Hm. injection Hm as Hd ->.
      apply (maps_suffix tab root _ (ik, 9, value, suf) k Hroot); [set_solver|reflexivity|exact Hlen|exact Hsl|exact Hd].
  - induction H as [r es e k Ht He Hkl Hlen Hsl|r es e k Ht He Hkl Hlen Hsl Hsf|r es e k v Ht He Hkl Hlen Hsl Hm IH];
      destruct (entry_kept _ _ _ Ht He) as [(es0 & Ht0 & He0)|[-> ->]]; cbn in *; try lia.
    + eapply maps_value; eauto.
    + eapply maps_suffix; eauto.
    + eapply (maps_layer tab' root _ (ik, 137, Z.of_nat nlp, []) k); cbn; [unfold tab'; rewrite lookup_insert_ne by
        (intros E; apply root_new; congruence); apply lookup_insert_eq|set_solver|lia|exact Hlen|exact Hsl|].
      rewrite Nat2Z.id. apply (maps_entries _ _ _ _ _ new_lookup), list_elem_of_singleton. congruence.
    + eapply maps_layer; eauto. apply IH. destruct (Hrefs _ _ _ Ht He ltac:(lia)) as [? Hx]. congruence.
Qed.
End Replace.

(** ** The writes *)

Context `{L : !NvLayout nv} (Hwidth : 3 <= width <= 15).

(** What a write to slot [p] leaves. *)
Definition wrote (n n' : leaf.leaf) (p : Z) (s : leaf.slot) : Prop :=
  leaf.v_ n' = leaf.v_ n /\ leaf.permutation_ n' = leaf.permutation_ n /\ length (leaf.slots n') = length (leaf.slots n) /\
  (forall q, 0 <= q -> slot_at n' q = if q =? p then Some s else slot_at n q) /\ leaf.nremoved_ n' = leaf.nremoved_ n.

Lemma put_slot_in n p s : 0 <= p < Z.of_nat (length (leaf.slots n)) -> exists n', put_slot n p s = Some n' /\ wrote n n' p s.
Proof.
  intros Hp. unfold put_slot. rewrite poke_in by lia. cbn [mbind option_bind]. eexists. split; [reflexivity|].
  repeat (split; [reflexivity|]). split; [apply length_insert|]. split; [|reflexivity]. intros q Hq. unfold slot_at. cbn [leaf.slots].
  destruct (Z.eqb_spec q p) as [->|]; [apply list_lookup_insert_eq; lia|apply list_lookup_insert_ne; lia].
Qed.
Lemma slot_range n p s : slot_at n p = Some s -> 0 <= p -> 0 <= p < Z.of_nat (length (leaf.slots n)).
Proof. intros H Hp. apply lookup_lt_Some in H. lia. Qed.
Lemma set_keylenx_in n p s x : slot_at n p = Some s -> 0 <= p ->
  exists n', set_keylenx n p x = Some n' /\ wrote n n' p (leaf.mkSlot x (leaf.ikey0 s) (leaf.lv s) (leaf.suf s)).
Proof. intros E Hp. unfold set_keylenx. rewrite E. cbn [mbind option_bind]. apply put_slot_in, (slot_range _ _ _ E Hp). Qed.
Lemma set_lv_in n p s x : slot_at n p = Some s -> 0 <= p ->
  exists n', set_lv n p x = Some n' /\ wrote n n' p (leaf.mkSlot (leaf.keylenx s) (leaf.ikey0 s) x (leaf.suf s)).
Proof. intros E Hp. unfold set_lv. rewrite E. cbn [mbind option_bind]. apply put_slot_in, (slot_range _ _ _ E Hp). Qed.
Lemma assign_slot n p ka : 0 <= p < Z.of_nat (length (leaf.slots n)) ->
  exists n' s, leaf.assign mem n p ka = Some n' /\ wrote n n' p s /\ entry_of s = leaf.key_entry mem ka.
Proof.
  intros Hp. unfold leaf.assign. destruct (lookup_lt_is_Some_2 (leaf.slots n) (Z.to_nat p) ltac:(lia)) as [s E].
  unfold slot_at. rewrite E. cbn [mbind option_bind].
  destruct (put_slot_in n p (leaf.mkSlot (key.ikeylen ka) (key.ikey ka) leaf.empty_value
    (if key.has_suffix ka then leaf.suffix_of mem ka else leaf.suf s)) Hp) as (n' & E' & Hw).
  eexists n', _. split; [exact E'|]. split; [exact Hw|]. unfold entry_of, leaf.key_entry. cbn. rewrite leaf.has_ksuf_ikeylen.
  destruct (key.has_suffix ka); reflexivity.
Qed.
Lemma slot_entry n p s : slot_at n p = Some s -> entry_at n p = entry_of s.
Proof. intros H. unfold entry_at. f_equal. apply nth_lookup_Some, H. Qed.
Lemma wrote_at n n' p s : wrote n n' p s -> 0 <= p -> slot_at n' p = Some s.
Proof. intros (_ & _ & _ & H & _) Hp. rewrite H, Z.eqb_refl by lia. reflexivity. Qed.
Lemma wrote_other n n' p s q : wrote n n' p s -> 0 <= q -> q <> p -> slot_at n' q = slot_at n q.
Proof. intros (_ & _ & _ & H & _) Hq Hne. rewrite H by lia. destruct (Z.eqb_spec q p); [contradiction|reflexivity]. Qed.

(** With another value. *)
Definition with_lv (x : Z) (e : entry) : entry := (e.1.1, x, e.2).

Lemma key_entry_for ka a len x : key_at mem ka a len ->
  with_lv x (leaf.key_entry mem ka) = entry_for (bytes mem a (Z.to_nat len), x).
Proof.
  intros (Hlen & Hik & Hkl & Hs). unfold with_lv, leaf.key_entry, entry_for, key.ikeylen, key.has_suffix, leaf.suffix_of, key.suffix.
  unfold key.length in *. cbn [fst snd]. change (key.ikey_size + 1) with 9. change key.ikey_size with 8. rewrite Hik, Hkl, Hs, length_bytes.
  rewrite Z2Nat.id by lia. f_equal. destruct (Z.ltb_spec 8 len), (decide (8 < Z.to_nat len)%nat); try lia; [|reflexivity].
  rewrite drop_bytes by lia. f_equal. lia.
Qed.

(** ** The new leaf *)

Lemma new_root_rest (v := mark_root nv (new_nodeversion nv true)) : at_rest nv true v /\ at_rest nv true (Z.lor v (lock_bit nv)).
Proof.
  pose proof (nv_pos nv) as Hnv. pose proof (quiet_new_root nv) as Hq. fold v in Hq. destruct (quiet_idle nv v Hq) as [_ Hd].
  destruct (lock_unlock_quiet nv v Hq) as (_ & _ & _ & Hd'). unfold at_rest. rewrite Hd, Hd'.
  unfold deleted, isleaf, deleted_bit, isleaf_bit. rewrite !test_bit by lia.
  unfold v, mark_root, new_nodeversion, root_bit, isleaf_bit, lock_bit. rewrite !Z.lor_spec, !one_bit by lia.
  repeat split; lia.
Qed.

Lemma layer_permutation kc (op := Z.b2z (0 <? kc)) :
  let x := if kc <=? 0 then make_sorted width 1 else remove_to_back width (make_sorted width 2) 0 in
  let f := rev (seqZ 2 (width - 2)) in
  holds width x [op] (f ++ [1 - op]) /\ [op] ++ f ++ [1 - op] ≡ₚ seqZ 0 width.
Proof.
  intros x f. assert (Hf : [0; 1] ++ f ≡ₚ seqZ 0 width) by (apply (sorted_slots_perm width 2); lia). split.
  - unfold x, op. destruct (Z.leb_spec kc 0), (Z.ltb_spec 0 kc); try lia.
    + pose proof (make_sorted_holds width 1 ltac:(lia) ltac:(lia)) as H1. unfold sorted_slots in H1. cbn [fst snd] in H1.
      rewrite (seqZ_cons 1) in H1 by lia. cbn [rev] in H1. replace (Z.pred (width - 1)) with (width - 2) in H1 by lia. exact H1.
    + pose proof (make_sorted_holds width 2 ltac:(lia) ltac:(lia)) as H1.
      exact (remove_to_back_holds width ltac:(lia) _ [] 0 [1] f H1).
  - rewrite <- Hf. unfold op. destruct (0 <? kc); cbn [Z.b2z app]; change (1 - 1) with 0; change (1 - 0) with 1.
    + rewrite <- Permutation_cons_append. apply Permutation_swap.
    + apply perm_skip. symmetry. apply Permutation_cons_append.
Qed.

Lemma layer_leaf_ok fresh oka ka kc value (op := Z.b2z (0 <? kc)) : Z.of_nat (length fresh) = width ->
  exists nl, layer_leaf fresh oka ka kc value = Some nl /\ at_rest nv true (leaf.v_ nl) /\
    rep width nl [op] (rev (seqZ 2 (width - 2)) ++ [1 - op]) /\
    entry_at nl op = with_lv value (leaf.key_entry mem oka) /\
    (kc <> 0 -> entry_at nl (1 - op) = leaf.key_entry mem ka) /\
    leaf.nremoved_ nl = 0 /\
    leaf.v_ nl = (if kc =? 0 then mark_root nv (new_nodeversion nv true) else Z.lor (mark_root nv (new_nodeversion nv true)) (lock_bit nv)).
Proof.
  intros Hf. unfold layer_leaf. set (n0 := leaf.set_v _ _). assert (H0 : length (leaf.slots n0) = length fresh) by reflexivity.
  destruct (layer_permutation kc) as [Hh Hp]. fold op in Hh, Hp. destruct new_root_rest as [Hr1 Hr2].
  destruct (assign_slot n0 0 (if kc <=? 0 then oka else ka) ltac:(lia)) as (n1 & s0 & -> & W1 & E0). cbn [mbind option_bind].
  pose proof (wrote_at _ _ _ _ W1 ltac:(lia)) as S0. destruct W1 as (V1 & _ & L1 & _ & N1). destruct (Z.eqb_spec kc 0) as [->|Hkc]; cbn [negb].
  - cbn [mbind option_bind Z.ltb Z.compare Z.b2z]. destruct (set_lv_in n1 0 s0 value S0 ltac:(lia)) as (n2 & -> & W2).
    cbn [mbind option_bind]. eexists. split; [reflexivity|]. split; [cbn; destruct W2 as (-> & _); rewrite V1; exact Hr1|].
    split; [split; [exact Hh|exact Hp|destruct W2 as (_ & _ & L2 & _); cbn; lia]|].
    split; [|split; [congruence|destruct W2 as (V2 & _ & _ & _ & N2); cbn; split; [rewrite N2, N1; reflexivity|rewrite V2, V1; reflexivity]]].
    change (entry_at (leaf.set_permutation _ n2)) with (entry_at n2). change op with 0. rewrite (slot_entry _ _ _ (wrote_at _ _ _ _ W2 ltac:(lia))).
    cbn [Z.leb Z.compare] in E0. unfold with_lv. rewrite <- E0. reflexivity.
  - destruct (assign_slot n1 1 (if kc <=? 0 then ka else oka) ltac:(lia)) as (n2 & s1 & -> & W2 & E1). cbn [mbind option_bind].
    pose proof (wrote_at _ _ _ _ W2 ltac:(lia)) as S1. rewrite <- (wrote_other _ _ _ _ 0 W2 ltac:(lia) ltac:(lia)) in S0.
    destruct W2 as (V2 & _ & L2 & _ & N2).
    assert (So : exists so, slot_at n2 op = Some so /\ entry_of so = leaf.key_entry mem oka).
    { unfold op. destruct (Z.leb_spec kc 0), (Z.ltb_spec 0 kc); try lia; eauto. }
    assert (Sn : exists sn, slot_at n2 (1 - op) = Some sn /\ entry_of sn = leaf.key_entry mem ka).
    { unfold op. destruct (Z.leb_spec kc 0), (Z.ltb_spec 0 kc); try lia; eauto. }
    destruct So as (so & So & Eo), Sn as (sn & Sn & En).
    assert (Hop : 0 <= op <= 1 /\ Z.b2z (kc <? 0) = 1 - op).
    { unfold op. destruct (Z.ltb_spec kc 0), (Z.ltb_spec 0 kc); cbn; lia. }
    destruct Hop as [Hop ->]. fold op. destruct (set_lv_in n2 op so value So ltac:(lia)) as (n3 & -> & W3). cbn [mbind option_bind].
    pose proof (wrote_at _ _ _ _ W3 ltac:(lia)) as So3. rewrite <- (wrote_other _ _ _ _ (1 - op) W3 ltac:(lia) ltac:(lia)) in Sn.
    destruct W3 as (V3 & _ & L3 & _ & N3). rewrite V3, V2, V1.
    destruct (lock_unlock_quiet nv _ (quiet_new_root nv)) as (Elk & _). change (leaf.v_ n0) with (mark_root nv (new_nodeversion nv true)). rewrite Elk.
    destruct (set_lv_in (leaf.set_v (Z.lor (mark_root nv (new_nodeversion nv true)) (lock_bit nv)) n3) (1 - op) sn leaf.empty_value Sn ltac:(lia)) as (n4 & -> & W4).
    cbn [mbind option_bind]. eexists. split; [reflexivity|]. split; [cbn; destruct W4 as (-> & _); exact Hr2|].
    split; [split; [exact Hh|exact Hp|destruct W4 as (_ & _ & L4 & _); cbn in *; lia]|].
    change (entry_at (leaf.set_permutation _ n4)) with (entry_at n4). split.
    { rewrite (slot_entry n4 op _ (eq_trans (wrote_other _ _ _ _ op W4 ltac:(lia) ltac:(lia)) So3)). unfold with_lv. rewrite <- Eo. reflexivity. }
    split; [|destruct W4 as (V4 & _ & _ & _ & N4); split; [cbn in *; rewrite N4, N3, N2, N1; reflexivity|exact V4]].
    intros _. rewrite (slot_entry _ _ _ (wrote_at _ _ _ _ W4 ltac:(lia))). transitivity (with_lv leaf.empty_value (leaf.key_entry mem ka)); [|reflexivity].
      unfold with_lv. rewrite <- En. reflexivity.
Qed.

(** The order of two keys is the order of their entries. *)
Lemma compare_entries oka ka a la b lb x y : key_at mem oka a la -> key_at mem ka b lb ->
  let ea := entry_for (bytes mem a (Z.to_nat la), x) in let eb := entry_for (bytes mem b (Z.to_nat lb), y) in
  (0 < key_compare oka ka -> rlt (erank eb) (erank ea)) /\ (key_compare oka ka < 0 -> rlt (erank ea) (erank eb)) /\
  (key_compare oka ka = 0 -> erank ea = erank eb).
Proof.
  intros (Ha & Hia & Hla & _) (Hb & Hib & Hlb & _) ea eb. unfold key_compare.
  destruct (tree.compare_rank oka (key.ikey ka) (key.length ka) ltac:(lia) ltac:(lia)) as (H1 & H2 & H3).
  assert (Ea : erank ea = krank oka).
  { unfold erank, krank, ea, entry_for. cbn [fst snd]. rewrite length_bytes, Hia, Hla. f_equal. lia. }
  assert (Eb : erank eb = krank ka).
  { unfold erank, krank, eb, entry_for. cbn [fst snd]. rewrite length_bytes, Hib, Hlb. f_equal. lia. }
  rewrite Ea, Eb. split; [apply H1|]. split; [apply H3|]. intros E. symmetry. apply H2, E.
Qed.

Lemma pair_sorted e0 e1 : rlt (erank e0) (erank e1) ->
  forall i j a b, (i < j)%nat -> [e0; e1] !! i = Some a -> [e0; e1] !! j = Some b -> rlt (erank a) (erank b).
Proof.
  intros H i j a b Hij Ha Hb. destruct i as [|[|i]], j as [|[|j]]; cbn in Ha, Hb; try discriminate; try lia. congruence.
Qed.
Lemma entry_for_len kv : 0 <= (entry_for kv).1.1.2.
Proof. unfold entry_for. cbn [fst snd]. lia. Qed.

Lemma pair_ok n f kv0 kv1 : at_rest nv true (leaf.v_ n) -> rep width n [0; 1] f ->
  entry_at n 0 = entry_for kv0 -> entry_at n 1 = entry_for kv1 -> rlt (erank (entry_for kv0)) (erank (entry_for kv1)) ->
  leaf_ok width nv n (entry_for <$> [kv0; kv1]).
Proof.
  intros Hv Hr E0 E1 Hlt. split; [exact Hv|eauto| |apply Forall_fmap, Forall_true; intros; apply entry_for_len|apply pair_sorted, Hlt].
  rewrite (leaf.rep_contents _ _ _ _ Hr), !fmap_cons, E0, E1. reflexivity.
Qed.

(** Finishing the insertion in the new leaf. *)
Lemma layer_finish nl oka ka a la b lb value w (kc := key_compare oka ka) (op := Z.b2z (0 <? kc)) :
  kc <> 0 -> key_at mem oka a la -> key_at mem ka b lb -> at_rest nv true (leaf.v_ nl) ->
  rep width nl [op] (rev (seqZ 2 (width - 2)) ++ [1 - op]) ->
  entry_at nl op = with_lv value (leaf.key_entry mem oka) -> entry_at nl (1 - op) = leaf.key_entry mem ka ->
  exists nl1 nl2 kvs, leaf.finish_insert width nl (1 - op) (1 - op) = Some nl1 /\ set_lv nl1 (1 - op) w = Some nl2 /\
    kvs ≡ₚ [(bytes mem a (Z.to_nat la), value); (bytes mem b (Z.to_nat lb), w)] /\ leaf_ok width nv nl2 (entry_for <$> kvs).
Proof.
  intros Hkc Ha Hb Hrest Hr Eo En. assert (Hop : (kc < 0 /\ op = 0) \/ (0 < kc /\ op = 1)).
  { unfold op. destruct (Z.ltb_spec 0 kc); cbn; lia. }
  pose proof Hr as [Hh Hp Hl]. unfold leaf.finish_insert. rewrite (leaf.rep_back _ Hwidth _ _ _ _ Hr), Z.eqb_refl. cbn [negb].
  destruct (insert_from_back_holds width ltac:(lia) _ [op] _ (1 - op) (Z.to_nat (1 - op)) Hh ltac:(cbn; lia)) as [_ Hh'].
  rewrite Z2Nat.id in Hh' by lia. set (x := (insert_from_back width _ _).2) in *.
  assert (Eins : take (Z.to_nat (1 - op)) [op] ++ (1 - op) :: drop (Z.to_nat (1 - op)) [op] = [0; 1]) by (destruct Hop as [[_ ->]|[_ ->]]; reflexivity).
  rewrite Eins in Hh'. destruct (leaf.rep_slot width Hwidth nl _ _ (1 - op) Hr ltac:(lia)) as (sn & Sn & En').
  destruct (set_lv_in (leaf.set_permutation x nl) (1 - op) sn w Sn ltac:(lia)) as (nl2 & E2 & W).
  set (eo := entry_for (bytes mem a (Z.to_nat la), value)). set (en := entry_for (bytes mem b (Z.to_nat lb), w)).
  assert (Hen : entry_at nl2 (1 - op) = en).
  { rewrite (slot_entry _ _ _ (wrote_at _ _ _ _ W ltac:(lia))). unfold en. rewrite <- (key_entry_for ka b lb w Hb), <- En, En'. reflexivity. }
  assert (Heo : entry_at nl2 op = eo).
  { destruct (leaf.rep_slot width Hwidth nl _ _ op Hr ltac:(lia)) as (so & So & Eo').
    rewrite (slot_entry nl2 op so) by (rewrite (wrote_other _ _ _ _ op W) by lia; exact So).
    unfold eo. rewrite <- (key_entry_for oka a la value Ha), <- Eo, Eo'. reflexivity. }
  destruct W as (Wv & Wp & Wl & _).
  assert (Hr2 : rep width nl2 [0; 1] (rev (seqZ 2 (width - 2)))).
  { split; [rewrite Wp; exact Hh'|apply (sorted_slots_perm width 2); lia|cbn in Wl; lia]. }
  destruct (compare_entries oka ka a la b lb value w Ha Hb) as (Hgt & Hlt & _). fold kc eo en in Hgt, Hlt.
  exists (leaf.set_permutation x nl), nl2.
  change (leaf.v_ nl) with (leaf.v_ (leaf.set_permutation x nl)) in Hrest. rewrite <- Wv in Hrest. destruct Hop as [[Hs Eop]|[Hs Eop]]; rewrite Eop in Heo, Hen.
  - exists [(bytes mem a (Z.to_nat la), value); (bytes mem b (Z.to_nat lb), w)]. repeat (split; [first [reflexivity | exact E2]|]).
    apply (pair_ok _ _ _ _ Hrest Hr2 Heo Hen (Hlt Hs)).
  - exists [(bytes mem b (Z.to_nat lb), w); (bytes mem a (Z.to_nat la), value)]. split; [reflexivity|]. split; [exact E2|].
    split; [apply Permutation_swap|]. apply (pair_ok _ _ _ _ Hrest Hr2 Hen Heo (Hgt Hs)).
Qed.

(** ** Creating the layer *)

Section Create.
Context (n : leaf.leaf) (kp : Z) (s : leaf.slot) (v0 : Z) (nlp : nat).
Hypothesis Hquiet : quiet nv v0.
Hypothesis Hv : leaf.v_ n = Z.lor v0 (lock_bit nv).
Hypothesis Hkp : 0 <= kp.
Hypothesis Hslot : slot_at n kp = Some s.
Hypothesis Hlen : leaf.keylenx s = 9.

Definition flux_slot : leaf.slot := leaf.mkSlot 73 (leaf.ikey0 s) (leaf.lv s) (leaf.suf s).
Definition swung_slot : leaf.slot := leaf.mkSlot 73 (leaf.ikey0 s) (Z.of_nat nlp) (leaf.suf s).
Definition layer_slot : leaf.slot := leaf.mkSlot 137 (leaf.ikey0 s) (Z.of_nat nlp) (leaf.suf s).

Lemma check_layer_run ka sa fresh (oka := key.of_str mem sa (Z.of_nat (length (leaf.suf s)))) (kc := key_compare oka (key.shift mem ka)) :
  leaf.suf s <> leaf.suffix_of mem ka -> Z.of_nat (length fresh) = width ->
  exists n1 n2 n3 nl,
    check_layer n kp ka sa fresh nlp =
      Some (LNew [n; n1; n2; n3; leaf.set_v v0 n3] nl (key.shift mem ka) (if kc =? 0 then None else Some (Z.b2z (kc <? 0)))) /\
    layer_leaf fresh oka (key.shift mem ka) kc (leaf.lv s) = Some nl /\
    wrote n n1 kp flux_slot /\ wrote n1 n2 kp swung_slot /\ wrote n2 n3 kp layer_slot.
Proof.
  intros Hne Hf. unfold check_layer. rewrite Hslot. cbn [mbind option_bind]. unfold ksuf_equals. rewrite Hlen.
  change (leaf.keylenx_has_ksuf 9) with true. rewrite bool_decide_false by exact Hne. cbn [negb orb].
  destruct (layer_leaf_ok fresh oka (key.shift mem ka) kc (leaf.lv s) Hf) as (nl & E & _). fold oka kc. rewrite E. cbn [mbind option_bind].
  destruct (set_keylenx_in n kp s 73 Hslot Hkp) as (n1 & E1 & W1). change (key.ikey_size + 65) with 73. rewrite E1. cbn [mbind option_bind].
  destruct (set_lv_in n1 kp flux_slot (Z.of_nat nlp) (wrote_at _ _ _ _ W1 Hkp) Hkp) as (n2 & E2 & W2). rewrite E2. cbn [mbind option_bind].
  destruct (set_keylenx_in n2 kp swung_slot 137 (wrote_at _ _ _ _ W2 Hkp) Hkp) as (n3 & E3 & W3). change (key.ikey_size + 129) with 137. rewrite E3.
  cbn [mbind option_bind]. assert (Ev : leaf.v_ n3 = leaf.v_ n) by (destruct W1 as (? & _), W2 as (? & _), W3 as (? & _); congruence).
  destruct (lock_unlock_quiet nv v0 Hquiet) as (_ & Eu & _). rewrite Ev, Hv, Eu. cbn [mbind option_bind].
  exists n1, n2, n3, nl. auto.
Qed.

(** The leaf after the writes: one entry has become a layer. *)
Lemma layer_contents n1 n2 n3 v l f i : wrote n n1 kp flux_slot -> wrote n1 n2 kp swung_slot -> wrote n2 n3 kp layer_slot ->
  rep width n l f -> l !! i = Some kp ->
  contents width (leaf.set_v v n3) = <[i := (leaf.ikey0 s, 137, Z.of_nat nlp, [])]> (contents width n).
Proof.
  intros W1 W2 W3 Hr Hi.
  assert (Hr3 : rep width (leaf.set_v v n3) l f).
  { destruct Hr as [Hh Hp Hl], W1 as (_ & P1 & L1 & _), W2 as (_ & P2 & L2 & _), W3 as (_ & P3 & L3 & _).
    split; [cbn; rewrite P3, P2, P1; exact Hh|exact Hp|cbn; lia]. }
  rewrite (leaf.rep_contents _ _ _ _ Hr), (leaf.rep_contents _ _ _ _ Hr3). change (entry_at (leaf.set_v v n3)) with (entry_at n3).
  apply list_eq. intros j. pose proof (lookup_lt_Some _ _ _ Hi) as Hil. rewrite lookup_insert_if by (rewrite length_fmap; exact Hil).
  destruct (decide (j = i)) as [->|Hj].
  - rewrite list_lookup_fmap, Hi. cbn [fmap option_fmap option_map]. rewrite (slot_entry _ _ _ (wrote_at _ _ _ _ W3 Hkp)). reflexivity.
  - rewrite !list_lookup_fmap. destruct (l !! j) as [p|] eqn:Hp; [|reflexivity]. cbn [fmap option_fmap option_map]. f_equal.
    assert (Hin : p ∈ l ++ f) by (apply elem_of_app; left; eapply list_elem_of_lookup_2, Hp).
    pose proof (leaf.rep_range _ _ _ _ _ Hr Hin) as Hpr.
    assert (p <> kp).
    { intros ->. apply Hj. pose proof (leaf.rep_NoDup _ _ _ _ Hr) as Hnd. apply NoDup_app in Hnd as [Hnd _]. eapply NoDup_lookup; eassumption. }
    destruct (leaf.rep_slot width Hwidth n l f p Hr Hpr) as (sp & Sp & ->). apply slot_entry.
    rewrite (wrote_other _ _ _ _ p W3), (wrote_other _ _ _ _ p W2), (wrote_other _ _ _ _ p W1) by lia. exact Sp.
Qed.

(** The versions a reader can compare with, at any time. *)
Lemma layer_versions n1 n2 n3 t nt : wrote n n1 kp flux_slot -> wrote n1 n2 kp swung_slot -> wrote n2 n3 kp layer_slot ->
  [n; n1; n2; n3; leaf.set_v v0 n3] !! t = Some nt -> has_changed nv (leaf.v_ nt) v0 = false.
Proof.
  intros (V1 & _) (V2 & _) (V3 & _) Ht. destruct (lock_unlock_quiet nv v0 Hquiet) as (_ & _ & Hc & _).
  destruct t as [|[|[|[|[|t]]]]]; cbn in Ht; try discriminate; injection Ht as <-; rewrite ?V3, ?V2, ?V1, ?Hv; try exact Hc.
  apply (tree.not_changed_self nv).
Qed.
End Create.

(** Creating a layer keeps the map.  Let a locked leaf hold, at position [i],
    a key with a suffix, and let another key with the same eight bytes be
    inserted.  Then the code makes a well-formed leaf with the old key's rest and
    value, and the entry becomes that layer, nothing else changing in the leaf; no
    key reached from any layer gains, loses or changes a value.  If the next eight
    bytes differ, finishing the insertion with a value [w] gives a well-formed leaf
    that maps exactly the two rests; if not, both rests go on past them. *)
Theorem layer_creation n l f i kp s v0 nlp ka a len sa fresh (k := bytes mem (a + 8) (Z.to_nat (len - 8))) :
  rep width n l f -> l !! i = Some kp -> slot_at n kp = Some s -> leaf.keylenx s = 9 ->
  quiet nv v0 -> leaf.v_ n = Z.lor v0 (lock_bit nv) ->
  bytes mem sa (length (leaf.suf s)) = leaf.suf s -> key_at mem ka a len -> 8 < len -> leaf.suf s <> k ->
  Z.of_nat (length fresh) = width ->
  exists n1 n2 n3 n' nl ins, check_layer n kp ka sa fresh nlp = Some (LNew [n; n1; n2; n3; n'] nl (key.shift mem ka) ins) /\
    leaf.v_ n' = v0 /\ contents width n' = <[i := (leaf.ikey0 s, 137, Z.of_nat nlp, [])]> (contents width n) /\
    leaf_ok width nv nl [entry_for (leaf.suf s, leaf.lv s)] /\
    (forall tab root A B, refs_ok tab -> tab !! nlp = None -> tab !! root = Some (A ++ contents width n ++ B) ->
       forall r k v, r <> nlp ->
         maps (<[nlp := contents width nl]> (<[root := A ++ contents width n' ++ B]> tab)) r k v <-> maps tab r k v) /\
    match ins with
    | None => (8 < length k)%nat /\ (8 < length (leaf.suf s))%nat /\ take 8 k = take 8 (leaf.suf s)
    | Some p => forall w, exists nl1 nl2 es, leaf.finish_insert width nl p p = Some nl1 /\ set_lv nl1 p w = Some nl2 /\
        leaf_ok width nv nl2 es /\
        forall tab k' v, tab !! nlp = Some es -> maps tab nlp k' v <-> (k', v) = (leaf.suf s, leaf.lv s) \/ (k', v) = (k, w)
    end.
Proof.
  intros Hr Hi Hslot Hlen Hq Hv Hsuf Hka H8 Hne Hf.
  assert (Hkp : 0 <= kp < width) by (apply (leaf.rep_range _ _ _ _ kp Hr), elem_of_app; left; eapply list_elem_of_lookup_2, Hi).
  pose proof (tree.shift_at mem ka a len Hka ltac:(lia)) as Hkb.
  assert (Hsfx : leaf.suffix_of mem ka = k).
  { destruct Hka as (_ & _ & Hl & Ha). unfold leaf.suffix_of, key.suffix, k. unfold key.length in Hl. rewrite Hl, Ha. reflexivity. }
  set (oka := key.of_str mem sa (Z.of_nat (length (leaf.suf s)))). set (kc := key_compare oka (key.shift mem ka)).
  assert (Hoa : key_at mem oka sa (Z.of_nat (length (leaf.suf s)))) by (apply tree.of_str_at; lia).
  destruct (check_layer_run n kp s v0 nlp Hq Hv ltac:(lia) Hslot Hlen ka sa fresh ltac:(congruence) Hf)
    as (n1 & n2 & n3 & nl & E & El & W1 & W2 & W3). fold oka kc in E, El.
  destruct (layer_leaf_ok fresh oka (key.shift mem ka) kc (leaf.lv s) Hf) as (nl' & El' & Hrest & Hrn & Eo & En & _).
  rewrite El in El'. injection El' as <-.
  assert (Eo' : entry_at nl (Z.b2z (0 <? kc)) = entry_for (leaf.suf s, leaf.lv s)).
  { rewrite Eo, (key_entry_for oka _ _ _ Hoa), Nat2Z.id, Hsuf. reflexivity. }
  assert (Hnl : leaf_ok width nv nl [entry_for (leaf.suf s, leaf.lv s)]).
  { split; [exact Hrest|eauto|rewrite (leaf.rep_contents _ _ _ _ Hrn), fmap_cons, Eo'; reflexivity|
      apply Forall_singleton, entry_for_len|]. intros x y ? ? Hxy Hx Hy. apply lookup_lt_Some in Hx, Hy. cbn in *. lia. }
  pose proof (layer_contents n kp s nlp ltac:(lia) n1 n2 n3 v0 l f i W1 W2 W3 Hr Hi) as Hc.
  exists n1, n2, n3, (leaf.set_v v0 n3), nl, (if kc =? 0 then None else Some (Z.b2z (kc <? 0))).
  split; [exact E|]. split; [reflexivity|]. split; [exact Hc|]. split; [exact Hnl|]. split.
  - intros tab root A B Href Hnew Hroot r k' v Hrn'. rewrite Hc. destruct Hnl as [_ _ -> _ _].
    assert (Hei : contents width n !! i = Some (leaf.ikey0 s, 9, leaf.lv s, leaf.suf s)).
    { rewrite (leaf.rep_contents _ _ _ _ Hr), list_lookup_fmap, Hi. cbn [fmap option_fmap option_map].
      rewrite (slot_entry _ _ _ Hslot). unfold entry_of. rewrite Hlen. reflexivity. }
    rewrite insert_take_drop by (eapply lookup_lt_Some, Hei). rewrite <- (take_drop_middle _ _ _ Hei), <- !app_assoc in Hroot.
    rewrite app_assoc in Hroot. rewrite <- !app_assoc, app_assoc. cbn [app] in *. apply replace_maps; assumption.
  - destruct (Z.eqb_spec kc 0) as [Ek|Ek].
    + destruct (compare_entries oka (key.shift mem ka) _ _ _ _ (leaf.lv s) 0 Hoa Hkb) as (_ & _ & Heq).
      specialize (Heq Ek). rewrite Nat2Z.id, Hsuf in Heq. fold k in Heq. unfold erank, entry_for in Heq. cbn [fst snd] in Heq.
      apply pair_equal_spec in Heq as [Hsl Hml]. destruct (decide (8 < length k)%nat) as [Hk|Hk].
      * split; [exact Hk|]. split; [lia|]. apply slice_take; [symmetry; exact Hsl|lia].
      * destruct Hne. apply entry_for_inj; [exact Hsl|lia|]. rewrite !drop_ge by lia. reflexivity.
    + intros w. replace (Z.b2z (kc <? 0)) with (1 - Z.b2z (0 <? kc)) by (destruct (Z.ltb_spec 0 kc), (Z.ltb_spec kc 0); cbn; lia).
      destruct (layer_finish nl oka (key.shift mem ka) _ _ _ _ (leaf.lv s) w Ek Hoa Hkb Hrest Hrn Eo (En Ek)) as (nl1 & nl2 & kvs & E1 & E2 & Hp & Hok).
      exists nl1, nl2, (entry_for <$> kvs). split; [exact E1|]. split; [exact E2|]. split; [exact Hok|]. intros tab k' v Ht.
      rewrite (maps_entries _ _ _ _ _ Ht), Hp, Nat2Z.id, Hsuf. fold k. rewrite elem_of_cons, list_elem_of_singleton. reflexivity.
Qed.

(** C32: A reader can take the new layer for a value.  A reader that took
    the version before the lock reads keylenx_ after [i] of the writer's steps and
    lv_ after [j], its key having the suffix of the entry: the version never changes,
    so the check passes whatever it read, and the result is the value ([i] = 0,
    [j] < 2), a retry ([i] = 1, 2) or the layer ([i] > 2); but for [i] = 0 and
    [j] >= 2 it is the address of the layer as a value. *)
Theorem layer_reader n kp s v0 nlp ka sa fresh states nl ka' ins kb i j ni nj si sj :
  quiet nv v0 -> leaf.v_ n = Z.lor v0 (lock_bit nv) -> 0 <= kp -> slot_at n kp = Some s -> leaf.keylenx s = 9 ->
  leaf.suf s <> leaf.suffix_of mem ka -> Z.of_nat (length fresh) = width ->
  check_layer n kp ka sa fresh nlp = Some (LNew states nl ka' ins) ->
  leaf.suf s = leaf.suffix_of mem kb -> (i <= j)%nat ->
  states !! i = Some ni -> states !! j = Some nj -> slot_at ni kp = Some si -> slot_at nj kp = Some sj ->
  (forall t nt, states !! t = Some nt -> has_changed nv (leaf.v_ nt) v0 = false) /\
  after_search (leaf.keylenx si) (leaf.lv sj) (ksuf_equals mem kb sj (leaf.keylenx si)) =
    if (i =? 0)%nat then tree.Found (if (j <? 2)%nat then leaf.lv s else Z.of_nat nlp)
    else if (i <? 3)%nat then tree.Again else tree.NextLayer nlp.
Proof.
  intros Hq Hv Hkp Hslot Hlen Hne Hf E Hkb Hij Hi Hj Hsi Hsj.
  destruct (check_layer_run n kp s v0 nlp Hq Hv Hkp Hslot Hlen ka sa fresh Hne Hf) as (n1 & n2 & n3 & nl' & E' & _ & W1 & W2 & W3).
  rewrite E in E'. injection E' as -> _ _ _. split; [intros t nt; apply (layer_versions n kp s v0 nlp Hq Hv n1 n2 n3 t nt W1 W2 W3)|].
  pose proof (wrote_at _ _ _ _ W1 Hkp) as S1. pose proof (wrote_at _ _ _ _ W2 Hkp) as S2. pose proof (wrote_at _ _ _ _ W3 Hkp) as S3.
  assert (Hall : forall t nt st, [n; n1; n2; n3; leaf.set_v v0 n3] !! t = Some nt -> slot_at nt kp = Some st ->
    st = leaf.mkSlot (if (t =? 0)%nat then 9 else if (t <? 3)%nat then 73 else 137) (leaf.ikey0 s)
           (if (t <? 2)%nat then leaf.lv s else Z.of_nat nlp) (leaf.suf s)).
  { intros t nt st Ht Hst. destruct t as [|[|[|[|[|t]]]]]; cbn in Ht; try discriminate; injection Ht as <-;
      [rewrite Hslot in Hst; destruct s; cbn in *; congruence|rewrite S1 in Hst|rewrite S2 in Hst|rewrite S3 in Hst|
       change (slot_at (leaf.set_v v0 n3) kp) with (slot_at n3 kp) in Hst; rewrite S3 in Hst]; injection Hst as <-; reflexivity. }
  rewrite (Hall i ni si Hi Hsi), (Hall j nj sj Hj Hsj). unfold ksuf_equals, after_search. cbn [leaf.keylenx leaf.lv leaf.suf].
  rewrite (bool_decide_true _ Hkb), orb_true_r. destruct (Nat.eqb_spec i 0) as [->|Hi0]; [reflexivity|].
  destruct (Nat.ltb_spec i 3); [reflexivity|]. destruct (Nat.ltb_spec j 2); [lia|]. cbn. rewrite Nat2Z.id. reflexivity.
Qed.

End Layer.

(** ** "abcdefghijk" meets "abcdefghkl" *)
Definition example_bytes : memory :=
  mem_of [x61; x62; x63; x64; x65; x66; x67; x68; x69; x6a; x6b;  x61; x62; x63; x64; x65; x66; x67; x68; x6b; x6c].
Definition example_slots : list leaf.slot := [leaf.mkSlot 9 0x6162636465666768 7 [x6b; x6c]].
Definition example_locked : leaf.leaf := tree.example_leaf_of 0x80000001 example_slots.
Definition example_fresh : list leaf.slot := replicate 15 leaf.no_slot.
Abbreviation nv32 := nodeversion32_parameters.
Abbreviation example_check := (check_layer 15 nv32 example_bytes example_locked 0 (key.of_str example_bytes 0 11) 19 example_fresh 4).

Lemma layer_creation_witness : exists states nl ka p, example_check = Some (LNew states nl ka (Some p)) /\
  leaf_ok 15 nv32 nl [entry_for ([x6b; x6c], 7)] /\
  exists nl1 nl2 es, leaf.finish_insert 15 nl p p = Some nl1 /\ set_lv nl1 p 42 = Some nl2 /\ leaf_ok 15 nv32 nl2 es.
Proof.
  destruct (layer_creation 15 nv32 example_bytes ltac:(lia) example_locked [0] (rev (seqZ 1 14)) 0 0 (leaf.mkSlot 9 0x6162636465666768 7 [x6b; x6c])
    0x80000000 4 (key.of_str example_bytes 0 11) 0 11 19 example_fresh) as (n1 & n2 & n3 & n' & nl & ins & E & _ & _ & Hnl & _ & Hins).
  - split; [apply (make_sorted_holds 15 1); lia|apply (sorted_slots_perm 15 1); lia|reflexivity].
  - reflexivity.
  - reflexivity.
  - reflexivity.
  - reflexivity.
  - reflexivity.
  - reflexivity.
  - apply tree.of_str_at. lia.
  - lia.
  - discriminate.
  - reflexivity.
  - assert (Hsome : match example_check with Some (LNew _ _ _ (Some _)) => true | _ => false end = true) by (vm_compute; reflexivity).
    rewrite E in Hsome. destruct ins as [p|]; [|discriminate]. destruct (Hins 42) as (nl1 & nl2 & es & E1 & E2 & Hok & _).
    eexists _, nl, _, p. split; [exact E|]. split; [exact Hnl|]. exists nl1, nl2, es. auto.
Defined.

(** A reader of "abcdefghkl", whose value is 7, gets 4, where the new layer is. *)
Lemma layer_reader_witness : exists states nl ka ins n0 n2 s0 s2, example_check = Some (LNew states nl ka ins) /\
  states !! 0%nat = Some n0 /\ states !! 2%nat = Some n2 /\ slot_at n0 0 = Some s0 /\ slot_at n2 0 = Some s2 /\
  after_search (leaf.keylenx s0) (leaf.lv s2) (ksuf_equals example_bytes (key.of_str example_bytes 11 10) s2 (leaf.keylenx s0)) = tree.Found 4.
Proof.
  do 8 eexists. split; [vm_compute; reflexivity|]. do 4 (split; [vm_compute; reflexivity|]).
  eapply (layer_reader 15 nv32 example_bytes ltac:(lia) example_locked 0 (leaf.mkSlot 9 0x6162636465666768 7 [x6b; x6c]) 0x80000000 4
    (key.of_str example_bytes 0 11) 19 example_fresh _ _ _ _ (key.of_str example_bytes 11 10) 0 2);
    try (vm_compute; reflexivity); [lia|discriminate|lia].
Defined.

End layer.
