(* ===== verification/Paths.v ===== *)
(** * Tables of layers

    What the layers of a Masstree map keys to, independently of the nodes that hold
    them: a key is walked eight bytes at a time along entries that lead to other
    layers, and ends at one entry.  Here are the effects, on the whole table, of
    giving a key a value in one layer and of turning an entry into a layer. *)

From S2P Require Import Prelude StringSlice MtKey Internode Leaf Tree Layer.

Open Scope Z_scope.

Module paths.

Import leaf (entry).
Import tree (erank, maps, maps_value, maps_suffix, maps_layer).
Import layer (entry_for).

Abbreviation table := (gmap nat (list entry)).

(** The layer an entry leads to. *)
Definition is_layer (e : entry) : Prop := 9 < e.1.1.2.
Definition ref (e : entry) : nat := Z.to_nat e.1.2.
Definition rank (k : list byte) : Z * Z := (slice_of k, Z.min (Z.of_nat (length k)) 9).

(** Entries differ in rank, and each layer but the first is the layer of exactly
    one entry at most. *)
Record table_ok (tab : table) (top : nat) : Prop := {
  to_top : is_Some (tab !! top);
  to_rank : forall r es a b, tab !! r = Some es -> a ∈ es -> b ∈ es -> erank a = erank b -> a = b;
  to_refs : forall r es e, tab !! r = Some es -> e ∈ es -> is_layer e -> 127 < e.1.1.2 /\ is_Some (tab !! ref e) /\ ref e <> top;
  to_uniq : forall r1 r2 es1 es2 e1 e2, tab !! r1 = Some es1 -> tab !! r2 = Some es2 -> e1 ∈ es1 -> e2 ∈ es2 ->
    is_layer e1 -> is_layer e2 -> ref e1 = ref e2 -> r1 = r2 /\ e1 = e2
}.

(** The bytes [pre] lead from the first layer to the layer [r]. *)
Inductive path (tab : table) (top : nat) : list byte -> nat -> Prop :=
| path_top : path tab top [] top
| path_next pre r es e c :
    path tab top pre r -> tab !! r = Some es -> e ∈ es -> is_layer e -> length c = 8%nat -> slice_of c = e.1.1.1 ->
    path tab top (pre ++ c) (ref e).

(** The key [k] ends in the layer [r]. *)
Definition hits (tab : table) (r : nat) (k : list byte) (v : Z) : Prop :=
  exists es e, tab !! r = Some es /\ e ∈ es /\ e.1.1.2 <= 9 /\ erank e = rank k /\ ((8 < length k)%nat -> drop 8 k = e.2) /\ v = e.1.2.

Lemma slice_take8 k : slice_of (take 8 k) = slice_of k.
Proof.
  unfold slice_of, pad8. rewrite take_take, Nat.min_id, length_take. do 3 f_equal. f_equal. lia.
Qed.
Lemma slice_app c k : length c = 8%nat -> slice_of (c ++ k) = slice_of c.
Proof. intros H. rewrite <- (slice_take8 (c ++ k)), take_app_exact by exact H. reflexivity. Qed.
Lemma rank_app c k : length c = 8%nat -> k <> [] -> rank (c ++ k) = (slice_of c, 9).
Proof. intros Hc Hk. unfold rank. rewrite slice_app, length_app by exact Hc. destruct k; [contradiction|]. cbn [length]. f_equal. lia. Qed.
Lemma slice_inj8 c c' : length c = 8%nat -> length c' = 8%nat -> slice_of c = slice_of c' -> c = c'.
Proof.
  intros H H' E. apply layer.slice_take in E; [|lia]. rewrite !take_ge in E by lia. exact E.
Qed.

Lemma hits_maps tab r k v : hits tab r k v -> (forall es e, tab !! r = Some es -> e ∈ es -> 0 <= e.1.1.2) -> maps tab r k v.
Proof.
  intros (es & e & Ht & He & Hl & Hr & Hs & ->) Hpos. specialize (Hpos es e Ht He).
  unfold erank, rank in Hr. apply pair_equal_spec in Hr as [Hsl Hlen].
  destruct (Z.le_gt_cases e.1.1.2 8).
  - eapply maps_value; eauto; lia.
  - eapply maps_suffix; eauto; try lia. apply Hs. lia.
Qed.

Section Walk.
Context (tab : table) (top : nat) (Hok : table_ok tab top).
Hypothesis Hpos : forall r es e, tab !! r = Some es -> e ∈ es -> 0 <= e.1.1.2.

Lemma path_layer pre r : path tab top pre r -> is_Some (tab !! r).
Proof. intros H. destruct H as [|pre r es e c _ Ht He Hl _ _]; [apply Hok|]. apply (to_refs _ _ Hok r es e Ht He Hl). Qed.

(** A layer is reached in one way only. *)
Lemma path_unique pre1 pre2 r : path tab top pre1 r -> path tab top pre2 r -> pre1 = pre2.
Proof.
  intros H1. revert pre2. induction H1 as [|pre r es e c H1 IH Ht He Hl Hc Hsl]; intros pre2 H2.
  - inversion H2 as [|? ? ? e' ? ? Ht' He' Hl']; [reflexivity|]. destruct (to_refs _ _ Hok _ _ _ Ht' He' Hl') as (_ & _ & Hne). congruence.
  - inversion H2 as [E|pre' r' es' e' c' H2' Ht' He' Hl' Hc' Hsl' E1 E2].
    + destruct (to_refs _ _ Hok _ _ _ Ht He Hl) as (_ & _ & Hne). congruence.
    + destruct (to_uniq _ _ Hok _ _ _ _ _ _ Ht Ht' He He' Hl Hl' (eq_sym E2)) as [<- <-]. f_equal; [apply IH, H2'|].
      apply slice_inj8; congruence.
Qed.

Lemma path_maps pre r k v : path tab top pre r -> maps tab r k v -> pre = [] \/ k <> [] -> maps tab top (pre ++ k) v.
Proof.
  intros H. revert k. induction H as [|pre r es e c H IH Ht He Hl Hc Hsl]; intros k Hm Hk; [exact Hm|].
  assert (k <> []) by (destruct Hk as [E|]; [apply app_eq_nil in E as [_ ->]; discriminate|assumption]).
  rewrite <- app_assoc. apply IH; [|right; destruct c; discriminate].
  apply (maps_layer tab r es e); try assumption.
  - apply (to_refs _ _ Hok r es e Ht He Hl).
  - rewrite length_app. destruct k; [contradiction|]. cbn [length]. lia.
  - rewrite slice_app by exact Hc. exact Hsl.
  - rewrite drop_app_exact by exact Hc. exact Hm.
Qed.

(** A key that goes through the layer is mapped there. *)
Lemma path_maps_inv pre r k v : path tab top pre r -> maps tab top (pre ++ k) v -> pre = [] \/ k <> [] -> maps tab r k v.
Proof.
  intros H. revert k. induction H as [|pre r es e c H IH Ht He Hl Hc Hsl]; intros k Hm Hk; [exact Hm|].
  assert (k <> []) by (destruct Hk as [E|]; [apply app_eq_nil in E as [_ ->]; discriminate|assumption]).
  rewrite <- app_assoc in Hm. apply IH in Hm; [|right; destruct c; discriminate].
  destruct (tree.maps_rank tab r es _ v Ht Hm) as (e' & He' & Hr & Hv). fold (rank (c ++ k)) in Hr. rewrite rank_app in Hr by assumption.
  unfold is_layer in Hl. assert (e' = e) as -> by (apply (to_rank _ _ Hok r es); auto; rewrite Hr; unfold erank; rewrite Hsl; f_equal; lia).
  destruct (Z.leb_spec e.1.1.2 8); [lia|]. destruct (Z.eqb_spec e.1.1.2 9); [lia|]. rewrite drop_app_exact in Hv by exact Hc. exact Hv.
Qed.

Lemma maps_walk r k v pre : path tab top pre r -> maps tab r k v ->
  exists pre' r' k', pre ++ k = pre' ++ k' /\ path tab top pre' r' /\ hits tab r' k' v /\ ((pre = [] \/ k <> []) -> pre' = [] \/ k' <> []).
Proof.
  intros Hp Hm. revert pre Hp.
  induction Hm as [r es e k Ht He Hkl Hlen Hsl|r es e k Ht He Hkl Hlen Hsl Hsf|r es e k v Ht He Hkl Hlen Hsl Hm IH]; intros pre Hp.
  - exists pre, r, k. split; [reflexivity|]. split; [exact Hp|]. split; [|auto]. exists es, e. split; [exact Ht|]. split; [exact He|]. split; [lia|].
    split; [unfold erank, rank; rewrite Hsl; f_equal; lia|]. split; [intros; lia|reflexivity].
  - exists pre, r, k. split; [reflexivity|]. split; [exact Hp|]. split; [|auto]. exists es, e. split; [exact Ht|]. split; [exact He|]. split; [lia|].
    split; [unfold erank, rank; rewrite Hsl; f_equal; lia|]. split; [intros _; exact Hsf|reflexivity].
  - destruct (IH (pre ++ take 8 k)) as (pre' & r' & k' & E & Hp' & Hh & Hk').
    + apply (path_next tab top pre r es e); auto; [unfold is_layer; lia|rewrite length_take; lia|rewrite slice_take8; exact Hsl].
    + exists pre', r', k'. split; [rewrite <- app_assoc, take_drop in E; exact E|]. split; [exact Hp'|]. split; [exact Hh|]. intros _. apply Hk'.
      right. intros E0. apply (f_equal length) in E0. rewrite length_drop in E0. cbn in E0. lia.
Qed.

(** The map of the whole table. *)
Lemma maps_path k v : maps tab top k v <->
  exists pre r k', k = pre ++ k' /\ path tab top pre r /\ hits tab r k' v /\ (pre = [] \/ k' <> []).
Proof.
  split.
  - intros Hm. destruct (maps_walk top k v [] (path_top _ _) Hm) as (pre & r & k' & E & Hp & Hh & Hk). exists pre, r, k'. split; [exact E|]. auto.
  - intros (pre & r & k' & -> & Hp & Hh & Hk). apply (path_maps pre r); auto. apply (hits_maps _ _ _ _ Hh). intros es e. apply Hpos.
Qed.

Lemma maps_functional r k v1 v2 : maps tab r k v1 -> maps tab r k v2 -> v1 = v2.
Proof.
  intros H1. revert v2. induction H1 as [r es e k Ht He Hkl Hlen Hsl|r es e k Ht He Hkl Hlen Hsl Hsf|r es e k v Ht He Hkl Hlen Hsl Hm IH]; intros v2 H2;
    destruct (tree.maps_rank _ _ _ _ _ Ht H2) as (e' & He' & Hr & Hv);
    assert (e' = e) as -> by (apply (to_rank _ _ Hok r es); auto; rewrite Hr; unfold erank; rewrite Hsl; f_equal; lia).
  - destruct (Z.leb_spec e.1.1.2 8); [auto|lia].
  - destruct (Z.leb_spec e.1.1.2 8); [lia|]. destruct (Z.eqb_spec e.1.1.2 9); [|lia]. symmetry. apply Hv.
  - destruct (Z.leb_spec e.1.1.2 8); [lia|]. destruct (Z.eqb_spec e.1.1.2 9); [lia|]. apply IH, Hv.
Qed.
End Walk.

(** ** Giving a key a value in one layer, or none *)
Section Update.
Context (tab : table) (top : nat) (Hok : table_ok tab top).
Hypothesis Hpos : forall r es e, tab !! r = Some es -> e ∈ es -> 0 <= e.1.1.2.
Context (r : nat) (es es' : list entry) (k : list byte) (w : option Z) (pre : list byte).
Hypothesis Hr : tab !! r = Some es.
Hypothesis Hpath : path tab top pre r.
Hypothesis Hk : pre = [] \/ k <> [].
(** Nothing but an older value of [k] has its rank. *)
Hypothesis Hfree : forall e, e ∈ es -> erank e = rank k -> e.1.1.2 <= 9 /\ ((8 < length k)%nat -> drop 8 k = e.2).
Hypothesis Hes' : forall e, e ∈ es' <-> (exists x, w = Some x /\ e = entry_for (k, x)) \/ (e ∈ es /\ erank e <> rank k).

Let tab' := <[r := es']> tab.

Lemma entry_rank kv : erank (entry_for kv) = rank kv.1.
Proof. unfold erank, rank, entry_for. cbn [fst snd]. f_equal. lia. Qed.
Lemma entry_len kv : 0 <= (entry_for kv).1.1.2 <= 9.
Proof. unfold entry_for. cbn [fst snd]. lia. Qed.

Lemma update_layers e : is_layer e -> e ∈ es' <-> e ∈ es.
Proof.
  intros Hl. unfold is_layer in Hl. rewrite Hes'. split.
  - intros [(x & _ & ->)|[H _]]; [pose proof (entry_len (k, x)); lia|exact H].
  - intros H. right. split; [exact H|]. intros E. destruct (Hfree e H E). lia.
Qed.

Lemma update_lookup r' l : tab' !! r' = Some l -> (r' = r /\ l = es') \/ (r' <> r /\ tab !! r' = Some l).
Proof. unfold tab'. intros H. apply lookup_insert_Some in H as [[<- <-]|[Hn H]]; auto. Qed.
Lemma update_layer_entry r' l e : tab' !! r' = Some l -> e ∈ l -> is_layer e -> exists l0, tab !! r' = Some l0 /\ e ∈ l0.
Proof. intros H He Hl. apply update_lookup in H as [[-> ->]|[_ H]]; [|eauto]. apply (update_layers e Hl) in He. eauto. Qed.

Lemma update_pos r' l e : tab' !! r' = Some l -> e ∈ l -> 0 <= e.1.1.2.
Proof.
  intros H He. apply update_lookup in H as [[-> ->]|[_ H]]; [|eauto]. apply Hes' in He as [(x & _ & ->)|[He _]]; [apply entry_len|eauto].
Qed.

Lemma update_is_Some r' : is_Some (tab' !! r') <-> is_Some (tab !! r').
Proof. unfold tab'. destruct (decide (r' = r)) as [->|]; [rewrite lookup_insert_eq, Hr; split; eauto|rewrite lookup_insert_ne by congruence; reflexivity]. Qed.

Lemma update_table_ok : table_ok tab' top.
Proof.
  split.
  - apply update_is_Some, Hok.
  - intros r' l a b H Ha Hb E. apply update_lookup in H as [[-> ->]|[_ H]]; [|eapply to_rank; eauto].
    apply Hes' in Ha as [(x & Ex & ->)|[Ha Na]], Hb as [(y & Ey & ->)|[Hb Nb]].
    + congruence.
    + rewrite entry_rank in E. cbn [fst] in E. congruence.
    + rewrite entry_rank in E. cbn [fst] in E. congruence.
    + eapply to_rank; eauto.
  - intros r' l e H He Hl. destruct (update_layer_entry _ _ _ H He Hl) as (l0 & H0 & He0).
    destruct (to_refs _ _ Hok _ _ _ H0 He0 Hl) as (H1 & H2 & H3). split; [exact H1|]. split; [apply update_is_Some, H2|exact H3].
  - intros r1 r2 l1 l2 e1 e2 H1 H2 He1 He2 Hl1 Hl2. destruct (update_layer_entry _ _ _ H1 He1 Hl1) as (l1' & H1' & He1').
    destruct (update_layer_entry _ _ _ H2 He2 Hl2) as (l2' & H2' & He2'). eapply to_uniq; eauto.
Qed.

Lemma update_path pre' r' : path tab' top pre' r' <-> path tab top pre' r'.
Proof.
  split; intros H; induction H as [|pre' r' l e c _ IH Ht He Hl Hc Hsl]; try apply path_top.
  - destruct (update_layer_entry _ _ _ Ht He Hl) as (l0 & H0 & He0). eapply path_next; eauto.
  - destruct (decide (r' = r)) as [->|Hn].
    + assert (l = es) as -> by congruence. apply (path_next tab' top pre' r es'); auto; [apply lookup_insert_eq|apply update_layers; auto].
    + apply (path_next tab' top pre' r' l); auto. unfold tab'. rewrite lookup_insert_ne by congruence. exact Ht.
Qed.

Lemma update_hits k' v : hits tab' r k' v <-> (k' = k /\ w = Some v) \/ (k' <> k /\ hits tab r k' v).
Proof.
  unfold hits, tab'. rewrite lookup_insert_eq. split.
  - intros (l & e & [= <-] & He & Hl & Er & Hs & ->). apply Hes' in He as [(x & Ex & ->)|[He Hne]].
    + left. split; [|exact Ex]. rewrite entry_rank in Er. cbn [fst] in Er. unfold rank in Er. apply pair_equal_spec in Er as [E1 E2].
      symmetry. apply layer.entry_for_inj; [exact E1|exact E2|]. destruct (decide (8 < length k')%nat) as [H8|H8].
      * rewrite (Hs H8). unfold entry_for. cbn [fst snd]. destruct (decide _); [reflexivity|lia].
      * rewrite !drop_ge by lia. reflexivity.
    + right. split; [congruence|]. exists es, e. auto 8.
  - intros [[-> Ex]|(Hne & l & e & Hl0 & He & Hl & Er & Hs & ->)].
    + exists es', (entry_for (k, v)). split; [reflexivity|]. split; [apply Hes'; eauto|]. split; [apply entry_len|]. split; [apply entry_rank|].
      split; [|reflexivity]. intros H8. unfold entry_for. cbn [fst snd]. destruct (decide _); [reflexivity|contradiction].
    + assert (l = es) as -> by congruence. exists es', e. split; [reflexivity|]. split; [apply Hes'; right; split; [exact He|]|auto].
      intros E. destruct (Hfree e He E) as [_ Hd]. apply Hne. rewrite E in Er. unfold rank in Er. apply pair_equal_spec in Er as [E1 E2].
      apply layer.entry_for_inj; [symmetry; exact E1|symmetry; exact E2|]. destruct (decide (8 < length k')%nat).
      * rewrite Hs, Hd by lia. reflexivity.
      * rewrite !drop_ge by lia. reflexivity.
Qed.

(** The key has the value, or none; every other key what it had. *)
Lemma update_maps k' v : maps tab' top k' v <-> (k' = pre ++ k /\ w = Some v) \/ (k' <> pre ++ k /\ maps tab top k' v).
Proof.
  pose proof update_table_ok as Hok'.
  assert (Hw : forall x, w = Some x -> maps tab' top (pre ++ k) x).
  { intros x Ex. apply (maps_path tab' top Hok' update_pos). exists pre, r, k. split; [reflexivity|]. split; [apply update_path, Hpath|].
    split; [apply update_hits; auto|exact Hk]. }
  assert (Hother : forall r' k0, r' <> r -> hits tab' r' k0 v <-> hits tab r' k0 v).
  { intros r' k0 Hn. unfold hits, tab'. rewrite lookup_insert_ne by congruence. reflexivity. }
  assert (Hsame : k' <> pre ++ k -> maps tab' top k' v <-> maps tab top k' v).
  { intros Hne. rewrite (maps_path tab' top Hok' update_pos), (maps_path tab top Hok Hpos).
    split; intros (p & r' & k0 & -> & Hp & Hh & H0); exists p, r', k0; (split; [reflexivity|]); (split; [apply update_path, Hp|]); (split; [|exact H0]);
      (destruct (decide (r' = r)) as [->|Hn]; [|apply Hother; auto]).
    - apply update_path in Hp. rewrite (path_unique tab top Hok p pre r Hp Hpath) in Hne. apply update_hits in Hh as [[-> _]|[_ Hh]]; [contradiction|exact Hh].
    - rewrite (path_unique tab top Hok p pre r Hp Hpath) in Hne. apply update_hits. right. split; [congruence|exact Hh]. }
  destruct (decide (k' = pre ++ k)) as [->|Hne].
  - split; [|intros [[_ Ex]|[H _]]; [exact (Hw v Ex)|contradiction]]. intros H. left. split; [reflexivity|].
    apply (path_maps_inv tab' top Hok' pre r) in H; [|apply update_path, Hpath|exact Hk].
    destruct (tree.maps_rank tab' r es' k v (lookup_insert_eq _ _ _) H) as (e & He & Er & Hv).
    apply Hes' in He as [(x & -> & ->)|[_ Hne]]; [|contradiction]. f_equal. unfold entry_for in Hv. cbn [fst snd] in Hv.
    destruct (Z.leb_spec (Z.min (Z.of_nat (length k)) 9) 8); [congruence|]. destruct (Z.eqb_spec (Z.min (Z.of_nat (length k)) 9) 9); [symmetry; apply Hv|lia].
  - rewrite (Hsame Hne). tauto.
Qed.
End Update.

(** ** Turning an entry into a layer *)
Section NewLayer.
Context (tab : table) (top : nat) (Hok : table_ok tab top).
Hypothesis Hpos : forall r es e, tab !! r = Some es -> e ∈ es -> 0 <= e.1.1.2.
Context (r nlp : nat) (A B : list entry) (ik value : Z) (suf : list byte).
Hypothesis Hnew : tab !! nlp = None.
Hypothesis Hr : tab !! r = Some (A ++ (ik, 9, value, suf) :: B).
Hypothesis Honce : (ik, 9, value, suf) ∉ A ++ B.

Let e' : entry := (ik, 137, Z.of_nat nlp, []).
Let tab' := <[nlp := [entry_for (suf, value)]]> (<[r := A ++ e' :: B]> tab).

Lemma new_ne : r <> nlp.
Proof. intros ->. congruence. Qed.
Lemma new_lookups r' l : tab' !! r' = Some l ->
  (r' = nlp /\ l = [entry_for (suf, value)]) \/ (r' = r /\ l = A ++ e' :: B) \/ (r' <> r /\ r' <> nlp /\ tab !! r' = Some l).
Proof.
  unfold tab'. intros H. apply lookup_insert_Some in H as [[<- <-]|[Hn H]]; [auto|]. apply lookup_insert_Some in H as [[<- <-]|[Hn' H]]; auto.
Qed.
Lemma new_entries e : e ∈ A ++ e' :: B -> e = e' \/ (e ∈ A ++ (ik, 9, value, suf) :: B).
Proof. rewrite !elem_of_app, !elem_of_cons. tauto. Qed.
Lemma new_layer_entry r' l e : tab' !! r' = Some l -> e ∈ l -> is_layer e -> (r' = r /\ e = e') \/ (exists l0, tab !! r' = Some l0 /\ e ∈ l0).
Proof.
  intros H He Hl. apply new_lookups in H as [[-> ->]|[[-> ->]|(_ & _ & H)]]; [|apply new_entries in He as [->|He]; eauto|eauto].
  apply list_elem_of_singleton in He as ->. unfold is_layer in Hl. pose proof (entry_len (suf, value)). lia.
Qed.

Lemma new_pos r' l e : tab' !! r' = Some l -> e ∈ l -> 0 <= e.1.1.2.
Proof.
  intros H He. apply new_lookups in H as [[-> ->]|[[-> ->]|(_ & _ & H)]]; [|apply new_entries in He as [->|He]; [cbn; lia|eauto]|eauto].
  apply list_elem_of_singleton in He as ->. unfold entry_for. cbn [fst snd]. lia.
Qed.

Lemma new_is_Some r' : is_Some (tab !! r') -> is_Some (tab' !! r').
Proof.
  intros H. unfold tab'. destruct (decide (r' = nlp)) as [->|]; [rewrite lookup_insert_eq; eauto|]. rewrite lookup_insert_ne by congruence.
  destruct (decide (r' = r)) as [->|]; [rewrite lookup_insert_eq; eauto|]. rewrite lookup_insert_ne by congruence. exact H.
Qed.

(** Nothing led to the address of the new layer. *)
Lemma new_unreferenced r' l e : tab !! r' = Some l -> e ∈ l -> is_layer e -> ref e <> nlp.
Proof. intros H He Hl E. destruct (to_refs _ _ Hok _ _ _ H He Hl) as (_ & [x Hx] & _). congruence. Qed.

Lemma new_table_ok : table_ok tab' top.
Proof.
  assert (Htop : top <> nlp) by (destruct (to_top _ _ Hok) as [x Hx]; congruence).
  assert (Hre : ref e' = nlp) by (unfold ref, e'; cbn; lia).
  split.
  - apply new_is_Some, Hok.
  - intros r' l a b H Ha Hb E. apply new_lookups in H as [[-> ->]|[[-> ->]|(_ & _ & H)]].
    + apply list_elem_of_singleton in Ha as ->, Hb as ->. reflexivity.
    + assert (Hcase : forall x, x ∈ A ++ e' :: B -> erank x = (ik, 9) -> x = e').
      { intros x Hx Ex. rewrite elem_of_app, elem_of_cons in Hx. destruct (decide (x = e')) as [|Hne]; [assumption|]. exfalso. apply Honce.
        assert (HAB : x ∈ A ++ B) by (rewrite elem_of_app; tauto). replace (ik, 9, value, suf) with x; [exact HAB|].
        apply (to_rank _ _ Hok r _ x (ik, 9, value, suf) Hr); [rewrite elem_of_app, elem_of_cons; rewrite elem_of_app in HAB; tauto| |exact Ex].
        rewrite elem_of_app, elem_of_cons. auto. }
      destruct (new_entries a Ha) as [->|Ha'], (new_entries b Hb) as [->|Hb'].
      * reflexivity.
      * symmetry. apply Hcase; [exact Hb|rewrite <- E; reflexivity].
      * apply Hcase; [exact Ha|rewrite E; reflexivity].
      * eapply to_rank; eauto.
    + eapply to_rank; eauto.
  - intros r' l e H He Hl. destruct (new_layer_entry _ _ _ H He Hl) as [[-> ->]|(l0 & H0 & He0)].
    + rewrite Hre. split; [cbn; lia|]. split; [|congruence]. unfold tab'. rewrite lookup_insert_eq. eauto.
    + destruct (to_refs _ _ Hok _ _ _ H0 He0 Hl) as (H1 & H2 & H3). split; [exact H1|]. split; [apply new_is_Some, H2|exact H3].
  - intros r1 r2 l1 l2 e1 e2 H1 H2 He1 He2 Hl1 Hl2 E.
    destruct (new_layer_entry _ _ _ H1 He1 Hl1) as [[-> ->]|(l1' & H1' & He1')], (new_layer_entry _ _ _ H2 He2 Hl2) as [[-> ->]|(l2' & H2' & He2')].
    + auto.
    + rewrite Hre in E. destruct (new_unreferenced _ _ _ H2' He2' Hl2 (eq_sym E)).
    + rewrite Hre in E. destruct (new_unreferenced _ _ _ H1' He1' Hl1 E).
    + eapply to_uniq; eauto.
Qed.

Lemma new_path pre r' : path tab top pre r' -> path tab' top pre r'.
Proof.
  intros H. induction H as [|pre r' l e c H IH Ht He Hl Hc Hsl]; [apply path_top|].
  assert (r' <> nlp) by (intros ->; congruence). destruct (decide (r' = r)) as [->|Hn].
  - apply (path_next tab' top pre r (A ++ e' :: B)); auto.
    + unfold tab'. rewrite lookup_insert_ne by congruence. apply lookup_insert_eq.
    + rewrite Hr in Ht. injection Ht as <-. rewrite elem_of_app, elem_of_cons in *. destruct He as [He|[->|He]]; auto. unfold is_layer in Hl. cbn in Hl. lia.
  - apply (path_next tab' top pre r' l); auto. unfold tab'. rewrite !lookup_insert_ne by congruence. exact Ht.
Qed.

Lemma new_path_layer pre c : path tab top pre r -> length c = 8%nat -> slice_of c = ik -> path tab' top (pre ++ c) nlp.
Proof.
  intros H Hc Hsl. replace nlp with (ref e') by (unfold ref, e'; cbn; lia). pose proof new_ne.
  apply (path_next tab' top pre r (A ++ e' :: B)); auto.
  - apply new_path, H.
  - unfold tab'. rewrite lookup_insert_ne by congruence. apply lookup_insert_eq.
  - rewrite elem_of_app, elem_of_cons. auto.
  - unfold is_layer, e'. cbn. lia.
Qed.

Lemma new_maps k v : maps tab' top k v <-> maps tab top k v.
Proof.
  apply layer.replace_maps; [|exact Hnew|exact Hr|destruct (to_top _ _ Hok) as [x Hx]; congruence].
  intros r' l e H He Hl. apply (to_refs _ _ Hok _ _ _ H He Hl).
Qed.
End NewLayer.

(** ** Another address for a layer

    The one entry that leads to the layer [r1] is pointed to [p1]. *)
Section Rename.
Context (tab tab' : table) (top : nat) (Hok : table_ok tab top) (r1 p1 : nat).
Hypothesis Hold : is_Some (tab !! r1).
Hypothesis Hnew : tab !! p1 = None.
Hypothesis Htop : r1 <> top.

Definition ren (x : nat) : nat := if decide (x = r1) then p1 else x.
Definition ren_entry (e : entry) : entry := if decide (is_layer e /\ ref e = r1) then (e.1.1, Z.of_nat p1, e.2) else e.

Hypothesis Hfwd : forall x es, tab !! x = Some es -> tab' !! ren x = Some (ren_entry <$> es).
Hypothesis Hbwd : forall y es', tab' !! y = Some es' -> exists x es, y = ren x /\ tab !! x = Some es /\ es' = ren_entry <$> es.

Lemma ren_layer e : is_layer (ren_entry e) <-> is_layer e.
Proof. unfold ren_entry. destruct (decide _) as [[H _]|]; [|reflexivity]. unfold is_layer in *. cbn. tauto. Qed.
Lemma ren_ref e : is_layer e -> ref (ren_entry e) = ren (ref e).
Proof.
  intros H. unfold ren_entry, ren. destruct (decide (is_layer e /\ ref e = r1)) as [[_ E]|Hn].
  - rewrite decide_True by exact E. unfold ref. cbn. lia.
  - rewrite decide_False by tauto. reflexivity.
Qed.
Lemma ren_rank e : erank (ren_entry e) = erank e.
Proof. unfold ren_entry. destruct (decide _); reflexivity. Qed.
Lemma ren_keep e : ~ is_layer e -> ren_entry e = e.
Proof. intros H. unfold ren_entry. rewrite decide_False by tauto. reflexivity. Qed.
Lemma ren_len e : (ren_entry e).1.1 = e.1.1.
Proof. unfold ren_entry. destruct (decide _); reflexivity. Qed.
Lemma ren_inj x y : is_Some (tab !! x) -> is_Some (tab !! y) -> ren x = ren y -> x = y.
Proof.
  intros Hx Hy. unfold ren. destruct (decide (x = r1)), (decide (y = r1)); try congruence.
  - intros <-. destruct Hy. congruence.
  - intros ->. destruct Hx. congruence.
Qed.
Lemma ren_top : ren top = top.
Proof. unfold ren. rewrite decide_False by congruence. reflexivity. Qed.

Lemma ren_table_ok : table_ok tab' top.
Proof.
  split.
  - destruct (to_top _ _ Hok) as [es Hes]. rewrite <- ren_top, (Hfwd _ _ Hes). eauto.
  - intros y l a b Hl Ha Hb E. destruct (Hbwd _ _ Hl) as (x & es & -> & Hes & ->). apply list_elem_of_fmap in Ha as (a0 & -> & Ha), Hb as (b0 & -> & Hb).
    rewrite !ren_rank in E. f_equal. eapply to_rank; eauto.
  - intros y l e Hl He Hlay. destruct (Hbwd _ _ Hl) as (x & es & -> & Hes & ->). apply list_elem_of_fmap in He as (e0 & -> & He). apply (proj1 (ren_layer _)) in Hlay.
    destruct (to_refs _ _ Hok _ _ _ Hes He Hlay) as (H1 & [es2 H2] & H3). rewrite ren_ref by exact Hlay. rewrite ren_len. split; [exact H1|]. split; [rewrite (Hfwd _ _ H2); eauto|].
    intros E. rewrite <- ren_top in E. apply H3, ren_inj; [eauto|apply Hok|exact E].
  - intros y1 y2 l1 l2 a b Hl1 Hl2 Ha Hb La Lb E. destruct (Hbwd _ _ Hl1) as (x1 & es1 & -> & Hes1 & ->), (Hbwd _ _ Hl2) as (x2 & es2 & -> & Hes2 & ->).
    apply list_elem_of_fmap in Ha as (a0 & -> & Ha), Hb as (b0 & -> & Hb). apply (proj1 (ren_layer _)) in La, Lb. rewrite !ren_ref in E by assumption.
    destruct (to_refs _ _ Hok _ _ _ Hes1 Ha La) as (_ & S1 & _), (to_refs _ _ Hok _ _ _ Hes2 Hb Lb) as (_ & S2 & _).
    destruct (to_uniq _ _ Hok _ _ _ _ _ _ Hes1 Hes2 Ha Hb La Lb (ren_inj _ _ S1 S2 E)) as [-> ->]. auto.
Qed.

Lemma ren_path pre x : path tab top pre x -> path tab' top pre (ren x).
Proof.
  intros H. induction H as [|pre x l e c H IH Ht He Hl Hc Hsl]; [rewrite ren_top; apply path_top|]. rewrite <- ren_ref by exact Hl.
  apply (path_next tab' top pre (ren x) (ren_entry <$> l)); auto; [apply list_elem_of_fmap_2, He|apply ren_layer, Hl|rewrite ren_len; exact Hsl].
Qed.

Lemma ren_maps_fwd x k v : maps tab x k v -> maps tab' (ren x) k v.
Proof.
  intros H. induction H as [x es e k Ht He Hkl Hlen Hsl|x es e k Ht He Hkl Hlen Hsl Hsf|x es e k v Ht He Hkl Hlen Hsl Hm IH].
  - eapply maps_value; [apply (Hfwd _ _ Ht)| |exact Hkl|exact Hlen|exact Hsl]. rewrite <- (ren_keep e) by (unfold is_layer; lia). apply list_elem_of_fmap_2, He.
  - eapply maps_suffix; [apply (Hfwd _ _ Ht)| |exact Hkl|exact Hlen|exact Hsl|exact Hsf]. rewrite <- (ren_keep e) by (unfold is_layer; lia). apply list_elem_of_fmap_2, He.
  - assert (Hl : is_layer e) by (unfold is_layer; lia).
    apply (maps_layer tab' (ren x) (ren_entry <$> es) (ren_entry e)); [apply (Hfwd _ _ Ht)|apply list_elem_of_fmap_2, He|rewrite ren_len; exact Hkl|exact Hlen|rewrite ren_len; exact Hsl|].
    change (Z.to_nat (ren_entry e).1.2) with (ref (ren_entry e)). rewrite ren_ref by exact Hl. exact IH.
Qed.
Lemma ren_maps_bwd y k v : maps tab' y k v -> forall x, y = ren x -> is_Some (tab !! x) -> maps tab x k v.
Proof.
  intros H. induction H as [y l e k Ht He Hkl Hlen Hsl|y l e k Ht He Hkl Hlen Hsl Hsf|y l e k v Ht He Hkl Hlen Hsl Hm IH]; intros x -> [es Hx];
    rewrite (Hfwd _ _ Hx) in Ht; injection Ht as <-; apply list_elem_of_fmap in He as (e0 & -> & He); rewrite ren_len in *.
  - rewrite (ren_keep e0) by (unfold is_layer; lia). eapply maps_value; eauto.
  - rewrite (ren_keep e0) in * by (unfold is_layer; lia). eapply maps_suffix; eauto.
  - assert (Hl : is_layer e0) by (unfold is_layer; lia). eapply maps_layer; eauto. apply IH.
    + change (Z.to_nat (ren_entry e0).1.2) with (ref (ren_entry e0)). apply ren_ref, Hl.
    + apply (to_refs _ _ Hok _ _ _ Hx He Hl).
Qed.
Lemma ren_maps k v : maps tab' top k v <-> maps tab top k v.
Proof.
  split.
  - intros H. eapply ren_maps_bwd; [exact H|symmetry; apply ren_top|apply Hok].
  - intros H. rewrite <- ren_top. apply ren_maps_fwd, H.
Qed.
End Rename.

(** The entry [e] of layer [r] is written, and the table changes as above. *)
Lemma rename_layer (tab : table) top r (A B : list entry) (e : entry) p1 (es1 : list entry) (e' : entry := (e.1.1, Z.of_nat p1, e.2)) (tab' := <[p1 := es1]> (delete (ref e) (<[r := A ++ e' :: B]> tab))) :
  table_ok tab top -> tab !! r = Some (A ++ e :: B) -> e ∉ A ++ B -> is_layer e -> tab !! ref e = Some es1 -> r <> ref e -> tab !! p1 = None ->
  table_ok tab' top /\ (forall k v, maps tab' top k v <-> maps tab top k v) /\ (forall pre c, path tab top pre r -> length c = 8%nat -> slice_of c = e.1.1.1 -> path tab' top (pre ++ c) p1).
Proof.
  intros Hok Hr Honce Hl Hes1 Hne Hnew. assert (Hin : e ∈ A ++ e :: B) by set_solver. destruct (to_refs _ _ Hok _ _ _ Hr Hin Hl) as (H127 & Hsome & Htop).
  assert (Hrp : r <> p1) by congruence. assert (Hre : ref e <> p1) by congruence.
  assert (Hother : forall x es, tab !! x = Some es -> x <> r -> ren_entry (ref e) p1 <$> es = es).
  { intros x es Hx Hxr. rewrite <- (list_fmap_id es) at 2. apply list_fmap_ext. intros i a Ha. unfold ren_entry. rewrite decide_False; [reflexivity|]. intros [La Ea].
    apply list_elem_of_lookup_2 in Ha. destruct (to_uniq _ _ Hok _ _ _ _ _ _ Hx Hr Ha Hin La Hl Ea). contradiction. }
  assert (Hpart : forall l : list entry, (forall a, a ∈ l -> a ∈ A ++ B) -> ren_entry (ref e) p1 <$> l = l).
  { intros l Hsub. rewrite <- (list_fmap_id l) at 2. apply list_fmap_ext. intros i a Ha. unfold ren_entry. rewrite decide_False; [reflexivity|]. intros [La Ea].
    apply list_elem_of_lookup_2, Hsub in Ha. assert (Ha' : a ∈ A ++ e :: B) by set_solver. destruct (to_uniq _ _ Hok _ _ _ _ _ _ Hr Hr Ha' Hin La Hl Ea) as [_ ->]. contradiction. }
  assert (Er : ren_entry (ref e) p1 <$> (A ++ e :: B) = A ++ e' :: B).
  { rewrite fmap_app, fmap_cons, !Hpart by set_solver. f_equal. f_equal. unfold ren_entry. rewrite decide_True by auto. reflexivity. }
  assert (Hfwd : forall x es, tab !! x = Some es -> tab' !! ren (ref e) p1 x = Some (ren_entry (ref e) p1 <$> es)).
  { intros x es Hx. unfold tab', ren. destruct (decide (x = ref e)) as [->|Hx1].
    - rewrite lookup_insert_eq, (Hother _ _ Hx) by congruence. congruence.
    - rewrite lookup_insert_ne by congruence. rewrite lookup_delete_ne by congruence. destruct (decide (x = r)) as [->|Hx2].
      + rewrite lookup_insert_eq. assert (es = A ++ e :: B) as -> by congruence. rewrite Er. reflexivity.
      + rewrite lookup_insert_ne by congruence. rewrite (Hother _ _ Hx Hx2). exact Hx. }
  assert (Hbwd : forall y es', tab' !! y = Some es' -> exists x es, y = ren (ref e) p1 x /\ tab !! x = Some es /\ es' = ren_entry (ref e) p1 <$> es).
  { intros y es' Hy. assert (Hx : exists x, y = ren (ref e) p1 x /\ is_Some (tab !! x)).
    { unfold tab' in Hy. apply lookup_insert_Some in Hy as [[<- _]|[Hy1 Hy]]; [exists (ref e); unfold ren; rewrite decide_True by reflexivity; auto|].
      apply lookup_delete_Some in Hy as [Hy2 Hy]. exists y. unfold ren. rewrite decide_False by congruence. split; [reflexivity|]. apply lookup_insert_Some in Hy as [[<- _]|[_ Hy]]; eauto. }
    destruct Hx as (x & -> & [es Hx]). exists x, es. split; [reflexivity|]. split; [exact Hx|]. rewrite (Hfwd _ _ Hx) in Hy. congruence. }
  split; [|split].
  - eapply ren_table_ok; eauto.
  - intros k v. eapply ren_maps; eauto.
  - intros pre c Hp Hc Hsl. replace p1 with (ren (ref e) p1 (ref e)) by (unfold ren; rewrite decide_True by reflexivity; reflexivity).
    eapply ren_path; eauto. eapply path_next; eauto.
Qed.
End paths.
