(* ===== verification/Cursor.v ===== *)
(** * Changing the value of a key (src/masstree/masstree_get.hh,
    masstree_insert.hh, masstree_split.hh, masstree_remove.hh, masstree_tcursor.hh)

    modify_insert and modify find the leaf of a key, lock it, split it if it is
    full, let a callback give the key a value or remove it, and unlock.  As in
    Tree.v, the code is translated for one thread: versions are locked, compared
    and unlocked as the code does, and a comparison that only another thread can
    make fail ends the model with [None].  Where the code goes on to take an emptied
    leaf out of the tree (remove_leaf), the model stops and says so. *)

From S2P Require Import Prelude KPermuter NodeVersion KSearch StringSlice MtKey LeafLink Internode Leaf Tree Layer.

Open Scope Z_scope.

Module cursor.

Import tree (node, NLeaf, NInternode, heap).

(** ** The tree

    Nodes, their parents, the links between leaves, the table's root_, and the
    prefixes of the layers for which gc_layer has been registered. *)
Record store := mkStore {
  nodes : heap;
  parent_ : internode.parents;
  links : gmap nat leaflink.lnode;
  root_ : nat;
  gc_layers : list (list byte)
}.

(** The leaves whose prev_, or next_, is not null. *)
Definition prev_ (st : store) : gset nat := dom (filter (fun x => leaflink.prev_ x.2 <> None) (links st)).
Definition next_ (st : store) : gset nat := dom (filter (fun x => leaflink.safe_next x.2 <> None) (links st)).

(** A node is written; the parents are; root_ is; a leaf is allocated. *)
Definition put_node (q : nat) (n : node) (st : store) : store :=
  mkStore (<[q := n]> (nodes st)) (parent_ st) (links st) (root_ st) (gc_layers st).
Definition put_leaf (q : nat) (n : leaf.leaf) (st : store) : store := put_node q (NLeaf n) st.
Definition put_parents (ps : internode.parents) (st : store) : store := mkStore (nodes st) ps (links st) (root_ st) (gc_layers st).
Definition put_root (r : nat) (st : store) : store := mkStore (nodes st) (parent_ st) (links st) r (gc_layers st).
Definition no_links : leaflink.lnode := leaflink.mk (None, false) None.
Definition add_leaf (q : nat) (n : leaf.leaf) (st : store) : store :=
  mkStore (<[q := NLeaf n]> (nodes st)) (<[q := None]> (parent_ st)) (<[q := no_links]> (links st)) (root_ st) (gc_layers st).
Definition no_tree : store := mkStore ∅ ∅ ∅ 0 [].
Definition add_gc (prefix : list byte) (st : store) : store :=
  mkStore (nodes st) (parent_ st) (links st) (root_ st) (gc_layers st ++ [prefix]).

Section Cursor.
(** The widths of leaves and interior nodes; where the suffix bag of a leaf keeps
    the suffix that is looked at; what the allocator returns: an address, and the
    arrays of a new leaf or interior node. *)
Context (width : Z) (iwidth : nat) (nv : nodeversion_parameters) (binary : bool) (mem : memory).
Context (bag : Z) (alloc : heap -> nat) (fresh : list leaf.slot) (new_ikeys : list Z) (new_children : list internode.ptr).

(** leaf::bound_type::lower_with_position: ki_ and kp_. *)
Definition bound_lower_with_position (ka : key.key) (n : leaf.leaf) : option (Z * Z) :=
  lower_with_position (leaf.size n) (at_ (leaf.permutation_ n)) (tree.leaf_compare ka n) binary.

(** [kp_ >= 0 && n_->is_stable_node(kp_)]: the root of that layer. *)
Definition stable_layer (n : leaf.leaf) (kp : Z) : option (option nat) :=
  if 0 <=? kp then
    s ← leaf.slot_at n kp;
    Some (if leaf.keylenx_is_stable_node (leaf.keylenx s) then Some (Z.to_nat (leaf.lv s)) else None)
  else Some None.

Definition lock_leaf (n : leaf.leaf) (oldv : Z) : option leaf.leaf :=
  match lock_try nv (leaf.v_ n) oldv with
  | LockTaken v => if lock_check nv v v then Some (leaf.set_v v n) else None
  | LockRetry _ => None
  end.
Definition unlock_leaf (n : leaf.leaf) (v : Z) : option leaf.leaf :=
  v' ← unlock nv (leaf.v_ n) v; Some (leaf.set_v v' n).

(** get_leaf_locked returns another root to look under, or stays at a locked leaf. *)
Inductive located :=
| NextRoot (st : store) (root : nat) (ka : key.key)
| AtLeaf (st : store) (n : leaf.leaf) (ki kp : Z).

(** Label found. *)
Definition found_leaf (fuel : nat) (st : store) (q : nat) (n : leaf.leaf) (v : Z) (ka : key.key) (ki kp : Z) : option located :=
  layer ← stable_layer n kp;
  match layer with
  | None => Some (AtLeaf st n ki kp)
  | Some root =>
      nd ← nodes st !! root;
      '(n, root) ← (if has_split nv (tree.version nd) then
                      p ← tree.unsplit_ancestor nv (nodes st) (parent_ st) fuel root;
                      n ← layer.set_lv n kp (Z.of_nat p);
                      Some (n, p)
                    else Some (n, root));
      n ← unlock_leaf n v;
      Some (NextRoot (put_leaf q n st) root (key.shift mem ka))
  end.

(** "Walk along leaves", at its first leaf. *)
Definition walk_leaves (fuel : nat) (st : store) (root q : nat) (n : leaf.leaf) (v oldv : Z) (ka : key.key) : option located :=
  if deleted nv v then n ← unlock_leaf n v; Some (NextRoot (put_leaf q n st) root ka)
  else
    '(ki, kp) ← bound_lower_with_position ka n;
    if (0 <=? kp) || negb (ki =? leaf.size n) || negb (has_split_since nv v oldv) then found_leaf fuel st q n v ka ki kp
    else None.

Definition get_leaf_locked (fuel : nat) (st : store) (root q : nat) (oldv : Z) (ka : key.key) : option located :=
  match nodes st !! q with
  | Some (NLeaf n) =>
      if negb (key.has_suffix ka) then
        n ← lock_leaf n oldv;
        walk_leaves fuel (put_leaf q n st) root q n (leaf.v_ n) oldv ka
      else
        '(ki, kp) ← bound_lower_with_position ka n;
        layer ← stable_layer n kp;
        quick ← match layer with
                | None => Some None
                | Some r =>
                    nd ← nodes st !! r;
                    Some (if negb (deleted nv oldv) && negb (has_changed nv (leaf.v_ n) oldv) && negb (has_split nv (tree.version nd))
                          then Some r else None)
                end;
        match quick with
        | Some r => Some (NextRoot st r (key.shift mem ka))
        | None =>
            n ← lock_leaf n oldv;
            let v := leaf.v_ n in
            let st := put_leaf q n st in
            if negb (deleted nv v) && negb (has_changed nv v oldv) then found_leaf fuel st q n v ka ki kp
            else walk_leaves fuel st root q n v oldv ka
        end
  | _ => None
  end.

(** basic_table::reinitialize; initialize calls it for a table without a tree. *)
Definition reinitialize (st : store) : store :=
  let p := alloc (nodes st) in
  put_root p (add_leaf p (leaf.set_v (mark_root nv (new_nodeversion nv true)) (leaf.new_leaf width nv fresh)) st).

(** ** finish_split *)

Definition new_internode : internode.internode := internode.make nv new_ikeys new_children.

(** node_base::locked_parent: the parent, locked, if there is one. *)
Definition locked_parent (st : store) (n : nat) : option (option (nat * internode.internode)) :=
  nd ← nodes st !! n;
  if negb (locked nv (tree.version nd)) then None
  else
    parent ← parent_ st !! n;
    match parent with
    | None => Some None
    | Some p =>
        match nodes st !! p with
        | Some (NInternode i) =>
            match lock_try nv (internode.v_ i) (internode.v_ i) with
            | LockTaken v => if negb (lock_check nv v v) || isleaf nv v then None else Some (Some (p, internode.set_v v i))
            | LockRetry _ => None
            end
        | _ => None
        end
    end.

(** The loop body of finish_split up to [n->isleaf()]: [child] goes under the parent
    of [n], or both under a new root.  The parent; the sibling it was split into,
    with the key between them. *)
Definition split_level (st : store) (ka : key.key) (n child : nat) (xikey split_type : Z) : option (store * option nat * option (nat * Z)) :=
  nd ← nodes st !! n;
  cd ← nodes st !! child;
  if negb (locked nv (tree.version nd) && locked nv (tree.version cd) && (isleaf nv (tree.version nd) || splitting nv (tree.version nd))) then None
  else
    parent ← locked_parent st n;
    let new := alloc (nodes st) in
    match parent with
    | None =>
        '(nn, ps) ← internode.new_root nv new new_internode n child xikey (<[new := None]> (parent_ st));
        let st := put_node new (NInternode nn) (put_parents ps st) in
        Some (if key.is_shifted ka then st else put_root new st, None, None)
    | Some (pp, p) =>
        let ps := if decide (internode.size p < iwidth)%nat then parent_ st else <[new := None]> (parent_ st) in
        '(p, next_child, ps) ← internode.insert_into_parent iwidth nv binary pp p new new_internode xikey child split_type ps;
        let st := put_node pp (NInternode p) (put_parents ps st) in
        match next_child with
        | None => Some (st, Some pp, None)
        | Some (split_ikey, r) => Some (put_node new (NInternode r) st, Some pp, Some (new, split_ikey))
        end
    end.

Definition set_version (v : Z) (nd : node) : node :=
  match nd with NLeaf n => NLeaf (leaf.set_v v n) | NInternode n => NInternode (internode.set_v v n) end.
Definition unlock_node (x : nat) (st : store) : option store :=
  nd ← nodes st !! x;
  v ← unlock nv (tree.version nd) (tree.version nd);
  Some (put_node x (set_version v nd) st).

(** [while (1)], with n_, ki_ and kp_. *)
Fixpoint split_loop (fuel : nat) (st : store) (ka : key.key) (n child : nat) (xikey split_type : Z) (n_ : nat) (ki kp : Z)
  : option (store * nat * Z * Z) :=
  match fuel with
  | O => None
  | S fuel' =>
      '(st, p, next_child) ← split_level st ka n child xikey split_type;
      '(st, n_, ki, kp) ← match nodes st !! n, nodes st !! child with
                          | Some (NLeaf nl), Some (NLeaf nr) =>
                              '(nl, nr, moved, ki, kp) ← leaf.finish_leaf_split width nv mem nl nr split_type ki ka;
                              Some (put_leaf child nr (put_leaf n nl st), if moved : bool then child else n_, ki, kp)
                          | _, _ => Some (st, n_, ki, kp)
                          end;
      st ← (if decide (n = n_) then Some st else unlock_node n st);
      st ← (if decide (child = n_) then Some st else unlock_node child st);
      match next_child, p with
      | Some (c, split_ikey), Some p => split_loop fuel' st ka p c split_ikey split_type n_ ki kp
      | _, Some p => st ← unlock_node p st; Some (st, n_, ki, kp)
      | _, None => Some (st, n_, ki, kp)
      end
  end.

(** The tree, the leaf n_ with the new key in slot kp_, ki_ and kp_. *)
Definition finish_split (fuel : nat) (st : store) (q : nat) (n : leaf.leaf) (ki : Z) (ka : key.key) : option (store * nat * leaf.leaf * Z * Z) :=
  let child := alloc (nodes st) in
  let nr := leaf.set_v (leaf.v_ n) (leaf.new_leaf width nv fresh) in
  '(nr, t, xikey, split_type) ← leaf.leaf_split width nv mem n nr q child ki ka [<[child := no_links]> (links st)];
  lk ← head t;
  let st := mkStore (<[child := NLeaf nr]> (nodes st)) (<[child := None]> (parent_ st)) lk (root_ st) (gc_layers st) in
  '(st, n_, ki, kp) ← split_loop fuel st ka q child xikey split_type q ki (-1);
  match nodes st !! n_ with Some (NLeaf n) => Some (st, n_, n, ki, kp) | _ => None end.

(** ** find_insert *)

(** found_marker, insert_marker, or another root. *)
Inductive insertion :=
| IFound (st : store) (q : nat) (n : leaf.leaf) (ki kp : Z) (ka : key.key)
| IInsert (st : store) (q : nat) (n : leaf.leaf) (ki kp : Z) (ka : key.key)
| IRoot (st : store) (root : nat) (ka : key.key).

Definition check_leaf_insert (fuel : nat) (st : store) (root q : nat) (v : Z) (ka : key.key) : option insertion :=
  l ← get_leaf_locked fuel st root q v ka;
  match l with
  | NextRoot st root ka => Some (IRoot st root ka)
  | AtLeaf st n ki kp =>
      if 0 <=? kp then
        s ← leaf.slot_at n kp;
        let nlp := alloc (nodes st) in
        l ← layer.check_layer width nv (StringSlice.store mem bag (leaf.suf s)) n kp ka bag fresh nlp;
        match l with
        | layer.LFound => Some (IFound st q n ki kp ka)
        | layer.LNew states nl ka ins =>
            n ← last states;
            let st := add_leaf nlp nl (put_leaf q n st) in
            match ins with
            | Some p => Some (IInsert st nlp nl p p ka)
            | None => Some (IRoot st nlp ka)
            end
        end
      else
        r ← leaf.do_insert width nv mem 2 (bool_decide (q ∈ prev_ st)) n ka;
        match r with
        | leaf.Inserted kp n => Some (IInsert (put_leaf q n st) q n ki kp ka)
        | leaf.ResetRetry => n ← unlock_leaf n (leaf.v_ n); Some (IRoot (put_leaf q n st) (root_ st) (key.unshift_all mem ka))
        | leaf.NeedSplit n =>
            '(st, q, n, ki, kp) ← finish_split fuel (put_leaf q n st) q n ki ka;
            Some (IInsert st q n ki kp ka)
        end
  end.

Fixpoint find_insert (fuel : nat) (st : store) (root : nat) (ka : key.key) : option insertion :=
  match fuel with
  | O => None
  | S fuel' =>
      '(q, _, v) ← tree.reach_leaf nv binary (nodes st) (parent_ st) fuel root ka;
      r ← check_leaf_insert fuel st root q v ka;
      match r with IRoot st root ka => find_insert fuel' st root ka | r => Some r end
  end.

(** ** find_locked *)

(** The leaf, ki_ and kp_, or another root. *)
Inductive lookup :=
| LAt (st : store) (q : nat) (n : leaf.leaf) (ki kp : Z) (ka : key.key)
| LRoot (st : store) (root : nat) (ka : key.key).

Definition check_leaf_locked (fuel : nat) (st : store) (root q : nat) (v : Z) (ka : key.key) : option lookup :=
  l ← get_leaf_locked fuel st root q v ka;
  match l with
  | NextRoot st root ka => Some (LRoot st root ka)
  | AtLeaf st n ki kp =>
      if 0 <=? kp then
        s ← leaf.slot_at n kp;
        Some (LAt st q n ki (if tree.ksuf_equals mem ka s (leaf.keylenx s) then kp else -1) ka)
      else if (ki =? 0) && leaf.deleted_layer width n then
        n ← unlock_leaf n (leaf.v_ n); Some (LRoot (put_leaf q n st) (root_ st) (key.unshift_all mem ka))
      else Some (LAt st q n ki kp ka)
  end.

Fixpoint find_locked (fuel : nat) (st : store) (root : nat) (ka : key.key) : option lookup :=
  match fuel with
  | O => None
  | S fuel' =>
      '(q, _, v) ← tree.reach_leaf nv binary (nodes st) (parent_ st) fuel root ka;
      r ← check_leaf_locked fuel st root q v ka;
      match r with LRoot st root ka => find_locked fuel' st root ka | r => Some r end
  end.

(** ** finish *)

(** The callback's answer and the tree; or an empty leaf to unlink. *)
Inductive modified :=
| Done (answer : Z) (st : store)
| MustUnlink (answer : Z) (st : store) (q : nat) (n : leaf.leaf).

(** remove_leaf up to "mark leaf deleted": the tree, if it returns false. *)
Definition remove_leaf (st : store) (q : nat) (ka : key.key) : option store :=
  if bool_decide (q ∈ prev_ st) then None
  else
    let '(s, len) := key.prefix_string ka in
    Some (if bool_decide (q ∉ next_ st) && negb (len =? 0) then add_gc (bytes mem s (Z.to_nat len)) st else st).

(** [state_] is 1 or 3 if the key was found, 2 if it is being inserted, 0 if not found. *)
Definition finish (answer : Z) (state_ : Z) (st : store) (q : nat) (n : leaf.leaf) (ki kp : Z) (ka : key.key) : option modified :=
  if (answer <? 0) && Z.odd state_ then
    let '(n, empty) := leaf.finish_remove width n ki in
    match (if empty : bool then remove_leaf st q ka else Some st) with
    | None => Some (MustUnlink answer (put_leaf q n st) q n)
    | Some st => n ← unlock_leaf n (leaf.v_ n); Some (Done answer (put_leaf q n st))
    end
  else
    n ← (if (0 <? answer) && (state_ =? 2) then leaf.finish_insert width n ki kp else Some n);
    n ← unlock_leaf n (leaf.v_ n);
    Some (Done answer (put_leaf q n st)).

(** The callback gets whether the key was found and its value, and gives its answer
    and the value it leaves there. *)
Definition apply_callback (f : bool -> Z -> Z * Z) (found : bool) (n : leaf.leaf) (kp : Z) : option (Z * leaf.leaf) :=
  s ← leaf.slot_at n kp;
  let '(answer, value) := f found (leaf.lv s) in
  n ← layer.set_lv n kp value; Some (answer, n).

Definition modify_insert (fuel : nat) (st : store) (s len : Z) (f : bool -> Z -> Z * Z) : option modified :=
  r ← find_insert fuel st (root_ st) (key.of_str mem s len);
  match r with
  | IFound st q n ki kp ka => '(answer, n) ← apply_callback f true n kp; finish answer 3 st q n ki kp ka
  | IInsert st q n ki kp ka => '(answer, n) ← apply_callback f false n kp; finish answer 2 st q n ki kp ka
  | IRoot _ _ _ => None
  end.

Definition modify (fuel : nat) (st : store) (s len : Z) (f : bool -> Z -> Z * Z) : option modified :=
  r ← find_locked fuel st (root_ st) (key.of_str mem s len);
  match r with
  | LAt st q n ki kp ka =>
      if 0 <=? kp then '(answer, n) ← apply_callback f true n kp; finish answer 1 st q n ki kp ka
      else finish 0 0 st q n ki kp ka
  | LRoot _ _ _ => None
  end.

End Cursor.
End cursor.
