(* ===== verification/TreeStore.v ===== *)
(** * The invariant of a Masstree that one thread changes

    Every node has a place: a layer, a height, a range of ikeys and, for a leaf, its
    entries.  The invariant says node by node how places, children, parents, links
    and versions fit together, so that a write is checked where it happens.  Two
    parameters let it speak about the middle of an operation: the nodes that are
    locked and need not be at rest, and a node just made by a split that is not yet
    under a parent. *)

From S2P Require Import Prelude KPermuter NodeVersion KSearch StringSlice MtKey LeafLink Internode Leaf Tree Layer Paths Cursor.

Open Scope Z_scope.

Module treestore.

Import leaf (entry).
Import tree (node, heap, NLeaf, NInternode, leaf_ok, leads).
Import cursor (store, mkStore, nodes, parent_, links, root_, prev_, put_node, put_leaf, add_leaf, no_links).

(** ** Places *)

Record place := mkPlace { pl_layer : nat; pl_height : nat; pl_lo : Z; pl_hi : Z; pl_entries : list entry }.

(** The place of each node, the root and the leaves of each layer. *)
Record ghost := mkGhost { own : gmap nat place; root_of : gmap nat nat; leaves : gmap nat (list nat) }.

Abbreviation places := (gmap nat place).
Abbreviation table := (gmap nat (list entry)).

Definition entries (o : places) (x : nat) : list entry := from_option pl_entries [] (o !! x).
Definition in_range (lo hi : Z) (es : list entry) : Prop := Forall (fun e => lo <= e.1.1.1 < hi) es.

(** Ranges that follow each other from [lo] to [hi]. *)
Fixpoint covers (R : nat -> Z -> Z -> Prop) (lo : Z) (l : list nat) (hi : Z) : Prop :=
  match l with
  | [] => lo = hi
  | x :: l' => exists m, R x lo m /\ lo < m /\ covers R m l' hi
  end.

Definition leaf_range (o : places) (h : heap) (i : nat) (x : nat) (lo hi : Z) : Prop :=
  exists d es n, o !! x = Some (mkPlace i d lo hi es) /\ h !! x = Some (NLeaf n).

(** The children [cs] of a node of layer [i], separated by the keys [K]. *)
Definition kids (o : places) (i d : nat) (lo hi : Z) (K : list Z) (cs : list nat) : Prop :=
  internode.sorted (lo :: K ++ [hi]) /\ length cs = S (length K) /\
  forall j c, cs !! j = Some c -> exists d' a b es,
    (lo :: K ++ [hi]) !! j = Some a /\ (lo :: K ++ [hi]) !! S j = Some b /\ (d' < d)%nat /\ o !! c = Some (mkPlace i d' a b es).

(** [n] was split at key [k]; [c], the right half, has no parent yet. *)
Definition pending : Type := option (nat * nat * Z).
Definition kids_with (P : pending) (o : places) (i d : nat) (lo hi : Z) (K : list Z) (cs : list nat) : Prop :=
  match P with
  | Some (n, c, k) => (exists j, cs !! j = Some n /\ kids o i d lo hi (internode.ins j k K) (internode.ins (S j) c cs)) \/
                      (n ∉ cs /\ kids o i d lo hi K cs)
  | None => kids o i d lo hi K cs
  end.
Definition attached (P : pending) (x : nat) : Prop := match P with Some (_, c, _) => x <> c | None => True end.

Section Store.
Context (width : Z) (w : nat) (nv : nodeversion_parameters) (binary : bool) (mem : memory).
Context `{L : !NvLayout nv} (Hwidth : 3 <= width <= 15).

(** A leaf between two operations. *)
Record good_leaf (prevs : gset nat) (p : nat) (lo : Z) (n : leaf.leaf) (es : list entry) : Prop := {
  gl_ok : leaf_ok width nv n es;
  gl_quiet : quiet nv (leaf.v_ n);
  gl_removed : 0 <= leaf.nremoved_ n;
  gl_room : leaf.size n + leaf.nremoved_ n <= width;
  gl_free : exists l f, leaf.rep width n l f /\ (p ∈ prevs -> leaf.nremoved_ n = 0 -> leaf.zero_last f);
  gl_bound : p ∈ prevs -> leaf.ikey_bound n = Some lo
}.

(** The structure around a node. *)
Definition placed (P : pending) (o : places) (h : heap) (ps : internode.parents) (x : nat) (pl : place) : Prop :=
  match h !! x with
  | Some (NLeaf _) => True
  | Some (NInternode m) => internode.wf w m /\ exists cs, internode.children m = Some <$> cs /\ (forall c, c ∈ cs -> ps !! c = Some (Some x)) /\
      kids_with P o (pl_layer pl) (pl_height pl) (pl_lo pl) (pl_hi pl) (internode.keys m) cs
  | None => False
  end.

(** A node at rest.  Along the left edge of a layer, only the root is marked. *)
Definition good_node (roots : gmap nat nat) (prevs : gset nat) (x : nat) (pl : place) (nd : node) : Prop :=
  match nd with
  | NLeaf n => good_leaf prevs x (pl_lo pl) n (pl_entries pl) /\ in_range (pl_lo pl) (pl_hi pl) (pl_entries pl)
  | NInternode m => quiet nv (internode.v_ m) /\ tree.at_rest nv false (internode.v_ m)
  end /\
  (pl_lo pl = 0 -> has_split nv (tree.version nd) = negb (bool_decide (roots !! pl_layer pl = Some x))).

Definition has_parent (G : ghost) (st : store) (x : nat) (pl : place) : Prop :=
  (root_of G !! pl_layer pl = Some x /\ parent_ st !! x = Some None) \/
  (root_of G !! pl_layer pl <> Some x /\ exists y m pl', parent_ st !! x = Some (Some y) /\ nodes st !! y = Some (NInternode m) /\
     Some x ∈ internode.children m /\ own G !! y = Some pl' /\ pl_layer pl' = pl_layer pl).

Definition root_place (P : pending) (o : places) (i p : nat) : Prop :=
  match P with
  | Some (n, c, k) =>
      if decide (p = n) then exists d es es', o !! p = Some (mkPlace i d 0 k es) /\ o !! c = Some (mkPlace i d k (2 ^ 64) es')
      else exists d es, o !! p = Some (mkPlace i d 0 (2 ^ 64) es)
  | None => exists d es, o !! p = Some (mkPlace i d 0 (2 ^ 64) es)
  end.

(** The invariant: no tree is higher than [D]; the nodes of [E] are locked. *)
Record inv (D : nat) (E : gset nat) (P : pending) (G : ghost) (st : store) (tab : table) : Prop := {
  iv_place : forall x pl, own G !! x = Some pl -> 0 <= pl_lo pl < pl_hi pl /\ pl_hi pl <= 2 ^ 64 /\ (pl_height pl <= D)%nat /\
    is_Some (parent_ st !! x) /\ is_Some (root_of G !! pl_layer pl) /\ placed P (own G) (nodes st) (parent_ st) x pl;
  iv_up : forall x pl, own G !! x = Some pl -> attached P x -> has_parent G st x pl;
  iv_root : forall i p, root_of G !! i = Some p -> root_place P (own G) i p;
  iv_pend : forall n c k, P = Some (n, c, k) -> exists i d lo hi es es',
    own G !! n = Some (mkPlace i d lo k es) /\ own G !! c = Some (mkPlace i d k hi es') /\ parent_ st !! c = Some None;
  iv_leaves : forall i p, root_of G !! i = Some p -> exists l, leaves G !! i = Some l /\
    covers (leaf_range (own G) (nodes st) i) 0 l (2 ^ 64) /\ leaflink.seg (links st) None l None /\
    (forall x lo hi, leaf_range (own G) (nodes st) i x lo hi -> x ∈ l);
  iv_table : forall r es, tab !! r = Some es -> exists pl l, own G !! r = Some pl /\ pl_lo pl = 0 /\
    leaves G !! pl_layer pl = Some l /\ es = l ≫= entries (own G);
  iv_inj : forall r r' pl pl', is_Some (tab !! r) -> is_Some (tab !! r') -> own G !! r = Some pl -> own G !! r' = Some pl' ->
    pl_layer pl = pl_layer pl' -> r = r';
  iv_good : forall x pl nd, x ∉ E -> own G !! x = Some pl -> nodes st !! x = Some nd -> good_node (root_of G) (prev_ st) x pl nd
}.

(** ** Ranges *)

Lemma covers_impl (R R' : nat -> Z -> Z -> Prop) lo l hi : (forall x a b, x ∈ l -> R x a b -> R' x a b) -> covers R lo l hi -> covers R' lo l hi.
Proof.
  revert lo. induction l as [|x l IH]; intros lo H; [auto|]. intros (m & Hx & Hm & Hl). exists m. split; [apply H; [left|exact Hx]|]. split; [exact Hm|].
  apply IH; [|exact Hl]. intros y a b Hy. apply H. right. exact Hy.
Qed.
Lemma covers_app R lo l1 l2 hi : covers R lo (l1 ++ l2) hi <-> exists m, covers R lo l1 m /\ covers R m l2 hi.
Proof.
  revert lo. induction l1 as [|x l1 IH]; intros lo; cbn [app covers].
  - split; [eauto|]. intros (m & -> & H). exact H.
  - split.
    + intros (m & Hx & Hm & Hl). apply IH in Hl as (m2 & H1 & H2). exists m2. split; [|exact H2]. exists m. auto.
    + intros (m2 & (m & Hx & Hm & H1) & H2). exists m. split; [exact Hx|]. split; [exact Hm|]. apply IH. eauto.
Qed.
Lemma covers_le R lo l hi : covers R lo l hi -> lo <= hi.
Proof. revert lo. induction l as [|x l IH]; intros lo; cbn; [lia|]. intros (m & _ & Hm & Hl). apply IH in Hl. lia. Qed.
Lemma covers_elem R lo l hi x : covers R lo l hi -> x ∈ l -> exists a b, R x a b /\ lo <= a < b /\ b <= hi.
Proof.
  intros Hc Hx. apply list_elem_of_split in Hx as (l1 & l2 & ->). apply covers_app in Hc as (a & H1 & b & Hx & Hab & H2).
  exists a, b. apply covers_le in H1, H2. split; [exact Hx|lia].
Qed.
Lemma covers_NoDup R lo l hi : (forall x a b a' b', R x a b -> R x a' b' -> a = a') -> covers R lo l hi -> NoDup l.
Proof.
  intros HR. revert lo. induction l as [|x l IH]; intros lo Hc; [constructor|]. destruct Hc as (m & Hx & Hm & Hl). apply NoDup_cons. split; [|eapply IH, Hl].
  intros Hin. destruct (covers_elem _ _ _ _ _ Hl Hin) as (a & b & Hx' & Hab). pose proof (HR _ _ _ _ _ Hx Hx'). lia.
Qed.

Lemma leaf_range_eq o h i x a b a' b' : leaf_range o h i x a b -> leaf_range o h i x a' b' -> a = a' /\ b = b'.
Proof. intros (d & es & n & H & _) (d' & es' & n' & H' & _). rewrite H in H'. injection H' as _ -> -> _. auto. Qed.
Lemma covers_leaves_NoDup o h i lo l hi : covers (leaf_range o h i) lo l hi -> NoDup l.
Proof. apply covers_NoDup. intros x a b a' b' H H'. apply (leaf_range_eq _ _ _ _ _ _ _ _ H H'). Qed.

Lemma prev_elem st x : x ∈ prev_ st <-> exists ln, links st !! x = Some ln /\ leaflink.prev_ ln <> None.
Proof.
  unfold prev_. rewrite elem_of_dom. split.
  - intros [ln H]. apply map_lookup_filter_Some in H. eauto.
  - intros (ln & H & Hn). exists ln. apply map_lookup_filter_Some. auto.
Qed.

(** The bounds of the children. *)
Lemma kids_child o i d lo hi K cs c : kids o i d lo hi K cs -> c ∈ cs ->
  exists d' a b es, o !! c = Some (mkPlace i d' a b es) /\ (d' < d)%nat /\ lo <= a < b /\ b <= hi.
Proof.
  intros (Hs & Hl & Hk) Hc. apply list_elem_of_lookup_1 in Hc as [j Hj]. destruct (Hk j c Hj) as (d' & a & b & es & Ha & Hb & Hd & Hc).
  exists d', a, b, es. split; [exact Hc|]. split; [exact Hd|].
  assert (Hlb : length (lo :: K ++ [hi]) = S (S (length K))) by (cbn; rewrite length_app; cbn; lia).
  assert (Hlast : (lo :: K ++ [hi]) !! S (length K) = Some hi).
  { change ((K ++ [hi]) !! length K = Some hi). rewrite lookup_app_r by lia. rewrite Nat.sub_diag. reflexivity. }
  destruct (tree.bounds_inside _ j a b lo hi (S (length K)) Hs eq_refl Hlast Hlb Ha Hb). pose proof (Hs j (S j) a b ltac:(lia) Ha Hb). lia.
Qed.

Lemma kids_sorted o i d lo hi K cs : kids o i d lo hi K cs -> internode.sorted K.
Proof.
  intros (Hs & _). assert (H : forall i k, K !! i = Some k -> (lo :: K ++ [hi]) !! S i = Some k).
  { intros j k Hj. change ((K ++ [hi]) !! j = Some k). rewrite lookup_app_l; [exact Hj|eapply lookup_lt_Some, Hj]. }
  intros x y a b Hxy Ha Hb. apply (Hs (S x) (S y)); [lia|apply H, Ha|apply H, Hb].
Qed.

Lemma kids_mono o o' i d lo hi K cs : kids o i d lo hi K cs ->
  (forall c d' a b es, c ∈ cs -> o !! c = Some (mkPlace i d' a b es) -> exists es', o' !! c = Some (mkPlace i d' a b es')) -> kids o' i d lo hi K cs.
Proof.
  intros (Hs & Hl & Hk) H. split; [exact Hs|]. split; [exact Hl|]. intros j c Hc. destruct (Hk j c Hc) as (d' & a & b & es & Ha & Hb & Hd & Ho).
  destruct (H c d' a b es (list_elem_of_lookup_2 _ _ _ Hc) Ho) as [es' Ho']. exists d', a, b, es'. auto.
Qed.

(** ** Finding the root, and the leaf of a key *)

Section Reach.
(** No node of layer [i] is locked. *)
Context (D : nat) (E : gset nat) (G : ghost) (st : store) (tab : table) (i : nat).
Hypothesis Hinv : inv D E None G st tab.
Hypothesis Hrest : forall x pl, own G !! x = Some pl -> pl_layer pl = i -> x ∉ E.

Lemma node_at x pl : own G !! x = Some pl -> pl_layer pl = i -> exists nd, nodes st !! x = Some nd /\ good_node (root_of G) (prev_ st) x pl nd.
Proof.
  intros Hx Hi. destruct (iv_place _ _ _ _ _ _ Hinv x pl Hx) as (_ & _ & _ & _ & _ & Hp). unfold placed in Hp.
  destruct (nodes st !! x) as [nd|] eqn:En; [|destruct Hp]. exists nd. split; [reflexivity|]. eapply iv_good; [exact Hinv|eauto|exact Hx|exact En].
Qed.

Lemma good_stable x pl nd : good_node (root_of G) (prev_ st) x pl nd -> stable_try nv (tree.version nd) = Some (tree.version nd).
Proof.
  intros [H _]. unfold stable_try. destruct nd as [m|n]; cbn [tree.version].
  - destruct H as [_ [-> _]]. reflexivity.
  - destruct H as [[[[-> _] _ _ _ _] _ _ _ _ _] _]. reflexivity.
Qed.

(** From any node of the left edge the root is found. *)
Lemma spine_leads x pl p : own G !! x = Some pl -> pl_layer pl = i -> pl_lo pl = 0 -> root_of G !! pl_layer pl = Some p ->
  exists k, leads nv (nodes st) (parent_ st) k x p /\ (k <= D - pl_height pl)%nat.
Proof.
  remember (D - pl_height pl)%nat as g eqn:Eg. revert x pl Eg. induction g as [g IH] using lt_wf_ind. intros x pl Eg Hx Hi Hlo Hp.
  destruct (node_at x pl Hx Hi) as (nd & Hnd & Hg). pose proof (good_stable x pl nd Hg) as Hst. destruct Hg as [_ Hbit]. specialize (Hbit Hlo).
  destruct (iv_up _ _ _ _ _ _ Hinv x pl Hx I) as [[Hr _]|(Hr & y & m & pl' & Hy & Hm & Hc & Ho & Hl)].
  - exists 0%nat. rewrite bool_decide_true in Hbit by exact Hr. replace p with x by congruence. split; [eapply tree.leads_root; eassumption|lia].
  - rewrite bool_decide_false in Hbit by exact Hr.
    destruct (iv_place _ _ _ _ _ _ Hinv y pl' Ho) as (Hlo' & _ & HD & _ & _ & Hpl). unfold placed in Hpl. rewrite Hm in Hpl. destruct Hpl as (_ & cs & Ecs & _ & Hk).
    assert (Hcs : x ∈ cs) by (rewrite Ecs in Hc; apply list_elem_of_fmap in Hc as (c & [= ->] & Hc); exact Hc).
    destruct (kids_child _ _ _ _ _ _ _ _ Hk Hcs) as (d' & a & b & es & Hx' & Hd & Hab & _). rewrite Hx in Hx'. injection Hx' as ->. cbn in *.
    destruct (IH (D - pl_height pl')%nat ltac:(lia) y pl' eq_refl Ho ltac:(congruence) ltac:(lia) ltac:(congruence)) as (k & Hk' & Hle).
    exists (S k). split; [eapply tree.leads_up; eassumption|lia].
Qed.

Lemma descend_leaf x pl ka fuel nd : own G !! x = Some pl -> pl_layer pl = i -> pl_lo pl <= key.ikey ka < pl_hi pl -> nodes st !! x = Some nd -> (pl_height pl < fuel)%nat ->
  exists q n pl', tree.descend nv binary (nodes st) fuel x (tree.version nd) ka = Some (Some (q, leaf.v_ n)) /\
    nodes st !! q = Some (NLeaf n) /\ own G !! q = Some pl' /\ pl_layer pl' = pl_layer pl /\ pl_lo pl' <= key.ikey ka < pl_hi pl'.
Proof.
  revert x pl nd. induction fuel as [|fuel IH]; intros x pl nd Hx Hi Hk Hnd Hf; [lia|].
  destruct (node_at x pl Hx Hi) as (nd' & Hnd' & Hg). rewrite Hnd in Hnd'. injection Hnd' as <-. cbn [tree.descend].
  destruct nd as [m|n]; cbn [tree.version]; destruct Hg as [Hg _].
  - destruct Hg as [_ (_ & _ & Hleaf)]. rewrite Hleaf, Hnd.
    destruct (iv_place _ _ _ _ _ _ Hinv x pl Hx) as (_ & _ & _ & _ & _ & Hpl). unfold placed in Hpl. rewrite Hnd in Hpl. destruct Hpl as (Hwf & cs & Ecs & _ & Hs & Hl & Hkids).
    assert (Hsk : internode.sorted (internode.keys m)).
    { eapply kids_sorted. repeat split; eassumption. }
    destruct (internode.bound_upper_spec w binary (key.ikey ka) m Hwf Hsk) as (kp & -> & Hkp & Hlo & Hhi). cbn [mbind option_bind].
    assert (Hlk : length (internode.keys m) = internode.nkeys_ m) by (destruct Hwf; unfold internode.keys; rewrite length_take; lia).
    destruct (lookup_lt_is_Some_2 cs kp ltac:(lia)) as [c Hc].
    assert (Hch : internode.child_ m !! kp = Some (Some c)).
    { assert (Ech : internode.children m !! kp = Some (Some c)) by (rewrite Ecs, list_lookup_fmap, Hc; reflexivity).
      unfold internode.children in Ech. rewrite lookup_take_lt in Ech by lia. exact Ech. }
    rewrite Hch. cbn [mbind option_bind]. destruct (Hkids kp c Hc) as (d' & a & b & es & Ha & Hb & Hd & Ho).
    destruct (tree.bounds_around (internode.keys m) (pl_lo pl) (pl_hi pl) (key.ikey ka) kp ltac:(lia) Hk Hlo Hhi) as (a' & b' & Ha' & Hb' & Hab).
    assert (a' = a /\ b' = b) as [-> ->] by (split; congruence).
    destruct (node_at c _ Ho Hi) as (ndc & Hndc & Hgc). rewrite Hndc. cbn [mbind option_bind]. rewrite (good_stable _ _ _ Hgc). cbn [mbind option_bind].
    rewrite tree.not_changed_self. destruct (IH c _ ndc Ho Hi ltac:(cbn; lia) Hndc ltac:(cbn; lia)) as (q & n & pl' & Ed & H). exists q, n, pl'. split; [exact Ed|exact H].
  - destruct Hg as [[[[_ [_ Hleaf]] _ _ _ _] _ _ _ _ _] _]. rewrite Hleaf. exists x, n, pl. auto.
Qed.

(** The leaves of a layer, around the one that is responsible for [k]. *)
Lemma reach_place x pl ka s len fuel : own G !! x = Some pl -> pl_layer pl = i -> pl_lo pl = 0 -> tree.key_at mem ka s len -> (S D < fuel)%nat ->
  exists q n pl', tree.reach_leaf nv binary (nodes st) (parent_ st) fuel x ka = Some (q, n, leaf.v_ n) /\
    nodes st !! q = Some (NLeaf n) /\ own G !! q = Some pl' /\ pl_layer pl' = pl_layer pl /\ pl_lo pl' <= key.ikey ka < pl_hi pl'.
Proof.
  intros Hx Hi Hlo (_ & Hik & _) Hf. destruct (iv_place _ _ _ _ _ _ Hinv x pl Hx) as (_ & _ & _ & _ & [p Hp] & _).
  destruct (iv_root _ _ _ _ _ _ Hinv _ p Hp) as (d & es & Ho). destruct (node_at p _ Ho Hi) as (nd & Hnd & Hg).
  destruct (spine_leads x pl p Hx Hi Hlo Hp) as (k & Hk & Hle).
  assert (Hrange : 0 <= key.ikey ka < 2 ^ 64) by (rewrite Hik; apply tree.slice_of_range).
  destruct (iv_place _ _ _ _ _ _ Hinv p _ Ho) as (_ & _ & Hd & _). cbn in Hd.
  destruct (descend_leaf p _ ka fuel nd Ho Hi Hrange Hnd ltac:(cbn; lia)) as (q & n & pl' & Ed & Hq & Hoq & Hl & Hin). cbn in Hl.
  destruct fuel as [|fuel]; [lia|]. cbn [tree.reach_leaf].
  rewrite (tree.find_root_ok nv (nodes st) (parent_ st) k x p (S fuel) nd Hk Hnd (good_stable _ _ _ Hg) ltac:(lia)). cbn [mbind option_bind].
  rewrite Ed. cbn [mbind option_bind]. rewrite Hq. exists q, n, pl'. auto.
Qed.
End Reach.

(** ** The entries of a layer around a leaf *)

Lemma layer_split D E P G st tab q pl n : inv D E P G st tab -> own G !! q = Some pl -> nodes st !! q = Some (NLeaf n) ->
  exists l1 l2, leaves G !! pl_layer pl = Some (l1 ++ q :: l2) /\ NoDup (l1 ++ q :: l2) /\
    covers (leaf_range (own G) (nodes st) (pl_layer pl)) 0 l1 (pl_lo pl) /\ covers (leaf_range (own G) (nodes st) (pl_layer pl)) (pl_hi pl) l2 (2 ^ 64) /\
    leaflink.seg (links st) None (l1 ++ q :: l2) None.
Proof.
  intros Hi Hq Hn. destruct (iv_place _ _ _ _ _ _ Hi q pl Hq) as (_ & _ & _ & _ & [p Hp] & _).
  destruct (iv_leaves _ _ _ _ _ _ Hi _ p Hp) as (l & Hl & Hc & Hseg & Hall). destruct pl as [i d lo hi es]. cbn [pl_layer pl_lo pl_hi] in *.
  assert (Hr : leaf_range (own G) (nodes st) i q lo hi) by (exists d, es, n; auto).
  destruct (list_elem_of_split _ _ (Hall q lo hi Hr)) as (l1 & l2 & ->). exists l1, l2. split; [exact Hl|]. split; [eapply covers_leaves_NoDup, Hc|].
  apply covers_app in Hc as (a & H1 & b & Hx & _ & H2). destruct (leaf_range_eq _ _ _ _ _ _ _ _ Hr Hx) as [-> ->]. auto.
Qed.

Lemma table_around D E P G st tab r pl es : inv D E P G st tab -> tab !! r = Some es -> own G !! r = Some pl ->
  forall l1 q l2, leaves G !! pl_layer pl = Some (l1 ++ q :: l2) -> es = (l1 ≫= entries (own G)) ++ entries (own G) q ++ (l2 ≫= entries (own G)).
Proof.
  intros Hi Ht Ho l1 q l2 Hl. destruct (iv_table _ _ _ _ _ _ Hi r es Ht) as (pl' & l & Ho' & _ & Hl' & ->). rewrite Ho in Ho'. injection Ho' as <-.
  rewrite Hl in Hl'. injection Hl' as <-. rewrite bind_app. reflexivity.
Qed.

(** The entries of the other leaves have other ikeys. *)
Lemma others_away D E P G st tab i l lo hi : inv D E P G st tab -> covers (leaf_range (own G) (nodes st) i) lo l hi -> (forall x, x ∈ l -> x ∉ E) ->
  Forall (fun e => lo <= e.1.1.1 < hi) (l ≫= entries (own G)).
Proof.
  intros Hi Hc HE. apply Forall_forall. intros e He. apply list_elem_of_bind in He as (x & He & Hx).
  destruct (covers_elem _ _ _ _ _ Hc Hx) as (a & b & (d & es & n & Ho & Hn) & Hab & Hb). unfold entries in He. rewrite Ho in He. cbn in He.
  destruct (iv_good _ _ _ _ _ _ Hi x _ _ (HE x Hx) Ho Hn) as [[_ Hr] _]. cbn in Hr. unfold in_range in Hr. rewrite Forall_forall in Hr. specialize (Hr e He). lia.
Qed.

Lemma entries_len D E P G st tab r es e : inv D E P G st tab -> (forall x, x ∈ E -> Forall (fun e => 0 <= e.1.1.2) (entries (own G) x)) ->
  tab !! r = Some es -> e ∈ es -> 0 <= e.1.1.2.
Proof.
  intros Hi HE Ht He. destruct (iv_table _ _ _ _ _ _ Hi r es Ht) as (pl & l & Ho & _ & Hl & ->). apply list_elem_of_bind in He as (x & He & Hx).
  destruct (iv_place _ _ _ _ _ _ Hi r pl Ho) as (_ & _ & _ & _ & [p Hp] & _). destruct (iv_leaves _ _ _ _ _ _ Hi _ p Hp) as (l' & Hl' & Hc & _).
  rewrite Hl in Hl'. injection Hl' as <-. destruct (covers_elem _ _ _ _ _ Hc Hx) as (a & b & (d & es & n & Hox & Hn) & _).
  destruct (decide (x ∈ E)) as [Hin|Hout]; [specialize (HE x Hin); rewrite Forall_forall in HE; exact (HE e He)|]. unfold entries in He. rewrite Hox in He. cbn in He.
  destruct (iv_good _ _ _ _ _ _ Hi x _ _ Hout Hox Hn) as [[[[_ _ _ Hlen _] _ _ _ _ _] _] _]. cbn in Hlen. rewrite Forall_forall in Hlen. exact (Hlen e He).
Qed.

(** ** Writes *)

Lemma inv_mono D D' E E' P G st tab : inv D E P G st tab -> (D <= D')%nat -> E ⊆ E' -> inv D' E' P G st tab.
Proof.
  intros [H1 H2 H3 H4 H5 H6 H7 H8] HD HE. split; try assumption.
  - intros x pl Hx. destruct (H1 x pl Hx) as (Ha & Hb & Hc & Hd). split; [exact Ha|]. split; [exact Hb|]. split; [lia|exact Hd].
  - intros x pl nd Hx. apply H8. set_solver.
Qed.

Definition same_shape (nd nd' : node) : Prop :=
  match nd, nd' with
  | NLeaf _, NLeaf _ => True
  | NInternode m, NInternode m' => internode.wf w m' /\ internode.keys m' = internode.keys m /\ internode.children m' = internode.children m
  | _, _ => False
  end.

Lemma leaf_range_put h x nd nd' o i y a b : h !! x = Some nd -> same_shape nd nd' -> leaf_range o (<[x := nd']> h) i y a b <-> leaf_range o h i y a b.
Proof.
  intros Hx Hs. unfold leaf_range. destruct (decide (x = y)) as [->|Hne]; [|setoid_rewrite lookup_insert_ne; [reflexivity|exact Hne]].
  setoid_rewrite lookup_insert_eq. rewrite Hx. destruct nd, nd'; cbn in Hs; try destruct Hs; split; intros (d & es & n' & Ho & E); try discriminate; exists d, es; eauto.
Qed.

(** A node is overwritten by one with the same keys and children. *)
Lemma inv_node D E P G st tab x nd nd' : inv D E P G st tab -> nodes st !! x = Some nd -> same_shape nd nd' ->
  inv D (E ∪ {[x]}) P G (put_node x nd' st) tab.
Proof.
  intros [H1 H2 H3 H4 H5 H6 H7 H8] Hx Hs. split; try assumption; cbn [nodes parent_ links put_node].
  - intros y pl Hy. destruct (H1 y pl Hy) as (Ha & Hb & Hc & Hd & He & Hf). repeat (split; [assumption|]). unfold placed in *.
    destruct (decide (x = y)) as [->|Hne]; [|rewrite lookup_insert_ne by exact Hne; exact Hf]. rewrite lookup_insert_eq. rewrite Hx in Hf.
    destruct nd as [m|n], nd' as [m'|n']; cbn in Hs; try contradiction; [|exact I]. destruct Hs as (Hw & -> & ->). destruct Hf as [_ Hf]. auto.
  - intros y pl Hy Ha. destruct (H2 y pl Hy Ha) as [Hr|(Hr & z & m & pl' & Hz & Hm & Hc & Ho & Hl)]; [left; exact Hr|right]. split; [exact Hr|].
    destruct (decide (x = z)) as [->|Hne]; [|exists z, m, pl'; cbn; rewrite lookup_insert_ne by exact Hne; auto].
    rewrite Hx in Hm. injection Hm as ->. destruct nd' as [m'|n']; cbn in Hs; [|contradiction]. destruct Hs as (_ & _ & Ec).
    exists z, m', pl'. cbn. rewrite lookup_insert_eq, Ec. auto.
  - intros i p Hp. destruct (H5 i p Hp) as (l & Hl & Hc & Hseg & Hall). exists l. split; [exact Hl|]. split; [|split; [exact Hseg|]].
    + eapply covers_impl; [|exact Hc]. intros y a b _ Hr. eapply leaf_range_put; eassumption.
    + intros y a b Hr. eapply Hall, leaf_range_put; eassumption.
  - intros y pl ndy Hy Ho Hn. apply (H8 y pl ndy); [set_solver|exact Ho|]. rewrite lookup_insert_ne in Hn by set_solver. exact Hn.
Qed.

(** A node has come to rest. *)
Lemma inv_rest D E P G st tab x : inv D E P G st tab ->
  (forall pl nd, own G !! x = Some pl -> nodes st !! x = Some nd -> good_node (root_of G) (prev_ st) x pl nd) -> inv D (E ∖ {[x]}) P G st tab.
Proof.
  intros [H1 H2 H3 H4 H5 H6 H7 H8] Hg. split; try assumption. intros y pl nd Hy Ho Hn. destruct (decide (y = x)) as [->|Hne]; [auto|].
  apply H8; [set_solver|assumption..].
Qed.

(** ** New entries for a leaf *)

Definition set_entries (q : nat) (pl : place) (es : list entry) (G : ghost) : ghost :=
  mkGhost (<[q := mkPlace (pl_layer pl) (pl_height pl) (pl_lo pl) (pl_hi pl) es]> (own G)) (root_of G) (leaves G).

Lemma kids_with_mono P o o' i d lo hi K cs : kids_with P o i d lo hi K cs ->
  (forall c d' a b es, o !! c = Some (mkPlace i d' a b es) -> exists es', o' !! c = Some (mkPlace i d' a b es')) -> kids_with P o' i d lo hi K cs.
Proof.
  intros H Hm. destruct P as [[[n c] k]|]; cbn in *.
  - destruct H as [(j & Hj & H)|[Hn H]]; [left; exists j; split; [exact Hj|]|right; split; [exact Hn|]]; (eapply kids_mono; [exact H|eauto]).
  - eapply kids_mono; [exact H|eauto].
Qed.

Lemma entries_other o q pl x : x <> q -> entries (<[q := pl]> o) x = entries o x.
Proof. intros H. unfold entries. rewrite lookup_insert_ne by congruence. reflexivity. Qed.
Lemma entries_away o q pl l : q ∉ l -> l ≫= entries (<[q := pl]> o) = l ≫= entries o.
Proof.
  induction l as [|x l IH]; intros H; [reflexivity|]. cbn. apply not_elem_of_cons in H as [Hx Hl]. rewrite entries_other by congruence. f_equal. apply IH, Hl.
Qed.

Lemma leaf_range_same o o' h i x a b : (forall c pl, o !! c = Some pl -> exists es', o' !! c = Some (mkPlace (pl_layer pl) (pl_height pl) (pl_lo pl) (pl_hi pl) es')) ->
  leaf_range o h i x a b -> leaf_range o' h i x a b.
Proof. intros H (d & es & n & Ho & Hn). destruct (H x _ Ho) as [es' Ho']. exists d, es', n. auto. Qed.

Lemma set_entries_same q pl es G : own G !! q = Some pl -> let o := own G in let o' := own (set_entries q pl es G) in
  (forall c p, o !! c = Some p -> exists es', o' !! c = Some (mkPlace (pl_layer p) (pl_height p) (pl_lo p) (pl_hi p) es')) /\
  (forall c p, o' !! c = Some p -> exists es', o !! c = Some (mkPlace (pl_layer p) (pl_height p) (pl_lo p) (pl_hi p) es')).
Proof.
  intros Hq o o'. unfold o'. cbn [own set_entries]. split; intros c p Hc; (destruct (decide (q = c)) as [<-|Hne];
    [rewrite ?lookup_insert_eq in *|rewrite ?lookup_insert_ne in * by exact Hne]).
  - unfold o in Hc. rewrite Hq in Hc. injection Hc as <-. eauto.
  - exists (pl_entries p). destruct p. exact Hc.
  - injection Hc as <-. cbn. exists (pl_entries pl). destruct pl. exact Hq.
  - exists (pl_entries p). destruct p. exact Hc.
Qed.

Lemma inv_entries D E P G st tab q pl n es' r plr l1 l2 : inv D E P G st tab -> q ∈ E -> own G !! q = Some pl -> nodes st !! q = Some (NLeaf n) ->
  is_Some (tab !! r) -> own G !! r = Some plr -> pl_layer plr = pl_layer pl -> leaves G !! pl_layer pl = Some (l1 ++ q :: l2) ->
  inv D E P (set_entries q pl es' G) st (<[r := (l1 ≫= entries (own G)) ++ es' ++ (l2 ≫= entries (own G))]> tab).
Proof.
  intros Hi HqE Hq Hn Hr Hor Elay Hl. pose proof Hi as [H1 H2 H3 H4 H5 H6 H7 H8]. destruct (set_entries_same q pl es' G Hq) as [Hf Hb]. set (G' := set_entries q pl es' G) in *.
  destruct (layer_split _ _ _ _ _ _ _ _ _ Hi Hq Hn) as (l1' & l2' & Hl' & Hnd & _). rewrite Hl in Hl'. injection Hl' as El'. rewrite <- El' in Hnd. clear El' l1' l2'.
  assert (Hq1 : q ∉ l1 /\ q ∉ l2) by (apply NoDup_app in Hnd as (_ & Hd & Hnd); apply NoDup_cons in Hnd as [Hnd _]; split; [intros H; apply (Hd q H); left|exact Hnd]).
  split; try assumption.
  - intros x px Hx. destruct (Hb x px Hx) as [es0 Hx0]. destruct (H1 x _ Hx0) as (Ha & Hb' & Hc & Hd & He & Hp). cbn in *. repeat (split; [assumption|]).
    unfold placed in *. destruct (nodes st !! x) as [[m|m]|]; try assumption. destruct Hp as (Hw & cs & Ecs & Hps & Hk). split; [exact Hw|]. exists cs. split; [exact Ecs|]. split; [exact Hps|].
    eapply kids_with_mono; [exact Hk|]. intros c d' a b es Hc'. exact (Hf c _ Hc').
  - intros x px Hx Ha. destruct (Hb x px Hx) as [es0 Hx0]. destruct (H2 x _ Hx0 Ha) as [Hroot|(Hroot & y & m & pl' & Hy & Hm & Hc & Ho & Elay')]; [left; exact Hroot|right].
    split; [exact Hroot|]. destruct (Hf y pl' Ho) as [es1 Ho1]. exists y, m. eexists. repeat (split; [eassumption|]). exact Elay'.
  - intros i p Hp. specialize (H3 i p Hp). unfold root_place in *. destruct P as [[[a b] k]|].
    + destruct (decide (p = a)) as [->|]; [destruct H3 as (d & e1 & e2 & Ha & Hb0)|destruct H3 as (d & e1 & Ha)].
      * destruct (Hf _ _ Ha) as [e1' Ha'], (Hf _ _ Hb0) as [e2' Hb']. exists d, e1', e2'. auto.
      * destruct (Hf _ _ Ha) as [e1' Ha']. exists d, e1'. exact Ha'.
    + destruct H3 as (d & e1 & Ha). destruct (Hf _ _ Ha) as [e1' Ha']. exists d, e1'. exact Ha'.
  - intros a b k Hk. destruct (H4 a b k Hk) as (i & d & lo & hi & e1 & e2 & Ha & Hb0 & Hp0). destruct (Hf _ _ Ha) as [e1' Ha'], (Hf _ _ Hb0) as [e2' Hb']. exists i, d, lo, hi, e1', e2'. auto.
  - intros i p Hp. destruct (H5 i p Hp) as (l & Hl0 & Hc & Hseg & Hall). exists l. split; [exact Hl0|]. split; [|split; [exact Hseg|]].
    + eapply covers_impl; [|exact Hc]. intros x a b _. apply leaf_range_same, Hf.
    + intros x a b Hx. apply (Hall x a b). revert Hx. apply leaf_range_same, Hb.
  - intros r' es Hr'. apply lookup_insert_Some in Hr' as [[<- <-]|[Hne Hr']].
    + destruct (Hf r plr Hor) as [e Hor']. exists (mkPlace (pl_layer plr) (pl_height plr) (pl_lo plr) (pl_hi plr) e), (l1 ++ q :: l2).
      destruct Hr as [es0 Hr]. destruct (H6 r es0 Hr) as (plr' & l & Hor2 & Hlo & _ & _). rewrite Hor in Hor2. injection Hor2 as <-.
      split; [exact Hor'|]. split; [exact Hlo|]. cbn. split; [congruence|]. rewrite bind_app, bind_cons. cbn [own set_entries]. rewrite !entries_away by tauto. do 2 f_equal. unfold entries. rewrite lookup_insert_eq. reflexivity.
    + destruct (H6 r' es Hr') as (pl' & l & Ho' & Hlo & Hl' & ->). destruct (Hf r' pl' Ho') as [e Ho2]. eexists _, l. split; [exact Ho2|]. split; [exact Hlo|]. split; [exact Hl'|]. cbn.
      symmetry. apply entries_away. intros Hin. destruct (H1 r' pl' Ho') as (_ & _ & _ & _ & [p Hp] & _). destruct (H5 _ p Hp) as (l' & El' & Hc & _).
      rewrite Hl' in El'. injection El' as <-. destruct (covers_elem _ _ _ _ _ Hc Hin) as (a & b & (d & es0 & n0 & Hq0 & _) & _). rewrite Hq in Hq0. injection Hq0 as ->. cbn in *.
      apply Hne. apply (H7 r r' plr pl'); eauto.
  - intros r1 r2 p1 p2 Hr1 Hr2 Ho1 Ho2 E12. destruct (Hb _ _ Ho1) as [e1 Ho1'], (Hb _ _ Ho2) as [e2 Ho2'].
    assert (Hin : forall x, is_Some (<[r:=(l1 ≫= entries (own G)) ++ es' ++ (l2 ≫= entries (own G))]> tab !! x) -> is_Some (tab !! x)).
    { intros x Hx. destruct (decide (r = x)) as [<-|Hne]; [exact Hr|]. rewrite lookup_insert_ne in Hx by exact Hne. exact Hx. }
    eapply H7; eauto.
  - intros x px nd Hx Ho Hnd'. unfold G' in Ho. cbn [own set_entries] in Ho. rewrite lookup_insert_ne in Ho by set_solver. exact (H8 x px nd Hx Ho Hnd').
Qed.

(** ** A new layer of one leaf *)

Lemma good_node_ext roots roots' prevs prevs' x pl nd : good_node roots prevs x pl nd -> roots' !! pl_layer pl = roots !! pl_layer pl ->
  (x ∈ prevs' -> x ∈ prevs) -> good_node roots' prevs' x pl nd.
Proof.
  intros [H Hb] Er Hp. split; [|rewrite Er; exact Hb]. destruct nd as [m|n]; [exact H|]. destruct H as [[H1 H2 H3 H4 (l & f & H5 & H6) H7] Hr]. split; [|exact Hr].
  split; try assumption; [exists l, f; auto|auto].
Qed.

Lemma own_node D E P G st tab x pl : inv D E P G st tab -> own G !! x = Some pl -> is_Some (nodes st !! x).
Proof.
  intros Hi Hx. destruct (iv_place _ _ _ _ _ _ Hi x pl Hx) as (_ & _ & _ & _ & _ & Hp). unfold placed in Hp. destruct (nodes st !! x); [eauto|destruct Hp].
Qed.
Lemma own_fresh D E P G st tab q : inv D E P G st tab -> nodes st !! q = None -> own G !! q = None.
Proof. intros Hi Hq. destruct (own G !! q) as [pl|] eqn:Eq; [|reflexivity]. destruct (own_node _ _ _ _ _ _ _ _ Hi Eq). congruence. Qed.

Definition fresh_layer (G : ghost) : nat := fresh (dom (root_of G) : gset nat).
#[local] Arguments fresh_layer : simpl never.
Definition add_layer (q : nat) (es : list entry) (G : ghost) : ghost :=
  let i := fresh_layer G in
  mkGhost (<[q := mkPlace i 0 0 (2 ^ 64) es]> (own G)) (<[i := q]> (root_of G)) (<[i := [q]]> (leaves G)).

Lemma inv_add D E G st tab q nl es : inv D E None G st tab -> nodes st !! q = None ->
  inv D (E ∪ {[q]}) None (add_layer q es G) (add_leaf q nl st) (<[q := es]> tab).
Proof.
  intros Hi Hq. pose proof (own_fresh _ _ _ _ _ _ _ Hi Hq) as Hoq. pose proof Hi as [H1 H2 H3 H4 H5 H6 H7 H8]. set (i := fresh_layer G).
  assert (Hri : root_of G !! i = None) by (apply not_elem_of_dom; exact (is_fresh (dom (root_of G) : gset nat))).
  assert (Hlay : forall x pl, own G !! x = Some pl -> x <> q /\ pl_layer pl <> i).
  { intros x pl Hx. split; [congruence|]. intros E0. destruct (H1 x pl Hx) as (_ & _ & _ & _ & [p Hp] & _). congruence. }
  assert (Hrange : forall j x a b, leaf_range (own G) (nodes st) j x a b -> leaf_range (own (add_layer q es G)) (nodes (add_leaf q nl st)) j x a b).
  { intros j x a b (d & e & n & Ho & Hn). destruct (Hlay x _ Ho) as [Hx _]. exists d, e, n. cbn. rewrite !lookup_insert_ne by congruence. auto. }
  assert (Hrange' : forall j x a b, leaf_range (own (add_layer q es G)) (nodes (add_leaf q nl st)) j x a b ->
    (x = q /\ j = i) \/ leaf_range (own G) (nodes st) j x a b).
  { intros j x a b (d & e & n & Ho & Hn). cbn in Ho, Hn. destruct (decide (q = x)) as [<-|Hne].
    - rewrite lookup_insert_eq in Ho. injection Ho as <- _ _ _ _. left. auto.
    - rewrite lookup_insert_ne in Ho by exact Hne. rewrite lookup_insert_ne in Hn by exact Hne. right. exists d, e, n. auto. }
  split.
  - intros x pl Hx. cbn [own add_layer root_of] in *. destruct (decide (q = x)) as [<-|Hne].
    + rewrite lookup_insert_eq in Hx. injection Hx as <-. cbn. split; [lia|]. split; [lia|]. split; [lia|]. rewrite lookup_insert_eq. split; [eauto|].
      fold i. rewrite lookup_insert_eq. split; [eauto|]. unfold placed. cbn. rewrite lookup_insert_eq. exact I.
    + rewrite lookup_insert_ne in Hx by exact Hne. destruct (H1 x pl Hx) as (Ha & Hb & Hc & Hd & He & Hf). destruct (Hlay x pl Hx) as [_ Hli]. fold i.
      cbn. rewrite !lookup_insert_ne by congruence. repeat (split; [assumption|]). unfold placed in *. rewrite lookup_insert_ne by exact Hne.
      destruct (nodes st !! x) as [[m|m]|]; try assumption. destruct Hf as (Hw & cs & Ecs & Hps & Hk). split; [exact Hw|]. exists cs. split; [exact Ecs|].
      assert (Hcq : forall c, c ∈ cs -> c <> q) by (intros c Hc0; destruct (kids_child _ _ _ _ _ _ _ _ Hk Hc0) as (? & ? & ? & ? & Hoc & _); congruence).
      split; [intros c Hc0; rewrite lookup_insert_ne by (intros <-; apply (Hcq q Hc0 eq_refl)); apply Hps, Hc0|].
      eapply kids_mono; [exact Hk|]. intros c d' a b e Hc0 Hoc. exists e. rewrite lookup_insert_ne by (intros <-; apply (Hcq q Hc0 eq_refl)). exact Hoc.
  - intros x pl Hx Ha. cbn [own add_layer] in Hx. unfold has_parent. cbn. fold i. destruct (decide (q = x)) as [<-|Hne].
    + rewrite lookup_insert_eq in Hx. injection Hx as <-. cbn. rewrite !lookup_insert_eq. left. auto.
    + rewrite lookup_insert_ne in Hx by exact Hne. destruct (Hlay x pl Hx) as [_ Hli]. rewrite !lookup_insert_ne by congruence.
      destruct (H2 x pl Hx Ha) as [Hr|(Hr & y & m & pl' & Hy & Hm & Hc & Ho & El)]; [left; exact Hr|right]. split; [exact Hr|]. exists y, m, pl'.
      rewrite !lookup_insert_ne by (intros <-; congruence). auto.
  - intros j p Hp. cbn in *. fold i in Hp. apply lookup_insert_Some in Hp as [[<- <-]|[Hne Hp]].
    + exists 0%nat, es. rewrite lookup_insert_eq. reflexivity.
    + destruct (H3 j p Hp) as (d & e & Ho). exists d, e. destruct (Hlay p _ Ho). rewrite lookup_insert_ne by congruence. exact Ho.
  - discriminate.
  - intros j p Hp. cbn [root_of leaves add_layer] in *. fold i in Hp |- *. apply lookup_insert_Some in Hp as [[<- <-]|[Hne Hp]].
    + exists [q]. rewrite lookup_insert_eq. split; [reflexivity|]. split; [|split].
      * exists (2 ^ 64). split; [|split; [lia|reflexivity]]. exists 0%nat, es, nl. cbn. rewrite !lookup_insert_eq. auto.
      * cbn. rewrite lookup_insert_eq. auto.
      * intros x a b Hx. apply Hrange' in Hx as [[-> _]|(d & e & n & Ho & _)]; [left|]. destruct (Hlay x _ Ho) as [_ []]. reflexivity.
    + destruct (H5 j p Hp) as (l & Hl & Hc & Hseg & Hall). exists l. rewrite lookup_insert_ne by exact Hne. split; [exact Hl|]. split; [|split].
      * eapply covers_impl; [|exact Hc]. intros x a b _. apply Hrange.
      * cbn. apply leaflink.seg_insert; [|exact Hseg]. intros Hin. destruct (covers_elem _ _ _ _ _ Hc Hin) as (a & b & (d & e & n & Ho & _) & _). congruence.
      * intros x a b Hx. apply Hrange' in Hx as [[_ ->]|Hx]; [congruence|]. eapply Hall, Hx.
  - intros r e Hr. cbn [own leaves add_layer]. fold i. apply lookup_insert_Some in Hr as [[<- <-]|[Hne Hr]].
    + exists (mkPlace i 0 0 (2 ^ 64) es), [q]. rewrite !lookup_insert_eq. repeat (split; [reflexivity|]). cbn. unfold entries. rewrite lookup_insert_eq. cbn. rewrite app_nil_r. reflexivity.
    + destruct (H6 r e Hr) as (pl & l & Ho & Hlo & Hl & ->). destruct (Hlay r pl Ho) as [_ Hli]. exists pl, l. rewrite !lookup_insert_ne by congruence.
      repeat (split; [assumption|]). symmetry. apply entries_away. intros Hin. destruct (H1 r pl Ho) as (_ & _ & _ & _ & [p Hp] & _). destruct (H5 _ p Hp) as (l' & El & Hc & _).
      rewrite Hl in El. injection El as <-. destruct (covers_elem _ _ _ _ _ Hc Hin) as (a & b & (d & e0 & n & Hox & _) & _). congruence.
  - assert (Htq : forall r, is_Some (<[q := es]> tab !! r) -> r <> q -> is_Some (tab !! r)) by (intros r Hr Hne; rewrite lookup_insert_ne in Hr by congruence; exact Hr).
    intros r r' pl pl' Hr Hr' Ho Ho' El. cbn in Ho, Ho'. fold i in Ho, Ho'.
    destruct (decide (r = q)) as [->|Hne], (decide (r' = q)) as [->|Hne']; [reflexivity| | |].
    + rewrite lookup_insert_eq in Ho. rewrite lookup_insert_ne in Ho' by congruence. injection Ho as <-. destruct (Hlay r' pl' Ho') as [_ []]. exact (eq_sym El).
    + rewrite lookup_insert_eq in Ho'. rewrite lookup_insert_ne in Ho by congruence. injection Ho' as <-. destruct (Hlay r pl Ho) as [_ []]. exact El.
    + rewrite lookup_insert_ne in Ho, Ho' by congruence. eapply H7; eauto.
  - intros x pl nd Hx Ho Hn. cbn in Ho, Hn |- *. rewrite lookup_insert_ne in Ho by set_solver. rewrite lookup_insert_ne in Hn by set_solver. destruct (Hlay x pl Ho) as [Hxq Hli].
    eapply good_node_ext; [apply (H8 x pl nd); [set_solver|exact Ho|exact Hn]|rewrite lookup_insert_ne by (unfold i in *; congruence); reflexivity|].
    rewrite !prev_elem. cbn. rewrite lookup_insert_ne by congruence. auto.
Qed.

(** ** Another address for a layer *)

Lemma inv_rename D E P G st tab r1 p1 pl1 plp es1 : inv D E P G st tab -> tab !! r1 = Some es1 -> own G !! r1 = Some pl1 -> own G !! p1 = Some plp ->
  pl_layer plp = pl_layer pl1 -> pl_lo plp = 0 -> tab !! p1 = None -> inv D E P G st (<[p1 := es1]> (delete r1 tab)).
Proof.
  intros [H1 H2 H3 H4 H5 H6 H7 H8] Hr1 Ho1 Hop El Hlo Hp1. split; try assumption.
  - intros r es Hr. apply lookup_insert_Some in Hr as [[<- <-]|[Hne Hr]].
    + destruct (H6 r1 es1 Hr1) as (pl & l & Ho & _ & Hl & ->). exists plp, l. rewrite Ho1 in Ho. injection Ho as <-. rewrite El. auto.
    + apply lookup_delete_Some in Hr as [_ Hr]. exact (H6 r es Hr).
  - assert (Hin : forall r, is_Some (<[p1 := es1]> (delete r1 tab) !! r) -> r = p1 \/ (r <> r1 /\ is_Some (tab !! r))).
    { intros r [es Hr]. apply lookup_insert_Some in Hr as [[<- _]|[_ Hr]]; [auto|]. apply lookup_delete_Some in Hr as [Hne Hr]. eauto. }
    intros r r' pl pl' Hr Hr' Ho Ho' E0. destruct (Hin r Hr) as [->|[Hn Hs]], (Hin r' Hr') as [->|[Hn' Hs']]; [reflexivity| | |eapply H7; eauto].
    + exfalso. apply Hn'. apply (H7 r' r1 pl' pl1); eauto. congruence.
    + exfalso. apply Hn. apply (H7 r r1 pl pl1); eauto. congruence.
Qed.

(** ** Lookups *)

(** [top] is the table's name for the first layer, which root_ is a node of. *)
Definition at_top (top : nat) (G : ghost) (st : store) : Prop :=
  exists pl pl0, own G !! root_ st = Some pl /\ pl_lo pl = 0 /\ own G !! top = Some pl0 /\ pl_layer pl = pl_layer pl0.
Definition store_ok (top D : nat) (st : store) (tab : table) : Prop := (exists G, inv D ∅ None G st tab /\ at_top top G st) /\ paths.table_ok tab top.

Lemma inv_reaches D G st tab r es x pl plr : inv D ∅ None G st tab -> tab !! r = Some es -> own G !! r = Some plr ->
  own G !! x = Some pl -> pl_lo pl = 0 -> pl_layer pl = pl_layer plr -> tree.reaches width nv binary mem (nodes st) (parent_ st) D x es.
Proof.
  intros Hi Ht Hr Hx Hlo El ka s len fuel Hka Hf.
  destruct (reach_place D ∅ G st tab (pl_layer pl) Hi ltac:(set_solver) x pl ka s len fuel Hx eq_refl Hlo Hka Hf) as (q & n & plq & Er & Hq & Hoq & Elq & Hin).
  exists q, n, (pl_entries plq). split; [exact Er|]. destruct (iv_good _ _ _ _ _ _ Hi q plq _ ltac:(set_solver) Hoq Hq) as [[[Hok _ _ _ _ _] _] _]. split; [exact Hok|].
  destruct (layer_split _ _ _ _ _ _ _ _ _ Hi Hoq Hq) as (l1 & l2 & Hl & _ & Hc1 & Hc2 & _). rewrite Elq, El in Hl, Hc1, Hc2.
  rewrite (table_around _ _ _ _ _ _ _ _ _ Hi Ht Hr l1 q l2 Hl).
  assert (Eq : entries (own G) q = pl_entries plq) by (unfold entries; rewrite Hoq; reflexivity). rewrite Eq.
  pose proof (others_away _ _ _ _ _ _ _ _ _ _ Hi Hc1 ltac:(set_solver)) as H1. pose proof (others_away _ _ _ _ _ _ _ _ _ _ Hi Hc2 ltac:(set_solver)) as H2. rewrite Forall_forall in H1, H2.
  intros e He. rewrite !elem_of_app. split; [intros [Hx'|[Hx'|Hx']]; [specialize (H1 e Hx')|exact Hx'|specialize (H2 e Hx')]|auto]; lia.
Qed.

Lemma store_lookup top D st tab ka s len fuel : store_ok top D st tab -> tree.key_at mem ka s len -> (S D + Z.to_nat len < fuel)%nat ->
  exists r, tree.find_unlocked nv binary mem (nodes st) (parent_ st) fuel (root_ st) ka = Some r /\
    forall v, r = Some v <-> tree.maps tab top (bytes mem s (Z.to_nat len)) v.
Proof.
  intros [(G & Hi & (pl & pl0 & Hx & Hlo & Htop & El)) Ht] Hka Hf. destruct (paths.to_top _ _ Ht) as [es Hes].
  assert (Hall : forall r es', tab !! r = Some es' -> tree.reaches width nv binary mem (nodes st) (parent_ st) D r es' /\ tree.refs_in tab es').
  { intros r es' Hr. destruct (iv_table _ _ _ _ _ _ Hi r es' Hr) as (plr & l & Hor & Hlo' & _). split; [eapply inv_reaches; eauto|].
    apply Forall_forall. intros e He H9. destruct (paths.to_refs _ _ Ht r es' e Hr He H9) as (H127 & Hs & _). auto. }
  apply (tree.find_unlocked_ok width nv binary mem (nodes st) (parent_ st) Hwidth D tab Hall fuel top (root_ st) es); try assumption. eapply inv_reaches; eassumption.
Qed.

End Store.
End treestore.
