(* ===== verification/HeldLeaf.v ===== *)
(** * A locked leaf

    What a cursor does to the leaf it has locked: it writes a value, puts a new key in
    the last free slot, makes that visible, removes a key; and what makes the leaf
    one of a well-formed tree again when it is unlocked. *)

From S2P Require Import Prelude KPermuter NodeVersion KSearch StringSlice MtKey LeafLink Internode Leaf Tree Layer Paths Cursor TreeStore.

Open Scope Z_scope.

Module heldleaf.

Import leaf (entry, entry_of, entry_at, contents, rep, slot_at).
Import tree (NLeaf, NInternode, leaf_ok, erank, rlt).
Import layer (with_lv, set_lv).
Import cursor.
Import treestore (good_leaf).

(** ** Sorted entries *)

Definition rsorted (es : list entry) : Prop :=
  forall i j a b, (i < j)%nat -> es !! i = Some a -> es !! j = Some b -> rlt (erank a) (erank b).

Lemma rsorted_ins es (ki : nat) e : rsorted es -> (ki <= length es)%nat ->
  (forall i a, (i < ki)%nat -> es !! i = Some a -> rlt (erank a) (erank e)) ->
  (forall i a, (ki <= i)%nat -> es !! i = Some a -> rlt (erank e) (erank a)) -> rsorted (internode.ins ki e es).
Proof.
  intros Hs Hk Hb Ha i j a b Hij Hi Hj. rewrite internode.lookup_ins in Hi, Hj by lia.
  destruct (decide (i < ki)%nat), (decide (j < ki)%nat); try lia.
  - exact (Hs i j a b Hij Hi Hj).
  - destruct (decide (j = ki)); [injection Hj as <-; eauto|]. apply (Hs i (j - 1)%nat a b); [lia|exact Hi|exact Hj].
  - destruct (decide (j = ki)); [lia|]. destruct (decide (i = ki)).
    + injection Hi as <-. apply (Ha (j - 1)%nat); [lia|exact Hj].
    + apply (Hs (i - 1)%nat (j - 1)%nat a b); [lia|exact Hi|exact Hj].
Qed.

Lemma rsorted_update es i e e' : rsorted es -> es !! i = Some e -> erank e' = erank e -> rsorted (<[i := e']> es).
Proof.
  intros Hs Hi Er x y a b Hxy Hx Hy. pose proof (lookup_lt_Some _ _ _ Hi) as Hlt.
  rewrite lookup_insert_if in Hx, Hy by exact Hlt.
  destruct (decide (x = i)) as [->|], (decide (y = i)) as [->|]; try lia.
  - injection Hx as <-. rewrite Er. exact (Hs i y e b Hxy Hi Hy).
  - injection Hy as <-. rewrite Er. exact (Hs x i a e Hxy Hx Hi).
  - exact (Hs x y a b Hxy Hx Hy).
Qed.

Lemma rsorted_delete es i : rsorted es -> rsorted (delete i es).
Proof.
  intros Hs x y a b Hxy Hx Hy.
  assert (H : forall z c, delete i es !! z = Some c -> es !! (if decide (z < i)%nat then z else S z) = Some c).
  { intros z c Hz. destruct (decide (z < i)%nat); [rewrite list_lookup_delete_lt in Hz by lia|rewrite list_lookup_delete_ge in Hz by lia]; exact Hz. }
  refine (Hs _ _ a b _ (H x a Hx) (H y b Hy)). destruct (decide (x < i)%nat), (decide (y < i)%nat); lia.
Qed.

(** Entries of sorted leaves with equal rank are equal. *)
Lemma rsorted_unique es i j a b : rsorted es -> es !! i = Some a -> es !! j = Some b -> erank a = erank b -> i = j.
Proof.
  intros Hs Ha Hb E. destruct (Nat.lt_trichotomy i j) as [Hlt|[?|Hlt]]; [|assumption|].
  - destruct (tree.rlt_irrefl (erank b)). rewrite <- E at 1. exact (Hs i j a b Hlt Ha Hb).
  - destruct (tree.rlt_irrefl (erank a)). rewrite E at 1. exact (Hs j i b a Hlt Hb Ha).
Qed.

Lemma elem_ins es ki (e x : entry) : x ∈ internode.ins ki e es <-> x = e \/ x ∈ es.
Proof.
  unfold internode.ins. rewrite <- (take_drop ki es) at 3. rewrite !elem_of_app, elem_of_cons. tauto.
Qed.
Lemma elem_update es i (e e' x : entry) : rsorted es -> es !! i = Some e ->
  x ∈ <[i := e']> es <-> x = e' \/ (x ∈ es /\ erank x <> erank e).
Proof.
  intros Hs Hi. pose proof (lookup_lt_Some _ _ _ Hi) as Hlt. split.
  - intros Hx. apply list_elem_of_lookup_1 in Hx as [j Hj]. rewrite lookup_insert_if in Hj by exact Hlt.
    destruct (decide (j = i)) as [->|Hne]; [left; congruence|]. right. split; [eapply list_elem_of_lookup_2, Hj|].
    intros E. apply Hne. eapply rsorted_unique; eassumption.
  - intros [->|[Hx Hne]]; [eapply list_elem_of_lookup_2, list_lookup_insert_eq, Hlt|].
    apply list_elem_of_lookup_1 in Hx as [j Hj]. eapply (list_elem_of_lookup_2 _ j). rewrite lookup_insert_if by exact Hlt.
    destruct (decide (j = i)) as [->|]; [congruence|exact Hj].
Qed.
Lemma elem_delete es i (e x : entry) : rsorted es -> es !! i = Some e -> x ∈ delete i es <-> x ∈ es /\ erank x <> erank e.
Proof.
  intros Hs Hi. rewrite delete_take_drop. rewrite <- (take_drop_middle es i e Hi) at 3. rewrite !elem_of_app, elem_of_cons. split.
  - intros Hx. split; [tauto|]. intros E. destruct Hx as [Hx|Hx]; apply list_elem_of_lookup_1 in Hx as [j Hj].
    + pose proof (lookup_lt_Some _ _ _ Hj) as Hlt. rewrite length_take in Hlt. rewrite lookup_take_lt in Hj by lia.
      pose proof (rsorted_unique es j i x e Hs Hj Hi E). lia.
    + rewrite lookup_drop in Hj. pose proof (rsorted_unique es _ i x e Hs Hj Hi E). lia.
  - intros [[Hx|[->|Hx]] Hne]; tauto.
Qed.

Section Held.
Context (width : Z) (nv : nodeversion_parameters) (mem : memory).
Context `{L : !NvLayout nv} (Hwidth : 3 <= width <= 15).

Lemma set_lv_ok n l f kp x : rep width n l f -> 0 <= kp < width ->
  exists n', set_lv n kp x = Some n' /\ leaf.v_ n' = leaf.v_ n /\ leaf.nremoved_ n' = leaf.nremoved_ n /\
    leaf.permutation_ n' = leaf.permutation_ n /\ length (leaf.slots n') = length (leaf.slots n) /\
    (forall q, 0 <= q -> entry_at n' q = if q =? kp then with_lv x (entry_at n kp) else entry_at n q).
Proof.
  intros Hr Hkp. destruct (leaf.rep_slot width Hwidth n l f kp Hr Hkp) as (s & Hs & He).
  destruct (layer.set_lv_in n kp s x Hs ltac:(lia)) as (n' & E & Hv & Hp & Hl & Hq & Hn). exists n'. split; [exact E|].
  do 4 (split; [assumption|]). intros q Hq0. specialize (Hq q Hq0). unfold entry_at. rewrite !nth_lookup. unfold slot_at in *. rewrite Hq. destruct (Z.eqb_spec q kp); [|reflexivity].
  rewrite Hs. reflexivity.
Qed.

(** One entry of a leaf is overwritten. *)
Lemma contents_update n n' l f i kp e : rep width n l f -> l !! i = Some kp -> leaf.permutation_ n' = leaf.permutation_ n ->
  length (leaf.slots n') = length (leaf.slots n) -> (forall q, 0 <= q -> entry_at n' q = if q =? kp then e else entry_at n q) ->
  rep width n' l f /\ contents width n' = <[i := e]> (contents width n).
Proof.
  intros Hr Hi Hp Hl He. pose proof Hr as [Hh Hpm Hs].
  assert (Hr' : rep width n' l f) by (split; [rewrite Hp; exact Hh|exact Hpm|lia]). split; [exact Hr'|].
  rewrite (leaf.rep_contents _ _ _ _ Hr), (leaf.rep_contents _ _ _ _ Hr'). apply list_eq. intros j.
  pose proof (lookup_lt_Some _ _ _ Hi) as Hil. rewrite lookup_insert_if by (rewrite length_fmap; exact Hil). rewrite !list_lookup_fmap.
  assert (Hrange : forall p, p ∈ l -> 0 <= p) by (intros p Hin; apply (leaf.rep_range _ _ _ _ p Hr), elem_of_app; auto).
  destruct (decide (j = i)) as [->|Hj].
  - rewrite Hi. cbn [fmap option_fmap option_map]. rewrite He, Z.eqb_refl by (apply Hrange; eapply list_elem_of_lookup_2, Hi). reflexivity.
  - destruct (l !! j) as [p|] eqn:Ep; [|reflexivity]. cbn [fmap option_fmap option_map]. rewrite He by (apply Hrange; eapply list_elem_of_lookup_2, Ep).
    destruct (Z.eqb_spec p kp) as [->|]; [|reflexivity]. destruct Hj. pose proof (leaf.rep_NoDup _ _ _ _ Hr) as Hnd.
    apply NoDup_app in Hnd as [Hnd _]. eapply NoDup_lookup; eassumption.
Qed.

(** The first slot keeps its ikey, the bound of the leaf, when a value is written. *)
Lemma bound_same n n' l f l' f' : rep width n l f -> rep width n' l' f' -> (entry_at n' 0).1.1.1 = (entry_at n 0).1.1.1 -> leaf.ikey_bound n' = leaf.ikey_bound n.
Proof. intros Hr Hr' E. rewrite (leaf.ikey_bound_entry width Hwidth _ _ _ Hr), (leaf.ikey_bound_entry width Hwidth _ _ _ Hr'), E. reflexivity. Qed.

(** Unlocking gives a leaf at rest, whose root mark is [hs]. *)
Definition unlocks (hs : bool) (v : Z) : Prop :=
  exists v', unlock nv v v = Some v' /\ quiet nv v' /\ deleted nv v' = false /\ isleaf nv v' = true /\ has_split nv v' = hs.

(** The leaf that a cursor has locked: its entries, and its slots; among the free slots
    [fz], slot 0 comes first. *)
Record held_leaf (prevs : gset nat) (q : nat) (lo : Z) (es : list entry) (hs : bool) (n : leaf.leaf) (l f fz : list Z) : Prop := {
  hl_unlocks : unlocks hs (leaf.v_ n);
  hl_rep : rep width n l f;
  hl_contents : contents width n = es;
  hl_sorted : rsorted es;
  hl_len : Forall (fun e => 0 <= e.1.1.2) es;
  hl_removed : 0 <= leaf.nremoved_ n;
  hl_room : leaf.size n + leaf.nremoved_ n <= width;
  hl_zero : q ∈ prevs -> leaf.nremoved_ n = 0 -> leaf.zero_last fz;
  hl_bound : q ∈ prevs -> leaf.ikey_bound n = Some lo
}.

Lemma held_length prevs q lo es hs n l f fz : held_leaf prevs q lo es hs n l f fz -> length l = length es.
Proof. intros [_ Hr Hc _ _ _ _ _ _]. rewrite (leaf.rep_contents _ _ _ _ Hr) in Hc. rewrite <- Hc, length_fmap. reflexivity. Qed.

(** What makes a leaf good again. *)
Lemma make_good prevs q lo n es l f : rep width n l f -> contents width n = es -> rsorted es -> Forall (fun e => 0 <= e.1.1.2) es ->
  quiet nv (leaf.v_ n) -> deleted nv (leaf.v_ n) = false -> isleaf nv (leaf.v_ n) = true -> 0 <= leaf.nremoved_ n -> leaf.size n + leaf.nremoved_ n <= width ->
  (q ∈ prevs -> leaf.nremoved_ n = 0 -> leaf.zero_last f) -> (q ∈ prevs -> leaf.ikey_bound n = Some lo) -> good_leaf width nv prevs q lo n es.
Proof.
  intros Hr Hc Hs Hp Hq Hd Hi Hn Hroom Hz Hb. split; try assumption; [|eauto]. split; [|eauto|exact Hc|exact Hp|exact Hs]. split; [apply (quiet_idle nv _ Hq)|]. auto.
Qed.

Lemma held_unlock prevs q lo es hs n l f : held_leaf prevs q lo es hs n l f f ->
  exists n', unlock_leaf nv n (leaf.v_ n) = Some n' /\ good_leaf width nv prevs q lo n' es /\ has_split nv (leaf.v_ n') = hs.
Proof.
  intros [(v' & E & Hq & Hd & Hi & Hs) Hr Hc Hso Hp Hn Hroom Hz Hb]. unfold unlock_leaf. rewrite E. eexists. split; [reflexivity|]. split; [|exact Hs].
  apply (make_good prevs q lo _ es l f); try assumption. destruct Hr; split; assumption.
Qed.

(** The value of an entry changes. *)
Lemma held_set_value prevs q lo es hs n l f fz i kp e x : held_leaf prevs q lo es hs n l f fz -> l !! i = Some kp -> es !! i = Some e ->
  exists n', set_lv n kp x = Some n' /\ held_leaf prevs q lo (<[i := with_lv x e]> es) hs n' l f fz.
Proof.
  intros [Hu Hr Hc Hs Hp Hn Hroom Hz Hb] Hl He.
  assert (Hkp : 0 <= kp < width) by (apply (leaf.rep_range _ _ _ _ kp Hr), elem_of_app; left; eapply list_elem_of_lookup_2, Hl).
  destruct (set_lv_ok n l f kp x Hr Hkp) as (n' & E & Ev & En & Epm & Esl & Hent). exists n'. split; [exact E|].
  assert (Hee : entry_at n kp = e).
  { rewrite <- Hc, (leaf.rep_contents _ _ _ _ Hr), list_lookup_fmap, Hl in He. injection He as He. exact He. }
  destruct (contents_update n n' l f i kp (with_lv x e) Hr Hl Epm Esl) as [Hr' Hc']; [rewrite <- Hee; exact Hent|]. rewrite Hc in Hc'.
  split; try assumption; try congruence.
  - eapply rsorted_update; [exact Hs|exact He|reflexivity].
  - apply Forall_insert; [exact Hp|]. rewrite Forall_lookup in Hp. exact (Hp i e He).
  - unfold leaf.size in *. rewrite Epm, En. exact Hroom.
  - rewrite En. exact Hz.
  - intros Hin. rewrite <- (Hb Hin). eapply bound_same; [exact Hr|exact Hr'|]. rewrite Hent by lia. destruct (Z.eqb_spec 0 kp) as [<-|]; reflexivity.
Qed.

(** An entry is removed. *)
Lemma held_remove prevs q lo es hs n l f fz i : held_leaf prevs q lo es hs n l f fz -> (i < length es)%nat ->
  let '(n', empty) := leaf.finish_remove width n (Z.of_nat i) in
  empty = bool_decide (delete i es = []) /\ exists l' f', held_leaf prevs q lo (delete i es) hs n' l' f' f'.
Proof.
  intros Hhl Hi. pose proof (held_length _ _ _ _ _ _ _ _ _ Hhl) as Hlen. destruct Hhl as [Hu Hr Hc Hs Hp Hn Hroom Hz Hb].
  pose proof (leaf.finish_remove_ok width Hwidth true n l f i Hr Hn ltac:(lia)) as H.
  destruct (leaf.finish_remove width n (Z.of_nat i)) as [n' empty] eqn:E. destruct H as (Hc' & He & Hn' & Hbd & l' & f' & Hr' & Hz').
  rewrite Hc in Hc'. rewrite Hc' in He. split; [exact He|]. exists l', f'.
  assert (Hsz : leaf.size n' = leaf.size n - 1).
  { rewrite (leaf.rep_size _ _ _ _ Hr), (leaf.rep_size _ _ _ _ Hr'). pose proof (leaf.rep_contents _ _ _ _ Hr') as Hcc.
    rewrite Hc' in Hcc. apply (f_equal length) in Hcc. rewrite length_fmap, length_delete in Hcc by (apply lookup_lt_is_Some_2; exact Hi). lia. }
  split; try assumption; try lia.
  - injection E as <- _. exact Hu.
  - apply rsorted_delete, Hs.
  - apply Forall_delete, Hp.
  - rewrite Hbd. exact Hb.
Qed.

(** A leaf with a new key in its last free slot. *)
Definition pending (prevs : gset nat) (q : nat) (lo : Z) (es : list entry) (hs : bool) (n : leaf.leaf) (l f : list Z) (kp : Z) (ka : key.key) : Prop :=
  held_leaf prevs q lo es hs n l (f ++ [kp]) f /\ entry_at n kp = leaf.key_entry mem ka /\ leaf.size n + leaf.nremoved_ n < width.

(** The callback's value is written to it, unseen ... *)
Lemma pending_value prevs q lo es hs n l f kp ka x : pending prevs q lo es hs n l f kp ka ->
  exists n', set_lv n kp x = Some n' /\ held_leaf prevs q lo es hs n' l (f ++ [kp]) f /\
    entry_at n' kp = with_lv x (leaf.key_entry mem ka) /\ leaf.size n' + leaf.nremoved_ n' < width.
Proof.
  intros ([Hu Hr Hc Hs Hp Hn Hroom Hz Hb] & He & Hlt). destruct (leaf.rep_last_free width nv Hwidth _ _ _ _ Hr) as [Hkp _].
  destruct (set_lv_ok n l (f ++ [kp]) kp x Hr Hkp) as (n' & E & Ev & En & Epm & Esl & Hent). exists n'. split; [exact E|].
  destruct (leaf.contents_free width nv Hwidth n n' l f kp Hr Epm Esl) as [Hr' Hc'].
  { intros y Hy Hne. rewrite Hent by exact Hy. destruct (Z.eqb_spec y kp); [contradiction|reflexivity]. }
  assert (Esz : leaf.size n' = leaf.size n) by (unfold leaf.size; rewrite Epm; reflexivity).
  split; [split; try assumption; try congruence; rewrite ?En, ?Esz; try assumption|].
  - intros Hin. rewrite <- (Hb Hin). eapply bound_same; [exact Hr|exact Hr'|]. rewrite Hent by lia. destruct (Z.eqb_spec 0 kp) as [<-|]; reflexivity.
  - split; [|lia]. rewrite Hent, Z.eqb_refl, He by lia. reflexivity.
Qed.

(** ... until it is inserted. *)
Lemma held_finish_insert prevs q lo es hs n l f kp (ki : nat) e : held_leaf prevs q lo es hs n l (f ++ [kp]) f -> entry_at n kp = e ->
  leaf.size n + leaf.nremoved_ n < width -> (ki <= length es)%nat -> 0 <= e.1.1.2 ->
  (forall i a, (i < ki)%nat -> es !! i = Some a -> rlt (erank a) (erank e)) ->
  (forall i a, (ki <= i)%nat -> es !! i = Some a -> rlt (erank e) (erank a)) ->
  exists n', leaf.finish_insert width n (Z.of_nat ki) kp = Some n' /\
    held_leaf prevs q lo (internode.ins ki e es) hs n' (internode.ins ki kp l) f f.
Proof.
  intros Hhl He Hlt Hki Hpos Hbf Haf. pose proof (held_length _ _ _ _ _ _ _ _ _ Hhl) as Hlen. destruct Hhl as [Hu Hr Hc Hs Hp Hn Hroom Hz Hb].
  destruct (leaf.finish_insert_ok width Hwidth n l f kp ki Hr ltac:(lia)) as (n' & E & Ev & En & Esl & Hr' & Hc').
  exists n'. split; [exact E|]. rewrite Hc, He in Hc'. split; try assumption; try congruence.
  - apply rsorted_ins; assumption.
  - unfold internode.ins. rewrite Forall_app, Forall_cons. split; [apply Forall_take, Hp|]. split; [exact Hpos|apply Forall_drop, Hp].
  - rewrite (leaf.rep_size _ _ _ _ Hr), En in *. rewrite (leaf.rep_size _ _ _ _ Hr'), internode.length_ins by lia. lia.
  - rewrite En. exact Hz.
  - intros Hin. rewrite <- (Hb Hin). unfold leaf.ikey_bound, leaf.ikey, slot_at. rewrite Esl. reflexivity.
Qed.

(** ** The two halves of a full leaf *)

(** The place of a key that is not there. *)
Definition absent_at (es : list entry) (ki : Z) (rk : Z * Z) : Prop :=
  0 <= ki <= Z.of_nat (length es) /\
  (forall i a, (i < Z.to_nat ki)%nat -> es !! i = Some a -> rlt (erank a) rk) /\
  (forall i a, (Z.to_nat ki <= i)%nat -> es !! i = Some a -> rlt rk (erank a)).

Lemma absent_not es ki rk e : absent_at es ki rk -> e ∈ es -> erank e <> rk.
Proof.
  intros (_ & Hb & Ha) He E. apply list_elem_of_lookup_1 in He as [i Hi]. destruct (Nat.lt_ge_cases i (Z.to_nat ki)) as [Hlt|Hge].
  - specialize (Hb i e Hlt Hi). rewrite E in Hb. exact (tree.rlt_irrefl _ Hb).
  - specialize (Ha i e Hge Hi). rewrite E in Ha. exact (tree.rlt_irrefl _ Ha).
Qed.

Lemma rsorted_ikey (es : list entry) i j (a b : entry) : rsorted es -> (i <= j)%nat -> es !! i = Some a -> es !! j = Some b -> a.1.1.1 <= b.1.1.1.
Proof.
  intros Hs Hij Ha Hb. destruct (Nat.eq_dec i j) as [->|]; [assert (a = b) as -> by congruence; lia|].
  destruct (Hs i j a b ltac:(lia) Ha Hb) as [H|[H _]]; cbn in H; lia.
Qed.

(** At most ten keys share an ikey. *)
Lemma rsorted_spread (es : list entry) (a b : entry) : rsorted es -> Forall (fun e => 0 <= e.1.1.2) es -> es !! 0%nat = Some a -> es !! 10%nat = Some b -> a.1.1.1 <> b.1.1.1.
Proof.
  intros Hs Hp Ha Hb E. pose proof (lookup_lt_Some _ _ _ Hb) as Hl.
  assert (H : forall i (c : entry), (i <= 10)%nat -> es !! i = Some c -> Z.of_nat i <= Z.min c.1.1.2 9).
  { induction i as [|i IH]; intros c Hi Hc; [rewrite Forall_lookup in Hp; specialize (Hp _ _ Hc); cbn in Hp; lia|].
    destruct (lookup_lt_is_Some_2 es i ltac:(lia)) as [d Hd]. specialize (IH d ltac:(lia) Hd).
    pose proof (rsorted_ikey es 0 i a d Hs ltac:(lia) Ha Hd). pose proof (rsorted_ikey es (S i) 10 c b Hs ltac:(lia) Hc Hb).
    destruct (Hs i (S i) d c ltac:(lia) Hd Hc) as [Hr|[_ Hr]]; cbn in Hr; lia. }
  specialize (H 10%nat b ltac:(lia) Hb). lia.
Qed.

Lemma rsorted_take es m : rsorted es -> rsorted (take m es).
Proof. intros Hs i j a b Hij Hi Hj. apply lookup_take_Some in Hi as [Hi _], Hj as [Hj _]. exact (Hs i j a b Hij Hi Hj). Qed.
Lemma rsorted_drop es m : rsorted es -> rsorted (drop m es).
Proof. intros Hs i j a b Hij. rewrite !lookup_drop. apply Hs. lia. Qed.

Lemma rep_apart m k g x : rep width m k g -> x ∈ k -> x ∉ g.
Proof. intros Hm H1 H2. pose proof (leaf.rep_NoDup _ _ _ _ Hm) as Hnd. apply NoDup_app in Hnd as (_ & Hd & _). exact (Hd x H1 H2). Qed.

Section Halves.
Context (n : leaf.leaf) (l f : list Z) (es : list entry) (ka : key.key) (p : nat) (lo hi : Z).
Let ke := leaf.key_entry mem ka.
Hypothesis Hwide : 11 <= width.
Hypothesis Hr : rep width n l f.
Hypothesis Hc : contents width n = es.
Hypothesis Hs : rsorted es.
Hypothesis Hlen : Forall (fun e => 0 <= e.1.1.2) es.
Hypothesis Hkl : 0 <= ke.1.1.2.
Hypothesis Hfull : width - 1 <= leaf.size n.
Hypothesis Hab : absent_at es (Z.of_nat p) (erank ke).
Hypothesis Hrange : treestore.in_range lo hi es.
Hypothesis Hkey : lo <= key.ikey ka < hi.

Abbreviation J := (leaf.joined width mem n ka p).
Lemma half_place : (p <= length es)%nat /\ J = internode.ins p ke es.
Proof. split; [destruct Hab as [H _]; lia|]. unfold leaf.joined. rewrite Hc. reflexivity. Qed.
Lemma half_sorted : rsorted J.
Proof. destruct half_place as [Hp ->]. destruct Hab as (_ & H1 & H2). rewrite Nat2Z.id in H1, H2. apply rsorted_ins; assumption. Qed.
Lemma half_length : length l = length es.
Proof. rewrite <- Hc, (leaf.rep_contents _ _ _ _ Hr), length_fmap. reflexivity. Qed.
Lemma half_old j e : es !! j = Some e -> J !! (if decide (j < p)%nat then j else S j) = Some e.
Proof.
  destruct half_place as [Hp ->]. intros He. rewrite internode.lookup_ins by exact Hp. destruct (decide (j < p)%nat); [rewrite decide_True by assumption; exact He|].
  rewrite !decide_False by lia. rewrite Nat.sub_succ, Nat.sub_0_r. exact He.
Qed.
Lemma half_new : J !! p = Some ke.
Proof. destruct half_place as [Hp ->]. rewrite internode.lookup_ins by exact Hp. rewrite decide_False, decide_True by lia. reflexivity. Qed.
Lemma half_range j e : J !! j = Some e -> lo <= e.1.1.1 < hi.
Proof.
  destruct half_place as [Hp ->]. intros He. apply list_elem_of_lookup_2 in He. unfold internode.ins in He. rewrite elem_of_app, elem_of_cons in He.
  unfold treestore.in_range in Hrange. rewrite Forall_forall in Hrange. destruct He as [He|[->|He]]; [apply Hrange; eapply elem_of_take in He as (? & ? & _); eapply list_elem_of_lookup_2; eassumption|exact Hkey|apply Hrange].
  apply list_elem_of_lookup_1 in He as [i Hi]. rewrite lookup_drop in Hi. eapply list_elem_of_lookup_2, Hi.
Qed.

Lemma half_spread : exists i j, 0 <= i <= leaf.last_pos l /\ 0 <= j <= leaf.last_pos l /\
  leaf.ikey_of (leaf.joined_at width mem n ka p i) <> leaf.ikey_of (leaf.joined_at width mem n ka p j).
Proof.
  destruct half_place as [Hp EJ]. pose proof half_length as Hl. rewrite (leaf.rep_size _ _ _ _ Hr) in Hfull.
  assert (HJ : length J = S (length es)) by (rewrite EJ, internode.length_ins by exact Hp; reflexivity).
  exists 0, 10. unfold leaf.last_pos. split; [lia|]. split; [lia|]. unfold leaf.joined_at.
  destruct (lookup_lt_is_Some_2 J 0 ltac:(lia)) as [a Ha], (lookup_lt_is_Some_2 J 10 ltac:(lia)) as [b Hb].
  rewrite (nth_lookup_Some _ _ _ _ Ha), (nth_lookup_Some _ _ _ _ Hb). apply (rsorted_spread J); [apply half_sorted| |exact Ha|exact Hb].
  rewrite EJ. unfold internode.ins. rewrite Forall_app, Forall_cons. split; [apply Forall_take, Hlen|]. split; [exact Hkl|apply Forall_drop, Hlen].
Qed.

(** The keys on both sides of the cut. *)
Section At.
Context (mid : nat) (a b : entry) (s : Z).
Hypothesis Hmid : (1 <= mid <= length l)%nat.
Hypothesis Ha : J !! (mid - 1)%nat = Some a.
Hypothesis Hb : J !! mid = Some b.
Hypothesis Hne : leaf.ikey_of a <> leaf.ikey_of b.
Hypothesis Es : s = leaf.ikey_of b.

Lemma half_key : lo < s < hi.
Proof.
  pose proof (half_range _ _ Ha). pose proof (half_range _ _ Hb). pose proof (rsorted_ikey J (mid - 1) mid a b half_sorted ltac:(lia) Ha Hb). unfold leaf.ikey_of in *. lia.
Qed.
Lemma half_left j e : J !! j = Some e -> (j < mid)%nat -> lo <= e.1.1.1 < s.
Proof.
  intros He Hj. pose proof (half_range _ _ He). pose proof (rsorted_ikey J j (mid - 1) e a half_sorted ltac:(lia) He Ha).
  pose proof (rsorted_ikey J (mid - 1) mid a b half_sorted ltac:(lia) Ha Hb). unfold leaf.ikey_of in *. lia.
Qed.
Lemma half_right j e : J !! j = Some e -> (mid <= j)%nat -> s <= e.1.1.1 < hi.
Proof. intros He Hj. pose proof (half_range _ _ He). pose proof (rsorted_ikey J mid j b e half_sorted ltac:(lia) Hb He). unfold leaf.ikey_of in *. lia. Qed.

(** [c] old entries stay left. *)
Lemma half_ranges c : (c = mid /\ (mid <= p)%nat) \/ (c = (mid - 1)%nat /\ (p < mid)%nat) ->
  treestore.in_range lo s (take c es) /\ treestore.in_range s hi (drop c es) /\
  if decide (mid <= p)%nat then s <= key.ikey ka < hi else lo <= key.ikey ka < s.
Proof.
  intros Hcc. split; [|split].
  - apply Forall_lookup. intros j e He. apply lookup_take_Some in He as [He Hj]. apply half_old in He. destruct (decide (j < p)%nat); eapply half_left in He; first [exact He | lia].
  - apply Forall_lookup. intros j e He. rewrite lookup_drop in He. apply half_old in He. destruct (decide (c + j < p)%nat); eapply half_right in He; first [exact He | lia].
  - destruct (decide (mid <= p)%nat); [apply (half_right p ke half_new)|apply (half_left p ke half_new)]; lia.
Qed.

(** Slot 0, which holds the bound of a leaf with a predecessor, is free or stays left. *)
Lemma half_zero c : leaf.ikey_bound n = Some lo -> treestore.in_range s hi (drop c es) -> f = [0] \/ 0 ∈ take c l.
Proof.
  intros Hbd Hdr. pose proof (leaf.rep_length width Hwidth _ _ _ Hr) as HL. rewrite (leaf.rep_size _ _ _ _ Hr) in Hfull.
  assert (H0 : 0 ∈ l ++ f) by (destruct Hr as [_ Hp _]; rewrite Hp; apply elem_of_seqZ; lia). apply elem_of_app in H0 as [H0|H0].
  - right. apply list_elem_of_lookup_1 in H0 as [j Hj]. apply list_elem_of_lookup_2 with j. rewrite lookup_take. destruct (decide (j < c)%nat) as [|Hge]; [exact Hj|exfalso].
    assert (He : es !! j = Some (entry_at n 0)) by (rewrite <- Hc, (leaf.rep_contents _ _ _ _ Hr), list_lookup_fmap, Hj; reflexivity).
    rewrite (leaf.ikey_bound_entry width Hwidth _ _ _ Hr) in Hbd. unfold treestore.in_range in Hdr. rewrite Forall_lookup in Hdr. specialize (Hdr (j - c)%nat (entry_at n 0)).
    rewrite lookup_drop in Hdr. replace (c + (j - c))%nat with j in Hdr by lia. specialize (Hdr He). pose proof half_key. injection Hbd as E0. cbn in Hdr. lia.
  - left. destruct f as [|x [|y f']]; [set_solver| |cbn in HL; lia]. apply list_elem_of_singleton in H0. congruence.
Qed.
End At.

(** What finish_split leaves of the leaf: [q] and [child], the new key in one of them. *)
Definition halves (prevs : gset nat) (q child : nat) (hs : bool) (s : Z) (nl nr : leaf.leaf) (moved : bool) (ki kp : Z) (e1 e2 : list entry) : Prop :=
  es = e1 ++ e2 /\ lo < s < hi /\ treestore.in_range lo s e1 /\ treestore.in_range s hi e2 /\
  if moved
  then (exists l f, held_leaf prevs q lo e1 true nl l f f) /\ (exists l f, pending prevs child s e2 hs nr l f kp ka) /\ absent_at e2 ki (erank ke) /\ s <= key.ikey ka < hi
  else (exists l f, pending prevs q lo e1 true nl l f kp ka) /\ (exists l f, held_leaf prevs child s e2 hs nr l f f) /\ absent_at e1 ki (erank ke) /\ lo <= key.ikey ka < s.

Lemma half_absent mid : (mid <= p)%nat -> absent_at (drop mid es) (Z.of_nat (p - mid)) (erank ke).
Proof.
  intros Hm. destruct Hab as (H1 & H2 & H3). unfold absent_at. rewrite Nat2Z.id in *. rewrite length_drop. split; [lia|].
  split; intros i a Hi; rewrite lookup_drop; intros Ha; [apply (H2 (mid + i)%nat)|apply (H3 (mid + i)%nat)]; first [exact Ha | lia].
Qed.
Lemma half_absent_left c : (p <= c)%nat -> absent_at (take c es) (Z.of_nat p) (erank ke).
Proof.
  intros Hm. destruct Hab as (H1 & H2 & H3). unfold absent_at. rewrite Nat2Z.id in *. rewrite length_take. split; [lia|].
  split; intros i a Hi Ha; apply lookup_take_Some in Ha as [Ha _]; [apply (H2 i a Hi Ha)|apply (H3 i a Hi Ha)].
Qed.

Lemma split_halves q child hs h k1 k2 nd0 nr : leaflink.seg h None (k1 ++ q :: k2) None -> NoDup (child :: k1 ++ q :: k2) -> h !! child = Some nd0 ->
  Z.of_nat (length (leaf.slots nr)) = width -> locked nv (leaf.v_ n) = true -> leaf.nremoved_ n = 0 -> leaf.v_ nr = leaf.v_ n -> leaf.nremoved_ nr = 0 ->
  unlocks true (Z.lor (leaf.v_ n) (splitting_bit nv)) -> unlocks hs (leaf.v_ n) ->
  exists nr' h' t s st nl2 moved ki kp e1 e2,
    leaf.leaf_split width nv mem n nr q child (Z.of_nat p) ka [h] = Some (nr', h' :: t, s, st) /\
    leaf.finish_leaf_split width nv mem n nr' st (Z.of_nat p) ka = Some (nl2, nr', moved, ki, kp) /\
    (forall prevs, (q ∈ prevs -> leaf.ikey_bound n = Some lo) -> halves prevs q child hs s nl2 nr' moved ki kp e1 e2) /\ leaf.v_ nr' = leaf.v_ n /\
    leaflink.seg h' None (k1 ++ q :: child :: k2) None /\ (forall x, x <> child -> x ∉ q :: k2 -> h' !! x = h !! x).
Proof.
  intros Hseg Hnd Hnew Hnr Hl Hn0 Hv Hr0 Hul Hur. destruct half_place as [Hp _]. pose proof half_length as Hll. pose proof (leaf.rep_length width Hwidth _ _ _ Hr) as HL.
  assert (Hfull' : width - 1 <= leaf.last_pos l) by (rewrite (leaf.rep_size _ _ _ _ Hr) in Hfull; exact Hfull).
  destruct (leaf.split_parts width nv mem Hwidth n l f ka p Hr ltac:(lia) h k1 k2 q child nd0 Hseg Hnd Hnew nr Hnr (conj Hl (eq_trans (f_equal _ Hv) Hl)) Hn0 Hfull' half_spread)
    as (nr' & h' & t & s & st & nl2 & nr2 & moved & ki & kp & mid & E1 & E2 & Hmid & (l2 & f2 & l3 & f3 & Hz2 & Hz3 & Hcut) & (a & b & Ha & Hb & Hne & Es) & Hbr & Hbl & Hvl & Hnl & Hvr & Hnrr & Hseg' & Hfr & _).
  assert (nr2 = nr') as ->.
  { unfold leaf.finish_leaf_split in E2. destruct (mark_split nv (leaf.v_ n)); [|discriminate]. cbn [mbind option_bind] in E2. destruct (st =? 0); [|congruence].
    destruct (leaf.assign _ _ _ _); [|discriminate]. cbn [mbind option_bind] in E2. congruence. }
  rewrite Hc in Hcut. exists nr', h', t, s, st, nl2, moved, ki, kp. pose proof (half_key mid a b s Hmid Ha Hb Hne Es) as Hks.
  set (c := if moved then mid else (mid - 1)%nat). exists (take c es), (drop c es).
  destruct (half_ranges mid a b s Hmid Ha Hb Hne Es c) as (Hrl & Hrr & Hki).
  { unfold c. destruct moved; [left|right]; (split; [reflexivity|]); tauto. }
  pose proof (half_zero mid a b s Hmid Ha Hb Hne Es c) as Hzero.
  do 2 (split; [assumption|]). split; [|split; [congruence|auto]]. intros prevs Hbd. split; [symmetry; apply take_drop|]. split; [exact Hks|]. split; [exact Hrl|]. split; [exact Hrr|].
  assert (Hvl' : unlocks true (leaf.v_ nl2)) by (rewrite Hvl; exact Hul). assert (Hvr' : unlocks hs (leaf.v_ nr')) by (rewrite Hvr, Hv; exact Hur).
  assert (Hsz : forall m k g, rep width m k g -> leaf.size m + Z.of_nat (length g) = width).
  { intros m k g Hm. pose proof (leaf.rep_length width Hwidth _ _ _ Hm). rewrite (leaf.rep_size _ _ _ _ Hm). lia. }
  destruct moved; cbn [andb] in *; unfold c in *; clear c.
  - destruct Hcut as (Hmp & -> & Hr2 & Hc2 & El2 & Hr3 & Hc3 & He3). rewrite decide_True in Hki by exact Hmp. pose proof (Hsz _ _ _ Hr2). pose proof (Hsz _ _ _ Hr3) as S3. rewrite length_app in S3. cbn [length] in S3.
    split; [|split; [|split; [apply half_absent, Hmp|exact Hki]]].
    + exists l2, f2. split; try assumption; try lia; [apply rsorted_take, Hs|apply Forall_take, Hlen| |intros Hin; rewrite Hbl by auto; auto].
      intros Hin _ H0. destruct (Hzero (Hbd Hin) Hrr) as [Ef|Hin0]; [apply (Hz2 Ef), H0|]. subst l2. exfalso. exact (rep_apart _ _ _ _ Hr2 Hin0 H0).
    + exists l3, f3. split; [|split; [exact He3|lia]]. split; try assumption; try lia; [apply rsorted_drop, Hs|apply Forall_drop, Hlen|intros _ _ H0; contradiction|auto].
  - destruct Hcut as (Hmp & -> & Hr2 & Hc2 & El2 & (f2' & ->) & He2 & Hr3 & Hc3). rewrite decide_False in Hki by lia. pose proof (Hsz _ _ _ Hr2) as S2. rewrite length_app in S2. cbn [length] in S2. pose proof (Hsz _ _ _ Hr3).
    assert (Hz2' : q ∈ prevs -> leaf.zero_last (f2' ++ [kp]) /\ kp <> 0).
    { intros Hin. destruct (Hzero (Hbd Hin) Hrr) as [Ef|Hin0].
      - split; [exact (Hz2 Ef)|]. intros ->. pose proof (leaf.zero_last_back width nv Hwidth _ _ _ Hr2 (Hz2 Ef)) as ->. cbn in S2. rewrite (leaf.rep_size _ _ _ _ Hr2), El2, length_take in S2. rewrite Ef in HL. cbn in HL. lia.
      - subst l2. split; [intros H0; exfalso; exact (rep_apart _ _ _ _ Hr2 Hin0 H0)|]. intros ->. apply (rep_apart _ _ _ _ Hr2 Hin0). set_solver. }
    split; [|split; [|split; [apply half_absent_left; lia|exact Hki]]].
    + exists l2, f2'. split; [|split; [exact He2|lia]]. split; try assumption; try lia; [apply rsorted_take, Hs|apply Forall_take, Hlen| |].
      * intros Hin _. apply (leaf.zero_last_pop width nv Hwidth f2' kp), (Hz2' Hin).
      * intros Hin. rewrite Hbl by (left; apply (Hz2' Hin)). auto.
    + exists l3, f3. split; try assumption; try lia; [apply rsorted_drop, Hs|apply Forall_drop, Hlen|intros _ _ H0; contradiction|auto].
Qed.
End Halves.

End Held.
End heldleaf.
