(* ===== verification/Split.v ===== *)
(** * finish_split keeps the invariant

    A full leaf is cut in two; the new half goes under the parent, which may have
    to be cut in turn, up to a new root.  Every step keeps the invariant of
    TreeStore.v, with the nodes that are locked at the time and the half that is
    still without a parent as its parameters; at the end the tree holds what it
    held, is at most one level higher, and only the leaf that the cursor stands at
    is locked. *)

From S2P Require Import Prelude KPermuter NodeVersion KSearch StringSlice MtKey LeafLink Internode Leaf Tree Layer Paths Cursor TreeStore HeldLeaf.

Open Scope Z_scope.

Module split.

Import leaf (entry).
Import internode (ins, lookup_ins, sorted).
Import tree (node, heap, NLeaf, NInternode).
Import cursor.
Import treestore.
Import heldleaf (held_leaf, unlocks, halves, absent_at).

(** ** Children when one of them is cut in two, and when their node is *)

Lemma ins_app_l {A} j (v : A) l1 l2 : (j <= length l1)%nat -> ins j v (l1 ++ l2) = ins j v l1 ++ l2.
Proof.
  intros H. unfold ins. rewrite take_app_le, drop_app_le by exact H. rewrite <- app_assoc. reflexivity.
Qed.
Lemma ins_bounds j (s : Z) K lo hi : (j <= length K)%nat -> lo :: ins j s K ++ [hi] = ins (S j) s (lo :: K ++ [hi]).
Proof. intros H. rewrite <- ins_app_l by exact H. reflexivity. Qed.
Lemma elem_of_ins {A} j (v x : A) l : x ∈ ins j v l <-> x = v \/ x ∈ l.
Proof. unfold ins. rewrite <- (take_drop j l) at 3. rewrite !elem_of_app, elem_of_cons. tauto. Qed.
Lemma fmap_ins {A B} (f : A -> B) j v l : f <$> ins j v l = ins j (f v) (f <$> l).
Proof. unfold ins. rewrite fmap_app, fmap_cons, fmap_take, fmap_drop. reflexivity. Qed.

Lemma sorted_ins_inv j s K : (j <= length K)%nat -> sorted (ins j s K) ->
  sorted K /\ s ∉ K /\ (forall i k, (i < j)%nat -> K !! i = Some k -> k < s) /\ (forall i k, (j <= i)%nat -> K !! i = Some k -> s < k).
Proof.
  intros Hj Hs. assert (Hat : ins j s K !! j = Some s) by (rewrite lookup_ins by exact Hj; destruct (decide (j < j)%nat); [lia|destruct (decide (j = j)); [reflexivity|lia]]).
  assert (Hlt : forall i k, (i < j)%nat -> K !! i = Some k -> ins j s K !! i = Some k).
  { intros i k Hi Hk. rewrite lookup_ins by exact Hj. destruct (decide (i < j)%nat); [exact Hk|lia]. }
  assert (Hge : forall i k, (j <= i)%nat -> K !! i = Some k -> ins j s K !! S i = Some k).
  { intros i k Hi Hk. rewrite lookup_ins by exact Hj. destruct (decide (S i < j)%nat); [lia|]. destruct (decide (S i = j)); [lia|].
    rewrite Nat.sub_succ, Nat.sub_0_r. exact Hk. }
  assert (H1 : forall i k, (i < j)%nat -> K !! i = Some k -> k < s) by (intros i k Hi Hk; apply (Hs i j); eauto).
  assert (H2 : forall i k, (j <= i)%nat -> K !! i = Some k -> s < k) by (intros i k Hi Hk; apply (Hs j (S i)); [lia|eauto..]).
  split; [|split; [|auto]].
  - intros x y a b Hxy Ha Hb. destruct (Nat.lt_ge_cases x j) as [Hx|Hx], (Nat.lt_ge_cases y j) as [Hy|Hy]; try lia.
    + apply (Hs x y); eauto.
    + specialize (H1 x a Hx Ha). specialize (H2 y b Hy Hb). lia.
    + apply (Hs (S x) (S y)); [lia|eauto..].
  - intros Hin. apply list_elem_of_lookup_1 in Hin as [i Hi]. destruct (Nat.lt_ge_cases i j) as [H|H]; [specialize (H1 i s H Hi)|specialize (H2 i s H Hi)]; lia.
Qed.

(** Where a search for [s] puts it. *)
Lemma position_unique kp j s K : (kp <= length K)%nat -> (j <= length K)%nat ->
  (forall i k, (i < kp)%nat -> K !! i = Some k -> k <= s) -> (forall i k, (kp <= i)%nat -> K !! i = Some k -> s < k) ->
  (forall i k, (i < j)%nat -> K !! i = Some k -> k < s) -> (forall i k, (j <= i)%nat -> K !! i = Some k -> s < k) -> kp = j.
Proof.
  intros Hkp Hj Ha Hb Hc Hd. destruct (Nat.lt_trichotomy kp j) as [H|[H|H]]; [|exact H|].
  - destruct (lookup_lt_is_Some_2 K kp ltac:(lia)) as [k Hk]. specialize (Hb kp k ltac:(lia) Hk). specialize (Hc kp k H Hk). lia.
  - destruct (lookup_lt_is_Some_2 K j ltac:(lia)) as [k Hk]. specialize (Ha j k H Hk). specialize (Hd j k ltac:(lia) Hk). lia.
Qed.

Lemma kids_sub o i d lo hi K cs d' : kids o i d lo hi K cs -> (d <= d')%nat -> kids o i d' lo hi K cs.
Proof.
  intros (Hs & Hl & Hk) Hd. split; [exact Hs|]. split; [exact Hl|]. intros j c Hc. destruct (Hk j c Hc) as (d0 & a & b & es & Ha & Hb & Hd0 & Ho).
  exists d0, a, b, es. split; [exact Ha|]. split; [exact Hb|]. split; [lia|exact Ho].
Qed.

(** The children of a node that is cut at the key between them. *)
Lemma kids_cut o i d lo hi K1 s K2 C1 C2 : kids o i d lo hi (K1 ++ s :: K2) (C1 ++ C2) -> length C1 = S (length K1) ->
  kids o i d lo s K1 C1 /\ kids o i d s hi K2 C2 /\ lo < s < hi.
Proof.
  intros (Hs & Hl & Hk) H1. rewrite !length_app in Hl. cbn [length] in Hl. rewrite <- app_assoc in Hs, Hk. cbn [app] in Hs, Hk.
  set (B := lo :: K1 ++ s :: K2 ++ [hi]) in *.
  assert (HL : forall j x, (lo :: K1 ++ [s]) !! j = Some x -> B !! j = Some x).
  { intros j x Hj. unfold B. rewrite !app_comm_cons in *. apply lookup_app_Some in Hj as [Hj|[Hj1 Hj2]].
    - rewrite lookup_app_l by (eapply lookup_lt_Some, Hj). exact Hj.
    - rewrite lookup_app_r by exact Hj1. apply list_lookup_singleton_Some in Hj2 as [Hj2 <-]. rewrite Hj2. reflexivity. }
  assert (HR : forall j, (s :: K2 ++ [hi]) !! j = B !! (S (length K1) + j)%nat).
  { intros j. change B with ((lo :: K1) ++ (s :: K2 ++ [hi])). rewrite (lookup_app_r (lo :: K1)) by (cbn; lia). f_equal. cbn [length]. lia. }
  split; [|split].
  - split; [intros x y a b Hxy Ha Hb; apply (Hs x y a b Hxy); auto|]. split; [exact H1|]. intros j c Hc.
    destruct (Hk j c) as (d' & a & b & es & Ha & Hb & H); [rewrite lookup_app_l by (eapply lookup_lt_Some, Hc); exact Hc|]. exists d', a, b, es.
    pose proof (lookup_lt_Some _ _ _ Hc) as Hj.
    assert (HLl : forall x, (x <= S (length K1))%nat -> (lo :: K1 ++ [s]) !! x = B !! x).
    { intros x Hx. destruct (lookup_lt_is_Some_2 (lo :: K1 ++ [s]) x) as [y Hy]; [cbn; rewrite length_app; cbn; lia|]. rewrite Hy. symmetry. apply HL, Hy. }
    rewrite !HLl by lia. auto.
  - split; [intros x y a b Hxy; rewrite !HR; apply Hs; lia|]. split; [lia|]. intros j c Hc.
    destruct (Hk (length C1 + j)%nat c) as (d' & a & b & es & Ha & Hb & H); [rewrite lookup_app_r by lia; replace (length C1 + j - length C1)%nat with j by lia; exact Hc|].
    exists d', a, b, es. rewrite !HR. replace (S (length K1) + j)%nat with (length C1 + j)%nat by lia. replace (S (length K1) + S j)%nat with (S (length C1 + j))%nat by lia. auto.
  - assert (Es : B !! S (length K1) = Some s) by (rewrite <- (Nat.add_0_r (S (length K1))), <- HR; reflexivity).
    assert (Eh : B !! (S (length K1) + S (length K2))%nat = Some hi).
    { rewrite <- HR. change ((K2 ++ [hi]) !! length K2 = Some hi). rewrite lookup_app_r by lia. rewrite Nat.sub_diag. reflexivity. }
    pose proof (Hs 0%nat (S (length K1)) lo s ltac:(lia) eq_refl Es). pose proof (Hs (S (length K1)) (S (length K1) + S (length K2))%nat s hi ltac:(lia) Es Eh). lia.
Qed.

(** [x] is cut at [s] into [x] and [new]. *)
Section Cut.
Context (o : places) (x new : nat) (i d : nat) (lo s hi : Z) (e0 e1 e2 : list entry).
Hypothesis Hx : o !! x = Some (mkPlace i d lo hi e0).
Hypothesis Hnew : o !! new = None.
Hypothesis Hs : lo < s < hi.
Definition cut : places := <[new := mkPlace i d s hi e2]> (<[x := mkPlace i d lo s e1]> o).

Lemma cut_ne : x <> new.
Proof. intros ->. congruence. Qed.
Lemma cut_left : cut !! x = Some (mkPlace i d lo s e1).
Proof. pose proof cut_ne. unfold cut. rewrite lookup_insert_ne by congruence. apply lookup_insert_eq. Qed.
Lemma cut_right : cut !! new = Some (mkPlace i d s hi e2).
Proof. apply lookup_insert_eq. Qed.
Lemma cut_other y : y <> x -> y <> new -> cut !! y = o !! y.
Proof. intros H1 H2. unfold cut. rewrite !lookup_insert_ne by congruence. reflexivity. Qed.
Lemma cut_cases y pl : cut !! y = Some pl ->
  (y = x /\ pl = mkPlace i d lo s e1) \/ (y = new /\ pl = mkPlace i d s hi e2) \/ (y <> x /\ y <> new /\ o !! y = Some pl).
Proof.
  unfold cut. intros H. apply lookup_insert_Some in H as [[<- <-]|[H1 H]]; [auto|]. apply lookup_insert_Some in H as [[<- <-]|[H2 H]]; auto.
Qed.
Lemma cut_keeps y pl : o !! y = Some pl -> exists pl', cut !! y = Some pl' /\ pl_layer pl' = pl_layer pl /\ pl_lo pl' = pl_lo pl /\ pl_height pl' = pl_height pl.
Proof.
  intros Hy. destruct (decide (y = x)) as [->|Hne].
  - rewrite Hx in Hy. injection Hy as <-. eexists. split; [apply cut_left|]. auto.
  - exists pl. rewrite cut_other by congruence. auto.
Qed.

Lemma kids_away i' d' lo' hi' K cs : kids o i' d' lo' hi' K cs -> x ∉ cs -> kids cut i' d' lo' hi' K cs.
Proof.
  intros Hk Hn. eapply kids_mono; [exact Hk|]. intros c d0 a b es Hc Ho. exists es. rewrite cut_other; [exact Ho|congruence|congruence].
Qed.

Lemma kids_split i' d' lo' hi' K cs : kids o i' d' lo' hi' K cs -> kids_with (Some (x, new, s)) cut i' d' lo' hi' K cs.
Proof.
  intros Hk. destruct (decide (x ∈ cs)) as [Hin|Hn]; [left|right; split; [exact Hn|apply kids_away; assumption]].
  pose proof Hk as (Hsort & Hl & Hkids). apply list_elem_of_lookup_1 in Hin as [j Hj]. exists j. split; [exact Hj|].
  destruct (Hkids j x Hj) as (d0 & a & b & es & Ha & Hb & Hd & Ho). rewrite Hx in Ho. injection Ho as <- <- <- <- <-.
  pose proof (lookup_lt_Some _ _ _ Hj) as Hjl. assert (HjK : (j <= length K)%nat) by lia.
  assert (HB : length (lo' :: K ++ [hi']) = S (S (length K))) by (cbn; rewrite length_app; cbn; lia).
  assert (Huniq : forall j' c, cs !! j' = Some c -> j' <> j -> c <> x).
  { intros j' c Hc Hne ->. destruct (Hkids j' x Hc) as (d1 & a1 & b1 & es1 & Ha1 & _ & _ & Ho1). rewrite Hx in Ho1. injection Ho1 as <- <- <- <-.
    destruct (Nat.lt_trichotomy j j') as [H|[H|H]]; [pose proof (Hsort j j' lo lo H Ha Ha1); lia|lia|pose proof (Hsort j' j lo lo H Ha1 Ha); lia]. }
  unfold kids. rewrite ins_bounds by exact HjK. split; [|split].
  - apply internode.ins_sorted; [lia|exact Hsort| | |].
    + intros Hin. apply list_elem_of_lookup_1 in Hin as [m Hm]. destruct (Nat.le_gt_cases m j) as [H|H].
      * assert (s <= lo); [|lia]. destruct (Nat.eq_dec m j) as [->|]; [assert (s = lo) by congruence; lia|]. pose proof (Hsort m j s lo ltac:(lia) Hm Ha). lia.
      * assert (hi <= s); [|lia]. destruct (Nat.eq_dec m (S j)) as [->|]; [assert (s = hi) by congruence; lia|]. pose proof (Hsort (S j) m hi s ltac:(lia) Hb Hm). lia.
    + intros m k Hm Hk'. destruct (Nat.eq_dec m j) as [->|]; [assert (k = lo) by congruence; lia|]. pose proof (Hsort m j k lo ltac:(lia) Hk' Ha). lia.
    + intros m k Hm Hk'. destruct (Nat.eq_dec m (S j)) as [->|]; [assert (k = hi) by congruence; lia|]. pose proof (Hsort (S j) m hi k ltac:(lia) Hb Hk'). lia.
  - rewrite !internode.length_ins by lia. lia.
  - intros j' c. rewrite !lookup_ins by lia. intros Hc. pose proof cut_ne as Hne.
    destruct (decide (j' < S j)%nat) as [H1|H1]; [|destruct (decide (j' = S j)) as [->|H2]].
    + destruct (decide (j' = j)) as [->|Hjj].
      * replace c with x by congruence. exists d, lo, s, e1. destruct (decide (S j < S j)%nat); [lia|]. destruct (decide (S j = S j)); [|lia]. rewrite cut_left. auto.
      * destruct (Hkids j' c Hc) as (d1 & a1 & b1 & es1 & Ha1 & Hb1 & Hd1 & Ho1). exists d1, a1, b1, es1. destruct (decide (S j' < S j)%nat); [|lia].
        rewrite cut_other by (try apply (Huniq j'); congruence). auto.
    + injection Hc as <-. exists d, s, hi, e2. destruct (decide (S (S j) < S j)%nat); [lia|]. destruct (decide (S (S j) = S j)); [lia|]. rewrite cut_right.
      replace (S (S j) - 1)%nat with (S j) by lia. auto.
    + destruct (Hkids (j' - 1)%nat c Hc) as (d1 & a1 & b1 & es1 & Ha1 & Hb1 & Hd1 & Ho1). exists d1, a1, b1, es1. destruct (decide (S j' < S j)%nat); [lia|]. destruct (decide (S j' = S j)); [lia|].
      replace (S j' - 1)%nat with (S (j' - 1)) by lia. rewrite cut_other by (try apply (Huniq (j' - 1)%nat); first [congruence | lia]). auto.
Qed.
End Cut.

Section Split.
Context (width : Z) (w : nat) (nv : nodeversion_parameters) (binary : bool) (mem : memory).
Context `{L : !NvLayout nv} (Hwidth : 3 <= width <= 15).
Abbreviation inv := (inv width w nv).

(** ** What the invariant says about the two halves *)

Section Pending.
Context (D : nat) (E : gset nat) (n c : nat) (s : Z) (G : ghost) (st : store) (tab : table).
Hypothesis Hinv : inv D E (Some (n, c, s)) G st tab.

Lemma pend_places : exists i d lo hi es es', own G !! n = Some (mkPlace i d lo s es) /\ own G !! c = Some (mkPlace i d s hi es') /\
  parent_ st !! c = Some None /\ 0 <= lo < s /\ s < hi <= 2 ^ 64 /\ n <> c.
Proof.
  destruct (iv_pend _ _ _ _ _ _ _ _ _ Hinv n c s eq_refl) as (i & d & lo & hi & es & es' & Hn & Hc & Hp).
  pose proof (iv_place _ _ _ _ _ _ _ _ _ Hinv n _ Hn) as (Hlo & _). pose proof (iv_place _ _ _ _ _ _ _ _ _ Hinv c _ Hc) as (Hhi & Hh & _). cbn in Hlo, Hhi, Hh.
  exists i, d, lo, hi, es, es'. repeat (split; [first [assumption | lia]|]). intros ->. rewrite Hn in Hc. injection Hc as E1 E2. lia.
Qed.

Lemma pend_kids y pl m : own G !! y = Some pl -> nodes st !! y = Some (NInternode m) ->
  internode.wf w m /\ exists cs, internode.children m = Some <$> cs /\ c ∉ cs /\ (forall x, x ∈ cs -> parent_ st !! x = Some (Some y)) /\
    ((parent_ st !! n = Some (Some y) /\ exists j, cs !! j = Some n /\
        kids (own G) (pl_layer pl) (pl_height pl) (pl_lo pl) (pl_hi pl) (ins j s (internode.keys m)) (ins (S j) c cs)) \/
     (parent_ st !! n <> Some (Some y) /\ n ∉ cs /\ kids (own G) (pl_layer pl) (pl_height pl) (pl_lo pl) (pl_hi pl) (internode.keys m) cs)).
Proof.
  intros Hy Hm. destruct (iv_place _ _ _ _ _ _ _ _ _ Hinv y pl Hy) as (_ & _ & _ & _ & _ & Hp). unfold placed in Hp. rewrite Hm in Hp. destruct Hp as (Hw & cs & Ecs & Hps & Hk).
  destruct pend_places as (i & d & lo & hi & es & es' & Hn & Hc & Hpc & Hlo & Hhi & Hne). split; [exact Hw|]. exists cs. split; [exact Ecs|].
  split; [intros Hin; specialize (Hps c Hin); congruence|]. split; [exact Hps|]. cbn in Hk. destruct Hk as [(j & Hj & Hk)|[Hnin Hk]].
  - left. split; [apply Hps; eapply list_elem_of_lookup_2, Hj|]. eauto.
  - right. split; [|auto]. intros Hpn. destruct (iv_up _ _ _ _ _ _ _ _ _ Hinv n _ Hn Hne) as [[_ Hr]|(_ & y' & m' & pl' & Hy' & Hm' & Hin & _)]; [congruence|].
    assert (y' = y) as -> by congruence. rewrite Hm in Hm'. injection Hm' as <-. rewrite Ecs in Hin. apply list_elem_of_fmap in Hin as (x & [= <-] & Hin). contradiction.
Qed.

(** A root of a layer is not the right half, and is the left half only if that has no parent. *)
Lemma pend_root i p : root_of G !! i = Some p -> p <> c /\ (p <> n -> exists d es, own G !! p = Some (mkPlace i d 0 (2 ^ 64) es)) /\
  (p = n -> parent_ st !! n = Some None /\ exists d es es', own G !! n = Some (mkPlace i d 0 s es) /\ own G !! c = Some (mkPlace i d s (2 ^ 64) es')).
Proof.
  intros Hp. pose proof (iv_root _ _ _ _ _ _ _ _ _ Hinv i p Hp) as Hr. unfold root_place in Hr.
  destruct pend_places as (i' & d & lo & hi & es & es' & Hn & Hc & Hpc & Hlo & Hhi & Hne). destruct (decide (p = n)) as [->|Hpn].
  - destruct Hr as (d0 & e0 & e0' & Hn0 & Hc0). split; [exact Hne|]. split; [contradiction|]. intros _. split; [|eauto 6].
    destruct (iv_up _ _ _ _ _ _ _ _ _ Hinv n _ Hn Hne) as [[_ H]|[H _]]; [exact H|]. cbn in H. rewrite Hn in Hn0. injection Hn0 as -> _ _ _. contradiction.
  - destruct Hr as (d0 & e0 & Hp0). split; [|split; [eauto|contradiction]]. intros ->. rewrite Hc in Hp0. injection Hp0 as _ _ E0 _ _. lia.
Qed.
End Pending.

(** ** Changes above the leaves *)

Record upper (G : ghost) (st : store) (G' : ghost) (st' : store) : Prop := {
  up_leaf : forall x m, nodes st' !! x = Some (NLeaf m) <-> nodes st !! x = Some (NLeaf m);
  up_own : forall x m, nodes st !! x = Some (NLeaf m) -> own G' !! x = own G !! x;
  up_place : forall x pl, own G !! x = Some pl -> exists pl', own G' !! x = Some pl' /\ pl_layer pl' = pl_layer pl /\ pl_lo pl' = pl_lo pl;
  up_leaves : leaves G' = leaves G;
  up_links : links st' = links st;
  up_roots : forall i, is_Some (root_of G' !! i) -> is_Some (root_of G !! i)
}.

Lemma upper_refl G st : upper G st G st.
Proof. split; eauto; reflexivity. Qed.
Lemma upper_trans G1 st1 G2 st2 G3 st3 : upper G1 st1 G2 st2 -> upper G2 st2 G3 st3 -> upper G1 st1 G3 st3.
Proof.
  intros [A1 A2 A3 A4 A5 A6] [B1 B2 B3 B4 B5 B6]. split; try congruence.
  - intros x m. rewrite B1. apply A1.
  - intros x m Hx. rewrite (B2 x m) by (apply A1, Hx). apply (A2 x m Hx).
  - intros x pl Hx. destruct (A3 x pl Hx) as (p1 & H1 & E1 & F1). destruct (B3 x p1 H1) as (p2 & H2 & E2 & F2). exists p2. split; [exact H2|]. split; congruence.
  - auto.
Qed.
Lemma upper_prev G st G' st' : upper G st G' st' -> prev_ st' = prev_ st.
Proof. intros H. unfold prev_. rewrite (up_links _ _ _ _ H). reflexivity. Qed.
Lemma upper_range G st G' st' i x a b : upper G st G' st' -> leaf_range (own G') (nodes st') i x a b <-> leaf_range (own G) (nodes st) i x a b.
Proof.
  intros H. split; intros (d & es & n & Ho & Hn); exists d, es, n.
  - apply (up_leaf _ _ _ _ H) in Hn. rewrite (up_own _ _ _ _ H x n Hn) in Ho. auto.
  - rewrite (up_own _ _ _ _ H x n Hn). split; [exact Ho|]. apply (up_leaf _ _ _ _ H), Hn.
Qed.

(** The leaves and their entries stay what they are. *)
Lemma inv_upper D E P G st tab D' E' P' G' st' : inv D E P G st tab -> upper G st G' st' ->
  (forall x pl, own G' !! x = Some pl -> 0 <= pl_lo pl < pl_hi pl /\ pl_hi pl <= 2 ^ 64 /\ (pl_height pl <= D')%nat /\
    is_Some (parent_ st' !! x) /\ is_Some (root_of G' !! pl_layer pl) /\ placed w P' (own G') (nodes st') (parent_ st') x pl) ->
  (forall x pl, own G' !! x = Some pl -> attached P' x -> has_parent G' st' x pl) ->
  (forall i p, root_of G' !! i = Some p -> root_place P' (own G') i p) ->
  (forall n c k, P' = Some (n, c, k) -> exists i d lo hi es es',
    own G' !! n = Some (mkPlace i d lo k es) /\ own G' !! c = Some (mkPlace i d k hi es') /\ parent_ st' !! c = Some None) ->
  (forall x pl nd, x ∉ E' -> own G' !! x = Some pl -> nodes st' !! x = Some nd -> good_node width nv (root_of G') (prev_ st') x pl nd) ->
  inv D' E' P' G' st' tab.
Proof.
  intros Hi Hu F1 F2 F3 F4 F8. pose proof Hi as [_ _ _ _ H5 H6 H7 _]. split; try assumption.
  - intros i p Hp. destruct (up_roots _ _ _ _ Hu i (ltac:(eauto))) as [p' Hp']. destruct (H5 i p' Hp') as (l & Hl & Hc & Hseg & Hall). exists l.
    rewrite (up_leaves _ _ _ _ Hu), (up_links _ _ _ _ Hu). split; [exact Hl|]. split; [|split; [exact Hseg|]].
    + eapply covers_impl; [|exact Hc]. intros x a b _. apply (upper_range _ _ _ _ _ _ _ _ Hu).
    + intros x a b Hx. eapply Hall, (upper_range _ _ _ _ _ _ _ _ Hu), Hx.
  - intros r es Hr. destruct (H6 r es Hr) as (pl & l & Ho & Hlo & Hl & ->). destruct (up_place _ _ _ _ Hu r pl Ho) as (pl' & Ho' & El & Elo).
    exists pl', l. rewrite (up_leaves _ _ _ _ Hu), El. split; [exact Ho'|]. split; [congruence|]. split; [exact Hl|].
    destruct (iv_place _ _ _ _ _ _ _ _ _ Hi r pl Ho) as (_ & _ & _ & _ & [p Hp] & _). destruct (H5 _ p Hp) as (l' & El' & Hc & _). rewrite Hl in El'. injection El' as <-.
    apply Forall_bind_ext, Forall_forall. intros x Hx. destruct (covers_elem _ _ _ _ _ Hc Hx) as (a & b & (d & e & n & Hox & Hn) & _).
    unfold entries. rewrite (up_own _ _ _ _ Hu x n Hn). reflexivity.
  - intros r r' pl pl' Hr Hr' Ho Ho' El. destruct Hr as [es Hr], Hr' as [es' Hr'].
    destruct (H6 r es Hr) as (p1 & _ & Ho1 & _), (H6 r' es' Hr') as (p2 & _ & Ho2 & _).
    destruct (up_place _ _ _ _ Hu r p1 Ho1) as (q1 & Hq1 & E1 & _), (up_place _ _ _ _ Hu r' p2 Ho2) as (q2 & Hq2 & E2 & _).
    rewrite Ho in Hq1. rewrite Ho' in Hq2. injection Hq1 as <-. injection Hq2 as <-. eapply H7; eauto. congruence.
Qed.

(** ** The halves go under a new root *)

Definition raise (new i d : nat) (G : ghost) : ghost :=
  mkGhost (<[new := mkPlace i d 0 (2 ^ 64) []]> (own G)) (<[i := new]> (root_of G)) (leaves G).

Section NewRoot.
Context (D : nat) (E : gset nat) (n c : nat) (s : Z) (G : ghost) (st st' : store) (tab : table) (new : nat) (nn : internode.internode).
Hypothesis Hinv : inv D E (Some (n, c, s)) G st tab.
Hypothesis HE : n ∈ E /\ c ∈ E.
Hypothesis Hroot : parent_ st !! n = Some None.
Hypothesis Hnew : nodes st !! new = None.
Hypothesis Hwf : internode.wf w nn.
Hypothesis Hkeys : internode.keys nn = [s].
Hypothesis Hchildren : internode.children nn = [Some n; Some c].
Hypothesis Hversion : quiet nv (internode.v_ nn) /\ tree.at_rest nv false (internode.v_ nn) /\ has_split nv (internode.v_ nn) = false.
Hypothesis Hnodes : nodes st' = <[new := NInternode nn]> (nodes st).
Hypothesis Hparents : parent_ st' = <[n := Some new]> (<[new := None]> (<[c := Some new]> (<[new := None]> (parent_ st)))).
Hypothesis Hlinks : links st' = links st.

Lemma new_root_inv : exists i d, inv (S D) E None (raise new i (S d) G) st' tab /\ upper G st (raise new i (S d) G) st' /\
  (exists pl, own G !! n = Some pl /\ pl_layer pl = i).
Proof.
  destruct (pend_places _ _ _ _ _ _ _ _ Hinv) as (i & d & lo & hi & es & es' & Hn & Hc & Hpc & Hlo & Hhi & Hne).
  assert (Hri : root_of G !! i = Some n).
  { destruct (iv_up _ _ _ _ _ _ _ _ _ Hinv n _ Hn Hne) as [[H _]|(_ & y & m & pl' & Hy & _)]; [exact H|congruence]. }
  destruct (pend_root _ _ _ _ _ _ _ _ Hinv i n Hri) as (_ & _ & Hrn). destruct (Hrn eq_refl) as (_ & d0 & e0 & e0' & Hn0 & Hc0).
  rewrite Hn in Hn0. rewrite Hc in Hc0. injection Hn0 as <- -> <-. injection Hc0 as -> <-. clear Hrn.
  pose proof (own_fresh _ _ _ _ _ _ _ _ _ _ Hinv Hnew) as Hon. assert (Hnn : new <> n /\ new <> c) by (split; congruence).
  destruct (iv_place _ _ _ _ _ _ _ _ _ Hinv n _ Hn) as (_ & _ & Hd & _). cbn in Hd.
  assert (Hps : forall x, x <> n -> x <> c -> x <> new -> parent_ st' !! x = parent_ st !! x) by (intros x H1 H2 H3; rewrite Hparents, !lookup_insert_ne by congruence; reflexivity).
  assert (Hpn : parent_ st' !! n = Some (Some new)) by (rewrite Hparents, lookup_insert_eq; reflexivity).
  assert (Hpnew : parent_ st' !! new = Some None) by (rewrite Hparents, lookup_insert_ne, lookup_insert_eq by (intros E0; symmetry in E0; tauto); reflexivity).
  assert (Hpc' : parent_ st' !! c = Some (Some new)) by (rewrite Hparents, !lookup_insert_ne, lookup_insert_eq by tauto; reflexivity).
  set (G' := raise new i (S d) G).
  assert (Hnn' : nodes st' !! new = Some (NInternode nn)) by (rewrite Hnodes, lookup_insert_eq; reflexivity).
  assert (Hnd : forall x, x <> new -> nodes st' !! x = nodes st !! x) by (intros x Hx; rewrite Hnodes, lookup_insert_ne by congruence; reflexivity).
  assert (Ho : forall x, x <> new -> own G' !! x = own G !! x) by (intros x Hx; cbn; rewrite lookup_insert_ne by congruence; reflexivity).
  assert (Hos : forall x pl, own G !! x = Some pl -> x <> new) by (intros x pl Hx; congruence).
  assert (Hro : forall j, root_of G' !! j = if decide (j = i) then Some new else root_of G !! j).
  { intros j. cbn. destruct (decide (j = i)) as [->|]; [apply lookup_insert_eq|apply lookup_insert_ne; congruence]. }
  assert (Hon' : own G' !! new = Some (mkPlace i (S d) 0 (2 ^ 64) [])) by (cbn; apply lookup_insert_eq).
  assert (Hu : upper G st G' st').
  { split; try reflexivity; try assumption.
    - intros x m. destruct (decide (x = new)) as [->|Hx]; [rewrite Hnn', Hnew; split; discriminate|rewrite Hnd by exact Hx; reflexivity].
    - intros x m Hx. apply Ho. congruence.
    - intros x pl Hx. exists pl. rewrite Ho by eauto. auto.
    - intros j. rewrite Hro. destruct (decide (j = i)) as [->|]; [eauto|auto]. }
  exists i, d. split; [|split; [exact Hu|eauto]].
  apply (inv_upper _ _ _ _ _ _ _ _ _ _ _ Hinv Hu).
  - intros x pl Hx. destruct (decide (x = new)) as [->|Hxn].
    + rewrite Hon' in Hx. injection Hx as <-. cbn. split; [lia|]. split; [lia|]. split; [lia|]. rewrite Hpnew. split; [eauto|]. rewrite lookup_insert_eq. split; [eauto|].
      unfold placed. rewrite Hnn'. split; [exact Hwf|]. exists [n; c]. split; [exact Hchildren|]. split.
      * intros x Hx. rewrite !elem_of_cons in Hx. destruct Hx as [-> | [-> | Hx]]; [assumption..|set_solver].
      * cbn. rewrite Hkeys. split; [|split; [reflexivity|]].
        -- intros x y a b Hxy Ha Hb. destruct x as [|[|[|x]]], y as [|[|[|y]]]; try lia; cbn in Ha, Hb; try discriminate; injection Ha as <-; injection Hb as <-; lia.
        -- intros j x Hx. destruct j as [|[|j]]; cbn in Hx; [injection Hx as <-|injection Hx as <-|discriminate].
           ++ exists d, 0, s, es. rewrite lookup_insert_ne by tauto. auto.
           ++ exists d, s, (2 ^ 64), es'. rewrite lookup_insert_ne by tauto. auto.
    + rewrite Ho in Hx by exact Hxn. destruct (iv_place _ _ _ _ _ _ _ _ _ Hinv x pl Hx) as (H1 & H2 & H3 & H4 & H5 & H6). split; [exact H1|]. split; [exact H2|]. split; [lia|].
      split; [destruct (decide (x = n)) as [->|]; [eauto|]; destruct (decide (x = c)) as [->|]; [eauto|]; rewrite Hps by assumption; exact H4|].
      split; [rewrite Hro; destruct (decide _); eauto|]. unfold placed in *. rewrite Hnd by exact Hxn. destruct (nodes st !! x) as [[m|m]|] eqn:Em; try assumption.
      destruct (pend_kids _ _ _ _ _ _ _ _ Hinv x pl m Hx Em) as (Hw & cs & Ecs & Hcc & Hcp & [[Hpar _]|(_ & Hnin & Hk)]); [congruence|].
      split; [exact Hw|]. exists cs. split; [exact Ecs|].
      assert (Hcs : forall y, y ∈ cs -> own G' !! y = own G !! y /\ y <> new) by (intros y Hy; destruct (kids_child _ _ _ _ _ _ _ _ Hk Hy) as (? & ? & ? & ? & Hoy & _); split; [apply Ho|]; eauto).
      split; [intros y Hy; rewrite Hps; [auto|intros -> ; contradiction|intros ->; contradiction|apply Hcs, Hy]|].
      eapply kids_mono; [exact Hk|]. intros y d' a b e Hy Hoy. exists e. rewrite (proj1 (Hcs y Hy)). exact Hoy.
  - intros x pl Hx _. unfold has_parent. rewrite Hro. destruct (decide (x = new)) as [->|Hxn].
    { rewrite Hon' in Hx. injection Hx as <-. left. cbn. destruct (decide (i = i)); [auto|contradiction]. }
    rewrite Ho in Hx by exact Hxn. assert (Hhalf : x = n \/ x = c -> pl_layer pl = i /\ parent_ st' !! x = Some (Some new) /\ Some x ∈ internode.children nn).
    { rewrite Hchildren. intros [-> | ->]; [rewrite Hn in Hx|rewrite Hc in Hx]; injection Hx as <-; (split; [reflexivity|]); (split; [assumption|]); set_solver. }
    destruct (decide (x = n \/ x = c)) as [Hx'|Hx'].
    { destruct (Hhalf Hx') as (El & Hp & Hin). right. rewrite El. destruct (decide (i = i)); [|contradiction]. split; [congruence|].
      exists new, nn. eexists. split; [exact Hp|]. split; [exact Hnn'|]. split; [exact Hin|]. split; [exact Hon'|reflexivity]. }
    assert (x <> n /\ x <> c) as [Hxn' Hxc] by tauto. rewrite Hps by assumption.
    destruct (iv_up _ _ _ _ _ _ _ _ _ Hinv x pl Hx Hxc) as [[H1 H2]|(H1 & y & m & pl' & H2 & H3 & H4 & H5 & H6)].
    + left. destruct (decide (pl_layer pl = i)) as [El|]; [congruence|auto].
    + right. split; [destruct (decide _); congruence|]. exists y, m, pl'. rewrite Hnd, Ho by congruence. auto.
  - intros j p Hp. rewrite Hro in Hp. cbn [root_place]. destruct (decide (j = i)) as [->|Hj]; [injection Hp as <-; eauto|].
    destruct (pend_root _ _ _ _ _ _ _ _ Hinv j p Hp) as (Hpc0 & Hother & Hsame). destruct (decide (p = n)) as [->|Hpn'].
    + destruct (Hsame eq_refl) as (_ & d1 & e1 & e2 & Hn1 & _). rewrite Hn in Hn1. injection Hn1 as -> _ _. contradiction.
    + destruct (Hother Hpn') as (d1 & e1 & Hp1). exists d1, e1. rewrite Ho by eauto. exact Hp1.
  - discriminate.
  - intros x pl nd Hx Ho' Hndx. destruct (decide (x = new)) as [->|Hxn].
    + rewrite Hon' in Ho'. injection Ho' as <-. rewrite Hnn' in Hndx. injection Hndx as <-. destruct Hversion as (Hq & Hr & Hs). split; [auto|].
      intros _. cbn. rewrite lookup_insert_eq, bool_decide_true by reflexivity. exact Hs.
    + rewrite Ho in Ho' by exact Hxn. rewrite Hnd in Hndx by exact Hxn. destruct (iv_good _ _ _ _ _ _ _ _ _ Hinv x pl nd Hx Ho' Hndx) as [Hg Hb].
      rewrite (upper_prev _ _ _ _ Hu). split; [exact Hg|]. intros Hl. rewrite (Hb Hl). f_equal. apply bool_decide_ext. rewrite Hro.
      destruct (decide (pl_layer pl = i)) as [El|]; [rewrite El, Hri|reflexivity]. destruct HE. split; intros [= ->]; [set_solver|contradiction].
Qed.
End NewRoot.

(** ** The right half goes under the parent *)

(** The parent of the left half, and where the right half belongs among its children. *)
Lemma pend_parent D E n c s G st tab y : inv D E (Some (n, c, s)) G st tab -> parent_ st !! n = Some (Some y) ->
  exists m pl cs j, nodes st !! y = Some (NInternode m) /\ own G !! y = Some pl /\ internode.wf w m /\ internode.children m = Some <$> cs /\ c ∉ cs /\
    (forall x, x ∈ cs -> parent_ st !! x = Some (Some y)) /\ cs !! j = Some n /\ (j <= length (internode.keys m))%nat /\
    kids (own G) (pl_layer pl) (pl_height pl) (pl_lo pl) (pl_hi pl) (ins j s (internode.keys m)) (ins (S j) c cs) /\ (exists pn, own G !! n = Some pn /\ pl_layer pn = pl_layer pl /\ (pl_height pn < pl_height pl)%nat).
Proof.
  intros Hi Hp. destruct (pend_places _ _ _ _ _ _ _ _ Hi) as (i & d & lo & hi & es & es' & Hn & Hc & Hpc & Hlo & Hhi & Hne).
  destruct (iv_up _ _ _ _ _ _ _ _ _ Hi n _ Hn Hne) as [[_ H]|(_ & y' & m & pl & Hy & Hm & _ & Ho & El)]; [congruence|].
  assert (y' = y) as -> by congruence. destruct (pend_kids _ _ _ _ _ _ _ _ Hi y pl m Ho Hm) as (Hw & cs & Ecs & Hcc & Hps & [(_ & j & Hj & Hk)|(H & _)]); [|contradiction].
  exists m, pl, cs, j. do 7 (split; [assumption|]). pose proof (lookup_lt_Some _ _ _ Hj) as Hjl.
  assert (Hlen : length cs = S (length (internode.keys m))).
  { pose proof (f_equal length Ecs) as El1. rewrite length_fmap in El1. rewrite <- El1. destruct Hw. unfold internode.children, internode.keys. rewrite !length_take. lia. }
  split; [lia|]. split; [exact Hk|]. exists (mkPlace i d lo s es). split; [exact Hn|]. split; [exact (eq_sym El)|].
  destruct (kids_child _ _ _ _ _ _ _ n Hk) as (d' & a & b & e & Hn' & Hd & _); [rewrite elem_of_ins; right; eapply list_elem_of_lookup_2, Hj|].
  rewrite Hn in Hn'. injection Hn' as _ <- _ _ _. exact Hd.
Qed.

Section Attach.
Context (D : nat) (E : gset nat) (n c y : nat) (s : Z) (G : ghost) (st st' : store) (tab : table) (m m' : internode.internode) (pl : place) (cs : list nat) (j : nat).
Hypothesis Hinv : inv D E (Some (n, c, s)) G st tab.
Hypothesis Hparent : parent_ st !! n = Some (Some y).
Hypothesis Hm : nodes st !! y = Some (NInternode m).
Hypothesis Hy : own G !! y = Some pl.
Hypothesis Ecs : internode.children m = Some <$> cs.
Hypothesis Hps : forall x, x ∈ cs -> parent_ st !! x = Some (Some y).
Hypothesis Hk : kids (own G) (pl_layer pl) (pl_height pl) (pl_lo pl) (pl_hi pl) (ins j s (internode.keys m)) (ins (S j) c cs).
Hypothesis Hwf : internode.wf w m'.
Hypothesis Hkeys : internode.keys m' = ins j s (internode.keys m).
Hypothesis Hchildren : internode.children m' = Some <$> ins (S j) c cs.
Hypothesis Hnodes : nodes st' = <[y := NInternode m']> (nodes st).
Hypothesis Hparents : parent_ st' = <[c := Some y]> (parent_ st).
Hypothesis Hlinks : links st' = links st.

Lemma attach_inv : inv D (E ∪ {[y]}) None G st' tab /\ upper G st G st'.
Proof.
  destruct (pend_places _ _ _ _ _ _ _ _ Hinv) as (i & d & lo & hi & es & es' & Hn & Hc & Hpc & Hlo & Hhi & Hne).
  assert (Hny : nodes st' !! y = Some (NInternode m')) by (rewrite Hnodes, lookup_insert_eq; reflexivity).
  assert (Hnd : forall x, x <> y -> nodes st' !! x = nodes st !! x) by (intros x Hx; rewrite Hnodes, lookup_insert_ne by congruence; reflexivity).
  assert (Hpx : forall x, x <> c -> parent_ st' !! x = parent_ st !! x) by (intros x Hx; rewrite Hparents, lookup_insert_ne by congruence; reflexivity).
  assert (Hpc' : parent_ st' !! c = Some (Some y)) by (rewrite Hparents, lookup_insert_eq; reflexivity).
  assert (Hu : upper G st G st').
  { split; try reflexivity; try assumption; try tauto; [|eauto].
    intros x k. destruct (decide (x = y)) as [->|Hx]; [rewrite Hny, Hm; split; discriminate|rewrite Hnd by exact Hx; reflexivity]. }
  split; [|exact Hu]. apply (inv_upper _ _ _ _ _ _ _ _ _ _ _ Hinv Hu).
  - intros x px Hx. destruct (iv_place _ _ _ _ _ _ _ _ _ Hinv x px Hx) as (H1 & H2 & H3 & H4 & H5 & H6). do 3 (split; [assumption|]).
    split; [destruct (decide (x = c)) as [->|]; [eauto|rewrite Hpx by assumption; exact H4]|]. split; [exact H5|]. unfold placed in *. destruct (decide (x = y)) as [->|Hxy].
    + rewrite Hny. rewrite Hy in Hx. injection Hx as <-. split; [exact Hwf|]. exists (ins (S j) c cs). split; [exact Hchildren|]. split; [|cbn; rewrite Hkeys; exact Hk].
      intros x Hx. apply elem_of_ins in Hx as [->|Hx]; [exact Hpc'|]. rewrite Hpx; [auto|]. intros ->. specialize (Hps c Hx). congruence.
    + rewrite Hnd by exact Hxy. destruct (nodes st !! x) as [[k|k]|] eqn:Ek; try assumption.
      destruct (pend_kids _ _ _ _ _ _ _ _ Hinv x px k Hx Ek) as (Hw & cs' & Ecs' & Hcc & Hcp & [[Hpar _]|(_ & Hnin & Hk')]); [congruence|].
      split; [exact Hw|]. exists cs'. split; [exact Ecs'|]. split; [|exact Hk']. intros z Hz. rewrite Hpx; [auto|]. intros ->. contradiction.
  - intros x px Hx _. unfold has_parent. destruct (decide (x = c)) as [->|Hxc].
    + right. split; [intros Hr; apply (pend_root _ _ _ _ _ _ _ _ Hinv) in Hr as [Hr _]; contradiction|]. exists y, m', pl. split; [exact Hpc'|]. split; [exact Hny|].
      split; [rewrite Hchildren; apply list_elem_of_fmap_2, elem_of_ins; auto|]. split; [exact Hy|].
      destruct (kids_child _ _ _ _ _ _ _ c Hk) as (d' & a & b & e & Hc' & _); [apply elem_of_ins; auto|]. rewrite Hx in Hc'. injection Hc' as ->. reflexivity.
    + rewrite Hpx by exact Hxc. destruct (iv_up _ _ _ _ _ _ _ _ _ Hinv x px Hx Hxc) as [H|(H1 & z & k & pl' & H2 & H3 & H4 & H5 & H6)]; [left; exact H|right]. split; [exact H1|].
      destruct (decide (z = y)) as [->|Hzy]; [|exists z, k, pl'; rewrite Hnd by exact Hzy; auto]. rewrite Hm in H3. injection H3 as <-.
      exists y, m', pl'. do 2 (split; [assumption|]). split; [|auto]. rewrite Hchildren. rewrite Ecs in H4. apply list_elem_of_fmap in H4 as (z & [= <-] & H4). apply list_elem_of_fmap_2, elem_of_ins. auto.
  - intros k p Hp. destruct (pend_root _ _ _ _ _ _ _ _ Hinv k p Hp) as (_ & Hother & Hsame). apply Hother. intros Epn. destruct (Hsame Epn) as [H _]. congruence.
  - discriminate.
  - intros x px nd Hx Ho Hnx. rewrite (upper_prev _ _ _ _ Hu). rewrite Hnd in Hnx by set_solver. apply (iv_good _ _ _ _ _ _ _ _ _ Hinv); [set_solver|assumption..].
Qed.
End Attach.

(** ** The parent is cut as well *)

Definition cut_ghost (y new : nat) (pl : place) (s : Z) (G : ghost) : ghost :=
  mkGhost (cut (own G) y new (pl_layer pl) (pl_height pl) (pl_lo pl) s (pl_hi pl) (pl_entries pl) []) (root_of G) (leaves G).

Section Overflow.
Context (D : nat) (E : gset nat) (n c y new : nat) (s s' : Z) (G : ghost) (st st' : store) (tab : table) (m m' r : internode.internode) (pl : place) (cs cl cr : list nat) (j : nat).
Hypothesis Hinv : inv D E (Some (n, c, s)) G st tab.
Hypothesis Hparent : parent_ st !! n = Some (Some y).
Hypothesis Hm : nodes st !! y = Some (NInternode m).
Hypothesis Hy : own G !! y = Some pl.
Hypothesis Ecs : internode.children m = Some <$> cs.
Hypothesis Hps : forall x, x ∈ cs -> parent_ st !! x = Some (Some y).
Hypothesis Hk : kids (own G) (pl_layer pl) (pl_height pl) (pl_lo pl) (pl_hi pl) (ins j s (internode.keys m)) (ins (S j) c cs).
Hypothesis Hnew : nodes st !! new = None.
Hypothesis Hwf : internode.wf w m' /\ internode.wf w r.
Hypothesis Hkeys : ins j s (internode.keys m) = internode.keys m' ++ s' :: internode.keys r.
Hypothesis Hcl : internode.children m' = Some <$> cl.
Hypothesis Hcr : internode.children r = Some <$> cr.
Hypothesis Hall : ins (S j) c cs = cl ++ cr.
Hypothesis Hnodes : nodes st' = <[new := NInternode r]> (<[y := NInternode m']> (nodes st)).
Hypothesis Hparents : internode.reparented (<[new := None]> (parent_ st)) (parent_ st') (internode.children r) new c y.
Hypothesis Hlinks : links st' = links st.

Let G' := cut_ghost y new pl s' G.

Lemma overflow_kids : kids (own G) (pl_layer pl) (pl_height pl) (pl_lo pl) s' (internode.keys m') cl /\
  kids (own G) (pl_layer pl) (pl_height pl) s' (pl_hi pl) (internode.keys r) cr /\ pl_lo pl < s' < pl_hi pl.
Proof.
  rewrite Hkeys, Hall in Hk. apply kids_cut; [exact Hk|]. apply (f_equal length) in Hcl. rewrite length_fmap in Hcl. rewrite <- Hcl.
  destruct Hwf as [[H1 H2 H3] _]. unfold internode.children, internode.keys. rewrite !length_take. lia.
Qed.
Lemma overflow_fresh : own G !! new = None.
Proof. eapply own_fresh; eassumption. Qed.
(** The children, left and right. *)
Lemma overflow_child x : x ∈ cl \/ x ∈ cr <-> x = c \/ x ∈ cs.
Proof. rewrite <- elem_of_app, <- Hall. apply elem_of_ins. Qed.
Lemma overflow_below x : x ∈ cl \/ x ∈ cr -> exists pl', own G !! x = Some pl' /\ pl_layer pl' = pl_layer pl /\ x <> y /\ x <> new /\ root_of G !! pl_layer pl <> Some x.
Proof.
  intros Hx. pose proof overflow_fresh as Hf. destruct overflow_kids as (Hl & Hr & _).
  assert (H : exists d' a b es, own G !! x = Some (mkPlace (pl_layer pl) d' a b es) /\ (d' < pl_height pl)%nat).
  { destruct Hx as [Hx|Hx]; [destruct (kids_child _ _ _ _ _ _ _ _ Hl Hx) as (d' & a & b & es & Ho & Hd & _)|destruct (kids_child _ _ _ _ _ _ _ _ Hr Hx) as (d' & a & b & es & Ho & Hd & _)]; eauto 8. }
  destruct H as (d' & a & b & es & Ho & Hd). eexists. split; [exact Ho|]. split; [reflexivity|]. split; [intros ->; rewrite Hy in Ho; injection Ho as Ho; rewrite Ho in Hd; cbn in Hd; lia|].
  split; [congruence|]. intros Hroot. apply overflow_child in Hx as [->|Hx]; [apply (pend_root _ _ _ _ _ _ _ _ Hinv) in Hroot as [H _]; contradiction|].
  specialize (Hps x Hx). assert (x <> c) as Hxc by (intros ->; destruct (pend_places _ _ _ _ _ _ _ _ Hinv) as (? & ? & ? & ? & ? & ? & _ & _ & Hpc & _); congruence).
  destruct (iv_up _ _ _ _ _ _ _ _ _ Hinv x _ Ho Hxc) as [[_ H]|[H _]]; [congruence|contradiction].
Qed.
Lemma overflow_disjoint x : x ∈ cl -> x ∉ cr.
Proof.
  destruct overflow_kids as (Hl & Hr & _). intros H1 H2. destruct (kids_child _ _ _ _ _ _ _ _ Hl H1) as (d1 & a1 & b1 & e1 & Ho1 & _ & Hb1), (kids_child _ _ _ _ _ _ _ _ Hr H2) as (d2 & a2 & b2 & e2 & Ho2 & _ & Hb2).
  rewrite Ho1 in Ho2. injection Ho2 as _ <- <- _. lia.
Qed.
Lemma overflow_parents x : parent_ st' !! x = if decide (x ∈ cr) then Some (Some new) else if decide (x ∈ cl) then Some (Some y) else if decide (x = new) then Some None else parent_ st !! x.
Proof.
  rewrite Hparents, Hcr. assert (Hin : Some x ∈ (Some <$> cr : list internode.ptr) <-> x ∈ cr) by (rewrite list_elem_of_fmap; split; [intros (z & [= <-] & H); exact H|eauto]).
  destruct (decide (x ∈ cr)) as [H|H]; [rewrite decide_True by tauto; reflexivity|]. rewrite decide_False by tauto. destruct (decide (x ∈ cl)) as [H1|H1].
  - destruct (decide (x = c)) as [|Hxc]; [reflexivity|]. destruct (overflow_below x ltac:(auto)) as (_ & _ & _ & _ & Hxn & _).
    rewrite lookup_insert_ne by congruence. apply Hps. destruct (proj1 (overflow_child x)); [auto|contradiction|assumption].
  - rewrite decide_False by (intros ->; destruct (proj2 (overflow_child c)); auto). destruct (decide (x = new)) as [->|]; [apply lookup_insert_eq|apply lookup_insert_ne; congruence].
Qed.

Lemma overflow_upper : upper G st G' st'.
Proof.
  pose proof overflow_fresh as Hf. split; try reflexivity; try assumption; try tauto.
  - intros x k. rewrite Hnodes. destruct (decide (x = new)) as [->|H1]; [rewrite lookup_insert_eq, Hnew; split; discriminate|]. rewrite lookup_insert_ne by congruence.
    destruct (decide (x = y)) as [->|H2]; [rewrite lookup_insert_eq, Hm; split; discriminate|]. rewrite lookup_insert_ne by congruence. reflexivity.
  - intros x k Hx. apply cut_other; congruence.
  - intros x px Hx. destruct (cut_keeps (own G) y new (pl_layer pl) (pl_height pl) (pl_lo pl) s' (pl_hi pl) (pl_entries pl) (pl_entries pl) []) with (y := x) (pl := px) as (pl' & H1 & H2 & H3 & _); eauto.
    destruct pl. exact Hy.
Qed.

Lemma overflow_node x : x <> y -> x <> new -> nodes st' !! x = nodes st !! x.
Proof. intros H1 H2. rewrite Hnodes, !lookup_insert_ne by congruence. reflexivity. Qed.
Lemma overflow_left : nodes st' !! y = Some (NInternode m').
Proof. rewrite Hnodes, lookup_insert_ne by (intros ->; congruence). apply lookup_insert_eq. Qed.
Lemma overflow_right : nodes st' !! new = Some (NInternode r).
Proof. rewrite Hnodes. apply lookup_insert_eq. Qed.

Lemma overflow_placed x px : own G' !! x = Some px -> 0 <= pl_lo px < pl_hi px /\ pl_hi px <= 2 ^ 64 /\ (pl_height px <= D)%nat /\
  is_Some (parent_ st' !! x) /\ is_Some (root_of G' !! pl_layer px) /\ placed w (Some (y, new, s')) (own G') (nodes st') (parent_ st') x px.
Proof.
  intros Hx. destruct overflow_kids as (Hkl & Hkr & Hs). pose proof overflow_fresh as Hf.
  destruct (iv_place _ _ _ _ _ _ _ _ _ Hinv y pl Hy) as (H1 & H2 & H3 & H4 & H5 & _).
  assert (Hyl : y ∉ cl /\ y ∉ cr) by (split; intros H; destruct (overflow_below y ltac:(auto)) as (_ & _ & _ & H0 & _); contradiction).
  assert (Hpl : own G !! y = Some (mkPlace (pl_layer pl) (pl_height pl) (pl_lo pl) (pl_hi pl) (pl_entries pl))) by (destruct pl; exact Hy).
  apply cut_cases in Hx as [[-> ->]|[[-> ->]|(Hxy & Hxn & Hx)]]; cbn [pl_lo pl_hi pl_height pl_layer].
  - split; [lia|]. split; [lia|]. split; [exact H3|]. split; [rewrite overflow_parents, !decide_False by first [tauto | congruence]; exact H4|]. split; [exact H5|].
    unfold placed. rewrite overflow_left. split; [apply Hwf|]. exists cl. split; [exact Hcl|]. split.
    + intros z Hz. rewrite overflow_parents, decide_False, decide_True by (try apply overflow_disjoint; assumption). reflexivity.
    + right. split; [tauto|]. eapply kids_away; [exact Hf|exact Hkl|tauto].
  - split; [lia|]. split; [lia|]. split; [exact H3|].
    assert (Hnn : new ∉ cl /\ new ∉ cr) by (split; intros H; destruct (overflow_below new ltac:(auto)) as (_ & _ & _ & _ & H0 & _); contradiction).
    split; [rewrite overflow_parents, !decide_False, decide_True by tauto; eauto|]. split; [exact H5|].
    unfold placed. rewrite overflow_right. split; [apply Hwf|]. exists cr. split; [exact Hcr|]. split.
    + intros z Hz. rewrite overflow_parents, decide_True by assumption. reflexivity.
    + right. split; [tauto|]. eapply kids_away; [exact Hf|exact Hkr|tauto].
  - destruct (iv_place _ _ _ _ _ _ _ _ _ Hinv x px Hx) as (F1 & F2 & F3 & F4 & F5 & F6). do 3 (split; [assumption|]).
    split; [rewrite overflow_parents; repeat destruct (decide _); eauto|]. split; [exact F5|]. unfold placed in *. rewrite overflow_node by assumption.
    destruct (nodes st !! x) as [[k|k]|] eqn:Ek; try assumption.
    destruct (pend_kids _ _ _ _ _ _ _ _ Hinv x px k Hx Ek) as (Hw & cs' & Ecs' & Hcc & Hcp & [[Hpar _]|(_ & Hnin & Hk')]); [congruence|].
    split; [exact Hw|]. exists cs'. split; [exact Ecs'|]. split; [|eapply kids_split; [exact Hpl|exact Hf|exact Hs|exact Hk']].
    intros z Hz. specialize (Hcp z Hz). assert (Hzc : ~ (z ∈ cl \/ z ∈ cr)) by (rewrite overflow_child; intros [->|Hz']; [contradiction|specialize (Hps z Hz'); congruence]).
    rewrite overflow_parents, !decide_False; [exact Hcp| |tauto|tauto]. intros ->. destruct (kids_child _ _ _ _ _ _ _ _ Hk' Hz) as (? & ? & ? & ? & Hz' & _). congruence.
Qed.

Lemma overflow_up x px : own G' !! x = Some px -> x <> new -> has_parent G' st' x px.
Proof.
  intros Hx Hxn. pose proof overflow_upper as Hu. unfold has_parent. change (root_of G') with (root_of G).
  assert (Hx0 : exists px0, own G !! x = Some px0 /\ pl_layer px0 = pl_layer px).
  { apply cut_cases in Hx as [[-> ->]|[[-> _]|(_ & _ & Hx)]]; [eauto|contradiction|eauto]. }
  destruct Hx0 as (px0 & Hx0 & El). rewrite <- El. clear Hx El.
  assert (Hlay : forall z pz, own G !! z = Some pz -> exists pz', own G' !! z = Some pz' /\ pl_layer pz' = pl_layer pz) by (intros z pz Hz; destruct (up_place _ _ _ _ Hu z pz Hz) as (pz' & H1 & H2 & _); eauto).
  destruct (decide (x ∈ cl \/ x ∈ cr)) as [Hin|Hout].
  - destruct (overflow_below x Hin) as (px' & Hx' & El & _ & _ & Hroot). rewrite Hx0 in Hx'. injection Hx' as <-. right. rewrite El. split; [exact Hroot|].
    destruct (Hlay y pl Hy) as (py & Hpy & Ely). destruct (decide (x ∈ cr)) as [Hr|Hr].
    + exists new, r. eexists. rewrite overflow_parents, decide_True by exact Hr. split; [reflexivity|]. split; [apply overflow_right|].
      split; [rewrite Hcr; apply list_elem_of_fmap_2, Hr|]. split; [apply cut_right|reflexivity].
    + assert (Hl : x ∈ cl) by tauto. exists y, m', py. rewrite overflow_parents, decide_False, decide_True by assumption. split; [reflexivity|]. split; [apply overflow_left|].
      split; [rewrite Hcl; apply list_elem_of_fmap_2, Hl|]. split; [exact Hpy|exact Ely].
  - assert (Hxc : x <> c) by (intros ->; apply Hout, overflow_child; auto).
    rewrite overflow_parents, !decide_False by first [tauto | assumption].
    destruct (iv_up _ _ _ _ _ _ _ _ _ Hinv x px0 Hx0 Hxc) as [H|(H1 & z & k & pl' & H2 & H3 & H4 & H5 & H6)]; [left; exact H|right]. split; [exact H1|].
    destruct (Hlay z pl' H5) as (pz & Hpz & Elz). exists z, k, pz. split; [exact H2|].
    assert (Hzy : z <> y). { intros ->. rewrite Hm in H3. injection H3 as <-. rewrite Ecs in H4. apply list_elem_of_fmap in H4 as (z & [= <-] & H4). apply Hout, overflow_child. auto. }
    rewrite overflow_node by congruence. split; [exact H3|]. split; [exact H4|]. split; [exact Hpz|congruence].
Qed.

Lemma overflow_inv : inv D (E ∪ {[y; new]}) (Some (y, new, s')) G' st' tab.
Proof.
  pose proof overflow_upper as Hu. pose proof overflow_fresh as Hf. destruct overflow_kids as (_ & _ & Hs).
  assert (Hyn : y <> new) by (intros ->; congruence).
  assert (Hpl : own G !! y = Some (mkPlace (pl_layer pl) (pl_height pl) (pl_lo pl) (pl_hi pl) (pl_entries pl))) by (destruct pl; exact Hy).
  apply (inv_upper _ _ _ _ _ _ _ _ _ _ _ Hinv Hu).
  - exact overflow_placed.
  - intros x px Hx Ha. apply overflow_up; assumption.
  - intros i p Hp. change (root_of G') with (root_of G) in Hp. destruct (pend_root _ _ _ _ _ _ _ _ Hinv i p Hp) as (_ & Hother & Hsame).
    assert (Hpn : p <> n) by (intros Epn; destruct (Hsame Epn) as [H _]; congruence). destruct (Hother Hpn) as (d & es & Hpo). cbn [root_place].
    destruct (decide (p = y)) as [->|Hpy].
    + rewrite Hy in Hpo. injection Hpo as Epl. unfold G', cut_ghost. cbn [own]. erewrite cut_left by eassumption.
      rewrite cut_right, Epl. cbn. eauto.
    + exists d, es. unfold G', cut_ghost. cbn [own]. rewrite cut_other by congruence. exact Hpo.
  - intros a b k [= <- <- <-]. exists (pl_layer pl), (pl_height pl), (pl_lo pl), (pl_hi pl), (pl_entries pl), []. split; [|split; [apply cut_right|]].
    + eapply cut_left; eassumption.
    + assert (Hnn : new ∉ cl /\ new ∉ cr) by (split; intros H; destruct (overflow_below new ltac:(auto)) as (_ & _ & _ & _ & H0 & _); contradiction).
      rewrite overflow_parents, !decide_False, decide_True by tauto. reflexivity.
  - intros x px nd Hx Ho Hnx. rewrite (upper_prev _ _ _ _ Hu). rewrite overflow_node in Hnx by set_solver.
    apply cut_cases in Ho as [[-> _]|[[-> _]|(_ & _ & Ho)]]; [set_solver..|]. apply (iv_good _ _ _ _ _ _ _ _ _ Hinv); [set_solver|assumption..].
Qed.
End Overflow.

(** ** A leaf is cut *)

Definition cut_leaf (q new : nat) (pl : place) (s : Z) (e1 e2 : list entry) (l1 l2 : list nat) (G : ghost) : ghost :=
  mkGhost (cut (own G) q new (pl_layer pl) (pl_height pl) (pl_lo pl) s (pl_hi pl) e1 e2) (root_of G) (<[pl_layer pl := l1 ++ q :: new :: l2]> (leaves G)).

Section CutLeaf.
Context (D : nat) (E : gset nat) (G : ghost) (st st' : store) (tab : table) (q new : nat) (n nr : leaf.leaf) (pl : place) (s : Z) (e1 e2 : list entry) (l1 l2 : list nat).
Hypothesis Hinv : inv D E None G st tab.
Hypothesis HqE : q ∈ E.
Hypothesis Hq : nodes st !! q = Some (NLeaf n).
Hypothesis Hpl : own G !! q = Some pl.
Hypothesis Hnew : nodes st !! new = None.
Hypothesis Hl : leaves G !! pl_layer pl = Some (l1 ++ q :: l2).
Hypothesis Hs : pl_lo pl < s < pl_hi pl.
Hypothesis Hes : pl_entries pl = e1 ++ e2.
Hypothesis Hnodes : nodes st' = <[new := NLeaf nr]> (nodes st).
Hypothesis Hparents : parent_ st' = <[new := None]> (parent_ st).
Hypothesis Hseg : leaflink.seg (links st') None (l1 ++ q :: new :: l2) None.
Hypothesis Hframe : forall x, x <> new -> x ∉ q :: l2 -> links st' !! x = links st !! x.

Let G' := cut_leaf q new pl s e1 e2 l1 l2 G.

Lemma cl_fresh : own G !! new = None.
Proof. eapply own_fresh; eassumption. Qed.
Lemma cl_at : own G !! q = Some (mkPlace (pl_layer pl) (pl_height pl) (pl_lo pl) (pl_hi pl) (pl_entries pl)).
Proof. destruct pl. exact Hpl. Qed.
Lemma cl_ne : q <> new.
Proof. intros ->. congruence. Qed.
Lemma cl_left : own G' !! q = Some (mkPlace (pl_layer pl) (pl_height pl) (pl_lo pl) s e1).
Proof. eapply cut_left; [apply cl_at|apply cl_fresh]. Qed.
Lemma cl_right : own G' !! new = Some (mkPlace (pl_layer pl) (pl_height pl) s (pl_hi pl) e2).
Proof. apply cut_right. Qed.
Lemma cl_other x : x <> q -> x <> new -> own G' !! x = own G !! x.
Proof. apply cut_other. Qed.
Lemma cl_keeps x px : own G !! x = Some px -> exists px', own G' !! x = Some px' /\ pl_layer px' = pl_layer px /\ pl_lo px' = pl_lo px.
Proof. intros Hx. destruct (cut_keeps _ _ new _ _ _ s _ _ e1 e2 cl_at cl_fresh x px Hx) as (px' & H1 & H2 & H3 & _). eauto. Qed.
Lemma cl_node x : x <> new -> nodes st' !! x = nodes st !! x.
Proof. intros H. rewrite Hnodes, lookup_insert_ne by congruence. reflexivity. Qed.
Lemma cl_parent x : x <> new -> parent_ st' !! x = parent_ st !! x.
Proof. intros H. rewrite Hparents, lookup_insert_ne by congruence. reflexivity. Qed.

(** The leaves of the layer before. *)
Lemma cl_layer : NoDup (l1 ++ q :: l2) /\ covers (leaf_range (own G) (nodes st) (pl_layer pl)) 0 l1 (pl_lo pl) /\
  covers (leaf_range (own G) (nodes st) (pl_layer pl)) (pl_hi pl) l2 (2 ^ 64) /\ leaflink.seg (links st) None (l1 ++ q :: l2) None.
Proof.
  destruct (layer_split width w nv D E None G st tab q pl n Hinv Hpl Hq) as (k1 & k2 & Hl' & Hnd & H1 & H2 & H3).
  rewrite Hl in Hl'. injection Hl' as El. assert (l1 = k1 /\ l2 = k2) as [<- <-]; [|auto].
  rewrite <- El in Hnd. apply NoDup_app in Hnd as (_ & Hd & _).
  assert (Hn : q ∉ l1) by (intros H; apply (Hd q H); left). assert (Hn' : q ∉ k1).
  { intros H. destruct (covers_elem _ _ _ _ _ H1 H) as (a & b & (d & e & m & Hx & _) & Hab & Hb). rewrite Hpl in Hx. injection Hx as Hx. rewrite Hx in Hb. cbn in Hb. lia. }
  clear -El Hn Hn'. revert k1 El Hn'. induction l1 as [|x l IH]; intros [|y k] El Hn'; cbn in El.
  - injection El as ->. auto.
  - injection El as <- _. set_solver.
  - injection El as -> _. set_solver.
  - injection El as <- El. destruct (IH ltac:(set_solver) k El ltac:(set_solver)) as [-> ->]. auto.
Qed.
Lemma cl_away x : x ∈ l1 \/ x ∈ l2 -> x <> q /\ x <> new.
Proof.
  destruct cl_layer as (Hnd & H1 & H2 & _). intros Hx. split.
  - intros ->. apply NoDup_app in Hnd as (_ & Hd & Hnd). apply NoDup_cons in Hnd as [Hnd _]. destruct Hx as [Hx|Hx]; [apply (Hd q Hx); left|contradiction].
  - intros ->. pose proof cl_fresh. destruct Hx as [Hx|Hx]; [destruct (covers_elem _ _ _ _ _ H1 Hx) as (a & b & (d & e & m & Ho & _) & _)|destruct (covers_elem _ _ _ _ _ H2 Hx) as (a & b & (d & e & m & Ho & _) & _)]; congruence.
Qed.
Lemma cl_range i x a b : x <> q -> x <> new -> leaf_range (own G') (nodes st') i x a b <-> leaf_range (own G) (nodes st) i x a b.
Proof. intros H1 H2. unfold leaf_range. rewrite cl_other, cl_node by assumption. reflexivity. Qed.

Lemma cl_leaves i p : root_of G !! i = Some p -> exists l, leaves G' !! i = Some l /\ covers (leaf_range (own G') (nodes st') i) 0 l (2 ^ 64) /\
  leaflink.seg (links st') None l None /\ (forall x lo hi, leaf_range (own G') (nodes st') i x lo hi -> x ∈ l).
Proof.
  intros Hp. destruct (iv_leaves _ _ _ _ _ _ _ _ _ Hinv i p Hp) as (l & Hl0 & Hc & Hseg0 & Hall). destruct cl_layer as (Hnd & H1 & H2 & _). pose proof cl_ne as Hqn.
  assert (Hi : forall x lo hi, leaf_range (own G') (nodes st') i x lo hi -> ((x = q \/ x = new) /\ i = pl_layer pl) \/ leaf_range (own G) (nodes st) i x lo hi).
  { intros x a b Hx. destruct (decide (x = q)) as [->|Hxq]; [|destruct (decide (x = new)) as [->|Hxn]].
    - left. destruct Hx as (d & e & m & Ho & _). rewrite cl_left in Ho. injection Ho as -> _. auto.
    - left. destruct Hx as (d & e & m & Ho & _). rewrite cl_right in Ho. injection Ho as -> _. auto.
    - right. apply cl_range in Hx; assumption. }
  destruct (decide (i = pl_layer pl)) as [->|Hne].
  - exists (l1 ++ q :: new :: l2). split; [apply lookup_insert_eq|]. rewrite Hl in Hl0. injection Hl0 as <-. split; [|split; [exact Hseg|]].
    + apply covers_app. exists (pl_lo pl). split; [eapply covers_impl; [|exact H1]; intros x a b Hx; apply cl_range; apply cl_away; auto|].
      exists s. split; [exists (pl_height pl), e1, n; rewrite cl_left, cl_node by exact Hqn; auto|]. split; [lia|].
      exists (pl_hi pl). split; [exists (pl_height pl), e2, nr; rewrite cl_right, Hnodes, lookup_insert_eq; auto|]. split; [lia|].
      eapply covers_impl; [|exact H2]. intros x a b Hx. apply cl_range; apply cl_away; auto.
    + intros x a b Hx. apply Hi in Hx as [[[-> | ->] _]|Hx]; [set_solver..|]. specialize (Hall x a b Hx). set_solver.
  - exists l. split; [cbn; rewrite lookup_insert_ne by congruence; exact Hl0|].
    assert (Hx : forall x, x ∈ l -> x <> q /\ x <> new /\ x ∉ q :: l2).
    { intros x Hx. destruct (covers_elem _ _ _ _ _ Hc Hx) as (a & b & (d & e & m & Ho & _) & _). split; [congruence || (intros ->; rewrite Hpl in Ho; injection Ho as Ho; rewrite Ho in Hne; contradiction)|].
      split; [intros ->; pose proof cl_fresh; congruence|]. rewrite elem_of_cons. intros [->|Hx2]; [rewrite Hpl in Ho; injection Ho as Ho; rewrite Ho in Hne; contradiction|].
      destruct (covers_elem _ _ _ _ _ H2 Hx2) as (a' & b' & (d' & e' & m' & Ho' & _) & _). rewrite Ho in Ho'. injection Ho' as -> _. contradiction. }
    split; [eapply covers_impl; [|exact Hc]; intros x a b Hin; apply cl_range; apply (Hx x Hin)|]. split.
    + eapply leaflink.seg_same; [|exact Hseg0]. intros x Hin. apply Hframe; apply (Hx x Hin).
    + intros x a b Hxr. apply Hi in Hxr as [[_ H]|Hxr]; [contradiction|]. eapply Hall, Hxr.
Qed.
Lemma cl_entries l : q ∉ l -> new ∉ l -> l ≫= entries (own G') = l ≫= entries (own G).
Proof.
  intros H1 H2. apply Forall_bind_ext, Forall_forall. intros x Hx. unfold entries. rewrite cl_other by (intros ->; contradiction). reflexivity.
Qed.

Lemma cl_table r es : tab !! r = Some es -> exists px l, own G' !! r = Some px /\ pl_lo px = 0 /\ leaves G' !! pl_layer px = Some l /\ es = l ≫= entries (own G').
Proof.
  intros Hr. destruct (iv_table _ _ _ _ _ _ _ _ _ Hinv r es Hr) as (px & l & Ho & Hlo & Hl0 & ->). destruct (cl_keeps r px Ho) as (px' & Ho' & El & Elo).
  exists px'. rewrite El, Elo. pose proof cl_ne as Hqn. destruct (decide (pl_layer px = pl_layer pl)) as [Elay|Hne].
  - exists (l1 ++ q :: new :: l2). split; [exact Ho'|]. split; [exact Hlo|]. rewrite Elay in *. split; [apply lookup_insert_eq|]. rewrite Hl in Hl0. injection Hl0 as <-.
    assert (Haw : q ∉ l1 /\ new ∉ l1 /\ q ∉ l2 /\ new ∉ l2) by (repeat split; intros Hx; [destruct (cl_away q)|destruct (cl_away new)|destruct (cl_away q)|destruct (cl_away new)]; auto).
    rewrite !bind_app, !bind_cons, !cl_entries by tauto.
    f_equal. rewrite app_assoc. f_equal. unfold entries. rewrite cl_left, cl_right, Hpl. exact Hes.
  - exists l. split; [exact Ho'|]. split; [exact Hlo|]. split; [cbn; rewrite lookup_insert_ne by congruence; exact Hl0|]. symmetry.
    destruct (iv_place _ _ _ _ _ _ _ _ _ Hinv r px Ho) as (_ & _ & _ & _ & [p Hp] & _). destruct (iv_leaves _ _ _ _ _ _ _ _ _ Hinv _ p Hp) as (l' & El' & Hc & _).
    rewrite Hl0 in El'. injection El' as <-. apply cl_entries; intros Hx; destruct (covers_elem _ _ _ _ _ Hc Hx) as (a & b & (d & e & m & Hox & _) & _).
    + rewrite Hpl in Hox. injection Hox as Hox. rewrite Hox in Hne. contradiction.
    + pose proof cl_fresh. congruence.
Qed.

Lemma cl_prev x : x <> new -> is_Some (own G !! x) -> x ∈ prev_ st' -> x ∈ prev_ st.
Proof.
  intros Hx [px Ho]. rewrite !prev_elem. destruct cl_layer as (Hnd & _ & _ & Hseg0). destruct (decide (x ∈ q :: l2)) as [Hin|Hout]; [|rewrite Hframe by assumption; auto].
  assert (Hin1 : x ∈ l1 ++ q :: l2) by (rewrite elem_of_app; auto). assert (Hin2 : x ∈ l1 ++ q :: new :: l2) by (rewrite elem_of_app, elem_of_cons in *; set_solver).
  assert (Hnd2 : NoDup (l1 ++ q :: new :: l2)).
  { assert (Hnn : new ∉ l1 ++ q :: l2).
    { rewrite elem_of_app, elem_of_cons. intros [H|[H|H]]; [destruct (cl_away new ltac:(auto)); congruence|exact (cl_ne (eq_sym H))|destruct (cl_away new ltac:(auto)); congruence]. }
    apply NoDup_app in Hnd as (N1 & N2 & N3). apply NoDup_cons in N3 as [N3 N4]. apply NoDup_app. split; [exact N1|]. split; [set_solver|].
    repeat (apply NoDup_cons; split; [set_solver|]). exact N4. }
  destruct (leaflink.seg_head _ _ _ _ Hseg0 Hnd Hin1) as (nd & E1 & H1), (leaflink.seg_head _ _ _ _ Hseg Hnd2 Hin2) as (nd' & E2 & H2).
  intros (ln & Eln & Hp). rewrite E2 in Eln. injection Eln as <-. exists nd. split; [exact E1|]. intros H. apply Hp, H2. apply H1 in H. destruct l1; exact H.
Qed.

Lemma cut_leaf_inv : inv D (E ∪ {[new]}) (Some (q, new, s)) G' st' tab.
Proof.
  pose proof cl_ne as Hqn. pose proof cl_fresh as Hf. pose proof cl_at as Hat.
  destruct (iv_place _ _ _ _ _ _ _ _ _ Hinv q pl Hpl) as (P1 & P2 & P3 & P4 & P5 & _).
  assert (Hint : forall y m, nodes st !! y = Some (NInternode m) -> y <> q /\ y <> new) by (intros y m Hy; split; congruence).
  split.
  - intros x px Hx. apply cut_cases in Hx as [[-> ->]|[[-> ->]|(Hxq & Hxn & Hx)]]; cbn [pl_lo pl_hi pl_height pl_layer].
    + split; [lia|]. split; [lia|]. split; [exact P3|]. rewrite cl_parent by exact Hqn. split; [exact P4|]. split; [exact P5|]. unfold placed. rewrite cl_node, Hq by exact Hqn. exact I.
    + split; [lia|]. split; [lia|]. split; [exact P3|]. rewrite Hparents, lookup_insert_eq. split; [eauto|]. split; [exact P5|]. unfold placed. rewrite Hnodes, lookup_insert_eq. exact I.
    + destruct (iv_place _ _ _ _ _ _ _ _ _ Hinv x px Hx) as (H1 & H2 & H3 & H4 & H5 & H6). rewrite cl_parent by exact Hxn. repeat (split; [assumption|]). unfold placed in *.
      rewrite cl_node by exact Hxn. destruct (nodes st !! x) as [[m|m]|]; try assumption. destruct H6 as (Hw & cs & Ecs & Hps & Hk). split; [exact Hw|]. exists cs. split; [exact Ecs|].
      split; [|eapply kids_split; [exact Hat|exact Hf|exact Hs|exact Hk]]. intros z Hz. rewrite cl_parent; [auto|]. intros ->.
      destruct (kids_child _ _ _ _ _ _ _ _ Hk Hz) as (? & ? & ? & ? & Hz' & _). congruence.
  - intros x px Hx Ha. cbn in Ha. unfold has_parent. change (root_of G') with (root_of G). rewrite cl_parent by exact Ha.
    assert (Hx0 : exists px0, own G !! x = Some px0 /\ pl_layer px0 = pl_layer px) by (apply cut_cases in Hx as [[-> ->]|[[-> _]|(_ & _ & Hx)]]; [eauto|contradiction|eauto]).
    destruct Hx0 as (px0 & Hx0 & <-). destruct (iv_up _ _ _ _ _ _ _ _ _ Hinv x px0 Hx0 I) as [H|(H1 & y & m & pl' & H2 & H3 & H4 & H5 & H6)]; [left; exact H|right].
    split; [exact H1|]. exists y, m, pl'. destruct (Hint y m H3) as [Hyq Hyn]. rewrite cl_node, cl_other by assumption. auto.
  - intros i p Hp. change (root_of G') with (root_of G) in Hp. destruct (iv_root _ _ _ _ _ _ _ _ _ Hinv i p Hp) as (d & es & Ho). cbn [root_place]. destruct (decide (p = q)) as [->|Hpq].
    + rewrite cl_left, cl_right. rewrite Hpl in Ho. injection Ho as ->. cbn. eauto.
    + exists d, es. rewrite cl_other by congruence. exact Ho.
  - intros a b k [= <- <- <-]. rewrite cl_left, cl_right, Hparents, lookup_insert_eq. eauto 10.
  - exact cl_leaves.
  - exact cl_table.
  - intros r r' p1 p2 [es Hr] [es' Hr'] Ho1 Ho2 El. destruct (iv_table _ _ _ _ _ _ _ _ _ Hinv r es Hr) as (q1 & _ & Hq1 & _), (iv_table _ _ _ _ _ _ _ _ _ Hinv r' es' Hr') as (q2 & _ & Hq2 & _).
    destruct (cl_keeps r q1 Hq1) as (k1 & Hk1 & E1 & _), (cl_keeps r' q2 Hq2) as (k2 & Hk2 & E2 & _). rewrite Ho1 in Hk1. rewrite Ho2 in Hk2. injection Hk1 as <-. injection Hk2 as <-.
    eapply (iv_inj _ _ _ _ _ _ _ _ _ Hinv r r' q1 q2); eauto. congruence.
  - intros x px nd Hx Ho Hn. assert (Hxq : x <> q /\ x <> new) by set_solver. rewrite cl_other in Ho by tauto. rewrite cl_node in Hn by tauto.
    eapply good_node_ext; [apply (iv_good _ _ _ _ _ _ _ _ _ Hinv x px nd); [set_solver|exact Ho|exact Hn]|reflexivity|]. apply cl_prev; [tauto|eauto].
Qed.
End CutLeaf.

(** ** Versions of locked nodes *)

Definition resting (isl : bool) (v : Z) : Prop := quiet nv v /\ deleted nv v = false /\ isleaf nv v = isl.
(** Locked and perhaps marked for insertion; marked for a split as well. *)
Definition taken (isl : bool) (x : Z) : Prop := exists v0, resting isl v0 /\ held nv v0 x.
Definition marked (isl : bool) (x : Z) : Prop := exists y, taken isl y /\ x = Z.lor y (splitting_bit nv).

Lemma resting_rest isl v : resting isl v -> tree.at_rest nv isl v.
Proof. intros (Hq & Hd & Hi). split; [apply (quiet_idle nv _ Hq)|]. auto. Qed.
Lemma taken_locked isl x : taken isl x -> locked nv x = true /\ isleaf nv x = isl.
Proof. intros (v0 & (Hq & _ & Hi) & Hh). destruct (held_bits nv v0 x Hq Hh) as [Hl Hi']. split; congruence. Qed.
Lemma taken_unlock isl x : taken isl x -> exists v', unlock nv x x = Some v' /\ resting isl v'.
Proof.
  intros (v0 & (Hq & Hd & Hi) & Hh). destruct (unlock_held nv v0 x Hq Hh) as (v' & E & Hq' & _ & Hd' & Hi'). exists v'. split; [exact E|]. split; [exact Hq'|]. split; congruence.
Qed.
Lemma marked_locked isl x : marked isl x -> locked nv x = true /\ splitting nv x = true.
Proof.
  intros (y & Ht & ->). destruct (taken_locked _ _ Ht) as [Hl _]. pose proof (nv_pos nv). rewrite (locked_bit nv) in *. rewrite (splitting_bit_ nv).
  unfold splitting_bit. rewrite !Z.lor_spec, !one_bit, Z.eqb_refl, Hl by lia. split; [reflexivity|apply orb_true_r].
Qed.
Lemma marked_unlock isl x : marked isl x -> exists v', unlock nv x x = Some v' /\ resting isl v' /\ has_split nv v' = true.
Proof.
  intros (y & (v0 & (Hq & Hd & Hi) & Hh) & ->). destruct (unlock_splitting nv v0 y Hq Hh) as (v' & E & Hq' & Hs & Hd' & Hi').
  exists v'. split; [exact E|]. split; [|exact Hs]. split; [exact Hq'|]. split; congruence.
Qed.

Lemma lock_quiet v : quiet nv v -> lock_try nv v v = LockTaken (Z.lor v (lock_bit nv)) /\ lock_check nv (Z.lor v (lock_bit nv)) (Z.lor v (lock_bit nv)) = true.
Proof. intros Hq. destruct (lock_unlock_quiet nv v Hq) as (E & _ & _ & Hd). split; [exact E|]. unfold lock_check. rewrite Hd, Z.eqb_refl. reflexivity. Qed.

Lemma new_internode_version : let v := mark_root nv (new_nodeversion nv false) in quiet nv v /\ tree.at_rest nv false v /\ has_split nv v = false.
Proof.
  pose proof (nv_pos nv) as Hpos. set (v := mark_root nv (new_nodeversion nv false)). cbv zeta.
  assert (Hb : forall b, 0 <= b -> Z.testbit v b = (root_shift nv =? b)).
  { intros b Hb. unfold v, mark_root, new_nodeversion, root_bit. rewrite Z.lor_spec, one_bit by lia. destruct (root_shift nv =? b); [apply orb_true_r|rewrite orb_false_r]. apply Z.bits_0. }
  assert (Hq : quiet nv v).
  { apply Z.bits_inj'. intros b Hb0. rewrite Z.land_spec, (mask_bit nv), Hb by lia.
    destruct (Z.eqb_spec (root_shift nv) b), (Z.leb_spec (vinsert_shift nv) b), (Z.eqb_spec b (unused1_shift nv)), (Z.ltb_spec b (nv_bits nv)); lia || reflexivity. }
  split; [exact Hq|]. split.
  - split; [apply (quiet_idle nv _ Hq)|]. unfold deleted, isleaf, deleted_bit, isleaf_bit. rewrite !test_bit, !Hb by lia. split; apply Z.eqb_neq; lia.
  - unfold has_split, root_bit. rewrite test_bit, Hb, Z.eqb_refl by lia. reflexivity.
Qed.

(** ** One level of finish_split *)

Section Level.
Context (alloc : heap -> nat) (new_ikeys : list Z) (new_children : list internode.ptr).
Hypothesis Halloc : forall h, h !! alloc h = None.
Hypothesis Hnk : length new_ikeys = w.
Hypothesis Hnc : length new_children = S w.
Hypothesis Hw : (1 <= w)%nat.

Lemma new_internode_wf v : internode.wf w (internode.set_v v (new_internode nv new_ikeys new_children)).
Proof. split; [exact Hnk|exact Hnc|cbn; lia]. Qed.

Lemma locked_parent_none st x nd : nodes st !! x = Some nd -> locked nv (tree.version nd) = true -> parent_ st !! x = Some None -> locked_parent nv st x = Some None.
Proof. intros Hx Hl Hp. unfold locked_parent. rewrite Hx. cbn [mbind option_bind]. rewrite Hl, Hp. reflexivity. Qed.
Lemma locked_parent_some st x nd y m : nodes st !! x = Some nd -> locked nv (tree.version nd) = true -> parent_ st !! x = Some (Some y) ->
  nodes st !! y = Some (NInternode m) -> resting false (internode.v_ m) ->
  locked_parent nv st x = Some (Some (y, internode.set_v (Z.lor (internode.v_ m) (lock_bit nv)) m)).
Proof.
  intros Hx Hl Hp Hy (Hq & _ & Hi). unfold locked_parent. rewrite Hx. cbn [mbind option_bind]. rewrite Hl, Hp. cbn [negb mbind option_bind]. rewrite Hy.
  destruct (lock_quiet _ Hq) as [-> ->]. destruct (locked_same nv (internode.v_ m)) as (_ & _ & ->). rewrite Hi. reflexivity.
Qed.

(** What a level leaves for the next one; [i] is the layer. *)
Definition root_moved (ka : key.key) (i : nat) (G' : ghost) (st st' : store) : Prop :=
  root_ st' = root_ st \/ (key.is_shifted ka = false /\ exists pl, own G' !! root_ st' = Some pl /\ pl_lo pl = 0 /\ pl_layer pl = i).

(** The other locked nodes are left alone. *)
Definition others_kept (E : gset nat) (G : ghost) (st : store) (G' : ghost) (st' : store) : Prop :=
  forall x nd, x ∈ E -> nodes st !! x = Some nd -> nodes st' !! x = Some nd /\ own G' !! x = own G !! x.

(** Where finish_split goes from here: it is done; the parent [y] has the new child;
    [y] was cut, its height more than [d], and goes on as the left half. *)
Inductive next_ok (D : nat) (E : gset nat) (i d : nat) (G : ghost) (st : store) : nat -> gset nat -> pending -> option nat -> option (nat * Z) -> Prop :=
| next_root : next_ok D E i d G st (S D) E None None None
| next_room y m pl : y ∉ E -> nodes st !! y = Some (NInternode m) -> own G !! y = Some pl -> taken false (internode.v_ m) ->
    (forall v, unlock nv (internode.v_ m) (internode.v_ m) = Some v -> pl_lo pl = 0 -> has_split nv v = negb (bool_decide (root_of G !! pl_layer pl = Some y))) ->
    next_ok D E i d G st D (E ∪ {[y]}) None (Some y) None
| next_cut y new s' m r pl : y ∉ E -> new ∉ E -> nodes st !! y = Some (NInternode m) -> nodes st !! new = Some (NInternode r) ->
    marked false (internode.v_ m) -> taken false (internode.v_ r) -> own G !! y = Some pl -> pl_layer pl = i -> (d < pl_height pl)%nat ->
    next_ok D E i d G st D (E ∪ {[y; new]}) (Some (y, new, s')) (Some y) (Some (new, s')).

Definition level_ok (D : nat) (E : gset nat) (i d : nat) (ka : key.key) (tab : table) (G : ghost) (st st' : store) (p : option nat) (next : option (nat * Z)) : Prop :=
  exists G' D' E' P', inv D' E' P' G' st' tab /\ upper G st G' st' /\ root_moved ka i G' st st' /\ others_kept E G st G' st' /\
    next_ok D E i d G' st' D' E' P' p next.

Section Step.
Context (D : nat) (E : gset nat) (n c : nat) (s : Z) (G : ghost) (st : store) (tab : table) (ka : key.key) (stype : Z) (nd cd : node) (pn : place).
Hypothesis Hinv : inv D E (Some (n, c, s)) G st tab.
Hypothesis HE : n ∈ E /\ c ∈ E.
Hypothesis Hlive : forall x, x ∈ E -> is_Some (nodes st !! x).
Hypothesis Hnd : nodes st !! n = Some nd.
Hypothesis Hcd : nodes st !! c = Some cd.
Hypothesis Hln : locked nv (tree.version nd) = true /\ isleaf nv (tree.version nd) || splitting nv (tree.version nd) = true.
Hypothesis Hlc : locked nv (tree.version cd) = true.
Hypothesis Hup : forall y, parent_ st !! n = Some (Some y) -> y ∉ E.
Hypothesis Hpn : own G !! n = Some pn.

Abbreviation level := (split_level w nv binary alloc new_ikeys new_children st ka n c s stype).

Lemma level_guard X (k : option X) :
  (if negb (locked nv (tree.version nd) && locked nv (tree.version cd) && (isleaf nv (tree.version nd) || splitting nv (tree.version nd))) then None else k) = k.
Proof. destruct Hln as [-> ->]. rewrite Hlc. reflexivity. Qed.

Lemma level_top : parent_ st !! n = Some None -> exists st', level = Some (st', None, None) /\ level_ok D E (pl_layer pn) (pl_height pn) ka tab G st st' None None.
Proof.
  intros Hp. unfold split_level. rewrite Hnd, Hcd. cbn [mbind option_bind]. rewrite level_guard.
  rewrite (locked_parent_none st n nd Hnd (proj1 Hln) Hp). cbn [mbind option_bind]. set (new := alloc (nodes st)).
  pose proof (Halloc (nodes st)) as Hnew. fold new in Hnew. pose proof (own_fresh _ _ _ _ _ _ _ _ _ _ Hinv Hnew) as Hon.
  destruct (pend_places _ _ _ _ _ _ _ _ Hinv) as (i & d & lo & hi & es & es' & Hn & Hc & Hpc & _).
  destruct (internode.new_root_ok w nv new (new_internode nv new_ikeys new_children) n c s (<[new := None]> (parent_ st)) Hw (new_internode_wf _)) as (nn & -> & Hwf & Hv & Hk & Hch).
  { rewrite lookup_insert_eq. eauto. }
  { rewrite lookup_insert_ne by congruence. eauto. }
  { rewrite lookup_insert_ne by congruence. eauto. }
  cbn [mbind option_bind]. eexists. split; [reflexivity|]. set (st1 := put_node new (NInternode nn) _).
  assert (H : exists i d, inv (S D) E None (raise new i (S d) G) (if key.is_shifted ka then st1 else put_root new st1) tab /\
    upper G st (raise new i (S d) G) (if key.is_shifted ka then st1 else put_root new st1) /\ (exists pl, own G !! n = Some pl /\ pl_layer pl = i)).
  { apply (new_root_inv D E n c s G st _ tab new nn Hinv HE Hp Hnew Hwf Hk Hch); [rewrite Hv; apply new_internode_version|destruct (key.is_shifted ka); reflexivity..]. }
  destruct H as (i0 & d0 & Hi & Hu & (pl & Hn1 & <-)). rewrite Hpn in Hn1. injection Hn1 as <-. exists (raise new (pl_layer pn) (S d0) G), (S D), E, None. split; [exact Hi|]. split; [exact Hu|]. split; [|split; [|constructor]].
  - unfold root_moved. destruct (key.is_shifted ka); [left; reflexivity|right]. split; [reflexivity|]. eexists. cbn. split; [apply lookup_insert_eq|]. auto.
  - intros x ndx _ Hx. assert (x <> new) by congruence. split.
    + destruct (key.is_shifted ka); cbn; rewrite lookup_insert_ne by congruence; exact Hx.
    + cbn. apply lookup_insert_ne. congruence.
Qed.

Lemma level_parent y : parent_ st !! n = Some (Some y) -> exists st' next, level = Some (st', Some y, next) /\ level_ok D E (pl_layer pn) (pl_height pn) ka tab G st st' (Some y) next.
Proof.
  intros Hp. destruct (pend_parent _ _ _ _ _ _ _ _ y Hinv Hp) as (m & pl & cs & j & Hm & Hy & Hwf & Ecs & Hcc & Hps & Hj & HjK & Hk & (pn' & Hn & El & Hd)).
  rewrite Hpn in Hn. injection Hn as <-. pose proof (Hup y Hp) as HyE.
  destruct (iv_good _ _ _ _ _ _ _ _ _ Hinv y pl _ HyE Hy Hm) as [[Hq (_ & Hdel & Hil)] Hbit]. cbn [tree.version] in Hbit.
  assert (Hrest : resting false (internode.v_ m)) by (split; auto).
  unfold split_level. rewrite Hnd, Hcd. cbn [mbind option_bind]. rewrite level_guard.
  rewrite (locked_parent_some st n nd y m Hnd (proj1 Hln) Hp Hm Hrest). cbn [mbind option_bind]. set (new := alloc (nodes st)). set (vl := Z.lor (internode.v_ m) (lock_bit nv)).
  set (p := internode.set_v vl m). set (ps := if decide _ then _ else _).
  pose proof (Halloc (nodes st)) as Hnew. fold new in Hnew. pose proof (own_fresh _ _ _ _ _ _ _ _ _ _ Hinv Hnew) as Hon.
  destruct (pend_places _ _ _ _ _ _ _ _ Hinv) as (i & d & lo & hi & es & es' & Hn & Hc & Hpc & _).
  assert (Hpsx : forall x, x <> new -> ps !! x = parent_ st !! x) by (intros x Hx; unfold ps; destruct (decide _); [reflexivity|rewrite lookup_insert_ne by congruence; reflexivity]).
  pose proof Hk as (Hks & _). rewrite ins_bounds in Hks by exact HjK.
  assert (Hks' : sorted (ins j s (internode.keys m))) by (eapply kids_sorted, Hk).
  destruct (sorted_ins_inv _ _ _ HjK Hks') as (HsK & HsN & Hlt & Hgt).
  assert (Hcs : forall x, x ∈ cs -> x <> new).
  { intros x Hx ->. destruct (kids_child _ _ _ _ _ _ _ new Hk) as (? & ? & ? & ? & Ho & _); [apply elem_of_ins; auto|]. congruence. }
  destruct (internode.insert_into_parent_ok w nv binary y p new (new_internode nv new_ikeys new_children) s c stype ps Hw) as (kp & Hkp & Hle & Hgt' & Hsort & Hres);
    [destruct Hwf; split; assumption|apply (new_internode_wf (new_nodeversion nv false))|exact HsK|exact HsN| | | | |].
  { apply Forall_drop. change (internode.children p) with (internode.children m). rewrite Ecs. apply Forall_fmap, Forall_forall. intros x Hx. exists x. split; [reflexivity|]. rewrite Hpsx, Hps by auto. eauto. }
  { rewrite Hpsx by congruence. eauto. }
  { change (internode.children p) with (internode.children m). rewrite Ecs, list_elem_of_fmap. intros (x & [= <-] & Hx). contradiction. }
  { apply (taken_locked false). exists (internode.v_ m). split; [exact Hrest|left; reflexivity]. }
  change (internode.keys p) with (internode.keys m) in *. change (internode.children p) with (internode.children m) in *. change (internode.nkeys_ p) with (internode.nkeys_ m) in *.
  assert (HlK : length (internode.keys m) = internode.nkeys_ m) by (destruct Hwf; unfold internode.keys; rewrite length_take; lia).
  assert (kp = j) as -> by (eapply position_unique; [..|exact Hlt|exact Hgt]; try eassumption; lia).
  assert (Efm : ins (S j) (Some c) (internode.children m) = Some <$> ins (S j) c cs) by (rewrite Ecs, fmap_ins; reflexivity). rewrite Efm in Hres. change (internode.size p) with (internode.nkeys_ m) in ps.
  destruct (decide (internode.nkeys_ m < w)%nat).
  - destruct Hres as (m' & -> & Hwf' & Hv & Hk' & Hch). cbn [mbind option_bind]. eexists _, None. split; [reflexivity|].
    set (st1 := put_node y (NInternode m') _).
    destruct (attach_inv D E n c y s G st st1 tab m m' pl cs j Hinv Hp Hm Hy Ecs Hps Hk Hwf' Hk' Hch eq_refl eq_refl eq_refl) as [Hi Hu].
    exists G, D, (E ∪ {[y]}), None. split; [exact Hi|]. split; [exact Hu|]. split; [left; reflexivity|]. split; [|apply (next_room _ _ _ _ _ _ y m' pl); [exact HyE|apply lookup_insert_eq|exact Hy| |]].
    + intros x ndx Hx Hxn. split; [|reflexivity]. cbn. rewrite lookup_insert_ne by (intros ->; contradiction). exact Hxn.
    + exists (internode.v_ m). split; [exact Hrest|]. right. exact Hv.
    + intros v Hv' Hl. rewrite <- (Hbit Hl). destruct (unlock_held nv (internode.v_ m) (internode.v_ m') Hq) as (v2 & E2 & _ & Hsp & _); [right; exact Hv|].
      rewrite Hv' in E2. injection E2 as ->. exact Hsp.
  - destruct Hres as (m' & s' & r & ps' & -> & Hwl & Hwr & Hvl & Hvr & _ & HK & HC & Hre). cbn [mbind option_bind]. eexists _, (Some (new, s')). split; [reflexivity|].
    apply fmap_app_inv in HC as (cl & cr & Hcl & Hcr & Hall).
    set (st1 := put_node new (NInternode r) _).
    pose proof (overflow_inv D E n c y new s s' G st st1 tab m m' r pl cs cl cr j Hinv Hp Hm Hy Ecs Hps Hk Hnew (conj Hwl Hwr) HK Hcl Hcr Hall eq_refl Hre eq_refl) as Hi.
    assert (Hu : upper G st (cut_ghost y new pl s' G) st1).
    { eapply overflow_upper. all: try eassumption. all: try reflexivity. split; assumption. }
    assert (Hyn : y <> new) by congruence.
    assert (Hyo : own (cut_ghost y new pl s' G) !! y = Some (mkPlace (pl_layer pl) (pl_height pl) (pl_lo pl) s' (pl_entries pl))) by (eapply cut_left with (e0 := pl_entries pl); [destruct pl; exact Hy|exact Hon]).
    eexists _, D, _, _. split; [exact Hi|]. split; [exact Hu|]. split; [left; reflexivity|].
    split; [|eapply (next_cut _ _ _ _ _ _ y new s' m' r); [exact HyE| | | | | |exact Hyo|cbn; congruence|exact Hd]].
    + intros x ndx Hx Hxn. assert (x <> y /\ x <> new) as [Hxy Hxw] by (split; congruence). split; [cbn; rewrite !lookup_insert_ne by congruence; exact Hxn|apply cut_other; assumption].
    + intros H. destruct (Hlive new H). congruence.
    + cbn. rewrite lookup_insert_ne by congruence. apply lookup_insert_eq.
    + cbn. apply lookup_insert_eq.
    + exists vl. split; [exists (internode.v_ m); split; [exact Hrest|left; reflexivity]|exact Hvl].
    + destruct (nonroot_held nv _ Hq) as (Hq' & Ev & _ & Hdel' & Hil'). exists (mark_nonroot nv (internode.v_ m)). split; [split; [exact Hq'|split; congruence]|]. left. rewrite Hvr. exact Ev.
Qed.

Lemma level_total : exists st' p next, level = Some (st', p, next) /\ level_ok D E (pl_layer pn) (pl_height pn) ka tab G st st' p next.
Proof.
  destruct (iv_place _ _ _ _ _ _ _ _ _ Hinv n pn Hpn) as (_ & _ & _ & [[y|] Hp] & _).
  - destruct (level_parent y Hp) as (st' & next & H). eauto.
  - destruct (level_top Hp) as (st' & H). eauto.
Qed.
End Step.

(** ** Unlocking *)

Lemma not_root D E P G st tab x i d lo hi es : inv D E P G st tab -> own G !! x = Some (mkPlace i d lo hi es) -> hi < 2 ^ 64 ->
  (forall n c k, P = Some (n, c, k) -> x <> n) -> root_of G !! i <> Some x.
Proof.
  intros Hi Hx Hhi HP Hr. pose proof (iv_root _ _ _ _ _ _ _ _ _ Hi i x Hr) as H. unfold root_place in H. destruct P as [[[n c] k]|].
  - rewrite decide_False in H by (eapply HP; reflexivity). destruct H as (d' & es' & H). rewrite Hx in H. injection H as _ _ -> _. lia.
  - destruct H as (d' & es' & H). rewrite Hx in H. injection H as _ _ -> _. lia.
Qed.

(** Only nodes of [X] are written, and stay leaves or interior nodes with the children they had. *)
Definition touched (X : gset nat) (st st' : store) : Prop :=
  (forall x, x ∉ X -> nodes st' !! x = nodes st !! x) /\ parent_ st' = parent_ st /\ links st' = links st /\ root_ st' = root_ st.
Lemma touched_trans X Y st1 st2 st3 : touched X st1 st2 -> touched Y st2 st3 -> touched (X ∪ Y) st1 st3.
Proof. intros (A1 & A2 & A3 & A4) (B1 & B2 & B3 & B4). split; [|split; [|split]; congruence]. intros x Hx. rewrite B1, A1 by set_solver. reflexivity. Qed.
Lemma touched_mono X Y st st' : touched X st st' -> X ⊆ Y -> touched Y st st'.
Proof. intros (H1 & H2) HXY. split; [|exact H2]. intros x Hx. apply H1. set_solver. Qed.
Lemma touched_put x nd st : touched {[x]} st (put_node x nd st).
Proof. split; [|auto]. intros y Hy. cbn. rewrite lookup_insert_ne by set_solver. reflexivity. Qed.

Lemma upper_put G st x m m' : nodes st !! x = Some (NInternode m) -> upper G st G (put_node x (NInternode m') st).
Proof.
  intros Hx. split; try reflexivity; try tauto; [|eauto]. intros y k. cbn.
  destruct (decide (x = y)) as [<-|Hy]; [rewrite lookup_insert_eq, Hx; split; discriminate|rewrite lookup_insert_ne by exact Hy; reflexivity].
Qed.

Lemma unlock_internode D E P G st tab x m v pl : inv D E P G st tab -> nodes st !! x = Some (NInternode m) -> own G !! x = Some pl ->
  unlock nv (internode.v_ m) (internode.v_ m) = Some v -> resting false v -> (pl_lo pl = 0 -> has_split nv v = negb (bool_decide (root_of G !! pl_layer pl = Some x))) ->
  exists st', unlock_node nv x st = Some st' /\ inv D (E ∖ {[x]}) P G st' tab /\ upper G st G st' /\ touched {[x]} st st'.
Proof.
  intros Hi Hx Ho Hv Hr Hb. unfold unlock_node. rewrite Hx. cbn [mbind option_bind tree.version]. rewrite Hv. cbn [mbind option_bind set_version].
  eexists. split; [reflexivity|]. split; [|split; [eapply upper_put, Hx|apply touched_put]].
  assert (Hs : same_shape w (NInternode m) (NInternode (internode.set_v v m))).
  { destruct (iv_place _ _ _ _ _ _ _ _ _ Hi x pl Ho) as (_ & _ & _ & _ & _ & Hp). unfold placed in Hp. rewrite Hx in Hp.
    destruct Hp as ([H1 H2 H3] & _). split; [split; assumption|]. split; reflexivity. }
  eapply (inv_mono width w nv Hwidth); [eapply (inv_rest width w nv Hwidth) with (E := E ∪ {[x]}) (x := x); [eapply (inv_node width w nv Hwidth); eassumption|]|lia|set_solver].
  intros pl' nd Ho' Hn. cbn in Hn. rewrite lookup_insert_eq in Hn. injection Hn as <-. rewrite Ho in Ho'. injection Ho' as <-.
  split; [split; [apply Hr|apply resting_rest, Hr]|exact Hb].
Qed.

(** A node that has been cut is no root any more, its right half has no mark to keep. *)
Lemma unlock_cut D E P G st tab x m i d lo hi es : inv D E P G st tab -> nodes st !! x = Some (NInternode m) -> own G !! x = Some (mkPlace i d lo hi es) ->
  (marked false (internode.v_ m) /\ hi < 2 ^ 64 /\ (forall n c k, P = Some (n, c, k) -> x <> n)) \/ (taken false (internode.v_ m) /\ 0 < lo) ->
  exists st', unlock_node nv x st = Some st' /\ inv D (E ∖ {[x]}) P G st' tab /\ upper G st G st' /\ touched {[x]} st st'.
Proof.
  intros Hi Hx Ho [(Hm & Hhi & HP)|[Ht Hlo]].
  - destruct (marked_unlock _ _ Hm) as (v & Ev & Hr & Hs). eapply unlock_internode; try eassumption. intros _. cbn. rewrite bool_decide_false by (eapply not_root; eassumption). exact Hs.
  - destruct (taken_unlock _ _ Ht) as (v & Ev & Hr). eapply unlock_internode; try eassumption. cbn. lia.
Qed.

(** ** The levels above the leaves *)

Section Loop.
Context (ka : key.key) (tab : table) (D : nat) (stype : Z) (n_ : nat) (ki kp : Z).
Abbreviation loop := (split_loop width w nv binary mem alloc new_ikeys new_children).

(** The nodes that stay locked are leaves; the loop ends with only them locked. *)
Definition leaves_only (E : gset nat) (st : store) : Prop := forall x, x ∈ E -> exists k, nodes st !! x = Some (NLeaf k).
Definition completed (E : gset nat) (i : nat) (G : ghost) (st : store) (r : option (store * nat * Z * Z)) : Prop :=
  exists st' G', r = Some (st', n_, ki, kp) /\ inv (S D) E None G' st' tab /\ upper G st G' st' /\ root_moved ka i G' st st'.

Definition loop_at (fuel : nat) : Prop := forall E G st n c s m r pn,
  inv D (E ∪ {[n; c]}) (Some (n, c, s)) G st tab -> leaves_only E st -> n_ ∈ E ->
  nodes st !! n = Some (NInternode m) -> nodes st !! c = Some (NInternode r) -> marked false (internode.v_ m) -> taken false (internode.v_ r) ->
  own G !! n = Some pn -> (D - pl_height pn < fuel)%nat -> completed E (pl_layer pn) G st (loop fuel st ka n c s stype n_ ki kp).

Lemma root_moved_trans i G1 st st1 G' st' : root_moved ka i G1 st st1 -> upper G1 st1 G' st' -> root_moved ka i G' st1 st' -> root_moved ka i G' st st'.
Proof.
  intros H1 Hu [H2|H2]; [|right; exact H2]. destruct H1 as [H1|(Hs & pl & Hr & Hlo & El)]; [left; congruence|right]. split; [exact Hs|].
  destruct (up_place _ _ _ _ Hu _ pl Hr) as (pl' & Hr' & El' & Hlo'). rewrite H2. exists pl'. split; [exact Hr'|]. split; congruence.
Qed.
Lemma completed_after E i G st G1 st1 r : upper G st G1 st1 -> root_moved ka i G1 st st1 -> completed E i G1 st1 r -> completed E i G st r.
Proof.
  intros Hu Hr (st' & G' & E' & Hi & Hu' & Hm). exists st', G'. split; [exact E'|]. split; [exact Hi|]. split; [eapply upper_trans; eassumption|].
  eapply root_moved_trans; eassumption.
Qed.

(** After the two halves of a level have been unlocked. *)
Lemma tail_ok fuel E i d G st D' E' P' p next : loop_at fuel -> inv D' E' P' G st tab -> next_ok D E i d G st D' E' P' p next ->
  leaves_only E st -> n_ ∈ E -> (D - d <= fuel)%nat ->
  completed E i G st
    (match next, p with
     | Some (c, split_ikey), Some p => loop fuel st ka p c split_ikey stype n_ ki kp
     | _, Some p => st ← unlock_node nv p st; Some (st, n_, ki, kp)
     | _, None => Some (st, n_, ki, kp)
     end).
Proof.
  intros IH Hi Hn Hl Hin Hf. destruct Hn as [|y m pl Hy Hm Ho Ht Hb|y new s' m r pl Hy Hnew Hm Hr Hmk Htk Ho El Hd].
  - exists st, G. split; [reflexivity|]. split; [exact Hi|]. split; [apply upper_refl|]. left. reflexivity.
  - destruct (taken_unlock _ _ Ht) as (v & Ev & Hr). destruct (unlock_internode _ _ _ _ _ _ y m v pl Hi Hm Ho Ev Hr (Hb v Ev)) as (st' & E0 & Hi' & Hu & (_ & _ & _ & Hroot)).
    rewrite E0. cbn [mbind option_bind]. exists st', G. split; [reflexivity|]. split; [eapply (inv_mono width w nv Hwidth); [exact Hi'|lia|set_solver]|]. split; [exact Hu|]. left. exact Hroot.
  - rewrite <- El. eapply IH; try eassumption. destruct (iv_place _ _ _ _ _ _ _ _ _ Hi y pl Ho) as (_ & _ & Hh & _). lia.
Qed.

(** Nothing else changes when nodes that [next_ok] does not mention are written. *)
Lemma next_touched E X i d G st st' D' E' P' p next : next_ok D (E ∪ X) i d G st D' E' P' p next -> touched (E ∪ X) st st' -> inv D' (E' ∖ X) P' G st' tab -> E ∩ X ≡ ∅ ->
  exists E'', next_ok D E i d G st' D' E'' P' p next /\ inv D' E'' P' G st' tab.
Proof.
  intros Hn (Ht & _) Hi Hd. assert (Hmono : forall E1, E' ∖ X ⊆ E1 -> inv D' E1 P' G st' tab) by (intros E1 H1; eapply (inv_mono width w nv Hwidth); [exact Hi|lia|exact H1]).
  destruct Hn as [|y m pl Hy Hm Ho Hk Hb|y new s' m r pl Hy Hnew Hm Hr Hmk Htk Ho El Hh].
  - exists E. split; [constructor|]. apply Hmono. set_solver.
  - exists (E ∪ {[y]}). split; [eapply next_room; try eassumption; [set_solver|rewrite Ht by set_solver; exact Hm]|]. apply Hmono. set_solver.
  - exists (E ∪ {[y; new]}). split; [|apply Hmono; set_solver]. eapply next_cut; try eassumption; [set_solver|set_solver|rewrite Ht by set_solver; exact Hm|rewrite Ht by set_solver; exact Hr].
Qed.

Lemma next_pending E i d G st D' E' P' p next a b k : next_ok D E i d G st D' E' P' p next -> P' = Some (a, b, k) -> a ∉ E.
Proof. intros Hn EP. destruct Hn; [discriminate..|]. injection EP as <- <- <-. assumption. Qed.

Lemma leaves_upper E G st G' st' : upper G st G' st' -> leaves_only E st -> leaves_only E st'.
Proof. intros Hu H x Hx. destruct (H x Hx) as [k Hk]. exists k. apply (up_leaf _ _ _ _ Hu), Hk. Qed.

(** The parent of a node that is cut is not one of the locked nodes. *)
Lemma parent_free E G st n c s y : inv D (E ∪ {[n; c]}) (Some (n, c, s)) G st tab -> leaves_only E st -> parent_ st !! n = Some (Some y) -> y ∉ E ∪ {[n; c]}.
Proof.
  intros Hi Hl Hp. destruct (pend_parent _ _ _ _ _ _ _ _ y Hi Hp) as (m & pl & cs & j & Hm & Hy & _ & _ & _ & _ & _ & _ & _ & (pn & Hn & _ & Hd)).
  destruct (pend_places _ _ _ _ _ _ _ _ Hi) as (i & d & lo & hi & es & es' & Hn' & Hc & _). rewrite Hn in Hn'. injection Hn' as ->. cbn in Hd.
  rewrite elem_of_union, elem_of_union, !elem_of_singleton. intros [Hx|[-> | ->]].
  - destruct (Hl y Hx). congruence.
  - rewrite Hn in Hy. injection Hy as <-. cbn in Hd. lia.
  - rewrite Hc in Hy. injection Hy as <-. cbn in Hd. lia.
Qed.

Lemma loop_ok fuel : loop_at fuel.
Proof.
  induction fuel as [|fuel IH]; intros E G st n c s m r pn Hi Hl Hin Hm Hr Hmk Htk Ho Hf; [lia|]. cbn [split_loop].
  destruct (pend_places _ _ _ _ _ _ _ _ Hi) as (i & d & lo & hi & es & es' & Hn & Hc & _ & Hlo & Hhi & Hne). rewrite Ho in Hn. injection Hn as ->. cbn [pl_layer pl_height] in *.
  assert (HnE : n ∉ E /\ c ∉ E) by (split; intros H; destruct (Hl _ H); congruence).
  destruct (level_total D (E ∪ {[n; c]}) n c s G st tab ka stype (NInternode m) (NInternode r) (mkPlace i d lo s es) Hi) as (st1 & p & next & E1 & (G1 & D1 & F1 & P1 & Hi1 & Hu1 & Hr1 & Hk1 & Hn1)).
  all: try assumption.
  { split; set_solver. }
  { intros x Hx. rewrite elem_of_union, elem_of_union, !elem_of_singleton in Hx. destruct Hx as [Hx|[->| ->]]; [destruct (Hl x Hx)|..]; eauto. }
  { destruct (marked_locked _ _ Hmk) as [H1 H2]. cbn. rewrite H1, H2. split; [reflexivity|apply orb_true_r]. }
  { apply (taken_locked _ _ Htk). }
  { intros y. apply (parent_free E G st n c s y Hi Hl). }
  rewrite E1. cbn [mbind option_bind]. destruct (Hk1 n _ ltac:(set_solver) Hm) as [Hm1 Hon], (Hk1 c _ ltac:(set_solver) Hr) as [Hr1' Hoc]. rewrite Ho in Hon. rewrite Hc in Hoc.
  rewrite Hm1. cbn [mbind option_bind]. assert (n <> n_ /\ c <> n_) as [Hn_ Hc_] by (split; intros <-; tauto).
  rewrite decide_False by exact Hn_.
  destruct (unlock_cut _ _ _ _ _ _ n m i d lo s es Hi1 Hm1 Hon) as (st2 & -> & Hi2 & Hu2 & Ht2).
  { left. split; [exact Hmk|]. split; [lia|]. intros a b k EP. pose proof (next_pending _ _ _ _ _ _ _ _ _ _ _ _ _ Hn1 EP). set_solver. }
  cbn [mbind option_bind]. rewrite decide_False by exact Hc_.
  assert (Hr2 : nodes st2 !! c = Some (NInternode r)) by (destruct Ht2 as [H _]; rewrite H by set_solver; exact Hr1').
  destruct (unlock_cut _ _ _ _ _ _ c r i d s hi es' Hi2 Hr2 Hoc) as (st3 & -> & Hi3 & Hu3 & Ht3).
  { right. split; [exact Htk|lia]. }
  cbn [mbind option_bind]. assert (Ht : touched (E ∪ {[n; c]}) st1 st3) by (eapply touched_mono; [eapply touched_trans; eassumption|set_solver]).
  destruct (next_touched E {[n; c]} i d G1 st1 st3 D1 F1 P1 p next Hn1 Ht) as (F2 & Hn2 & Hi4).
  { eapply (inv_mono width w nv Hwidth); [exact Hi3|lia|set_solver]. }
  { set_solver. }
  assert (Hu : upper G st G1 st3) by (eapply upper_trans; [exact Hu1|eapply upper_trans; eassumption]).
  eapply completed_after; [exact Hu| |].
  - destruct Ht as (_ & _ & _ & Hroot). unfold root_moved in *. rewrite Hroot. exact Hr1.
  - eapply tail_ok; [exact IH|exact Hi4|exact Hn2|eapply leaves_upper; eassumption|exact Hin|lia].
Qed.
End Loop.

(** ** The leaves at the lowest level *)

Lemma taken_unlocks x : taken true x -> exists hs, unlocks nv hs x.
Proof. intros Ht. destruct (taken_unlock _ _ Ht) as (v & E & Hq & Hd & Hi). exists (has_split nv v), v. auto 6. Qed.
Lemma marked_unlocks x : marked true x -> unlocks nv true x.
Proof. intros Ht. destruct (marked_unlock _ _ Ht) as (v & E & (Hq & Hd & Hi) & Hs). exists v. auto 6. Qed.

(** A leaf is unlocked and fits its place. *)
Lemma unlock_good D E P G st tab x n pl hs l f : inv D E P G st tab -> nodes st !! x = Some (NLeaf n) -> own G !! x = Some pl ->
  held_leaf width nv (prev_ st) x (pl_lo pl) (pl_entries pl) hs n l f f -> in_range (pl_lo pl) (pl_hi pl) (pl_entries pl) ->
  (pl_lo pl = 0 -> hs = negb (bool_decide (root_of G !! pl_layer pl = Some x))) ->
  exists st', unlock_node nv x st = Some st' /\ inv D (E ∖ {[x]}) P G st' tab /\ touched {[x]} st st' /\ (exists n', unlock_leaf nv n (leaf.v_ n) = Some n' /\ st' = put_leaf x n' st).
Proof.
  intros Hi Hx Ho Hhl Hr Hb. destruct (heldleaf.held_unlock width nv _ _ _ _ _ _ _ _ Hhl) as (n' & E' & Hg & Hs). unfold unlock_node. rewrite Hx. cbn [mbind option_bind tree.version].
  pose proof E' as E''. unfold unlock_leaf in E''. destruct (unlock nv (leaf.v_ n) (leaf.v_ n)) as [v|]; [|discriminate]. cbn [mbind option_bind] in *. injection E'' as <-.
  eexists. split; [reflexivity|]. split; [|split; [apply touched_put|eauto]].
  eapply (inv_mono width w nv Hwidth); [eapply (inv_rest width w nv Hwidth) with (E := E ∪ {[x]}) (x := x); [eapply (inv_node width w nv Hwidth); [exact Hi|exact Hx|exact I]|]|lia|set_solver].
  intros pl' nd Ho' Hn. cbn in Hn. rewrite lookup_insert_eq in Hn. injection Hn as <-. rewrite Ho in Ho'. injection Ho' as <-. split; [split; [exact Hg|exact Hr]|].
  intros Hl. cbn [tree.version]. rewrite Hs. apply Hb, Hl.
Qed.

Lemma leaf_level D E P G st tab q c s n nr nl moved ki kp hs es e1 e2 lo hi i d ka (n_ := if moved : bool then c else q) (x := if moved : bool then q else c)
    (st0 := put_leaf c nr (put_leaf q nl st)) :
  inv D E P G st tab -> q ∈ E -> c ∈ E -> q <> c -> nodes st !! q = Some (NLeaf n) -> nodes st !! c = Some (NLeaf nr) ->
  own G !! q = Some (mkPlace i d lo s e1) -> own G !! c = Some (mkPlace i d s hi e2) -> 0 <= lo -> hi <= 2 ^ 64 -> (forall a b k, P = Some (a, b, k) -> q <> a) ->
  halves width nv mem es ka lo hi (prev_ st) q c hs s nl nr moved ki kp e1 e2 ->
  exists st', ((if decide (q = n_) then Some st0 else unlock_node nv q st0) ≫= (fun st => if decide (c = n_) then Some st else unlock_node nv c st)) = Some st' /\
    inv D (E ∖ {[x]}) P G st' tab /\ touched {[q; c]} st st' /\ nodes st' !! n_ = Some (NLeaf (if moved then nr else nl)).
Proof.
  intros Hi HqE HcE Hne Hq Hc Hoq Hoc Hlo Hhi HP (_ & Hs & Hr1 & Hr2 & Hh).
  assert (Ht0 : touched {[q; c]} st st0) by (eapply touched_mono; [eapply touched_trans; apply touched_put|set_solver]).
  assert (Hi0 : inv D E P G st0 tab).
  { eapply (inv_mono width w nv Hwidth); [eapply (inv_node width w nv Hwidth) with (E := E ∪ {[q]}) (nd := NLeaf nr); [eapply (inv_node width w nv Hwidth); [exact Hi|exact Hq|exact I]| |exact I]|lia|set_solver].
    cbn. rewrite lookup_insert_ne by exact Hne. exact Hc. }
  assert (Hq0 : nodes st0 !! q = Some (NLeaf nl)) by (cbn; rewrite lookup_insert_ne by congruence; apply lookup_insert_eq).
  assert (Hc0 : nodes st0 !! c = Some (NLeaf nr)) by (cbn; apply lookup_insert_eq).
  destruct moved; unfold n_, x in *; clear n_ x.
  - destruct Hh as ((l & f & Hhl) & _). rewrite decide_False by exact Hne.
    destruct (unlock_good _ _ _ _ _ _ q nl _ true l f Hi0 Hq0 Hoq Hhl Hr1) as (st' & -> & Hi' & Ht' & _).
    { intros _. cbn. rewrite bool_decide_false; [reflexivity|]. eapply not_root; [exact Hi0|exact Hoq|lia|]. intros a b k EP. eapply HP, EP. }
    cbn [mbind option_bind]. rewrite decide_True by reflexivity. exists st'. split; [reflexivity|]. split; [exact Hi'|].
    split; [eapply touched_mono; [eapply touched_trans; eassumption|set_solver]|]. destruct Ht' as [Ht' _]. rewrite Ht' by set_solver. exact Hc0.
  - destruct Hh as (_ & (l & f & Hhl) & _). rewrite decide_True by reflexivity. cbn [mbind option_bind]. rewrite decide_False by congruence.
    destruct (unlock_good _ _ _ _ _ _ c nr _ hs l f Hi0 Hc0 Hoc Hhl Hr2) as (st' & -> & Hi' & Ht' & _).
    { cbn. lia. }
    exists st'. split; [reflexivity|]. split; [exact Hi'|]. split; [eapply touched_mono; [eapply touched_trans; eassumption|set_solver]|]. destruct Ht' as [Ht' _]. rewrite Ht' by set_solver. exact Hq0.
Qed.

Definition places_kept (G G' : ghost) : Prop := forall x px, own G !! x = Some px -> exists px', own G' !! x = Some px' /\ pl_layer px' = pl_layer px /\ pl_lo px' = pl_lo px.

Lemma loop_leaf fuel D G st tab q c s n nr nl stype moved p ki kp hs es e1 e2 lo hi i d ka (n_ := if moved : bool then c else q) :
  inv D {[q; c]} (Some (q, c, s)) G st tab -> nodes st !! q = Some (NLeaf n) -> nodes st !! c = Some (NLeaf nr) ->
  taken true (leaf.v_ n) -> leaf.v_ nr = leaf.v_ n -> own G !! q = Some (mkPlace i d lo s e1) -> own G !! c = Some (mkPlace i d s hi e2) ->
  leaf.finish_leaf_split width nv mem n nr stype p ka = Some (nl, nr, moved, ki, kp) -> halves width nv mem es ka lo hi (prev_ st) q c hs s nl nr moved ki kp e1 e2 ->
  (D - d <= fuel)%nat ->
  exists st' G', split_loop width w nv binary mem alloc new_ikeys new_children (S fuel) st ka q c s stype q p (-1) = Some (st', n_, ki, kp) /\
    inv (S D) {[n_]} None G' st' tab /\ nodes st' !! n_ = Some (NLeaf (if moved then nr else nl)) /\ own G' !! n_ = own G !! n_ /\ places_kept G G' /\
    links st' = links st /\ root_moved ka i G' st st'.
Proof.
  intros Hi Hq Hc Ht Hv Hoq Hoc Ef Hh Hf. destruct (pend_places _ _ _ _ _ _ _ _ Hi) as (i' & d' & lo' & hi' & es1 & es2 & Hoq' & Hoc' & _ & Hlo & Hhi & Hne).
  rewrite Hoq in Hoq'. rewrite Hoc in Hoc'. injection Hoq' as <- <- <- <-. injection Hoc' as <- <-.
  destruct (taken_locked _ _ Ht) as [Hl Hil].
  destruct (level_total D {[q; c]} q c s G st tab ka stype (NLeaf n) (NLeaf nr) (mkPlace i d lo s e1) Hi) as (st1 & p1 & next & E1 & (G1 & D1 & F1 & P1 & Hi1 & Hu1 & Hr1 & Hk1 & Hn1)).
  { split; set_solver. }
  { intros x Hx. rewrite elem_of_union, !elem_of_singleton in Hx. destruct Hx as [-> | ->]; eauto. }
  all: try assumption.
  { cbn. rewrite Hl, Hil. auto. }
  { cbn. congruence. }
  { intros y Hy Hin. apply (parent_free tab D ∅ G st q c s y); [rewrite (left_id_L ∅ _); exact Hi|intros x Hx; set_solver|exact Hy|set_solver]. }
  cbn [split_loop]. rewrite E1. cbn [mbind option_bind].
  destruct (Hk1 q _ ltac:(set_solver) Hq) as [Hq1 Hoq1], (Hk1 c _ ltac:(set_solver) Hc) as [Hc1 Hoc1]. rewrite Hq1, Hc1, Ef. cbn [mbind option_bind]. fold n_.
  assert (HF : {[q; c]} ⊆ F1) by (destruct Hn1; set_solver).
  assert (Hpv : prev_ st1 = prev_ st) by (eapply upper_prev, Hu1).
  destruct (leaf_level D1 F1 P1 G1 st1 tab q c s n nr nl moved ki kp hs es e1 e2 lo hi i d ka Hi1) as (st2 & E2 & Hi2 & Ht2 & Hn_); try assumption; try congruence; try lia.
  { set_solver. }
  { set_solver. }
  { intros a b k EP. pose proof (next_pending _ _ _ _ _ _ _ _ _ _ _ _ _ _ Hn1 EP). set_solver. }
  fold n_ in E2, Hn_. apply bind_Some in E2 as (st1' & E2 & E3). rewrite E2. cbn [mbind option_bind]. rewrite E3. cbn [mbind option_bind].
  set (x := if moved then q else c) in *. assert (Hset : {[q; c]} = {[n_]} ∪ {[x]} :> gset nat) by (unfold n_, x; destruct moved; set_solver).
  rewrite Hset in Hn1, Ht2.
  destruct (next_touched tab D {[n_]} {[x]} i d G1 st1 st2 D1 F1 P1 p1 next Hn1 Ht2 Hi2) as (F2 & Hn2 & Hi3); [unfold n_, x; destruct moved; set_solver|].
  destruct (tail_ok ka tab D stype n_ ki kp fuel {[n_]} i d G1 st2 D1 F2 P1 p1 next (loop_ok ka tab D stype n_ ki kp fuel) Hi3 Hn2) as (st3 & G3 & E4 & Hi4 & Hu4 & Hm4);
    [intros y Hy; apply elem_of_singleton in Hy as ->; eauto|set_solver|exact Hf|].
  exists st3, G3. split; [exact E4|]. split; [exact Hi4|]. split; [apply (up_leaf _ _ _ _ Hu4), Hn_|]. split; [rewrite (up_own _ _ _ _ Hu4 n_ _ Hn_); unfold n_; destruct moved; assumption|].
  destruct Ht2 as (_ & _ & Hlk & Hroot). split; [|split; [rewrite (up_links _ _ _ _ Hu4), Hlk; apply (up_links _ _ _ _ Hu1)|]].
  - intros y py Hy. destruct (up_place _ _ _ _ Hu1 y py Hy) as (p2 & Hy2 & El2 & Elo2), (up_place _ _ _ _ Hu4 y p2 Hy2) as (p3 & Hy3 & El3 & Elo3). exists p3. split; [exact Hy3|]. split; congruence.
  - eapply root_moved_trans; [|exact Hu4|exact Hm4]. unfold root_moved in *. rewrite Hroot. exact Hr1.
Qed.

(** ** finish_split *)

Context (fresh : list leaf.slot).
Hypothesis Hfresh : Z.of_nat (length fresh) = width.
Hypothesis Hwide : 11 <= width.

(** A full leaf that the cursor has locked, where the key belongs at position [p]. *)
Record full_leaf (st : store) (q : nat) (pl : place) (n : leaf.leaf) (l f : list Z) (p : nat) (ka : key.key) : Prop := {
  fl_node : nodes st !! q = Some (NLeaf n);
  fl_rep : leaf.rep width n l f;
  fl_contents : leaf.contents width n = pl_entries pl;
  fl_sorted : heldleaf.rsorted (pl_entries pl);
  fl_len : Forall (fun e => 0 <= e.1.1.2) (pl_entries pl);
  fl_keylen : 0 <= (leaf.key_entry mem ka).1.1.2;
  fl_full : width - 1 <= leaf.size n;
  fl_removed : leaf.nremoved_ n = 0;
  fl_absent : absent_at (pl_entries pl) (Z.of_nat p) (tree.erank (leaf.key_entry mem ka));
  fl_range : in_range (pl_lo pl) (pl_hi pl) (pl_entries pl);
  fl_key : pl_lo pl <= key.ikey ka < pl_hi pl;
  fl_taken : taken true (leaf.v_ n);
  fl_bound : q ∈ prev_ st -> leaf.ikey_bound n = Some (pl_lo pl)
}.

(** The cursor at the half where the key belongs. *)
Definition at_half (D : nat) (ka : key.key) (i : nat) (G : ghost) (st : store) (tab : table) (st' : store) (q' : nat) (n' : leaf.leaf) (ki kp : Z) : Prop :=
  exists G' pl hs l f, inv (S D) {[q']} None G' st' tab /\ nodes st' !! q' = Some (NLeaf n') /\ own G' !! q' = Some pl /\ pl_layer pl = i /\
    heldleaf.pending width nv mem (prev_ st') q' (pl_lo pl) (pl_entries pl) hs n' l f kp ka /\
    absent_at (pl_entries pl) ki (tree.erank (leaf.key_entry mem ka)) /\ in_range (pl_lo pl) (pl_hi pl) (pl_entries pl) /\ pl_lo pl <= key.ikey ka < pl_hi pl /\
    (pl_lo pl = 0 -> hs = negb (bool_decide (root_of G' !! i = Some q'))) /\ places_kept G G' /\ root_moved ka i G' st st'.

Lemma finish_split_ok fuel D G st tab q pl n l f p ka : inv D {[q]} None G st tab -> own G !! q = Some pl -> full_leaf st q pl n l f p ka -> (D < fuel)%nat ->
  exists st' q' n' ki kp, finish_split width w nv binary mem alloc fresh new_ikeys new_children fuel st q n (Z.of_nat p) ka = Some (st', q', n', ki, kp) /\
    at_half D ka (pl_layer pl) G st tab st' q' n' ki kp.
Proof.
  intros Hi Ho [Hq Hr Hc Hs Hlen Hkl Hfull Hrm Hab Hrng Hkey Ht Hbd] Hf. destruct (taken_locked _ _ Ht) as [Hlk _].
  destruct (layer_split width w nv D _ None G st tab q pl n Hi Ho Hq) as (l1 & l2 & Hl & Hnd & Hc1 & Hc2 & Hseg).
  destruct (iv_place _ _ _ _ _ _ _ _ _ Hi q pl Ho) as (Hpl & Hhi & _).
  set (c := alloc (nodes st)). pose proof (Halloc (nodes st)) as Hnew. fold c in Hnew. pose proof (own_fresh _ _ _ _ _ _ _ _ _ _ Hi Hnew) as Hoc.
  assert (Hcl : c ∉ l1 ++ q :: l2).
  { rewrite elem_of_app, elem_of_cons. intros [H|[H|H]]; [destruct (covers_elem _ _ _ _ _ Hc1 H) as (? & ? & (? & ? & ? & H' & _) & _)| |destruct (covers_elem _ _ _ _ _ Hc2 H) as (? & ? & (? & ? & ? & H' & _) & _)]; congruence. }
  set (nr := leaf.set_v (leaf.v_ n) (leaf.new_leaf width nv fresh)).
  destruct (taken_unlocks _ Ht) as [hs Hur]. assert (Hul : unlocks nv true (Z.lor (leaf.v_ n) (splitting_bit nv))) by (apply marked_unlocks; exists (leaf.v_ n); auto).
  destruct (heldleaf.split_halves width nv mem Hwidth n l f (pl_entries pl) ka p (pl_lo pl) (pl_hi pl) Hwide Hr Hc Hs Hlen Hkl Hfull Hab Hrng Hkey q c hs (<[c := no_links]> (links st)) l1 l2 no_links nr)
    as (nr' & h' & t & s & stype & nl2 & moved & ki & kp & e1 & e2 & E1 & E2 & Hh & Hv & Hseg' & Hfr); try assumption; try reflexivity.
  { apply leaflink.seg_insert; assumption. }
  { apply NoDup_cons. auto. }
  { apply lookup_insert_eq. }
  unfold finish_split. fold c nr. rewrite E1. cbn [mbind option_bind head]. set (st1 := mkStore _ _ _ _ _).
  destruct (Hh (prev_ st)) as (Ees & Hks & _); [exact Hbd|].
  assert (Hfr' : forall x, x <> c -> x ∉ q :: l2 -> links st1 !! x = links st !! x) by (intros x H1 H2; cbn; rewrite Hfr, lookup_insert_ne by congruence; reflexivity).
  pose proof (cut_leaf_inv D {[q]} G st st1 tab q c n nr' pl s e1 e2 l1 l2 Hi ltac:(set_solver) Hq Ho Hnew Hl Hks Ees eq_refl eq_refl Hseg' Hfr') as Hi1.
  set (G1 := cut_leaf q c pl s e1 e2 l1 l2 G) in *.
  assert (Hqc : q <> c) by congruence.
  assert (Hoq1 : own G1 !! q = Some (mkPlace (pl_layer pl) (pl_height pl) (pl_lo pl) s e1)) by (eapply cl_left; eassumption).
  assert (Hoc1 : own G1 !! c = Some (mkPlace (pl_layer pl) (pl_height pl) s (pl_hi pl) e2)) by apply cut_right.
  assert (Hpv : q ∈ prev_ st1 -> leaf.ikey_bound n = Some (pl_lo pl)) by (intros Hin; apply Hbd; eapply (cl_prev D {[q]} G st st1 tab q c n nr' pl s e1 e2 l1 l2); try eassumption; try reflexivity; [set_solver|eauto]).
  destruct fuel as [|fuel]; [lia|].
  assert (Hi1' : inv D {[q; c]} (Some (q, c, s)) G1 st1 tab) by exact Hi1.
  assert (Hq1 : nodes st1 !! q = Some (NLeaf n)) by (unfold st1; cbn [nodes]; rewrite lookup_insert_ne by congruence; exact Hq).
  assert (Hc1' : nodes st1 !! c = Some (NLeaf nr')) by apply lookup_insert_eq.
  destruct (loop_leaf fuel D G1 st1 tab q c s n nr' nl2 stype moved (Z.of_nat p) ki kp hs (pl_entries pl) e1 e2 (pl_lo pl) (pl_hi pl) (pl_layer pl) (pl_height pl) ka)
    as (st' & G' & E3 & Hi' & Hn' & Ho' & Hpk & Hlk' & Hrm'); try assumption; [apply Hh, Hpv|lia|]. rewrite E3.
  cbn [mbind option_bind]. rewrite Hn'. do 5 eexists. split; [reflexivity|].
  assert (Hpv' : prev_ st' = prev_ st1) by (unfold prev_; rewrite Hlk'; reflexivity). destruct (Hh (prev_ st1) Hpv) as (_ & _ & Hr1 & Hr2 & Hcase). rewrite <- Hpv' in Hcase.
  assert (Hkept : places_kept G G').
  { intros x px Hx. assert (H : exists px', own G1 !! x = Some px' /\ pl_layer px' = pl_layer px /\ pl_lo px' = pl_lo px) by (eapply cl_keeps; eassumption). destruct H as (px1 & Hx1 & Ex1 & Fx1).
    destruct (Hpk x px1 Hx1) as (px2 & Hx2 & Ex2 & Fx2). exists px2. split; [exact Hx2|]. split; congruence. }
  exists G'. destruct moved.
  - destruct Hcase as (_ & (l' & f' & Hpe) & Habs & Hk'). rewrite Hoc1 in Ho'. eexists _, hs, l', f'. repeat (split; [first [eassumption | reflexivity]|]). split; [cbn; lia|]. split; [exact Hkept|exact Hrm'].
  - destruct Hcase as ((l' & f' & Hpe) & _ & Habs & Hk'). rewrite Hoq1 in Ho'. eexists _, true, l', f'. repeat (split; [first [eassumption | reflexivity]|]). split; [|split; [exact Hkept|exact Hrm']].
    intros _. rewrite bool_decide_false; [reflexivity|]. eapply not_root; [exact Hi'|exact Ho'|lia|discriminate].
Qed.

End Level.


End Split.
End split.
