(* ===== verification/Focus.v ===== *)
(** * The cursor in the tree

    Where the cursor of Cursor.v stands while it looks for the leaf of a key: about
    to enter a layer, or at the locked leaf where the rest of the key belongs.  What
    the key maps to is decided in that leaf; another leaf put in its place changes
    the map at this key only; the pointer to the next layer can be followed, and
    can be moved to the layer's new root when that has split. *)

From S2P Require Import Prelude KPermuter NodeVersion KSearch StringSlice MtKey LeafLink Internode Leaf Tree Layer Paths Cursor TreeStore HeldLeaf Split.

Open Scope Z_scope.

Module focus.

Import leaf (entry, entry_of, entry_at, contents, rep, slot_at).
Import tree (heap, NLeaf, NInternode, leaf_ok, erank, krank, rlt, key_at, maps, leaf_place).
Import layer (entry_for, with_lv, set_lv).
Import paths (table_ok, path, rank).
Import cursor.
Import treestore (place, mkPlace, pl_layer, pl_lo, pl_hi, pl_entries, ghost, own, root_of, leaves, entries, in_range, good_leaf, good_node, at_top, store_ok, set_entries).
Import heldleaf.

Section Focus.
Context (width : Z) (w : nat) (nv : nodeversion_parameters) (binary : bool) (mem : memory).
Context `{L : !NvLayout nv} (Hwidth : 3 <= width <= 15).
Context (bag : Z) (top : nat).
Abbreviation table := (gmap nat (list entry)).
Abbreviation inv := (treestore.inv width w nv).
Abbreviation good_leaf := (good_leaf width nv).
Abbreviation store_ok := (store_ok width w nv top).
Abbreviation held_leaf := (held_leaf width nv).

(** [pre] of the key [K] leads to layer [r]; [k] is the rest, [ka] the cursor's key. *)
Record rest_of (tab : table) (K : list byte) (r : nat) (pre k : list byte) (ka : key.key) (s len : Z) : Prop := {
  ro_path : path tab top pre r;
  ro_split : K = pre ++ k;
  ro_rest : pre = [] \/ k <> [];
  ro_key : key_at mem ka s len;
  ro_first : key.s_ ka = key.first_ ka + Z.of_nat (length pre);
  ro_bytes : k = bytes mem s (Z.to_nat len);
  ro_bag : s + len <= bag
}.

(** The cursor stands at the locked leaf [q] of layer [r]; [hs] is the root mark that
    the leaf will have. *)
Record focus (D : nat) (tab : table) (K : list byte) (G : ghost) (st : store) (r : nat) (pre k : list byte) (ka : key.key) (s len : Z)
    (q : nat) (pl : place) (hs : bool) : Prop := {
  fo_inv : inv D {[q]} None G st tab;
  fo_top : at_top top G st;
  fo_table : table_ok tab top;
  fo_node : exists n, nodes st !! q = Some (NLeaf n);
  fo_place : own G !! q = Some pl;
  fo_layer : is_Some (tab !! r) /\ exists plr, own G !! r = Some plr /\ pl_layer plr = pl_layer pl;
  fo_rest : rest_of tab K r pre k ka s len;
  fo_len : Forall (fun e => 0 <= e.1.1.2) (pl_entries pl);
  fo_range : in_range (pl_lo pl) (pl_hi pl) (pl_entries pl);
  fo_here : pl_lo pl <= slice_of k < pl_hi pl;
  fo_mark : pl_lo pl = 0 -> hs = negb (bool_decide (root_of G !! pl_layer pl = Some q))
}.

(** The cursor is about to enter layer [r] at the node [x]. *)
Record at_root (D : nat) (tab : table) (K : list byte) (G : ghost) (st : store) (r x : nat) (pre k : list byte) (ka : key.key) (s len : Z) : Prop := {
  ar_inv : inv D ∅ None G st tab;
  ar_top : at_top top G st;
  ar_table : table_ok tab top;
  ar_addr : exists plx plr, own G !! x = Some plx /\ pl_lo plx = 0 /\ own G !! r = Some plr /\ pl_layer plx = pl_layer plr;
  ar_root : is_Some (tab !! r);
  ar_rest : rest_of tab K r pre k ka s len
}.

Lemma rest_rank tab K r pre k ka s len : rest_of tab K r pre k ka s len -> krank ka = rank k /\ 0 <= key.length ka /\ key.ikey ka = slice_of k /\ len = Z.of_nat (length k).
Proof.
  intros [_ _ _ (Hlen & Hik & Hkl & _) _ -> _]. unfold krank, rank. rewrite Hik, Hkl, length_bytes. split; [f_equal; lia|]. split; [lia|]. split; [reflexivity|lia].
Qed.

(** A key that has not been shifted is in the first layer. *)
Lemma rest_unshifted tab K r pre k ka s len : rest_of tab K r pre k ka s len -> key.is_shifted ka = false -> r = top.
Proof.
  intros [Hp _ _ _ Hf _ _] Hs. unfold key.is_shifted in Hs. apply negb_false_iff, Z.eqb_eq in Hs. assert (Hl : length pre = 0%nat) by lia.
  inversion Hp as [|pre' r' es e c _ _ _ _ Hc _ E]; [reflexivity|]. rewrite length_app in Hl. lia.
Qed.

(** ** The leaf that decides *)

Lemma rest_leaf D G st tab q pl n n' : inv D {[q]} None G st tab -> nodes st !! q = Some (NLeaf n) -> own G !! q = Some pl ->
  good_leaf (prev_ st) q (pl_lo pl) n' (pl_entries pl) -> in_range (pl_lo pl) (pl_hi pl) (pl_entries pl) ->
  (pl_lo pl = 0 -> has_split nv (leaf.v_ n') = negb (bool_decide (root_of G !! pl_layer pl = Some q))) -> inv D ∅ None G (put_leaf q n' st) tab.
Proof.
  intros Hi Hn Ho Hg Hr Hb. eapply (treestore.inv_mono width w nv Hwidth D D (({[q]} ∪ {[q]}) ∖ {[q]}) ∅); [eapply (treestore.inv_rest width w nv Hwidth) with (E := {[q]} ∪ {[q]}) (x := q)|lia|set_solver].
  - eapply (treestore.inv_node width w nv Hwidth); [exact Hi|exact Hn|exact I].
  - intros pl' nd Ho' Hn'. rewrite Ho in Ho'. injection Ho' as <-. cbn in Hn'. rewrite lookup_insert_eq in Hn'. injection Hn' as <-. split; [split; [exact Hg|exact Hr]|exact Hb].
Qed.

(** The entries of the layer around it. *)
Lemma focus_around D tab K G st r pre k ka s len q pl hs : focus D tab K G st r pre k ka s len q pl hs ->
  exists A B, tab !! r = Some (A ++ pl_entries pl ++ B) /\ Forall (fun e => e.1.1.1 <> slice_of k) (A ++ B) /\
    forall es', inv D {[q]} None (set_entries q pl es' G) st (<[r := A ++ es' ++ B]> tab).
Proof.
  intros [Hi _ _ [n Hn] Ho ([es Hes] & plr & Hor & El) _ _ _ Hx _].
  destruct (treestore.layer_split _ _ _ _ _ _ _ _ _ _ _ _ Hi Ho Hn) as (l1 & l2 & Hl & Hnd & Hc1 & Hc2 & _).
  exists (l1 ≫= entries (own G)), (l2 ≫= entries (own G)).
  assert (Hq : forall x, x ∈ l1 \/ x ∈ l2 -> x ∉ ({[q]} : gset nat)).
  { intros x Hin. rewrite elem_of_singleton. intros ->. apply NoDup_app in Hnd as (_ & Hd & Hnd). apply NoDup_cons in Hnd as [Hnd _]. destruct Hin as [Hin|Hin]; [apply (Hd q Hin); left|contradiction]. }
  split; [|split].
  - rewrite Hes. f_equal. rewrite <- El in Hl. rewrite (treestore.table_around _ _ _ _ _ _ _ _ _ _ _ _ Hi Hes Hor l1 q l2 Hl). do 2 f_equal. unfold entries. rewrite Ho. reflexivity.
  - pose proof (treestore.others_away _ _ _ _ _ _ _ _ _ _ _ _ _ Hi Hc1 ltac:(auto)) as H1. pose proof (treestore.others_away _ _ _ _ _ _ _ _ _ _ _ _ _ Hi Hc2 ltac:(auto)) as H2.
    rewrite Forall_app. split; (eapply Forall_impl; [eassumption|]); cbn; intros; lia.
  - intros es'. eapply (treestore.inv_entries width w nv Hwidth); eauto; [set_solver].
Qed.

Lemma focus_pos D tab K G st r pre k ka s len q pl hs : focus D tab K G st r pre k ka s len q pl hs ->
  forall r' es e, tab !! r' = Some es -> e ∈ es -> 0 <= e.1.1.2.
Proof.
  intros Hfo r' es e. eapply (treestore.entries_len width w nv); [apply Hfo|]. intros x Hx. apply elem_of_singleton in Hx as ->. unfold entries. rewrite (fo_place _ _ _ _ _ _ _ _ _ _ _ _ _ _ Hfo). apply Hfo.
Qed.

(** What the key maps to is decided in this leaf. *)
Lemma focus_maps D tab K G st r pre k ka s len q pl hs : focus D tab K G st r pre k ka s len q pl hs -> forall v, maps tab top K v <->
  exists e, e ∈ pl_entries pl /\ erank e = rank k /\
    (if e.1.1.2 <=? 8 then v = e.1.2 else if e.1.1.2 =? 9 then drop 8 k = e.2 /\ v = e.1.2 else maps tab (Z.to_nat e.1.2) (drop 8 k) v).
Proof.
  intros Hfo v. pose proof (focus_pos _ _ _ _ _ _ _ _ _ _ _ _ _ _ Hfo) as Hpos. destruct (focus_around _ _ _ _ _ _ _ _ _ _ _ _ _ _ Hfo) as (A & B & Hl & Hoth & _).
  destruct Hfo as [_ _ Ht _ _ _ [Hp -> Hrest _ _ _ _] _ _ _ _]. set (es := pl_entries pl) in *.
  assert (Hin : forall e, e ∈ A ++ es ++ B -> erank e = rank k -> e ∈ es).
  { intros e He Er. rewrite !elem_of_app in He. rewrite Forall_app, !Forall_forall in Hoth. destruct Hoth as [HA HB].
    unfold erank, rank in Er. apply pair_equal_spec in Er as [Er _]. destruct He as [He|[He|He]]; [destruct (HA e He Er)|exact He|destruct (HB e He Er)]. }
  split.
  - intros Hm. apply (paths.path_maps_inv tab top Ht pre r k v Hp) in Hm; [|exact Hrest].
    destruct (tree.maps_rank tab r _ k v Hl Hm) as (e & He & Er & Hv). exists e. auto.
  - intros (e & He & Er & Hv). apply (paths.path_maps tab top Ht pre r k v Hp); [|exact Hrest].
    assert (He' : e ∈ A ++ es ++ B) by (rewrite !elem_of_app; auto). pose proof (Hpos _ _ _ Hl He') as H0.
    unfold erank, rank in Er. apply pair_equal_spec in Er as [Es Em]. destruct (Z.leb_spec e.1.1.2 8) as [H8|H8].
    + subst v. eapply tree.maps_value; eauto; lia.
    + destruct (Z.eqb_spec e.1.1.2 9) as [H9|H9].
      * destruct Hv as [Hd ->]. eapply tree.maps_suffix; eauto; lia.
      * destruct (paths.to_refs _ _ Ht _ _ _ Hl He') as [H127 _]; [unfold paths.is_layer; lia|]. eapply tree.maps_layer; eauto; lia.
Qed.

Lemma at_top_entries G st q pl es : own G !! q = Some pl -> at_top top G st -> at_top top (set_entries q pl es G) st.
Proof.
  intros Hq (p1 & p2 & H1 & H2 & H3 & H4). destruct (treestore.set_entries_same q pl es G Hq) as [Hf _].
  destruct (Hf _ _ H1) as [e1 H1'], (Hf _ _ H3) as [e2 H3']. eexists _, _. split; [exact H1'|]. split; [exact H2|]. split; [exact H3'|exact H4].
Qed.

(** Another leaf in its place changes the map at this key only. *)
Lemma focus_finish D tab K G st r pre k ka s len q pl hs n' es' new : focus D tab K G st r pre k ka s len q pl hs ->
  good_leaf (prev_ st) q (pl_lo pl) n' es' -> has_split nv (leaf.v_ n') = hs ->
  (forall e, e ∈ pl_entries pl -> erank e = rank k -> e.1.1.2 <= 9 /\ ((8 < length k)%nat -> drop 8 k = e.2)) ->
  (forall e, e ∈ es' <-> (exists x, new = Some x /\ e = entry_for (k, x)) \/ (e ∈ pl_entries pl /\ erank e <> rank k)) ->
  exists tab', store_ok D (put_leaf q n' st) tab' /\
    forall k' v, maps tab' top k' v <-> (k' = K /\ new = Some v) \/ (k' <> K /\ maps tab top k' v).
Proof.
  intros Hfo Hg Hs Hfree Hes'. pose proof (focus_pos _ _ _ _ _ _ _ _ _ _ _ _ _ _ Hfo) as Hpos. destruct (focus_around _ _ _ _ _ _ _ _ _ _ _ _ _ _ Hfo) as (A & B & Hl & Hoth & Hput).
  destruct Hfo as [_ Htop Ht [n Hn] Ho _ [Hp -> Hrest _ _ _ _] _ Hr Hx Hmark]. set (es := pl_entries pl) in *.
  rewrite Forall_app, !Forall_forall in Hoth. destruct Hoth as [HA HB].
  assert (Hne : forall e, e ∈ A \/ e ∈ B -> erank e <> rank k).
  { intros e He E. unfold erank, rank in E. apply pair_equal_spec in E as [E _]. destruct He as [He|He]; [destruct (HA e He E)|destruct (HB e He E)]. }
  assert (Hfree' : forall e, e ∈ A ++ es ++ B -> erank e = rank k -> e.1.1.2 <= 9 /\ ((8 < length k)%nat -> drop 8 k = e.2)).
  { intros e He E. apply Hfree; [|exact E]. rewrite !elem_of_app in He. destruct He as [He|[He|He]]; [destruct (Hne e); auto|exact He|destruct (Hne e); auto]. }
  assert (Hmem : forall e, e ∈ A ++ es' ++ B <-> (exists x, new = Some x /\ e = entry_for (k, x)) \/ (e ∈ A ++ es ++ B /\ erank e <> rank k)).
  { intros e. rewrite !elem_of_app, Hes'. pose proof (Hne e). tauto. }
  exists (<[r := A ++ es' ++ B]> tab). split; [split; [|eapply paths.update_table_ok; eassumption]|eapply paths.update_maps; eassumption].
  exists (set_entries q pl es' G). split.
  - eapply rest_leaf; [apply Hput|exact Hn|apply lookup_insert_eq|exact Hg| |intros H0; rewrite Hs; apply Hmark, H0].
    apply Forall_forall. intros e He. apply Hes' in He as [(x & _ & ->)|[He _]]; [exact Hx|]. unfold in_range in Hr. rewrite Forall_forall in Hr. exact (Hr e He).
  - apply (at_top_entries G (put_leaf q n' st)); [exact Ho|exact Htop].
Qed.

(** ** The layer an entry leads to *)

Definition leads_on (D fuel : nat) (tab : table) (G : ghost) (st : store) (q : nat) (x : nat) : Prop :=
  x <> q /\ exists nd px, nodes st !! x = Some nd /\ own G !! x = Some px /\ pl_lo px = 0 /\
    (has_split nv (tree.version nd) = true -> exists p pp, tree.unsplit_ancestor nv (nodes st) (parent_ st) fuel x = Some p /\
       own G !! p = Some pp /\ pl_layer pp = pl_layer px /\ pl_lo pp = 0 /\ tab !! p = None).

Lemma layer_root D tab K G st r pre k ka s len q pl hs e fuel : focus D tab K G st r pre k ka s len q pl hs -> (D < fuel)%nat ->
  e ∈ pl_entries pl -> erank e = rank k -> (8 < length k)%nat -> paths.is_layer e ->
  127 < e.1.1.2 /\ is_Some (tab !! paths.ref e) /\ r <> paths.ref e /\ path tab top (pre ++ take 8 k) (paths.ref e) /\ leads_on D fuel tab G st q (paths.ref e).
Proof.
  intros Hfo Hf He Er H8 Hl. destruct (focus_around _ _ _ _ _ _ _ _ _ _ _ _ _ _ Hfo) as (A & B & Htab & _).
  pose proof Hfo as [Hi _ Ht _ Ho (Hr & plr & Hor & El) [Hp _ _ _ _ _ _] _ _ _ _]. set (x := paths.ref e).
  assert (He' : e ∈ A ++ pl_entries pl ++ B) by (rewrite !elem_of_app; auto).
  destruct (paths.to_refs _ _ Ht _ _ _ Htab He' Hl) as (H127 & Hsome & _). fold x in Hsome.
  assert (Hpx : path tab top (pre ++ take 8 k) x).
  { eapply paths.path_next; [exact Hp|exact Htab|exact He'|exact Hl|rewrite length_take; lia|]. rewrite paths.slice_take8. unfold erank, rank in Er. congruence. }
  assert (Hrx : r <> x).
  { intros Erx. rewrite <- Erx in Hpx. pose proof (paths.path_unique tab top Ht _ _ _ Hp Hpx) as E. apply (f_equal length) in E. rewrite length_app, length_take in E. lia. }
  split; [exact H127|]. split; [exact Hsome|]. split; [exact Hrx|]. split; [exact Hpx|].
  destruct Hsome as [es Hes]. destruct (treestore.iv_table _ _ _ _ _ _ _ _ _ Hi x es Hes) as (px & l & Hox & Hlo & _).
  assert (Hlay : pl_layer px <> pl_layer pl) by (intros E; apply Hrx; apply (treestore.iv_inj _ _ _ _ _ _ _ _ _ Hi r x plr px); eauto; congruence).
  assert (Hrest : forall y py, own G !! y = Some py -> pl_layer py = pl_layer px -> y ∉ ({[q]} : gset nat)) by (intros y py Hy Ey; rewrite elem_of_singleton; intros ->; congruence).
  destruct (treestore.node_at width w nv D {[q]} G st tab (pl_layer px) Hi Hrest x px Hox eq_refl) as (nd & Hnd & _ & Hbit).
  split; [intros E; rewrite E in Hox; congruence|]. exists nd, px. split; [exact Hnd|]. split; [exact Hox|]. split; [exact Hlo|]. intros Hsplit.
  destruct (treestore.iv_place _ _ _ _ _ _ _ _ _ Hi x px Hox) as (_ & _ & _ & _ & [p Hroot] & _).
  destruct (treestore.spine_leads width w nv D {[q]} G st tab (pl_layer px) Hi Hrest x px p Hox eq_refl Hlo Hroot) as (j & Hj & Hle).
  destruct (treestore.iv_root _ _ _ _ _ _ _ _ _ Hi _ p Hroot) as (d & es' & Hop). exists p. eexists. split; [eapply tree.unsplit_ancestor_ok; [exact Hj|lia]|].
  split; [exact Hop|]. split; [reflexivity|]. split; [reflexivity|]. apply eq_None_not_Some. intros Hsp.
  assert (Epx : p = x) by (eapply (treestore.iv_inj _ _ _ _ _ _ _ _ _ Hi p x); eauto).
  rewrite Epx in Hroot. specialize (Hbit Hlo). rewrite bool_decide_true in Hbit by exact Hroot. cbn in Hbit. congruence.
Qed.

(** ** get_leaf_locked *)

Definition found_ki (fd : KSearch.found) : Z := match fd with KSearch.Found ki _ => ki | KSearch.Absent ki => ki end.
Definition found_kp (fd : KSearch.found) : Z := match fd with KSearch.Found _ kp => kp | KSearch.Absent _ => -1 end.

Lemma place_ok ka n es l f : leaf_ok width nv n es -> rep width n l f -> 0 <= key.length ka ->
  exists fd, leaf_place width ka n es l fd /\ bound_lower_with_position binary ka n = Some (found_ki fd, found_kp fd).
Proof.
  intros Hn Hr Hlen. destruct (lower_with_position_locates _ _ _ binary (tree.leaf_increasing width nv Hwidth ka n es Hn Hlen)) as (fd & Hf & E).
  { rewrite (leaf.rep_size width n l f Hr). lia. }
  exists fd. split; [eapply (tree.leaf_locates width nv Hwidth); eassumption|]. unfold bound_lower_with_position. rewrite E. destruct fd; reflexivity.
Qed.

Definition locked_leaf (n : leaf.leaf) : leaf.leaf := leaf.set_v (Z.lor (leaf.v_ n) (lock_bit nv)) n.

Lemma lock_leaf_ok n : quiet nv (leaf.v_ n) -> lock_leaf nv n (leaf.v_ n) = Some (locked_leaf n).
Proof.
  intros Hq. destruct (lock_unlock_quiet nv _ Hq) as (E & _ & _ & Hd). unfold lock_leaf, lock_check. rewrite E, Hd, Z.eqb_refl. reflexivity.
Qed.

Lemma not_split_since v : quiet nv v -> has_split_since nv (Z.lor v (lock_bit nv)) v = false.
Proof.
  intros Hq. destruct (lock_unlock_quiet nv _ Hq) as (_ & _ & Hc & _). pose proof (nv_pos nv) as Hpos. unfold has_changed, has_split_since in *.
  apply Z.ltb_ge in Hc. apply Z.leb_gt. eapply Z.le_lt_trans; [exact Hc|]. unfold lock_bit, vsplit_lowbit. rewrite !Z.shiftl_1_l. apply Z.pow_lt_mono_r; lia.
Qed.

(** The slot of an entry that is no layer does not stop the cursor. *)
Lemma stable_layer_none n fd :
  (forall ki kp, fd = KSearch.Found ki kp -> exists s, slot_at n kp = Some s /\ leaf.keylenx s <= 9) -> stable_layer n (found_kp fd) = Some None.
Proof.
  intros H. unfold stable_layer. destruct fd as [ki kp|ki]; cbn [found_kp]; [|reflexivity].
  destruct (H ki kp eq_refl) as (s & -> & Hs). cbn [mbind option_bind]. unfold leaf.keylenx_is_stable_node.
  destruct (Z.ltb_spec 127 (leaf.keylenx s)); [lia|]. destruct (0 <=? kp); reflexivity.
Qed.


(** The layers that the key's entry can lead to are there. *)
Definition layers_here (fuel : nat) (st : store) (q : nat) (es : list entry) (ka : key.key) : Prop :=
  forall e, e ∈ es -> erank e = krank ka -> 9 < e.1.1.2 -> 127 < e.1.1.2 /\ Z.to_nat e.1.2 <> q /\
    exists nd, nodes st !! Z.to_nat e.1.2 = Some nd /\ (has_split nv (tree.version nd) = true -> exists p, tree.unsplit_ancestor nv (nodes st) (parent_ st) fuel (Z.to_nat e.1.2) = Some p).

(** Where get_leaf_locked ends for the leaf [n]: in the layer of the key's entry, whose
    root is still the one the entry names; in its new root, which the entry is made
    to name; or at the leaf, locked. *)
Inductive locked_at (fuel : nat) (st : store) (q : nat) (lo : Z) (hs : bool) (n : leaf.leaf) (es : list entry) (l f : list Z) (ka : key.key) : located -> Prop :=
| locked_layer ki kp s nd :
    leaf_place width ka n es l (KSearch.Found ki kp) -> slot_at n kp = Some s -> 127 < leaf.keylenx s -> 8 < key.length ka ->
    nodes st !! Z.to_nat (leaf.lv s) = Some nd -> has_split nv (tree.version nd) = false ->
    locked_at fuel st q lo hs n es l f ka (NextRoot st (Z.to_nat (leaf.lv s)) (key.shift mem ka))
| locked_moved ki kp s nd p n1 n' (st1 := put_leaf q (locked_leaf n) st) :
    leaf_place width ka n es l (KSearch.Found ki kp) -> slot_at n kp = Some s -> 127 < leaf.keylenx s -> 8 < key.length ka ->
    nodes st1 !! Z.to_nat (leaf.lv s) = Some nd -> has_split nv (tree.version nd) = true ->
    tree.unsplit_ancestor nv (nodes st1) (parent_ st1) fuel (Z.to_nat (leaf.lv s)) = Some p ->
    held_leaf (prev_ st) q lo (<[Z.to_nat ki := with_lv (Z.of_nat p) (entry_of s)]> es) hs n1 l f f -> unlock_leaf nv n1 (leaf.v_ n1) = Some n' ->
    locked_at fuel st q lo hs n es l f ka (NextRoot (put_leaf q n' st1) p (key.shift mem ka))
| locked_here fd :
    leaf_place width ka n es l fd ->
    (forall ki kp, fd = KSearch.Found ki kp -> exists s, slot_at n kp = Some s /\ leaf.keylenx s <= 9) ->
    locked_at fuel st q lo hs n es l f ka (AtLeaf (put_leaf q (locked_leaf n) st) (locked_leaf n) (found_ki fd) (found_kp fd)).

Lemma get_leaf_locked_ok fuel st root q lo hs n es l f ka : nodes st !! q = Some (NLeaf n) -> good_leaf (prev_ st) q lo n es ->
  held_leaf (prev_ st) q lo es hs (locked_leaf n) l f f -> 0 <= key.length ka -> layers_here fuel (put_leaf q (locked_leaf n) st) q es ka ->
  exists r, get_leaf_locked nv binary mem fuel st root q (leaf.v_ n) ka = Some r /\ locked_at fuel st q lo hs n es l f ka r.
Proof.
  intros Hq [Hn Hqu _ _ _ _] Hhl Hlen Hlay. unfold get_leaf_locked. rewrite Hq, (lock_leaf_ok n Hqu). pose proof Hhl as [_ Hr _ _ _ _ _ _ _].
  assert (Hrn : rep width n l f) by (destruct Hr; split; assumption). destruct (place_ok ka n es l f Hn Hrn Hlen) as (fd & Hp & Eb). destruct (lock_unlock_quiet nv _ Hqu) as (_ & _ & Hch & _).
  pose proof Hn as [[_ [Hdel _]] _ _ _ _]. assert (Hdel' : deleted nv (leaf.v_ (locked_leaf n)) = false).
  { destruct (locked_same nv (leaf.v_ n)) as (_ & E & _). cbn. congruence. }
  set (st1 := put_leaf q (locked_leaf n) st) in *.
  assert (Hcase : (exists ki kp s, fd = KSearch.Found ki kp /\ slot_at n kp = Some s /\ 127 < leaf.keylenx s /\ 8 < key.length ka /\ Z.to_nat (leaf.lv s) <> q /\
      exists nd, nodes st1 !! Z.to_nat (leaf.lv s) = Some nd /\ (has_split nv (tree.version nd) = true -> exists p, tree.unsplit_ancestor nv (nodes st1) (parent_ st1) fuel (Z.to_nat (leaf.lv s)) = Some p)) \/
    (forall ki kp, fd = KSearch.Found ki kp -> exists s, slot_at n kp = Some s /\ leaf.keylenx s <= 9)).
  { destruct fd as [ki kp|ki]; [|right; discriminate]. destruct Hp as (_ & _ & _ & s & Hs & Hes & Er).
    destruct (Z.le_gt_cases (leaf.keylenx s) 9) as [H9|H9]; [right; intros ? ? [= <- <-]; eauto|]. left. exists ki, kp, s.
    destruct (Hlay _ (list_elem_of_lookup_2 _ _ _ Hes) Er) as (H127 & Hne & Hnd); [exact H9|]. repeat (split; [first [reflexivity | assumption]|]). split; [|auto].
    unfold erank, krank in Er. apply pair_equal_spec in Er as [_ Er]. cbn in Er. lia. }
  destruct Hcase as [(ki & kp & s & -> & Hs & H127 & H8 & Hne & nd & Hnd & Hsp)|H9].
  - pose proof Hp as (Hki & Hkp & Hl & s' & Hs' & Hes & _). rewrite Hs in Hs'. injection Hs' as <-. unfold key.has_suffix, key.ikey_size.
    assert (Hsl : forall m, slot_at m kp = Some s -> stable_layer m kp = Some (Some (Z.to_nat (leaf.lv s)))).
    { intros m Hm. unfold stable_layer. destruct (Z.leb_spec 0 kp); [|lia]. rewrite Hm. cbn [mbind option_bind]. unfold leaf.keylenx_is_stable_node. destruct (Z.ltb_spec 127 (leaf.keylenx s)); [reflexivity|lia]. }
    assert (H8' : 8 < key.len_ ka) by exact H8. destruct (Z.ltb_spec 8 (key.len_ ka)); [|lia]. cbn [negb]. rewrite Eb. cbn [mbind option_bind found_ki found_kp].
    rewrite (Hsl n Hs). cbn [mbind option_bind]. assert (Hnd0 : nodes st !! Z.to_nat (leaf.lv s) = Some nd) by (cbn in Hnd; rewrite lookup_insert_ne in Hnd by congruence; exact Hnd).
    rewrite Hnd0. cbn [mbind option_bind]. rewrite Hdel, (tree.not_changed_self nv). cbn [negb andb]. destruct (has_split nv (tree.version nd)) eqn:Esp; cbn [negb].
    + rewrite Hdel'. change (leaf.v_ (locked_leaf n)) with (Z.lor (leaf.v_ n) (lock_bit nv)). rewrite Hch. cbn [negb andb]. unfold found_leaf. rewrite (Hsl (locked_leaf n) Hs). cbn [mbind option_bind].
      destruct (Hsp eq_refl) as [p Ep]. fold st1. rewrite Hnd. cbn [mbind option_bind]. rewrite Esp, Ep. cbn [mbind option_bind].
      destruct (held_set_value width nv Hwidth _ _ _ _ _ _ _ _ _ _ _ _ (Z.of_nat p) Hhl Hl Hes) as (n1 & En1 & Hhl1). rewrite En1. cbn [mbind option_bind].
      assert (Ev : leaf.v_ n1 = Z.lor (leaf.v_ n) (lock_bit nv)).
      { destruct (set_lv_ok width Hwidth (locked_leaf n) l f kp (Z.of_nat p) Hr ltac:(lia)) as (n2 & En2 & Ev & _). rewrite En1 in En2. injection En2 as <-. exact Ev. }
      destruct (held_unlock width nv _ _ _ _ _ _ _ _ Hhl1) as (n' & En' & _). rewrite <- Ev, En'. cbn [mbind option_bind].
      eexists. split; [reflexivity|]. eapply locked_moved; eassumption.
    + eexists. split; [reflexivity|]. eapply locked_layer; eassumption.
  - pose proof (stable_layer_none n fd H9) as Esl.
    exists (AtLeaf st1 (locked_leaf n) (found_ki fd) (found_kp fd)). split; [|apply locked_here; assumption].
    assert (Ef : forall v, found_leaf nv mem fuel st1 q (locked_leaf n) v ka (found_ki fd) (found_kp fd) = Some (AtLeaf st1 (locked_leaf n) (found_ki fd) (found_kp fd))).
    { intros v. unfold found_leaf. change (stable_layer (locked_leaf n)) with (stable_layer n). rewrite Esl. reflexivity. }
    destruct (negb (key.has_suffix ka)); cbn [mbind option_bind].
    + unfold walk_leaves. rewrite Hdel'. change (bound_lower_with_position binary ka (locked_leaf n)) with (bound_lower_with_position binary ka n).
      rewrite Eb. cbn [mbind option_bind]. change (leaf.v_ (locked_leaf n)) with (Z.lor (leaf.v_ n) (lock_bit nv)). rewrite (not_split_since _ Hqu), orb_true_r. apply Ef.
    + rewrite Eb. cbn [mbind option_bind]. rewrite Esl. cbn [mbind option_bind]. rewrite Hdel'. change (leaf.v_ (locked_leaf n)) with (Z.lor (leaf.v_ n) (lock_bit nv)).
      rewrite Hch. cbn [negb andb]. apply Ef.
Qed.

(** ** Reaching the leaf *)

Lemma good_locked prevs q lo n es l f : good_leaf prevs q lo n es -> rep width n l f -> (q ∈ prevs -> leaf.nremoved_ n = 0 -> leaf.zero_last f) ->
  held_leaf prevs q lo es (has_split nv (leaf.v_ n)) (locked_leaf n) l f f.
Proof.
  intros [[[_ [Hd Hi]] _ Hc Hp Hs] Hq Hn Hroom _ Hb] Hr Hz. split; try assumption; [|destruct Hr; split; assumption].
  destruct (lock_unlock_quiet nv _ Hq) as (_ & E & _). exists (leaf.v_ n). auto 6.
Qed.

(** The root of every layer the leaf leads to, from the locked leaf. *)
Lemma focus_layers D tab K G st r pre k ka s len q pl hs fuel : focus D tab K G st r pre k ka s len q pl hs -> (D < fuel)%nat -> layers_here fuel st q (pl_entries pl) ka.
Proof.
  intros Hfo Hf e He Er H9. destruct (rest_rank _ _ _ _ _ _ _ _ (fo_rest _ _ _ _ _ _ _ _ _ _ _ _ _ _ Hfo)) as (Ek & _ & _ & Hlen). rewrite Ek in Er.
  assert (H8 : (8 < length k)%nat) by (unfold erank, rank in Er; apply pair_equal_spec in Er as [_ Er]; lia).
  destruct (layer_root _ _ _ _ _ _ _ _ _ _ _ _ _ _ e fuel Hfo Hf He Er H8 H9) as (H127 & _ & _ & _ & (Hne & nd & px & Hnd & _ & _ & Hsp)).
  split; [exact H127|]. split; [exact Hne|]. exists nd. split; [exact Hnd|]. intros Hs. destruct (Hsp Hs) as (p & pp & Ep & _). eauto.
Qed.

Lemma reach_focus D tab K G st r x pre k ka s len fuel : at_root D tab K G st r x pre k ka s len -> (S D < fuel)%nat ->
  exists q n l f pl, tree.reach_leaf nv binary (nodes st) (parent_ st) fuel x ka = Some (q, n, leaf.v_ n) /\ nodes st !! q = Some (NLeaf n) /\
    good_leaf (prev_ st) q (pl_lo pl) n (pl_entries pl) /\ held_leaf (prev_ st) q (pl_lo pl) (pl_entries pl) (has_split nv (leaf.v_ n)) (locked_leaf n) l f f /\
    focus D tab K G (put_leaf q (locked_leaf n) st) r pre k ka s len q pl (has_split nv (leaf.v_ n)).
Proof.
  intros [Hi Htop Ht (plx & plr & Hx & Hlo & Hr & El) Hsome Hro] Hf. destruct (rest_rank _ _ _ _ _ _ _ _ Hro) as (_ & _ & Hik & _).
  destruct (treestore.reach_place width w nv binary mem D ∅ G st tab (pl_layer plx) Hi ltac:(set_solver) x plx ka s len fuel Hx eq_refl Hlo (ro_key _ _ _ _ _ _ _ _ Hro) Hf) as (q & n & pl & Er & Hq & Ho & Elq & Hin).
  destruct (treestore.iv_good _ _ _ _ _ _ _ _ _ Hi q pl _ ltac:(set_solver) Ho Hq) as [[Hg Hrange] Hbit]. pose proof Hg as [Hok _ _ _ (l & f & Hrep & Hz) _].
  exists q, n, l, f, pl. split; [exact Er|]. split; [exact Hq|]. split; [exact Hg|]. split; [apply good_locked; assumption|]. split; try assumption.
  - eapply (treestore.inv_mono width w nv Hwidth D D (∅ ∪ {[q]}) {[q]}); [|lia|set_solver]. eapply (treestore.inv_node width w nv Hwidth); [exact Hi|exact Hq|exact I].
  - exists (locked_leaf n). apply lookup_insert_eq.
  - split; [exact Hsome|]. exists plr. split; [exact Hr|]. congruence.
  - destruct Hok as [_ _ _ Hlen _]. exact Hlen.
  - rewrite <- Hik. exact Hin.
Qed.

(** The rest of the key in the next layer. *)
Lemma rest_shift tab tab' K r r' pre k ka s len : rest_of tab K r pre k ka s len -> 8 < len -> path tab' top (pre ++ take 8 k) r' ->
  rest_of tab' K r' (pre ++ take 8 k) (drop 8 k) (key.shift mem ka) (s + 8) (len - 8).
Proof.
  intros Hro H8 Hp. destruct (rest_rank _ _ _ _ _ _ _ _ Hro) as (_ & _ & _ & Hlen). destruct Hro as [_ HK _ Hka Hf Hk Hb]. split; try assumption.
  - rewrite <- app_assoc, take_drop. exact HK.
  - right. intros E. apply (f_equal length) in E. rewrite length_drop in E. cbn in E. lia.
  - apply tree.shift_at; [exact Hka|lia].
  - cbn. rewrite length_app, length_take. unfold key.ikey_size. lia.
  - rewrite Hk at 1. rewrite drop_bytes by lia. f_equal. lia.
  - lia.
Qed.

(** One entry of the leaf, in the list of its layer. *)
Lemma focus_entry D tab K G st r pre k ka s len q pl hs i e : focus D tab K G st r pre k ka s len q pl hs -> rsorted (pl_entries pl) -> pl_entries pl !! i = Some e -> erank e = rank k ->
  exists A B, tab !! r = Some (A ++ e :: B) /\ e ∉ A ++ B /\
    forall e', inv D {[q]} None (set_entries q pl (<[i := e']> (pl_entries pl)) G) st (<[r := A ++ e' :: B]> tab).
Proof.
  intros Hfo Hs Hi Er. destruct (focus_around _ _ _ _ _ _ _ _ _ _ _ _ _ _ Hfo) as (A & B & Hl & Hoth & Hput). set (es := pl_entries pl) in *.
  pose proof (lookup_lt_Some _ _ _ Hi) as Hlt. exists (A ++ take i es), (drop (S i) es ++ B).
  rewrite Forall_app, !Forall_forall in Hoth. destruct Hoth as [HA HB]. unfold erank, rank in Er. apply pair_equal_spec in Er as [Es _].
  split; [|split].
  - rewrite Hl. rewrite <- (take_drop_middle es i e Hi) at 1. rewrite <- !app_assoc. reflexivity.
  - rewrite !elem_of_app. intros [[H|H]|[H|H]].
    + exact (HA _ H Es).
    + apply list_elem_of_lookup_1 in H as [j Hj]. pose proof (lookup_lt_Some _ _ _ Hj) as Hjl. rewrite length_take in Hjl.
      rewrite lookup_take_lt in Hj by lia. pose proof (rsorted_unique es j i _ _ Hs Hj Hi eq_refl). lia.
    + apply list_elem_of_lookup_1 in H as [j Hj]. rewrite lookup_drop in Hj. pose proof (rsorted_unique es _ i _ _ Hs Hj Hi eq_refl). lia.
    + exact (HB _ H Es).
  - intros e'. specialize (Hput (<[i := e']> es)). rewrite insert_take_drop, <- !app_assoc in Hput |- * by exact Hlt. exact Hput.
Qed.

Definition same_maps (tab' tab : table) : Prop := forall k v, maps tab' top k v <-> maps tab top k v.

(** The cursor goes down to the next layer. *)
Definition goes_on (D : nat) (tab : table) (K : list byte) (s len : Z) (st : store) (x : nat) (ka : key.key) : Prop :=
  8 < len /\ exists tab' G r pre k, same_maps tab' tab /\ at_root D tab' K G st r x pre k ka (s + 8) (len - 8).

Lemma set_entries_own q pl es G x px : own G !! q = Some pl -> own G !! x = Some px ->
  exists px', own (set_entries q pl es G) !! x = Some px' /\ pl_lo px' = pl_lo px /\ pl_layer px' = pl_layer px.
Proof. intros Hq Hx. destruct (treestore.set_entries_same q pl es G Hq) as [Hf _]. destruct (Hf x px Hx) as [e H]. eexists. split; [exact H|]. auto. Qed.

Lemma enter_layer D tab K G st r x pre k ka s len q pl n l ki kp sl nd fuel : at_root D tab K G st r x pre k ka s len ->
  focus D tab K G (put_leaf q (locked_leaf n) st) r pre k ka s len q pl (has_split nv (leaf.v_ n)) -> (D < fuel)%nat ->
  leaf_place width ka n (pl_entries pl) l (KSearch.Found ki kp) -> slot_at n kp = Some sl -> 127 < leaf.keylenx sl -> 8 < key.length ka ->
  nodes st !! Z.to_nat (leaf.lv sl) = Some nd -> goes_on D tab K s len st (Z.to_nat (leaf.lv sl)) (key.shift mem ka).
Proof.
  intros Har Hfo Hf (_ & _ & _ & sl' & Hs' & Hes & Er) Hs H127 H8 Hnd. rewrite Hs in Hs'. injection Hs' as <-. pose proof Har as [Hi Htop Ht _ _ Hro].
  destruct (rest_rank _ _ _ _ _ _ _ _ Hro) as (Ek & _ & _ & Hlen). rewrite Ek in Er. destruct (ro_key _ _ _ _ _ _ _ _ Hro) as (_ & _ & Hkl & _).
  destruct (layer_root _ _ _ _ _ _ _ _ _ _ _ _ _ _ (entry_of sl) fuel Hfo Hf (list_elem_of_lookup_2 _ _ _ Hes) Er ltac:(lia)) as (_ & Hsome & _ & Hp & (_ & nd' & px & _ & Hox & Hlo & _)).
  { unfold paths.is_layer. cbn. lia. }
  change (paths.ref (entry_of sl)) with (Z.to_nat (leaf.lv sl)) in *. split; [lia|]. exists tab, G, (Z.to_nat (leaf.lv sl)), (pre ++ take 8 k), (drop 8 k). split; [intros ? ?; reflexivity|].
  split; try assumption; [eauto 8|]. eapply rest_shift; [exact Hro|lia|exact Hp].
Qed.

(** The entry is made to name the layer's new root. *)
Lemma repoint_layer D tab K G st r pre k ka s len q pl n l f hs ki kp sl nd p n1 n' fuel (es' := <[Z.to_nat ki := with_lv (Z.of_nat p) (entry_of sl)]> (pl_entries pl)) :
  focus D tab K G st r pre k ka s len q pl hs -> rsorted (pl_entries pl) -> (D < fuel)%nat ->
  leaf_place width ka n (pl_entries pl) l (KSearch.Found ki kp) -> slot_at n kp = Some sl -> 127 < leaf.keylenx sl -> 8 < key.length ka ->
  nodes st !! Z.to_nat (leaf.lv sl) = Some nd -> has_split nv (tree.version nd) = true ->
  tree.unsplit_ancestor nv (nodes st) (parent_ st) fuel (Z.to_nat (leaf.lv sl)) = Some p ->
  held_leaf (prev_ st) q (pl_lo pl) es' hs n1 l f f -> unlock_leaf nv n1 (leaf.v_ n1) = Some n' ->
  goes_on D tab K s len (put_leaf q n' st) p (key.shift mem ka).
Proof.
  intros Hfo Hsort Hf (_ & _ & _ & sl' & Hs' & Hes & Er) Hs H127 H8 Hnd Hsp Hup Hhl En'. rewrite Hs in Hs'. injection Hs' as <-.
  pose proof Hfo as [Hi Htop Ht [n0 Hn0] Ho _ Hro _ Hrange _ Hmark]. destruct (rest_rank _ _ _ _ _ _ _ _ Hro) as (Ek & _ & _ & Hlen). rewrite Ek in Er.
  destruct (ro_key _ _ _ _ _ _ _ _ Hro) as (_ & _ & Hkl & _). set (e := entry_of sl) in *. assert (Hlay : paths.is_layer e) by (unfold paths.is_layer; cbn; lia).
  destruct (layer_root _ _ _ _ _ _ _ _ _ _ _ _ _ _ e fuel Hfo Hf (list_elem_of_lookup_2 _ _ _ Hes) Er ltac:(lia) Hlay) as (_ & [es1 Hes1] & Hrx & Hp & (_ & nd' & px & Hnd' & Hox & Hlo & Hsplit)).
  change (paths.ref e) with (Z.to_nat (leaf.lv sl)) in *. rewrite Hnd in Hnd'. injection Hnd' as <-. destruct (Hsplit Hsp) as (p' & pp & Hup' & Hop & El & Hlop & Hpn).
  rewrite Hup in Hup'. injection Hup' as <-. destruct (focus_entry _ _ _ _ _ _ _ _ _ _ _ _ _ _ (Z.to_nat ki) e Hfo Hsort Hes Er) as (A & B & Htab & Honce & Hput).
  specialize (Hput (with_lv (Z.of_nat p) e)). fold es' in Hput. set (tab2 := <[r := A ++ with_lv (Z.of_nat p) e :: B]> tab) in *.
  destruct (held_unlock width nv _ _ _ _ _ _ _ _ Hhl) as (n2 & En2 & Hg & Hhs). rewrite En' in En2. injection En2 as <-.
  assert (Hi2 : inv D ∅ None (set_entries q pl es' G) (put_leaf q n' st) tab2).
  { eapply rest_leaf; [exact Hput|exact Hn0|apply lookup_insert_eq|exact Hg| |intros H0; rewrite Hhs; apply Hmark, H0].
    apply Forall_insert; [exact Hrange|]. unfold in_range in Hrange. rewrite Forall_lookup in Hrange. exact (Hrange _ _ Hes). }
  destruct (set_entries_own q pl es' G _ px Ho Hox) as (px' & Hox' & Hlo' & El1), (set_entries_own q pl es' G p pp Ho Hop) as (pp' & Hop' & Hlop' & El2).
  assert (Hr2 : tab2 !! Z.to_nat (leaf.lv sl) = Some es1) by (unfold tab2; rewrite lookup_insert_ne by exact Hrx; exact Hes1).
  assert (Hp2 : tab2 !! p = None).
  { unfold tab2. rewrite lookup_insert_ne; [exact Hpn|]. intros ->. destruct (fo_layer _ _ _ _ _ _ _ _ _ _ _ _ _ _ Hfo) as [[? ?] _]. congruence. }
  pose proof (treestore.inv_rename width w nv D ∅ None _ _ tab2 _ p px' pp' es1 Hi2 Hr2 Hox' Hop' ltac:(congruence) ltac:(congruence) Hp2) as Hi3.
  destruct (paths.rename_layer tab top r A B e p es1 Ht Htab Honce Hlay Hes1 Hrx Hpn) as (Ht3 & Hm3 & Hpath3).
  split; [lia|]. exists (<[p := es1]> (delete (Z.to_nat (leaf.lv sl)) tab2)), (set_entries q pl es' G), p, (pre ++ take 8 k), (drop 8 k). split; [exact Hm3|].
  split; try assumption.
  - apply (at_top_entries G (put_leaf q n' st)); assumption.
  - exists pp', pp'. split; [exact Hop'|]. split; [congruence|]. auto.
  - rewrite lookup_insert_eq. eauto.
  - eapply rest_shift; [exact Hro|lia|]. apply Hpath3; [apply Hro|rewrite length_take; lia|]. rewrite paths.slice_take8. unfold erank, rank in Er. congruence.
Qed.

End Focus.
End focus.
