(* ===== verification/NewLayer.v ===== *)
(** * A new layer, a new tree

    What check_leaf_insert does when a key shares the first eight bytes of another:
    the entry becomes a layer, whose leaf holds the old suffix, and the cursor goes
    on there.  And basic_table::initialize: the empty leaf is a well-formed tree. *)

From S2P Require Import Prelude KPermuter NodeVersion KSearch StringSlice MtKey LeafLink Internode Leaf Tree Layer Paths Cursor TreeStore HeldLeaf Split Focus.

Open Scope Z_scope.

Module newlayer.

Import leaf (entry, entry_of, entry_at, contents, rep, slot_at).
Import tree (heap, NLeaf, NInternode, leaf_ok, erank, krank, rlt, key_at, maps, leaf_place).
Import layer (entry_for, with_lv, set_lv).
Import paths (table_ok, path, rank).
Import cursor.
Import treestore (place, mkPlace, pl_layer, pl_lo, pl_hi, pl_entries, ghost, own, root_of, leaves, entries, in_range, good_leaf, good_node, at_top, store_ok, set_entries, add_layer).
Import heldleaf.
Import focus.

Section NewLayer.
Context (width : Z) (w : nat) (nv : nodeversion_parameters) (binary : bool) (mem : memory).
Context `{L : !NvLayout nv} (Hwidth : 3 <= width <= 15).
Context (bag : Z) (top : nat).
Abbreviation table := (gmap nat (list entry)).
Abbreviation inv := (treestore.inv width w nv).
Abbreviation good_leaf := (good_leaf width nv).
Abbreviation store_ok := (store_ok width w nv top).
Abbreviation held_leaf := (held_leaf width nv).
Abbreviation pending := (pending width nv mem).
Abbreviation focus := (focus width w nv mem bag top).
Abbreviation at_root := (at_root width w nv mem bag top).
Abbreviation same_maps := (same_maps top).
Abbreviation goes_on := (goes_on width w nv mem bag top).

(** ** A new layer *)

(** The suffix in the bag is away from the key. *)
Lemma bytes_bag bs a n : a + Z.of_nat n <= bag -> bytes (StringSlice.store mem bag bs) a n = bytes mem a n.
Proof. intros H. apply bytes_store_away. auto. Qed.
Lemma key_at_bag bs ka s len : key_at mem ka s len -> s + len <= bag -> key_at (StringSlice.store mem bag bs) ka s len.
Proof. intros (Hl & Hi & Hk & Hs) Hb. repeat split; try assumption. rewrite bytes_bag by lia. exact Hi. Qed.
Lemma shift_bag bs ka s len : key_at mem ka s len -> 8 <= len -> s + len <= bag ->
  key.shift (StringSlice.store mem bag bs) ka = key.shift mem ka.
Proof.
  intros (_ & _ & Hk & Hs) H8 Hb. unfold key.shift, key.ikey_size. unfold key.length in Hk. rewrite Hk, Hs.
  rewrite !make_comparable_sloppy_slice, bytes_bag by lia. reflexivity.
Qed.
Lemma suffix_bag bs ka s len : key_at mem ka s len -> 8 < len -> s + len <= bag ->
  leaf.suffix_of (StringSlice.store mem bag bs) ka = drop 8 (bytes mem s (Z.to_nat len)).
Proof.
  intros (_ & _ & Hk & Hs) H8 Hb. unfold leaf.suffix_of, key.suffix, key.ikey_size. unfold key.length in Hk. cbn [fst snd]. rewrite Hk, Hs.
  rewrite bytes_bag by lia. rewrite drop_bytes by lia. f_equal. lia.
Qed.
Lemma key_entry_bag bs ka s len : key_at mem ka s len -> s + len <= bag ->
  leaf.key_entry (StringSlice.store mem bag bs) ka = leaf.key_entry mem ka.
Proof.
  intros (_ & _ & Hk & Hs) Hb. unfold leaf.key_entry, key.has_suffix, leaf.suffix_of, key.suffix, key.ikey_size. unfold key.length in Hk. cbn [fst snd].
  rewrite Hk, Hs. destruct (Z.ltb_spec 8 len); [|reflexivity]. rewrite bytes_bag by lia. reflexivity.
Qed.

Definition layer_entry (x : Z) (nlp : nat) : entry := (x, 137, Z.of_nat nlp, []).

(** The new layer's version. *)
Definition root_version : Z := mark_root nv (new_nodeversion nv true).
Lemma root_version_ok : quiet nv root_version /\ deleted nv root_version = false /\ isleaf nv root_version = true /\ has_split nv root_version = false.
Proof.
  assert (Hv : tree.at_rest nv true root_version) by apply (layer.new_root_rest nv). destruct Hv as (_ & Hd & Hi).
  split; [apply quiet_new_root; exact L|]. split; [exact Hd|]. split; [exact Hi|].
  pose proof (nv_pos nv) as Hpos. unfold root_version, has_split, mark_root, new_nodeversion, root_bit, isleaf_bit.
  rewrite test_bit, Z.lor_spec, !one_bit by lia. rewrite Z.eqb_refl, orb_true_r. reflexivity.
Qed.

(** The two leaves that check_leaf_insert leaves behind: [sl]'s entry has become a
    layer, whose leaf [nl] holds the old suffix; [kc] compares it with the new one. *)
Record layer_made (prevs : gset nat) (q : nat) (lo : Z) (es : list entry) (v0 : Z) (i : nat) (sl : leaf.slot) (nlp : nat) (k2 : list byte) (ka2 : key.key)
    (n' nl : leaf.leaf) (kc : Z) : Prop := {
  lm_good : good_leaf prevs q lo n' (<[i := layer_entry (leaf.ikey0 sl) nlp]> es);
  lm_version : leaf.v_ n' = v0;
  lm_rep : rep width nl [Z.b2z (0 <? kc)] (rev (seqZ 2 (width - 2)) ++ [1 - Z.b2z (0 <? kc)]);
  lm_old : entry_at nl (Z.b2z (0 <? kc)) = entry_for (leaf.suf sl, leaf.lv sl);
  lm_new : kc <> 0 -> entry_at nl (1 - Z.b2z (0 <? kc)) = leaf.key_entry mem ka2;
  lm_removed : leaf.nremoved_ nl = 0;
  lm_lock : leaf.v_ nl = (if kc =? 0 then root_version else Z.lor root_version (lock_bit nv));
  lm_gt : 0 < kc -> rlt (rank k2) (rank (leaf.suf sl));
  lm_lt : kc < 0 -> rlt (rank (leaf.suf sl)) (rank k2)
}.

Lemma layer_bound n n1 n2 n3 kp sl nlp v : slot_at n kp = Some sl -> 0 <= kp ->
  layer.wrote n n1 kp (layer.flux_slot sl) -> layer.wrote n1 n2 kp (layer.swung_slot sl nlp) -> layer.wrote n2 n3 kp (layer.layer_slot sl nlp) ->
  leaf.ikey_bound (leaf.set_v v n3) = leaf.ikey_bound n.
Proof.
  intros Hs Hkp (_ & _ & _ & S1 & _) (_ & _ & _ & S2 & _) (_ & _ & _ & S3 & _). unfold leaf.ikey_bound, leaf.ikey. change (slot_at (leaf.set_v v n3) 0) with (slot_at n3 0).
  rewrite S3 by lia. destruct (Z.eqb_spec 0 kp) as [<-|Hne]; [rewrite Hs; reflexivity|]. rewrite S2, S1 by lia. destruct (Z.eqb_spec 0 kp); [contradiction|reflexivity].
Qed.

Lemma check_layer_ok (fresh : list leaf.slot) prevs q lo es hs v0 n l f i kp sl ka s len nlp (mem' := StringSlice.store mem bag (leaf.suf sl)) : Z.of_nat (length fresh) = width ->
  held_leaf prevs q lo es hs n l f f -> quiet nv v0 -> leaf.v_ n = Z.lor v0 (lock_bit nv) -> l !! i = Some kp -> slot_at n kp = Some sl ->
  es !! i = Some (entry_of sl) -> leaf.keylenx sl = 9 -> leaf.suf sl <> drop 8 (bytes mem s (Z.to_nat len)) ->
  key_at mem ka s len -> 8 < len -> s + len <= bag ->
  exists n1 n2 n3 n' nl kc,
    layer.check_layer width nv mem' n kp ka bag fresh nlp =
      Some (layer.LNew [n; n1; n2; n3; n'] nl (key.shift mem ka) (if kc =? 0 then None else Some (Z.b2z (kc <? 0)))) /\
    layer_made prevs q lo es v0 i sl nlp (drop 8 (bytes mem s (Z.to_nat len))) (key.shift mem ka) n' nl kc.
Proof.
  intros Hfresh [Hu Hr Hc Hs Hp Hn Hroom Hz Hbd] Hq Hv Hl Hsl Hes H9 Hne Hka H8 Hb.
  assert (Hkp : 0 <= kp < width) by (apply (leaf.rep_range _ _ _ _ kp Hr), elem_of_app; left; eapply list_elem_of_lookup_2, Hl).
  assert (deleted nv v0 = false /\ isleaf nv v0 = true) as [Hd Hil].
  { destruct Hu as (v' & E & _ & Hd & Hi & _). destruct (lock_unlock_quiet nv v0 Hq) as (_ & E' & _). rewrite Hv, E' in E. injection E as <-. auto. }
  set (oka := key.of_str mem' bag (Z.of_nat (length (leaf.suf sl)))). set (ka2 := key.shift mem ka). set (kc := layer.key_compare oka ka2).
  assert (Esh : key.shift mem' ka = ka2) by (apply (shift_bag _ ka s len Hka); lia).
  destruct (layer.check_layer_run width nv mem' Hwidth n kp sl v0 nlp Hq Hv ltac:(lia) Hsl H9 ka bag fresh) as (n1 & n2 & n3 & nl & E & El & W1 & W2 & W3).
  { unfold mem'. rewrite (suffix_bag _ ka s len Hka) by lia. exact Hne. }
  { exact Hfresh. }
  rewrite Esh in E, El. fold oka kc in E, El.
  destruct (layer.layer_leaf_ok width nv mem' Hwidth fresh oka ka2 kc (leaf.lv sl) Hfresh) as (nl' & El' & _ & Hrn & Eo & En & Hnr & Hvn).
  rewrite El in El'. injection El' as <-. exists n1, n2, n3, (leaf.set_v v0 n3), nl, kc. split; [exact E|].
  assert (Hka2 : key_at mem ka2 (s + 8) (len - 8)) by (apply tree.shift_at; [exact Hka|lia]).
  assert (Hoa : key_at mem' oka bag (Z.of_nat (length (leaf.suf sl)))) by (apply tree.of_str_at; lia).
  assert (Ek2 : bytes mem (s + 8) (Z.to_nat (len - 8)) = drop 8 (bytes mem s (Z.to_nat len))) by (rewrite drop_bytes by lia; f_equal; lia).
  destruct (layer.compare_entries mem' oka ka2 _ _ _ _ 0 0 Hoa (key_at_bag _ ka2 (s + 8) (len - 8) Hka2 ltac:(lia))) as (Hgt & Hlt & _).
  rewrite !paths.entry_rank in Hgt, Hlt. cbn [fst] in Hgt, Hlt.
  assert (Eb2 : bytes mem' (s + 8) (Z.to_nat (len - 8)) = drop 8 (bytes mem s (Z.to_nat len))) by (unfold mem'; rewrite bytes_bag by lia; exact Ek2).
  assert (Eb1 : bytes mem' bag (length (leaf.suf sl)) = leaf.suf sl) by apply bytes_store.
  rewrite Nat2Z.id, Eb1, Eb2 in Hgt, Hlt. fold kc in Hgt, Hlt.
  split; try assumption; try reflexivity.
  - pose proof (layer.layer_contents width Hwidth n kp sl nlp ltac:(lia) n1 n2 n3 v0 l f i W1 W2 W3 Hr Hl) as Hc'. rewrite Hc in Hc'.
    pose proof W1 as (V1 & P1 & L1 & _ & N1). pose proof W2 as (V2 & P2 & L2 & _ & N2). pose proof W3 as (V3 & P3 & L3 & _ & N3).
    apply (make_good width nv prevs q lo _ _ l f); try assumption.
    + destruct Hr as [Hh' Hp' Hsl']. split; [cbn; rewrite P3, P2, P1; exact Hh'|exact Hp'|cbn; lia].
    + eapply rsorted_update; [exact Hs|exact Hes|]. unfold erank, entry_of. cbn. rewrite H9. reflexivity.
    + apply Forall_insert; [exact Hp|]. cbn. lia.
    + cbn. lia.
    + unfold leaf.size in *. cbn. rewrite P3, P2, P1, N3, N2, N1. exact Hroom.
    + cbn. rewrite N3, N2, N1. exact Hz.
    + intros Hin. rewrite <- (Hbd Hin). eapply layer_bound; try eassumption. lia.
  - rewrite Eo, (layer.key_entry_for mem' oka _ _ _ Hoa), Nat2Z.id. unfold mem'. rewrite bytes_store. reflexivity.
  - intros Hkc. rewrite (En Hkc). apply (key_entry_bag _ ka2 (s + 8) (len - 8) Hka2). lia.
Qed.

(** The leaf of the new layer, unlocked or not. *)
Lemma layer_made_leaf prevs q lo es v0 i sl nlp k2 ka2 n' nl kc prevs' lo' : layer_made prevs q lo es v0 i sl nlp k2 ka2 n' nl kc -> nlp ∉ prevs' ->
  let es1 := [entry_for (leaf.suf sl, leaf.lv sl)] in
  contents width nl = es1 /\ rsorted es1 /\ Forall (fun e => 0 <= e.1.1.2) es1 /\ leaf.size nl + leaf.nremoved_ nl < width /\
  good_leaf prevs' nlp lo' (leaf.set_v root_version nl) es1.
Proof.
  intros [_ _ Hr Eo _ Hn _ _ _] Hnp es1. destruct root_version_ok as (Hq & Hd & Hi & _).
  assert (Hc : contents width nl = es1) by (rewrite (leaf.rep_contents _ _ _ _ Hr), fmap_cons, Eo; reflexivity).
  assert (Hs : rsorted es1) by (intros x y a b Hxy Hx Hy; apply lookup_lt_Some in Hx, Hy; cbn in *; lia).
  assert (Hp : Forall (fun e => 0 <= e.1.1.2) es1) by apply Forall_singleton, layer.entry_for_len.
  assert (Hsz : leaf.size nl = 1) by (rewrite (leaf.rep_size _ _ _ _ Hr); reflexivity).
  repeat (split; [first [assumption | lia]|]). apply (make_good width nv prevs' nlp lo' _ es1 [Z.b2z (0 <? kc)] (rev (seqZ 2 (width - 2)) ++ [1 - Z.b2z (0 <? kc)])); try assumption.
  - destruct Hr. split; assumption.
  - cbn. lia.
  - unfold leaf.size in *. cbn. lia.
  - intros Hin. contradiction.
  - intros Hin. contradiction.
Qed.

Lemma at_top_add G st q es nl : own G !! q = None -> at_top top G st -> at_top top (add_layer q es G) (add_leaf q nl st).
Proof.
  intros Hq (p1 & p2 & H1 & H2 & H3 & H4). exists p1, p2. cbn [add_layer own add_leaf root_]. rewrite !lookup_insert_ne by congruence. auto.
Qed.
Lemma add_prev q nl st : q ∉ prev_ (add_leaf q nl st).
Proof. rewrite treestore.prev_elem. intros (ln & Hl & Hp). cbn in Hl. rewrite lookup_insert_eq in Hl. injection Hl as <-. apply Hp. reflexivity. Qed.

(** check_leaf_insert makes a layer: the cursor goes on in it, or stands at its leaf
    with the key in the last free slot. *)
Lemma make_layer D tab K G st r pre k ka s len q pl hs n' nl v0 kc i sl nlp (k2 := drop 8 k) (ka2 := key.shift mem ka)
    (st1 := add_leaf nlp nl (put_leaf q n' st)) :
  focus D tab K G st r pre k ka s len q pl hs -> rsorted (pl_entries pl) -> pl_entries pl !! i = Some (slice_of k, 9, leaf.lv sl, leaf.suf sl) ->
  leaf.ikey0 sl = slice_of k -> 8 < len -> nodes st !! nlp = None -> has_split nv v0 = hs ->
  layer_made (prev_ st) q (pl_lo pl) (pl_entries pl) v0 i sl nlp k2 ka2 n' nl kc ->
  exists tab1 G1, same_maps tab1 tab /\
    (kc = 0 -> at_root D tab1 K G1 st1 nlp nlp (pre ++ take 8 k) k2 ka2 (s + 8) (len - 8)) /\
    (kc <> 0 -> exists l f pl1, let p := 1 - Z.b2z (0 <? kc) in
       focus D tab1 K G1 st1 nlp (pre ++ take 8 k) k2 ka2 (s + 8) (len - 8) nlp pl1 false /\
       pending (prev_ st1) nlp (pl_lo pl1) (pl_entries pl1) false nl l f p ka2 /\ absent_at (pl_entries pl1) p (rank k2)).
Proof.
  intros Hfo Hs Hi Hik H8 Hnew Hhs Hlm. pose proof Hlm as [Hg Hv Hr Eo En Hn Hlk Hgt Hlt]. destruct root_version_ok as (Hrq & Hrd & Hri & Hrs).
  pose proof Hfo as [Hinv Htop Ht [n0 Hn0] Ho _ Hro _ Hrange Hx Hmark]. destruct (rest_rank _ _ _ _ _ _ _ _ _ _ _ Hro) as (_ & _ & _ & Hlen).
  assert (Er : erank (slice_of k, 9, leaf.lv sl, leaf.suf sl) = rank k) by (unfold erank, rank; cbn [fst snd]; f_equal; lia).
  pose proof (focus_pos width w nv mem bag top _ _ _ _ _ _ _ _ _ _ _ _ _ _ Hfo) as Hpos.
  destruct (focus_entry width w nv mem Hwidth bag top _ _ _ _ _ _ _ _ _ _ _ _ _ _ i _ Hfo Hs Hi Er) as (A & B & Htab & Honce & Hput).
  rewrite Hik in Hg. set (e2 := layer_entry (slice_of k) nlp) in *. specialize (Hput e2). set (es2 := <[i := e2]> (pl_entries pl)) in *. set (G0 := set_entries q pl es2 G) in *.
  set (st0 := put_leaf q n' st) in *. set (tab0 := <[r := A ++ e2 :: B]> tab) in *. set (es1 := [entry_for (leaf.suf sl, leaf.lv sl)]).
  assert (Hi0 : inv D ∅ None G0 st0 tab0).
  { eapply (rest_leaf width w nv Hwidth); [exact Hput|exact Hn0|apply lookup_insert_eq|exact Hg| |intros H0; rewrite Hv, Hhs; apply Hmark, H0].
    apply Forall_insert; [exact Hrange|exact Hx]. }
  assert (Hnew0 : nodes st0 !! nlp = None) by (cbn; rewrite lookup_insert_ne by congruence; exact Hnew).
  pose proof (treestore.own_fresh _ _ _ _ _ _ _ _ _ _ Hi0 Hnew0) as Hon.
  assert (Htnew : tab !! nlp = None).
  { apply eq_None_not_Some. intros [es0 Hes0]. destruct (treestore.iv_table _ _ _ _ _ _ _ _ _ Hinv nlp es0 Hes0) as (px & _ & Hpx & _).
    rewrite (treestore.own_fresh _ _ _ _ _ _ _ _ _ _ Hinv Hnew) in Hpx. discriminate. }
  assert (Hi1 : inv D {[nlp]} None (add_layer nlp es1 G0) st1 (<[nlp := es1]> tab0)).
  { eapply (treestore.inv_mono width w nv Hwidth D D (∅ ∪ {[nlp]})); [apply (treestore.inv_add width w nv Hwidth); assumption|lia|set_solver]. }
  assert (Htop1 : at_top top (add_layer nlp es1 G0) st1) by (apply at_top_add; [exact Hon|apply (at_top_entries top G st0); assumption]).
  set (tab1 := <[nlp := es1]> tab0) in *.
  assert (Ht1 : table_ok tab1 top) by (apply paths.new_table_ok; assumption).
  assert (Hp1 : path tab1 top (pre ++ take 8 k) nlp).
  { apply paths.new_path_layer; try assumption; [apply Hro|rewrite length_take; lia|apply paths.slice_take8]. }
  assert (Hro1 : rest_of mem bag top tab1 K nlp (pre ++ take 8 k) k2 ka2 (s + 8) (len - 8)) by (eapply rest_shift; eassumption).
  set (pl1 := mkPlace (treestore.fresh_layer G0) 0 0 (2 ^ 64) es1).
  assert (Ho1 : own (add_layer nlp es1 G0) !! nlp = Some pl1) by apply lookup_insert_eq.
  assert (Hroot : root_of (add_layer nlp es1 G0) !! pl_layer pl1 = Some nlp) by apply lookup_insert_eq.
  assert (Hsome : is_Some (tab1 !! nlp)) by (unfold tab1; rewrite lookup_insert_eq; eauto).
  pose proof (add_prev nlp nl st0) as Hnp. fold st1 in Hnp.
  destruct (layer_made_leaf _ _ _ _ _ _ _ _ _ _ _ _ _ (prev_ st1) 0 Hlm Hnp) as (Hc1 & Hs1 & Hpos1 & Hroom1 & Hg1). fold es1 in Hc1, Hs1, Hpos1, Hg1.
  assert (Hr1 : in_range 0 (2 ^ 64) es1) by (apply Forall_singleton; apply tree.slice_of_range).
  exists tab1, (add_layer nlp es1 G0). split; [intros k' v; apply paths.new_maps; assumption|]. split; intros Hkc.
  - split; try assumption; [|exists pl1, pl1; auto].
    eapply (treestore.inv_mono width w nv Hwidth D D ({[nlp]} ∖ {[nlp]})); [|lia|set_solver]. apply (treestore.inv_rest width w nv Hwidth); [exact Hi1|].
    intros px nd Hpx Hnd. rewrite Ho1 in Hpx. injection Hpx as <-. cbn in Hnd. rewrite lookup_insert_eq in Hnd. injection Hnd as <-. split.
    + assert (E : leaf.set_v root_version nl = nl) by (rewrite Hkc in Hlk; cbn in Hlk; rewrite <- Hlk; destruct nl; reflexivity). rewrite E in Hg1. auto.
    + intros _. rewrite bool_decide_true by exact Hroot. rewrite Hkc in Hlk. cbn in Hlk |- *. rewrite Hlk. exact Hrs.
  - exists [Z.b2z (0 <? kc)], (rev (seqZ 2 (width - 2))), pl1. cbv zeta.
    assert (Hp : 0 <= 1 - Z.b2z (0 <? kc) <= 1) by (destruct (0 <? kc); cbn; lia).
    split; [split|split; [split; [split|split]|split; [cbn; lia|]]]; try assumption; try (intros Hin; contradiction); try lia.
    + exists nl. apply lookup_insert_eq.
    + eauto.
    + apply tree.slice_of_range.
    + intros _. rewrite bool_decide_true by exact Hroot. reflexivity.
    + rewrite Hlk. destruct (Z.eqb_spec kc 0); [contradiction|]. destruct (lock_unlock_quiet nv _ Hrq) as (_ & E & _). exists root_version. auto 6.
    + apply En, Hkc.
    + split; intros j a Hj Ha; pose proof (lookup_lt_Some _ _ _ Ha) as Hjl; cbn in Hjl; (destruct j as [|j]; [|lia]); injection Ha as <-;
        rewrite paths.entry_rank; cbn [fst]; destruct (Z.ltb_spec 0 kc); cbn in Hj; try lia; [apply Hlt|apply Hgt]; lia.
Qed.

(** ** A new tree *)

Lemma inv_no_tree D : inv D ∅ None (treestore.mkGhost ∅ ∅ ∅) no_tree ∅.
Proof. split; cbn [own root_of leaves]; intros *; rewrite ?lookup_empty; intros; first [discriminate | destruct H as [? H]; rewrite lookup_empty in H; discriminate]. Qed.

Lemma new_root_good (fresh : list leaf.slot) prevs q : Z.of_nat (length fresh) = width -> q ∉ prevs -> good_leaf prevs q 0 (leaf.set_v root_version (leaf.new_leaf width nv fresh)) [].
Proof.
  intros Hfresh Hq. destruct root_version_ok as (Hrq & Hrd & Hri & _).
  assert (Hr : rep width (leaf.set_v root_version (leaf.new_leaf width nv fresh)) [] (rev (seqZ 0 width))).
  { split; [cbn; rewrite (make_empty_sorted width) by lia|pose proof (sorted_slots_perm width 0 ltac:(lia)) as H|exact Hfresh].
    - pose proof (make_sorted_holds width 0 ltac:(lia) ltac:(lia)) as H. unfold sorted_slots in H. rewrite Z.sub_0_r in H. exact H.
    - unfold sorted_slots in H. rewrite Z.sub_0_r in H. exact H. }
  apply (make_good width nv prevs q 0 _ [] [] (rev (seqZ 0 width))); try assumption; try contradiction.
  - rewrite (leaf.rep_contents _ _ _ _ Hr). reflexivity.
  - intros i j a b _ H. discriminate H.
  - constructor.
  - cbn. lia.
  - rewrite (leaf.rep_size _ _ _ _ Hr). cbn. lia.
Qed.

(** basic_table::initialize gives the empty map. *)
Lemma initialize_ok (fresh : list leaf.slot) (alloc : heap -> nat) (p := alloc ∅) : Z.of_nat (length fresh) = width -> treestore.store_ok width w nv p 0 (reinitialize width nv alloc fresh no_tree) {[p := []]}.
Proof.
  intros Hfresh. set (G := add_layer p [] (treestore.mkGhost ∅ ∅ ∅)). set (st := reinitialize width nv alloc fresh no_tree).
  assert (Ho : own G !! p = Some (mkPlace (treestore.fresh_layer (treestore.mkGhost ∅ ∅ ∅)) 0 0 (2 ^ 64) [])) by apply lookup_insert_eq.
  assert (Hi : inv 0 {[p]} None G st {[p := []]}).
  { destruct (treestore.inv_add width w nv Hwidth 0 ∅ _ no_tree ∅ p (leaf.set_v root_version (leaf.new_leaf width nv fresh)) [] (inv_no_tree 0) eq_refl) as [H1 H2 H3 H4 H5 H6 H7 H8].
    split; try assumption. intros x pl nd Hx. apply H8. set_solver. }
  split; [exists G; split|].
  - eapply (treestore.inv_mono width w nv Hwidth 0 0 ({[p]} ∖ {[p]})); [|lia|set_solver]. apply (treestore.inv_rest width w nv Hwidth); [exact Hi|].
    intros pl nd Hpl Hnd. rewrite Ho in Hpl. injection Hpl as <-. cbn in Hnd. fold p in Hnd. rewrite lookup_insert_eq in Hnd. injection Hnd as <-.
    split; [split; [apply new_root_good; [exact Hfresh|]; exact (add_prev p (leaf.set_v root_version (leaf.new_leaf width nv fresh)) no_tree)|constructor]|]. intros _. rewrite bool_decide_true by apply lookup_insert_eq. apply root_version_ok.
  - eexists _, _. split; [exact Ho|]. split; [reflexivity|]. split; [exact Ho|reflexivity].
  - assert (Hno : forall r es e, ({[p := []]} : table) !! r = Some es -> e ∉ es) by (intros r es e H; apply lookup_singleton_Some in H as [_ <-]; apply not_elem_of_nil).
    split; [exists []; apply lookup_singleton_eq|intros r es a b H Ha; destruct (Hno _ _ _ H Ha)|intros r es e H He; destruct (Hno _ _ _ H He)|intros r1 r2 es1 es2 e1 e2 H _ He; destruct (Hno _ _ _ H He)].
Qed.

End NewLayer.
End newlayer.
