(* ===== verification/Modify.v ===== *)
(** * modify_insert and modify change the map at one key

    The operations of Cursor.v on a well-formed tree: they return, keep the
    invariant of TreeStore.v, and change what the tree maps exactly as the callback
    says, at the key and nowhere else.  A full leaf is split on the way (Split.v), a
    value whose key shares its first eight bytes is moved to a new layer. *)

From S2P Require Import Prelude KPermuter NodeVersion KSearch StringSlice MtKey LeafLink Internode Leaf Tree Layer Paths Cursor TreeStore HeldLeaf Split Focus NewLayer.

Open Scope Z_scope.

Module modify.

Import leaf (entry, entry_of, entry_at, contents, rep, slot_at).
Import tree (heap, NLeaf, NInternode, leaf_ok, erank, krank, rlt, key_at, maps, leaf_place).
Import layer (entry_for, with_lv, set_lv).
Import paths (table_ok, path, rank).
Import cursor.
Import treestore (place, mkPlace, pl_layer, pl_lo, pl_hi, pl_entries, ghost, own, root_of, leaves, entries, in_range, good_leaf, good_node, at_top, store_ok, set_entries, add_layer).
Import heldleaf.
Import focus.
Import newlayer (suffix_bag, check_layer_ok, make_layer).

(** The parameters of the tree: wide leaves, and an allocator that gives unused
    addresses and arrays of the right sizes. *)
Record tree_shape (width : Z) (w : nat) (alloc : heap -> nat) (fresh : list leaf.slot) (new_ikeys : list Z) (new_children : list internode.ptr) : Prop := {
  ts_width : 11 <= width <= 15;
  ts_w : (1 <= w)%nat;
  ts_alloc : forall h, h !! alloc h = None;
  ts_slots : Z.of_nat (length fresh) = width;
  ts_ikeys : length new_ikeys = w;
  ts_children : length new_children = S w
}.

Section Modify.
Context (width : Z) (w : nat) (nv : nodeversion_parameters) (binary : bool) (mem : memory).
Context `{L : !NvLayout nv} (Hwidth : 3 <= width <= 15).
Context (bag : Z) (top : nat).
Abbreviation table := (gmap nat (list entry)).
Abbreviation inv := (treestore.inv width w nv).
Abbreviation good_leaf := (good_leaf width nv).
Abbreviation store_ok := (store_ok width w nv top).
Abbreviation held_leaf := (held_leaf width nv).
Abbreviation pending := (pending width nv mem).
Abbreviation focus := (focus width w nv mem bag top).
Abbreviation at_root := (at_root width w nv mem bag top).
Abbreviation same_maps := (same_maps top).
Abbreviation goes_on := (goes_on width w nv mem bag top).

Lemma put_put q n n' st : put_leaf q n (put_leaf q n' st) = put_leaf q n st.
Proof. unfold put_leaf, put_node. cbn. rewrite insert_insert_eq. reflexivity. Qed.

(** The leaf is written while it is locked. *)
Lemma focus_put D tab K G st r pre k ka s len q pl hs n : focus D tab K G st r pre k ka s len q pl hs -> focus D tab K G (put_leaf q n st) r pre k ka s len q pl hs.
Proof.
  intros [F1 F2 F3 [n0 Hn0] F5 F6 F7 F8 F9 F10 F11]. split; try assumption; [|exists n; apply lookup_insert_eq].
  eapply (treestore.inv_mono width w nv Hwidth D D ({[q]} ∪ {[q]}) {[q]}); [|lia|set_solver]. eapply (treestore.inv_node width w nv Hwidth); [exact F1|exact Hn0|exact I].
Qed.
Lemma focus_mono D D' tab K G st r pre k ka s len q pl hs : (D <= D')%nat -> focus D tab K G st r pre k ka s len q pl hs -> focus D' tab K G st r pre k ka s len q pl hs.
Proof. intros HD [F1 F2 F3 F4 F5 F6 F7 F8 F9 F10 F11]. split; try assumption. eapply (treestore.inv_mono width w nv Hwidth); [exact F1|exact HD|set_solver]. Qed.
(** ** The cursor at the end of its search *)

(** The key's entry, at position [ki] of the leaf. *)
Definition present_at (es : list entry) (l : list Z) (ki kp : Z) (k : list byte) (e : entry) : Prop :=
  0 <= ki /\ l !! Z.to_nat ki = Some kp /\ es !! Z.to_nat ki = Some e /\ erank e = rank k /\ e.1.1.2 <= 9 /\ ((8 < length k)%nat -> drop 8 k = e.2).

Definition cursor_found (D : nat) (tab : table) (K : list byte) (st : store) (q : nat) (n : leaf.leaf) (ki kp : Z) (ka : key.key) : Prop :=
  exists tab' G r pre k s len pl hs l f e, same_maps tab' tab /\ focus D tab' K G st r pre k ka s len q pl hs /\
    held_leaf (prev_ st) q (pl_lo pl) (pl_entries pl) hs n l f f /\ present_at (pl_entries pl) l ki kp k e.
Definition cursor_inserting (D : nat) (tab : table) (K : list byte) (st : store) (q : nat) (n : leaf.leaf) (ki kp : Z) (ka : key.key) : Prop :=
  exists tab' G r pre k s len pl hs l f, same_maps tab' tab /\ focus D tab' K G st r pre k ka s len q pl hs /\
    pending (prev_ st) q (pl_lo pl) (pl_entries pl) hs n l f kp ka /\ absent_at (pl_entries pl) ki (rank k).

(** What find_insert stops with. *)
Definition inserting (D : nat) (tab : table) (K : list byte) (r : insertion) : Prop :=
  match r with
  | IFound st q n ki kp ka => cursor_found D tab K st q n ki kp ka
  | IInsert st q n ki kp ka => cursor_inserting D tab K st q n ki kp ka
  | IRoot _ _ _ => False
  end.

Lemma absent_unmapped D tab K G st r pre k ka s len q pl hs ki : focus D tab K G st r pre k ka s len q pl hs -> absent_at (pl_entries pl) ki (rank k) ->
  forall v, ~ maps tab top K v.
Proof.
  intros Hfo Hab v Hm. apply (focus_maps width w nv mem Hwidth bag top D tab K G st r pre k ka s len q pl hs Hfo) in Hm as (e & He & Er & _). exact (absent_not _ _ _ _ Hab He Er).
Qed.

(** The entry of the key, as it is put in a slot. *)
Lemma rest_entry tab K r pre k ka s len : rest_of mem bag top tab K r pre k ka s len -> (forall x, with_lv x (leaf.key_entry mem ka) = entry_for (k, x)) /\
  erank (leaf.key_entry mem ka) = rank k /\ 0 <= (leaf.key_entry mem ka).1.1.2.
Proof.
  intros [_ _ _ Hka _ -> _]. pose proof (fun x => layer.key_entry_for mem ka s len x Hka) as H. split; [exact H|]. specialize (H 0). split.
  - change (erank (leaf.key_entry mem ka)) with (erank (with_lv 0 (leaf.key_entry mem ka))). rewrite H. apply paths.entry_rank.
  - change ((leaf.key_entry mem ka).1.1.2) with ((with_lv 0 (leaf.key_entry mem ka)).1.1.2). rewrite H. apply paths.entry_len.
Qed.

Section Split.
Context (fresh : list leaf.slot) (alloc : heap -> nat) (new_ikeys : list Z) (new_children : list internode.ptr).
Hypothesis Hshape : tree_shape width w alloc fresh new_ikeys new_children.
Abbreviation split_leaf := (finish_split width w nv binary mem alloc fresh new_ikeys new_children).

(** finish_split keeps the cursor's place in the tree. *)
Lemma split_focus D tab K G st r pre k ka s len q pl hs n l f p fuel : focus D tab K G st r pre k ka s len q pl hs ->
  split.full_leaf width nv mem st q pl n l f p ka -> (D < fuel)%nat ->
  exists st' q' n' ki kp, split_leaf fuel st q n (Z.of_nat p) ka = Some (st', q', n', ki, kp) /\ cursor_inserting (S D) tab K st' q' n' ki kp ka.
Proof.
  intros [Hi (p1 & p2 & Ht1 & Ht2 & Ht3 & Ht4) Ht _ Ho (Hr & plr & Hor & El) Hro _ _ _ _] Hfl Hf. destruct Hshape as [[Hwide _] Hw Halloc Hfresh Hnk Hnc].
  destruct (split.finish_split_ok width w nv binary mem Hwidth alloc new_ikeys new_children Halloc Hnk Hnc Hw fresh Hfresh Hwide fuel D G st tab q pl n l f p ka Hi Ho Hfl Hf)
    as (st' & q' & n' & ki & kp & E & G' & pl' & hs' & l' & f' & Hi' & Hn' & Ho' & El' & Hpe & Hab & Hrng & Hkey & Hmark & Hkept & Hmoved).
  exists st', q', n', ki, kp. split; [exact E|]. destruct (rest_entry _ _ _ _ _ _ _ _ Hro) as (_ & Ek & _), (rest_rank _ _ _ _ _ _ _ _ _ _ _ Hro) as (_ & _ & Eik & _).
  rewrite Ek in Hab. rewrite Eik in Hkey. destruct (Hkept r plr Hor) as (plr' & Hor' & Elr & _).
  exists tab, G', r, pre, k, s, len, pl', hs', l', f'. split; [intros ? ?; reflexivity|]. split; [|auto]. split; try assumption; [|eauto| |apply Hpe|rewrite El'; exact Hmark].
  - destruct (Hkept _ _ Ht3) as (p2' & Ht3' & El2 & _). destruct Hmoved as [Em|(Hns & p3 & Hp3 & Hlo3 & El3)].
    + destruct (Hkept _ _ Ht1) as (p1' & Ht1' & El1 & Hlo1). rewrite <- Em in Ht1'. exists p1', p2'. split; [exact Ht1'|]. split; [congruence|]. split; [exact Ht3'|congruence].
    + pose proof (rest_unshifted _ _ _ _ _ _ _ _ _ _ _ Hro Hns) as ->. rewrite Ht3 in Hor. injection Hor as <-. exists p3, p2'. split; [exact Hp3|]. split; [exact Hlo3|]. split; [exact Ht3'|congruence].
  - split; [exact Hr|]. exists plr'. split; [exact Hor'|]. congruence.
Qed.
End Split.

(** The key's leaf, locked. *)
Section AtLeaf.
Context (D : nat) (tab : table) (K : list byte) (G : ghost) (st : store) (r : nat) (pre k : list byte) (ka : key.key) (s len : Z).
Context (q : nat) (n : leaf.leaf) (l f : list Z) (pl : place).
Let n1 := locked_leaf nv n.
Let st1 := put_leaf q n1 st.
Let es := pl_entries pl.
Hypothesis Hg : good_leaf (prev_ st) q (pl_lo pl) n es.
Hypothesis Hhl : held_leaf (prev_ st) q (pl_lo pl) es (has_split nv (leaf.v_ n)) n1 l f f.
Hypothesis Hfo : focus D tab K G st1 r pre k ka s len q pl (has_split nv (leaf.v_ n)).

Lemma leaf_rest : rest_of mem bag top tab K r pre k ka s len.
Proof. apply Hfo. Qed.
Lemma leaf_rank : krank ka = rank k /\ len = Z.of_nat (length k).
Proof. destruct (rest_rank _ _ _ _ _ _ _ _ _ _ _ leaf_rest) as (H1 & _ & _ & H2). auto. Qed.

(** The entry found is the key's, or one with another suffix. *)
Lemma found_suffix mem' ki kp sl : (8 < len -> leaf.suffix_of mem' ka = drop 8 k) ->
  leaf_place width ka n es l (KSearch.Found ki kp) -> slot_at n kp = Some sl -> leaf.keylenx sl <= 9 ->
  (present_at es l ki kp k (entry_of sl) /\ tree.ksuf_equals mem' ka sl (leaf.keylenx sl) = true) \/
  (leaf.keylenx sl = 9 /\ 8 < len /\ leaf.suf sl <> drop 8 k /\ tree.ksuf_equals mem' ka sl (leaf.keylenx sl) = false).
Proof.
  intros Hsx (Hki & Hkp & Hl & sl' & Hs' & Hes & Er) Hs H9. rewrite Hs in Hs'. injection Hs' as <-. destruct leaf_rank as [Ekr Hlenk]. rewrite Ekr in Er.
  assert (Em : Z.min (leaf.keylenx sl) 9 = Z.min len 9) by (unfold erank, rank in Er; apply pair_equal_spec in Er as [_ Er]; cbn in Er; lia).
  unfold tree.ksuf_equals, present_at, leaf.keylenx_has_ksuf. change (key.ikey_size + 1) with 9. destruct (Z.eqb_spec (leaf.keylenx sl) 9) as [E9|E9]; cbn [negb orb].
  - rewrite Hsx by lia. assert (Es : (entry_of sl).2 = leaf.suf sl) by (unfold entry_of; rewrite E9; reflexivity).
    case_bool_decide as Ed; [left|right].
    + split; [|reflexivity]. repeat (split; [assumption|]). intros _. congruence.
    + split; [exact E9|]. split; [lia|]. auto.
  - left. split; [|reflexivity]. repeat (split; [assumption|]). intros H8. cbn in Em. lia.
Qed.

Lemma leaf_taken n2 : leaf.v_ n2 = leaf.v_ n1 \/ leaf.v_ n2 = Z.lor (leaf.v_ n1) (inserting_bit nv) -> split.taken nv true (leaf.v_ n2) /\ unlocks nv (has_split nv (leaf.v_ n)) (leaf.v_ n2).
Proof.
  destruct Hg as [[[_ [Hd Hi]] _ _ _ _] Hq _ _ _ _]. intros Hv. assert (Hh : held nv (leaf.v_ n) (leaf.v_ n2)) by exact Hv. split; [exists (leaf.v_ n); split; [split; auto|exact Hh]|].
  destruct (unlock_held nv _ _ Hq Hh) as (v' & E & Hq' & Hs & Hd' & Hi'). exists v'. split; [exact E|]. split; [exact Hq'|]. split; [congruence|]. split; congruence.
Qed.

Lemma absent_place ki : leaf_place width ka n es l (KSearch.Absent ki) -> absent_at es ki (rank k).
Proof.
  intros (Hki & Hb & Ha). destruct leaf_rank as [Ekr _]. rewrite Ekr in Hb, Ha. rewrite (held_length _ _ _ _ _ _ _ _ _ _ _ Hhl) in Hki. split; [exact Hki|auto].
Qed.

Abbreviation check_locked := (check_leaf_locked width nv binary mem).

(** The key is not in its leaf. *)
Lemma other_suffix ki kp sl : leaf_place width ka n es l (KSearch.Found ki kp) -> slot_at n kp = Some sl -> leaf.keylenx sl = 9 ->
  leaf.suf sl <> drop 8 k -> forall v, ~ maps tab top K v.
Proof.
  intros (Hki & Hkp & Hl & sl' & Hs' & Hes & Er) Hs H9 Hne v Hm. rewrite Hs in Hs'. injection Hs' as <-.
  destruct leaf_rank as [Ekr _]. rewrite Ekr in Er. pose proof Hhl as [_ _ _ Hsort _ _ _ _ _].
  apply (focus_maps width w nv mem Hwidth bag top _ _ _ _ _ _ _ _ _ _ _ _ _ _ Hfo) in Hm as (e & He & Ere & Hv). apply list_elem_of_lookup_1 in He as [j Hj].
  assert (e = entry_of sl) as ->.
  { assert (Ej : j = Z.to_nat ki) by (apply (rsorted_unique es j _ e (entry_of sl) Hsort Hj Hes); congruence). subst j. unfold es in Hes. congruence. }
  unfold entry_of in Hv. cbn [fst snd] in Hv. rewrite H9 in Hv. destruct Hv as [Hd _]. apply Hne. symmetry. exact Hd.
Qed.

Lemma lock_at_leaf fd fuel root : leaf_place width ka n es l fd ->
  (forall ki kp, fd = KSearch.Found ki kp -> exists s, slot_at n kp = Some s /\ leaf.keylenx s <= 9) ->
  get_leaf_locked nv binary mem fuel st root q (leaf.v_ n) ka = Some (AtLeaf st1 n1 (found_ki fd) (found_kp fd)) ->
  exists kp, check_locked fuel st root q (leaf.v_ n) ka = Some (LAt st1 q n1 (found_ki fd) kp ka) /\
    (if 0 <=? kp then exists e, present_at es l (found_ki fd) kp k e else forall v, ~ maps tab top K v).
Proof.
  intros Hp H9 E. unfold check_leaf_locked. rewrite E. cbn [mbind option_bind]. pose proof Hhl as [_ Hr _ _ _ Hn Hroom _ _].
  destruct fd as [ki kp|ki]; cbn [found_ki found_kp] in *.
  - destruct (H9 ki kp eq_refl) as (sl & Hs & Hkl). pose proof Hp as (_ & Hkp & _). destruct (Z.leb_spec 0 kp); [|lia].
    change (slot_at n1 kp) with (slot_at n kp). rewrite Hs. cbn [mbind option_bind].
    destruct (found_suffix mem ki kp sl) as [[Hpr Ek]|(E9 & H8 & Hne & Ek)]; try assumption.
    { intros H8. pose proof leaf_rest as [_ _ _ (_ & _ & Hk' & Hs') _ Hk _]. unfold leaf.suffix_of, key.suffix, key.ikey_size. unfold key.length in Hk'.
      cbn [fst snd]. rewrite Hk', Hs', Hk, drop_bytes by lia. f_equal. lia. }
    + rewrite Ek. exists kp. split; [reflexivity|]. destruct (Z.leb_spec 0 kp); [eauto|lia].
    + rewrite Ek. exists (-1). split; [reflexivity|]. cbn. eapply other_suffix; eassumption.
  - cbn [Z.leb Z.compare]. unfold leaf.deleted_layer. pose proof (leaf.rep_size _ _ _ _ Hr). destruct (Z.ltb_spec width (leaf.nremoved_ n1)); [lia|]. rewrite andb_false_r.
    exists (-1). split; [reflexivity|]. cbn. eapply absent_unmapped; [exact Hfo|apply absent_place, Hp].
Qed.

(** *** check_leaf_insert *)
Section Insert.
Context (fresh : list leaf.slot) (alloc : heap -> nat) (new_ikeys : list Z) (new_children : list internode.ptr).
Hypothesis Hshape : tree_shape width w alloc fresh new_ikeys new_children.
Abbreviation check_insert := (check_leaf_insert width w nv binary mem bag alloc fresh new_ikeys new_children).

Lemma insert_at_found ki kp sl fuel root : leaf_place width ka n es l (KSearch.Found ki kp) -> slot_at n kp = Some sl -> leaf.keylenx sl <= 9 ->
  get_leaf_locked nv binary mem fuel st root q (leaf.v_ n) ka = Some (AtLeaf st1 n1 ki kp) ->
  exists res, check_insert fuel st root q (leaf.v_ n) ka = Some res /\
    (inserting (S D) tab K res \/ exists st' root' ka', res = IRoot st' root' ka' /\ goes_on D tab K s len st' root' ka').
Proof.
  intros Hp Hs H9 E. pose proof Hp as (Hki & Hkp & Hl & sl' & Hs' & Hes & Er). rewrite Hs in Hs'. injection Hs' as <-.
  pose proof leaf_rest as [_ _ _ Hka _ Hk Hbag]. destruct leaf_rank as [Ekr _]. rewrite Ekr in Er.
  unfold check_leaf_insert. rewrite E. cbn [mbind option_bind]. destruct (Z.leb_spec 0 kp); [|lia].
  change (slot_at n1 kp) with (slot_at n kp). rewrite Hs. cbn [mbind option_bind].
  destruct (found_suffix (StringSlice.store mem bag (leaf.suf sl)) ki kp sl) as [[Hpr Ek]|(E9 & H8 & Hne & Ek)]; try assumption.
  { intros H8. rewrite Hk. apply (suffix_bag mem bag _ ka s len Hka H8 Hbag). }
  - unfold layer.check_layer at 1. change (slot_at n1 kp) with (slot_at n kp). rewrite Hs. cbn [mbind option_bind]. rewrite Ek. eexists. split; [reflexivity|]. left.
    exists tab, G, r, pre, k, s, len, pl, (has_split nv (leaf.v_ n)), l, f, (entry_of sl). split; [intros ? ?; reflexivity|]. split; [|auto]. eapply focus_mono; [|exact Hfo]. lia.
  - pose proof Hhl as [_ _ _ Hsort _ _ _ _ _]. pose proof Hg as [_ Hqu _ _ _ _].
    destruct (check_layer_ok width nv mem Hwidth bag fresh (prev_ st) q (pl_lo pl) es _ (leaf.v_ n) n1 l f (Z.to_nat ki) kp sl ka s len (alloc (nodes st1)) (ts_slots _ _ _ _ _ _ Hshape) Hhl Hqu eq_refl Hl Hs Hes E9)
      as (m1 & m2 & m3 & n' & nl & kc & -> & Hlm); [rewrite <- Hk; exact Hne|exact Hka|exact H8|exact Hbag|].
    cbn [mbind option_bind last]. rewrite <- Hk in Hlm.
    assert (Hik : leaf.ikey0 sl = slice_of k) by (unfold erank, rank in Er; apply pair_equal_spec in Er as [Er _]; exact Er).
    assert (Hes' : es !! Z.to_nat ki = Some (slice_of k, 9, leaf.lv sl, leaf.suf sl)).
    { etransitivity; [exact Hes|]. unfold entry_of. rewrite E9, Hik. reflexivity. }
    destruct (make_layer width w nv mem Hwidth bag top D tab K G st1 r pre k ka s len q pl _ n' nl (leaf.v_ n) kc (Z.to_nat ki) sl (alloc (nodes st1)) Hfo Hsort Hes' Hik H8 (ts_alloc _ _ _ _ _ _ Hshape _) eq_refl Hlm)
      as (tab1 & G1 & Hm & H0 & H1). destruct (Z.eqb_spec kc 0) as [Ekc|Ekc].
    + eexists. split; [reflexivity|]. right. eexists _, _, _. split; [reflexivity|]. split; [exact H8|]. eauto 8.
    + destruct (H1 Ekc) as (l1 & f1 & pl1 & Hfo1 & Hpe & Hab). eexists. split; [reflexivity|]. left.
      replace (Z.b2z (kc <? 0)) with (1 - Z.b2z (0 <? kc)) by (destruct (Z.ltb_spec 0 kc), (Z.ltb_spec kc 0); cbn; lia).
      exists tab1, G1, (alloc (nodes st1)), (pre ++ take 8 k), (drop 8 k), (s + 8), (len - 8), pl1, false, l1, f1. split; [exact Hm|]. split; [|auto]. eapply focus_mono; [|exact Hfo1]. lia.
Qed.
Lemma insert_at_absent ki fuel root : leaf_place width ka n es l (KSearch.Absent ki) -> (D < fuel)%nat ->
  get_leaf_locked nv binary mem fuel st root q (leaf.v_ n) ka = Some (AtLeaf st1 n1 ki (-1)) ->
  exists res, check_insert fuel st root q (leaf.v_ n) ka = Some res /\ inserting (S D) tab K res.
Proof.
  intros Hp Hf E. pose proof (absent_place ki Hp) as Hab. pose proof Hhl as [_ Hr Hc Hs Hlen Hn Hroom Hz Hbd].
  unfold check_leaf_insert. rewrite E. cbn [mbind option_bind Z.leb Z.compare]. destruct (split.taken_locked nv true (leaf.v_ n1)) as [Hlk _]; [apply leaf_taken; auto|].
  destruct (leaf.do_insert_ok width nv mem Hwidth (bool_decide (q ∈ prev_ st1)) n1 l f ka Hr Hn) as (res & -> & Hok); [|exact Hlk|].
  { rewrite bool_decide_eq_true. exact Hz. }
  destruct res as [kp n2| |n2]; cbn [mbind option_bind leaf.insert_ok] in *.
  - eexists. split; [reflexivity|]. destruct Hok as [(l2 & f2 & Hr2 & Hc2 & He2 & Hn2 & Hlt2 & Hz2 & Hb2) Hv2]. rewrite bool_decide_eq_true in Hz2, Hb2.
    exists tab, G, r, pre, k, s, len, pl, (has_split nv (leaf.v_ n)), l2, f2. split; [intros ? ?; reflexivity|].
    split; [apply focus_put; eapply focus_mono; [|exact Hfo]; lia|]. split; [|exact Hab]. split; [|auto]. split; try assumption; try congruence; try lia.
    + apply leaf_taken, Hv2.
    + rewrite Hc2. exact Hc.
    + intros Hin H0. apply (leaf.zero_last_pop width nv Hwidth f2 kp), (Hz2 Hin H0).
    + intros Hin. rewrite (Hb2 Hin). apply (Hbd Hin).
  - pose proof (leaf.rep_size _ _ _ _ Hr). lia.
  - destruct Hok as (Hc2 & Hn2 & Hsz2 & _ & (l2 & f2 & Hr2) & Hv2 & Hb2). destruct (rest_entry _ _ _ _ _ _ _ _ leaf_rest) as (_ & Ek & Hkl), (rest_rank _ _ _ _ _ _ _ _ _ _ _ leaf_rest) as (_ & _ & Eik & _).
    pose proof (focus_put _ _ _ _ _ _ _ _ _ _ _ _ _ _ n2 Hfo) as Hfo2. assert (Hki : 0 <= ki) by apply Hab.
    destruct (split_focus _ _ _ _ Hshape D tab K G (put_leaf q n2 st1) r pre k ka s len q pl _ n2 l2 f2 (Z.to_nat ki) fuel Hfo2) as (st' & q' & n' & ki' & kp' & E' & Hins); [|exact Hf|].
    + split; try assumption; try congruence; [apply lookup_insert_eq|rewrite Hc2; exact Hc|rewrite Ek, Z2Nat.id by exact Hki; exact Hab|apply Hfo|rewrite Eik; apply Hfo|apply leaf_taken, Hv2|].
      intros Hin. rewrite Hb2. apply (Hbd Hin).
    + rewrite Z2Nat.id in E' by exact Hki. rewrite E'. cbn [mbind option_bind]. eexists. split; [reflexivity|]. exact Hins.
Qed.
End Insert.
End AtLeaf.

(** ** find_locked *)

Lemma same_trans t1 t2 t3 : same_maps t1 t2 -> same_maps t2 t3 -> same_maps t1 t3.
Proof. intros H1 H2 k v. rewrite (H1 k v). apply H2. Qed.
Lemma same_refl t : same_maps t t.
Proof. intros k v. reflexivity. Qed.

Lemma found_maps D tab' tab K st q n ki kp ka : same_maps tab' tab -> cursor_found D tab' K st q n ki kp ka -> cursor_found D tab K st q n ki kp ka.
Proof. intros Hm (t & G & r & pre & k & s & len & pl & hs & l & f & e & Hs & H). exists t, G, r, pre, k, s, len, pl, hs, l, f, e. split; [eapply same_trans; eassumption|exact H]. Qed.
Lemma inserting_maps D tab' tab K res : same_maps tab' tab -> inserting D tab' K res -> inserting D tab K res.
Proof.
  intros Hm. destruct res as [st q n ki kp ka|st q n ki kp ka|]; cbn [inserting]; [apply found_maps, Hm| |auto].
  intros (t & G & r & pre & k & s & len & pl & hs & l & f & Hs & H). exists t, G, r, pre, k, s, len, pl, hs, l, f. split; [eapply same_trans; eassumption|exact H].
Qed.

(** get_leaf_locked goes to the next layer, or stops at the key's leaf. *)
Lemma locate D tab K G st r x pre k ka s len fuel : at_root D tab K G st r x pre k ka s len -> (S D < fuel)%nat ->
  exists q n l f pl res, tree.reach_leaf nv binary (nodes st) (parent_ st) fuel x ka = Some (q, n, leaf.v_ n) /\
    get_leaf_locked nv binary mem fuel st x q (leaf.v_ n) ka = Some res /\
    good_leaf (prev_ st) q (pl_lo pl) n (pl_entries pl) /\ held_leaf (prev_ st) q (pl_lo pl) (pl_entries pl) (has_split nv (leaf.v_ n)) (locked_leaf nv n) l f f /\
    focus D tab K G (put_leaf q (locked_leaf nv n) st) r pre k ka s len q pl (has_split nv (leaf.v_ n)) /\
    match res with
    | NextRoot st' x' ka' => goes_on D tab K s len st' x' ka'
    | AtLeaf st' n' ki kp => exists fd, st' = put_leaf q (locked_leaf nv n) st /\ n' = locked_leaf nv n /\ ki = found_ki fd /\ kp = found_kp fd /\
        leaf_place width ka n (pl_entries pl) l fd /\ (forall ki kp, fd = KSearch.Found ki kp -> exists s, slot_at n kp = Some s /\ leaf.keylenx s <= 9)
    end.
Proof.
  intros Har Hf. destruct (reach_focus width w nv binary mem Hwidth bag top D tab K G st r x pre k ka s len fuel Har Hf) as (q & n & l & f & pl & Er & Hq & Hg & Hhl & Hfo).
  destruct (rest_rank _ _ _ _ _ _ _ _ _ _ _ (ar_rest _ _ _ _ _ _ _ _ _ _ _ _ _ _ _ _ _ _ Har)) as (_ & Hlen & _).
  pose proof (focus_layers width w nv mem Hwidth bag top _ _ _ _ _ _ _ _ _ _ _ _ _ _ fuel Hfo ltac:(lia)) as Hlay.
  destruct (get_leaf_locked_ok width nv binary mem Hwidth fuel st x q (pl_lo pl) _ n (pl_entries pl) l f ka Hq Hg Hhl Hlen Hlay) as (res & E & Hres).
  exists q, n, l, f, pl, res. repeat (split; [assumption|]). pose proof Hhl as [_ _ _ Hsort _ _ _ _ _].
  destruct Hres as [ki kp sl nd Hp Hs H127 H8 Hnd _|ki kp sl nd p n1 n' st1 Hp Hs H127 H8 Hnd Hsp Hup Hhl1 En'|fd Hp H9].
  - eapply enter_layer with (fuel := fuel); try eassumption. lia.
  - eapply repoint_layer; try eassumption. lia.
  - exists fd. auto 8.
Qed.
Definition cursor_missing (D : nat) (tab : table) (K : list byte) (st : store) (q : nat) (n : leaf.leaf) : Prop :=
  exists tab' G r pre k ka s len pl hs l f, same_maps tab' tab /\ focus D tab' K G st r pre k ka s len q pl hs /\
    held_leaf (prev_ st) q (pl_lo pl) (pl_entries pl) hs n l f f /\ forall v, ~ maps tab' top K v.
(** What find_locked stops with. *)
Definition looked_up (D : nat) (tab : table) (K : list byte) (r : lookup) : Prop :=
  match r with
  | LAt st q n ki kp ka => if 0 <=? kp then cursor_found D tab K st q n ki kp ka else cursor_missing D tab K st q n
  | LRoot _ _ _ => False
  end.

Lemma looked_up_maps D tab' tab K res : same_maps tab' tab -> looked_up D tab' K res -> looked_up D tab K res.
Proof.
  intros Hm. destruct res as [st q n ki kp ka|]; cbn [looked_up]; [|auto]. destruct (0 <=? kp); [apply found_maps, Hm|].
  intros (t & G & r & pre & k & ka' & s & len & pl & hs & l & f & Hs & H). exists t, G, r, pre, k, ka', s, len, pl, hs, l, f. split; [eapply same_trans; eassumption|exact H].
Qed.

Lemma find_locked_ok fuel : forall D tab K G st r x pre k ka s len, at_root D tab K G st r x pre k ka s len -> (S D + Z.to_nat len < fuel)%nat ->
  exists res, find_locked width nv binary mem fuel st x ka = Some res /\ looked_up D tab K res.
Proof.
  induction fuel as [|fuel IH]; intros D tab K G st r x pre k ka s len Har Hf; [lia|]. cbn [find_locked].
  destruct (locate D tab K G st r x pre k ka s len (S fuel) Har ltac:(lia)) as (q & n & l & f & pl & res & -> & E & Hg & Hhl & Hfo & Hres). cbn [mbind option_bind].
  destruct res as [st' x' ka'|st' n' ki kp].
  - unfold check_leaf_locked. rewrite E. cbn [mbind option_bind]. destruct Hres as (H8 & tab' & G' & r' & pre' & k' & Hm & Har').
    destruct (IH D tab' K G' st' r' x' pre' k' ka' (s + 8) (len - 8) Har' ltac:(lia)) as (res & E' & H). exists res. split; [exact E'|]. eapply looked_up_maps; eassumption.
  - destruct Hres as (fd & -> & -> & -> & -> & Hp & H9).
    destruct (lock_at_leaf D tab K G st r pre k ka s len q n l f pl Hhl Hfo fd (S fuel) x Hp H9 E) as (kp & -> & H).
    cbn [mbind option_bind]. eexists. split; [reflexivity|]. cbn [looked_up]. destruct (0 <=? kp).
    + destruct H as [e He]. exists tab, G, r, pre, k, s, len, pl, (has_split nv (leaf.v_ n)), l, f, e. split; [apply same_refl|]. auto.
    + exists tab, G, r, pre, k, ka, s, len, pl, (has_split nv (leaf.v_ n)), l, f. split; [apply same_refl|]. auto.
Qed.

(** ** The callback and finish *)

(** The answer, and the value the key has after. *)
Definition callback_result (f : bool -> Z -> Z * Z) (cur : option Z) : Z * option Z :=
  match cur with
  | Some v => let '(a, x) := f true v in (a, if a <? 0 then None else Some x)
  | None => let '(a, x) := f false leaf.empty_value in (a, if 0 <? a then Some x else None)
  end.

Definition map_changed (tab tab' : table) (K : list byte) (new : option Z) : Prop :=
  forall k v, maps tab' top k v <-> (k = K /\ new = Some v) \/ (k <> K /\ maps tab top k v).

Lemma map_changed_same tab1 tab tab' K new : same_maps tab1 tab -> map_changed tab1 tab' K new -> map_changed tab tab' K new.
Proof. intros Hm H k v. rewrite (H k v), (Hm k v). reflexivity. Qed.

(** A value was found, or [cur] is [None]; the outcome of the operation. *)
Definition outcome_ok (D : nat) (tab : table) (K : list byte) (cur : option Z) (answer : Z) (new : option Z) (r : modified) : Prop :=
  match r with
  | Done a st => a = answer /\ exists tab', store_ok D st tab' /\ map_changed tab tab' K new
  | MustUnlink a st q n => a = answer /\ is_Some cur /\ new = None /\ leaf.size n = 0 /\ q ∈ prev_ st
  end.

Lemma store_ok_gc D st tab p : store_ok D st tab -> store_ok D (add_gc p st) tab.
Proof. intros [(G & [H1 H2 H3 H4 H5 H6 H7 H8] & Ht) Hok]. split; [|exact Hok]. exists G. split; [split; assumption|exact Ht]. Qed.

(** The key keeps its entry, or loses it. *)
Lemma present_free es l ki kp k e : rsorted es -> present_at es l ki kp k e ->
  forall x, x ∈ es -> erank x = rank k -> x.1.1.2 <= 9 /\ ((8 < length k)%nat -> drop 8 k = x.2).
Proof.
  intros Hs (_ & _ & Hi & Er & H9 & Hsx) x Hx E. apply list_elem_of_lookup_1 in Hx as [j Hj].
  assert (Ej : j = Z.to_nat ki) by (apply (rsorted_unique es j _ x e Hs Hj Hi); congruence). subst j. assert (x = e) as -> by congruence. auto.
Qed.

Lemma present_entry es l ki kp k e x : present_at es l ki kp k e -> (e.1.1.2 <> 9 -> e.2 = []) ->
  with_lv x e = entry_for (k, x).
Proof.
  intros (_ & _ & _ & Er & H9 & Hsx) Hnil. unfold erank, rank in Er. apply pair_equal_spec in Er as [Es Em].
  unfold with_lv, entry_for. cbn [fst snd]. destruct e as [[[ik kl] v] sf]. cbn [fst snd] in *. subst ik.
  replace (Z.min (Z.of_nat (length k)) 9) with kl by lia. f_equal. destruct (decide (8 < length k)%nat) as [H8|H8]; [symmetry; auto|apply Hnil; lia].
Qed.

Lemma held_slot prevs q lo es hs n l f fz i kp e : held_leaf prevs q lo es hs n l f fz -> l !! i = Some kp -> es !! i = Some e ->
  0 <= kp < width /\ exists s, slot_at n kp = Some s /\ e = entry_of s.
Proof.
  intros [_ Hr Hc _ _ _ _ _ _] Hl He.
  assert (Hkp : 0 <= kp < width) by (apply (leaf.rep_range _ _ _ _ kp Hr), elem_of_app; left; eapply list_elem_of_lookup_2, Hl). split; [exact Hkp|].
  destruct (leaf.rep_slot width Hwidth n l f kp Hr Hkp) as (s & Hs & E). exists s. split; [exact Hs|].
  rewrite <- Hc, (leaf.rep_contents _ _ _ _ Hr), list_lookup_fmap, Hl in He. injection He as He. congruence.
Qed.
Lemma entry_suffix s : (entry_of s).1.1.2 <> 9 -> (entry_of s).2 = [].
Proof. intros H. unfold entry_of, leaf.keylenx_has_ksuf in *. change (key.ikey_size + 1) with 9. destruct (Z.eqb_spec (leaf.keylenx s) 9); [contradiction|reflexivity]. Qed.
Lemma delete_insert {X} (l : list X) i x : delete i (<[i := x]> l) = delete i l.
Proof. revert i. induction l as [|y l IH]; intros [|i]; cbn; [reflexivity..|]. f_equal. apply IH. Qed.

Lemma present_maps D tab K G st r pre k ka s len q pl hs l ki kp e : focus D tab K G st r pre k ka s len q pl hs ->
  rsorted (pl_entries pl) -> present_at (pl_entries pl) l ki kp k e -> forall v, Some e.1.2 = Some v <-> maps tab top K v.
Proof.
  intros Hfo Hs Hpr v. rewrite (focus_maps width w nv mem Hwidth bag top _ _ _ _ _ _ _ _ _ _ _ _ _ _ Hfo). set (es := pl_entries pl) in *. pose proof Hpr as (_ & _ & Hi & Er & H9 & Hsx). split.
  - intros [= <-]. exists e. split; [eapply list_elem_of_lookup_2, Hi|]. split; [exact Er|]. destruct (Z.leb_spec e.1.1.2 8); [reflexivity|].
    destruct (Z.eqb_spec e.1.1.2 9); [|lia]. split; [|reflexivity]. apply Hsx. unfold erank, rank in Er. apply pair_equal_spec in Er as [_ Em]. lia.
  - intros (x & Hx & Ex & Hv). apply list_elem_of_lookup_1 in Hx as [j Hj].
    assert (Ej : j = Z.to_nat ki) by (apply (rsorted_unique es j _ x e Hs Hj Hi); congruence). subst j. assert (x = e) as -> by congruence.
    destruct (Z.leb_spec e.1.1.2 8); [congruence|]. destruct (Z.eqb_spec e.1.1.2 9); [|lia]. destruct Hv as [_ ->]. reflexivity.
Qed.

(** The last step: the leaf is unlocked and holds what it should. *)
Lemma unlock_done D tab0 tab K G st r pre k ka s len q pl hs n es' l' f' new (es := pl_entries pl) :
  same_maps tab tab0 -> focus D tab K G st r pre k ka s len q pl hs -> held_leaf (prev_ st) q (pl_lo pl) es' hs n l' f' f' ->
  (forall e, e ∈ es -> erank e = rank k -> e.1.1.2 <= 9 /\ ((8 < length k)%nat -> drop 8 k = e.2)) ->
  (forall e, e ∈ es' <-> (exists x, new = Some x /\ e = entry_for (k, x)) \/ (e ∈ es /\ erank e <> rank k)) ->
  exists n', unlock_leaf nv n (leaf.v_ n) = Some n' /\ exists tab', store_ok D (put_leaf q n' st) tab' /\ map_changed tab0 tab' K new.
Proof.
  intros Hm Hfo Hhl Hfree Hes'. destruct (held_unlock width nv _ _ _ _ _ _ _ _ Hhl) as (n' & E & Hg & Hsame). exists n'. split; [exact E|].
  destruct (focus_finish width w nv mem Hwidth bag top _ _ _ _ _ _ _ _ _ _ _ _ _ _ n' es' new Hfo Hg Hsame Hfree Hes') as (tab' & Hok & Hch). exists tab'. split; [exact Hok|].
  eapply map_changed_same; eassumption.
Qed.

Lemma finish_found D tab K st q n ki kp ka f state_ : cursor_found D tab K st q n ki kp ka -> Z.odd state_ = true ->
  exists cur, (forall v, Some cur = Some v <-> maps tab top K v) /\
    exists r, ('(answer, n) ← apply_callback f true n kp; finish width nv mem answer state_ st q n ki kp ka) = Some r /\
      outcome_ok D tab K (Some cur) (callback_result f (Some cur)).1 (callback_result f (Some cur)).2 r.
Proof.
  intros (tab1 & G & r & pre & k & s & len & pl & hs & l & fr & e & Hm & Hfo & Hhl & Hpr) Hodd. set (es := pl_entries pl) in *.
  pose proof (hl_sorted _ _ _ _ _ _ _ _ _ _ _ Hhl) as Hs. pose proof Hpr as (Hki & Hl & Hi & Er & H9 & Hsx).
  exists e.1.2. split; [intros v; rewrite <- (Hm K v); eapply present_maps; eassumption|].
  destruct (held_slot _ _ _ _ _ _ _ _ _ _ _ _ Hhl Hl Hi) as (Hkp & sl & Hsl & Ee). unfold apply_callback. rewrite Hsl. cbn [mbind option_bind callback_result].
  replace (leaf.lv sl) with e.1.2 by (rewrite Ee; reflexivity). destruct (f true e.1.2) as [a x]. cbn [fst snd].
  destruct (held_set_value width nv Hwidth _ _ _ _ _ _ _ _ _ _ _ _ x Hhl Hl Hi) as (n2 & -> & Hhl2). cbn [mbind option_bind]. unfold finish. rewrite Hodd, andb_true_r.
  pose proof (present_free es l ki kp k e Hs Hpr) as Hfree. destruct (Z.ltb_spec a 0) as [Ha|Ha].
  - pose proof (held_remove width nv Hwidth _ _ _ _ _ _ _ _ _ (Z.to_nat ki) Hhl2) as Hrm. rewrite Z2Nat.id in Hrm by lia.
    destruct (leaf.finish_remove width n2 ki) as [n3 empty]. rewrite delete_insert, length_insert in Hrm.
    destruct Hrm as (-> & l' & f' & Hhl3); [eapply lookup_lt_Some, Hi|].
    destruct (unlock_done D tab tab1 K G st r pre k ka s len q pl hs n3 _ l' f' None Hm Hfo Hhl3 Hfree) as (n4 & E4 & tab' & Hok & Hch).
    { intros y. rewrite (elem_delete es (Z.to_nat ki) e y Hs Hi), Er. split; [auto|]. intros [(? & ? & _)|]; [discriminate|assumption]. }
    case_bool_decide as Eempty; [unfold remove_leaf; case_bool_decide as Eprev|].
    + eexists. split; [reflexivity|]. cbn [outcome_ok]. split; [reflexivity|]. split; [eauto|]. split; [reflexivity|]. split; [|exact Eprev].
      pose proof (held_length _ _ _ _ _ _ _ _ _ _ _ Hhl3) as Hl3. rewrite Eempty in Hl3. rewrite (leaf.rep_size _ _ _ _ (hl_rep _ _ _ _ _ _ _ _ _ _ _ Hhl3)), Hl3. reflexivity.
    + destruct (key.prefix_string ka) as [ps pn]. rewrite E4. cbn [mbind option_bind]. eexists. split; [reflexivity|]. split; [reflexivity|]. exists tab'. split; [|exact Hch].
      destruct (andb _ _); [apply (store_ok_gc D (put_leaf q n4 st)), Hok|exact Hok].
    + rewrite E4. cbn [mbind option_bind]. eexists. split; [reflexivity|]. split; [reflexivity|]. eauto.
  - assert (Hst : (state_ =? 2) = false) by (apply Z.eqb_neq; intros ->; discriminate). rewrite Hst, andb_false_r. cbn [mbind option_bind].
    destruct (unlock_done D tab tab1 K G st r pre k ka s len q pl hs n2 _ l fr (Some x) Hm Hfo Hhl2 Hfree) as (n4 & E4 & tab' & Hok & Hch).
    { intros y. rewrite (elem_update es (Z.to_nat ki) e _ y Hs Hi), Er. rewrite (present_entry es l ki kp k e x Hpr) by (rewrite Ee; apply entry_suffix).
      split; [intros [->|H]; eauto|intros [(x' & [= <-] & ->)|H]; auto]. }
    rewrite E4. cbn [mbind option_bind]. eexists. split; [reflexivity|]. split; [reflexivity|]. eauto.
Qed.

Lemma absent_free es ki k : absent_at es ki (rank k) ->
  (forall e, e ∈ es -> erank e = rank k -> e.1.1.2 <= 9 /\ ((8 < length k)%nat -> drop 8 k = e.2)) /\
  (forall e, e ∈ es <-> (exists x, None = Some x /\ e = entry_for (k, x)) \/ (e ∈ es /\ erank e <> rank k)).
Proof.
  intros Hab. split.
  - intros e He Er. destruct (absent_not _ _ _ _ Hab He Er).
  - intros e. split; [intros He; right; split; [exact He|exact (absent_not _ _ _ _ Hab He)]|intros [(? & ? & _)|[He _]]; [discriminate|exact He]].
Qed.

Lemma finish_inserting D tab K st q n ki kp ka f : 0 < (f false leaf.empty_value).1 -> cursor_inserting D tab K st q n ki kp ka ->
  (forall v, ~ maps tab top K v) /\
  exists r, ('(answer, n) ← apply_callback f false n kp; finish width nv mem answer 2 st q n ki kp ka) = Some r /\
    outcome_ok D tab K None (callback_result f None).1 (callback_result f None).2 r.
Proof.
  intros Ha (tab1 & G & r & pre & k & s & len & pl & hs & l & fr & Hm & Hfo & Hpe & Hab). set (es := pl_entries pl) in *.
  split; [intros v Hv; eapply absent_unmapped; [exact Hfo|exact Hab|apply Hm, Hv]|].
  pose proof Hpe as (Hhl & He & _). pose proof (hl_rep _ _ _ _ _ _ _ _ _ _ _ Hhl) as Hr. destruct (leaf.rep_last_free width nv Hwidth _ _ _ _ Hr) as [Hkp _].
  destruct (leaf.rep_slot width Hwidth n _ _ kp Hr Hkp) as (sl & Hsl & Esl). unfold apply_callback. rewrite Hsl. cbn [mbind option_bind callback_result].
  replace (leaf.lv sl) with leaf.empty_value by (rewrite He in Esl; apply (f_equal (fun e : entry => e.1.2)) in Esl; exact Esl).
  destruct (f false leaf.empty_value) as [a x]. cbn [fst snd] in *.
  destruct (pending_value width nv mem Hwidth _ _ _ _ _ _ _ _ _ _ x Hpe) as (n2 & -> & Hhl2 & He2 & Hlt2). cbn [mbind option_bind]. unfold finish. cbn [Z.odd]. rewrite andb_false_r.
  destruct (absent_free es ki k Hab) as [Hfree Hsame]. destruct (Z.ltb_spec 0 a); [|lia]. cbn [andb Z.eqb Pos.eqb].
  destruct (rest_entry _ _ _ _ _ _ _ _ (fo_rest _ _ _ _ _ _ _ _ _ _ _ _ _ _ _ _ _ _ _ _ Hfo)) as (Ek & _). rewrite Ek in He2. destruct Hab as (Hki & Hb & Hgt).
  destruct (held_finish_insert width nv Hwidth _ _ _ _ _ _ _ _ _ (Z.to_nat ki) _ Hhl2 He2 Hlt2) as (n3 & E3 & Hhl3);
    [lia|apply paths.entry_len|rewrite paths.entry_rank; exact Hb|rewrite paths.entry_rank; exact Hgt|].
  rewrite Z2Nat.id in E3 by lia. rewrite E3. cbn [mbind option_bind].
  destruct (unlock_done D tab tab1 K G st r pre k ka s len q pl hs n3 _ _ _ (Some x) Hm Hfo Hhl3 Hfree) as (n4 & E4 & tab' & Hok & Hch).
  { intros y. rewrite elem_ins. split; [intros [->|Hy]; [eauto|]|intros [(x' & [= <-] & ->)|[Hy _]]; auto].
    apply Hsame in Hy as [(? & ? & _)|Hy]; [discriminate|auto]. }
  rewrite E4. cbn [mbind option_bind]. eexists. split; [reflexivity|]. split; [reflexivity|]. eauto.
Qed.

(** A leaf that an insertion the callback declined has left unusable: it has a left
    neighbour and free slots besides slot 0, but slot 0 is the next one to be used. *)
Definition spoiled (st : store) (q : nat) : Prop :=
  exists n, nodes st !! q = Some (NLeaf n) /\ q ∈ prev_ st /\ leaf.nremoved_ n = 0 /\ back width (leaf.permutation_ n) = 0 /\ leaf.size n < width - 1.

Lemma held_declined prevs q lo es hs n l f kp : held_leaf prevs q lo es hs n l (f ++ [kp]) f ->
  held_leaf prevs q lo es hs n l (f ++ [kp]) (f ++ [kp]) \/
  (q ∈ prevs /\ leaf.nremoved_ n = 0 /\ back width (leaf.permutation_ n) = 0 /\ leaf.size n < width - 1).
Proof.
  intros [Hu Hr Hc Hs Hp Hn Hroom Hz Hb].
  destruct (decide (q ∈ prevs /\ leaf.nremoved_ n = 0 /\ kp = 0 /\ f <> [])) as [(Hq & H0 & -> & Hf)|Hno].
  - right. split; [exact Hq|]. split; [exact H0|]. split; [eapply leaf.rep_back; eassumption|].
    pose proof (leaf.rep_length _ Hwidth _ _ _ Hr) as Hl. rewrite (leaf.rep_size _ _ _ _ Hr). rewrite length_app in Hl. destruct f; [contradiction|]. cbn [length] in Hl. lia.
  - left. split; try assumption. intros Hq H0. destruct f as [|x f]; [intros H; cbn in *; apply list_elem_of_singleton in H as <-; reflexivity|].
    assert (Hkp : kp <> 0) by (intros ->; apply Hno; auto). intros Hin. apply (Hz Hq H0). set_solver.
Qed.

Lemma finish_declined D tab K st q n ki kp ka f : (f false leaf.empty_value).1 <= 0 -> cursor_inserting D tab K st q n ki kp ka ->
  (forall v, ~ maps tab top K v) /\
  exists r, ('(answer, n) ← apply_callback f false n kp; finish width nv mem answer 2 st q n ki kp ka) = Some r /\
    (outcome_ok D tab K None (callback_result f None).1 (callback_result f None).2 r \/
     exists st', r = Done (callback_result f None).1 st' /\ spoiled st' q).
Proof.
  intros Ha (tab1 & G & r & pre & k & s & len & pl & hs & l & fr & Hm & Hfo & Hpe & Hab). set (es := pl_entries pl) in *.
  split; [intros v Hv; eapply absent_unmapped; [exact Hfo|exact Hab|apply Hm, Hv]|].
  pose proof Hpe as (Hhl & He & _). pose proof (hl_rep _ _ _ _ _ _ _ _ _ _ _ Hhl) as Hr. destruct (leaf.rep_last_free width nv Hwidth _ _ _ _ Hr) as [Hkp _].
  destruct (leaf.rep_slot width Hwidth n _ _ kp Hr Hkp) as (sl & Hsl & Esl). unfold apply_callback. rewrite Hsl. cbn [mbind option_bind callback_result].
  replace (leaf.lv sl) with leaf.empty_value by (rewrite He in Esl; apply (f_equal (fun e : entry => e.1.2)) in Esl; exact Esl).
  destruct (f false leaf.empty_value) as [a x]. cbn [fst snd] in *.
  destruct (pending_value width nv mem Hwidth _ _ _ _ _ _ _ _ _ _ x Hpe) as (n2 & -> & Hhl2 & _). cbn [mbind option_bind]. unfold finish. cbn [Z.odd]. rewrite andb_false_r.
  destruct (absent_free es ki k Hab) as [Hfree Hsame]. destruct (Z.ltb_spec 0 a); [lia|]. cbn [andb mbind option_bind].
  destruct (held_declined _ _ _ _ _ _ _ _ _ Hhl2) as [Hhl3|(Hq & H0 & Hbk & Hsz)].
  - destruct (unlock_done D tab tab1 K G st r pre k ka s len q pl hs n2 _ _ _ None Hm Hfo Hhl3 Hfree Hsame) as (n4 & E4 & tab' & Hok & Hch).
    rewrite E4. cbn [mbind option_bind]. eexists. split; [reflexivity|]. left. split; [reflexivity|]. eauto.
  - destruct (hl_unlocks _ _ _ _ _ _ _ _ _ _ _ Hhl2) as (v' & Ev & _). unfold unlock_leaf. rewrite Ev. cbn [mbind option_bind].
    eexists. split; [reflexivity|]. right. eexists. split; [reflexivity|]. exists (leaf.set_v v' n2).
    split; [apply lookup_insert_eq|]. split; [exact Hq|]. auto.
Qed.

(** What the cursor points to, and what finish makes of an answer [a] and a value [x]
    the caller has left there: the found key, the key being inserted. *)
Definition pointed (cur : option Z) (n : leaf.leaf) (kp : Z) : Prop := exists sl, slot_at n kp = Some sl /\ leaf.lv sl = default leaf.empty_value cur.

Lemma found_pointed D tab K st q n ki kp ka : cursor_found D tab K st q n ki kp ka ->
  exists cur, (forall v, Some cur = Some v <-> maps tab top K v) /\ pointed (Some cur) n kp.
Proof.
  intros (tab1 & G & r & pre & k & s & len & pl & hs & l & fr & e & Hm & Hfo & Hhl & Hpr).
  pose proof (hl_sorted _ _ _ _ _ _ _ _ _ _ _ Hhl) as Hs. pose proof Hpr as (Hki & Hl & Hi & _).
  destruct (held_slot _ _ _ _ _ _ _ _ _ _ _ _ Hhl Hl Hi) as (_ & sl & Hsl & Ee). exists e.1.2. split; [intros v; rewrite <- (Hm K v); eapply present_maps; eassumption|].
  exists sl. split; [exact Hsl|]. rewrite Ee. reflexivity.
Qed.
Lemma finish_with {A} (f : bool -> Z -> Z * Z) found n kp (k : Z -> leaf.leaf -> option A) a x cur : pointed cur n kp -> f found (default leaf.empty_value cur) = (a, x) ->
  ('(answer, n) ← apply_callback f found n kp; k answer n) = (n ← layer.set_lv n kp x; k a n).
Proof. intros (sl & Hsl & Ev) Ef. unfold apply_callback. rewrite Hsl. cbn [mbind option_bind]. rewrite Ev, Ef. destruct (layer.set_lv n kp x); reflexivity. Qed.

Lemma finish_found_value D tab K st q n ki kp ka state_ : cursor_found D tab K st q n ki kp ka -> Z.odd state_ = true ->
  exists cur, (forall v, Some cur = Some v <-> maps tab top K v) /\ pointed (Some cur) n kp /\
    forall a x, exists r, (n ← layer.set_lv n kp x; finish width nv mem a state_ st q n ki kp ka) = Some r /\ outcome_ok D tab K (Some cur) a (if a <? 0 then None else Some x) r.
Proof.
  intros H Hodd. destruct (found_pointed _ _ _ _ _ _ _ _ _ H) as (cur & Hcur & Hp). exists cur. split; [exact Hcur|]. split; [exact Hp|]. intros a x.
  destruct (finish_found _ _ _ _ _ _ _ _ _ (fun _ _ => (a, x)) _ H Hodd) as (cur' & Hcur' & r & E & Hok). rewrite (finish_with _ _ _ _ _ a x _ Hp eq_refl) in E.
  exists r. split; [exact E|]. assert (cur' = cur) as -> by (apply (inj Some), Hcur', Hcur; reflexivity). exact Hok.
Qed.
Lemma finish_inserting_value D tab K st q n ki kp ka : cursor_inserting D tab K st q n ki kp ka ->
  (forall v, ~ maps tab top K v) /\ pointed None n kp /\
    forall a x, 0 < a -> exists r, (n ← layer.set_lv n kp x; finish width nv mem a 2 st q n ki kp ka) = Some r /\ outcome_ok D tab K None a (Some x) r.
Proof.
  intros H. assert (Hp : pointed None n kp).
  { destruct H as (tab1 & G & r & pre & k & s & len & pl & hs & l & fr & Hm & Hfo & Hpe & Hab). pose proof Hpe as (Hhl & He & _). pose proof (hl_rep _ _ _ _ _ _ _ _ _ _ _ Hhl) as Hr.
    destruct (leaf.rep_last_free width nv Hwidth _ _ _ _ Hr) as [Hkp _]. destruct (leaf.rep_slot width Hwidth n _ _ kp Hr Hkp) as (sl & Hsl & Esl). exists sl. split; [exact Hsl|].
    rewrite He in Esl. apply (f_equal (fun e : entry => e.1.2)) in Esl. symmetry. exact Esl. }
  split; [exact (proj1 (finish_inserting _ _ _ _ _ _ _ _ _ (fun _ _ => (1, 0)) ltac:(cbn; lia) H))|]. split; [exact Hp|]. intros a x Ha.
  destruct (finish_inserting _ _ _ _ _ _ _ _ _ (fun _ _ => (a, x)) Ha H) as (_ & r & E & Hok). rewrite (finish_with _ _ _ _ _ a x _ Hp eq_refl) in E. exists r. split; [exact E|].
  cbn [callback_result fst snd] in Hok. destruct (Z.ltb_spec 0 a); [exact Hok|lia].
Qed.

(** Not found: nothing happens. *)
Lemma finish_missing D tab K st q n ki kp ka : cursor_missing D tab K st q n ->
  exists st' tab', finish width nv mem 0 0 st q n ki kp ka = Some (Done 0 st') /\ store_ok D st' tab' /\ same_maps tab' tab.
Proof.
  intros (tab1 & G & r & pre & k & ka' & s & len & pl & hs & l & f & Hm & Hfo & Hhl & _).
  destruct (held_unlock width nv _ _ _ _ _ _ _ _ Hhl) as (n' & E & Hg & Hsame). unfold finish. cbn [Z.ltb Z.compare andb mbind option_bind]. rewrite E. cbn [mbind option_bind].
  exists (put_leaf q n' st), tab1. split; [reflexivity|]. split; [|exact Hm]. destruct Hfo as [Hi Htop Ht [n0 Hn0] Ho _ _ _ Hr _ Hmark]. split; [|exact Ht]. exists G. split; [|exact Htop].
  eapply (rest_leaf width w nv Hwidth); [exact Hi|exact Hn0|exact Ho|exact Hg|exact Hr|]. rewrite Hsame. exact Hmark.
Qed.

(** ** The operations *)

Lemma start_root D st tab s len : store_ok D st tab -> 0 <= len -> s + len <= bag ->
  exists G, at_root D tab (bytes mem s (Z.to_nat len)) G st top (root_ st) [] (bytes mem s (Z.to_nat len)) (key.of_str mem s len) s len.
Proof.
  intros [(G & Hi & Htop) Ht] Hlen Hb. exists G. split; try assumption.
  - apply Ht.
  - split; auto; [constructor|apply tree.of_str_at, Hlen|cbn; lia].
Qed.
Lemma modify_ok D st tab s len f fuel (K := bytes mem s (Z.to_nat len)) :
  store_ok D st tab -> 0 <= len -> s + len <= bag -> (S D + Z.to_nat len < fuel)%nat ->
  exists cur r, (forall v, cur = Some v <-> maps tab top K v) /\ modify width nv binary mem fuel st s len f = Some r /\
    match cur with
    | Some v => outcome_ok D tab K cur (callback_result f cur).1 (callback_result f cur).2 r
    | None => exists st' tab', r = Done 0 st' /\ store_ok D st' tab' /\ same_maps tab' tab
    end.
Proof.
  intros Hst Hlen Hb Hf. destruct (start_root D st tab s len Hst Hlen Hb) as [G Har]. unfold modify.
  destruct (find_locked_ok fuel _ _ _ _ _ _ _ _ _ _ _ _ Har Hf) as (res & -> & H). cbn [mbind option_bind].
  destruct res as [st' q n ki kp ka|]; cbn [looked_up] in H; [|destruct H]. destruct (0 <=? kp).
  - destruct (finish_found _ _ _ _ _ _ _ _ _ f 1 H eq_refl) as (cur & Hcur & r & E & Hok). exists (Some cur), r. auto.
  - pose proof (finish_missing D tab K st' q n ki kp ka H) as (st2 & tab2 & E & Hok & Hm). exists None, (Done 0 st2). split; [|split; [exact E|eauto]].
    intros v. split; [discriminate|]. intros Hv. destruct H as (t2 & ? & ? & ? & ? & ? & ? & ? & ? & ? & ? & ? & Hm2 & _ & _ & Hn).
    destruct (Hn v). apply Hm2, Hv.
Qed.

(** The cursor after find_locked. *)
Lemma locked_cursor D st tab s len fuel (K := bytes mem s (Z.to_nat len)) :
  store_ok D st tab -> 0 <= len -> s + len <= bag -> (S D + Z.to_nat len < fuel)%nat ->
  exists cur st1 q n ki kp ka, (forall v, cur = Some v <-> maps tab top K v) /\ find_locked width nv binary mem fuel st (root_ st) (key.of_str mem s len) = Some (LAt st1 q n ki kp ka) /\
    match cur with
    | Some v => (0 <=? kp) = true /\ pointed cur n kp /\ forall a x, exists r,
        (n ← layer.set_lv n kp x; finish width nv mem a 1 st1 q n ki kp ka) = Some r /\ outcome_ok D tab K cur a (if a <? 0 then None else Some x) r
    | None => (0 <=? kp) = false /\ exists st' tab', finish width nv mem 0 0 st1 q n ki kp ka = Some (Done 0 st') /\ store_ok D st' tab' /\ same_maps tab' tab
    end.
Proof.
  intros Hst Hlen Hb Hf. destruct (start_root D st tab s len Hst Hlen Hb) as [G Har].
  destruct (find_locked_ok fuel _ _ _ _ _ _ _ _ _ _ _ _ Har Hf) as (res & E & H).
  destruct res as [st' q n ki kp ka|]; cbn [looked_up] in H; [|destruct H]. destruct (0 <=? kp) eqn:Ekp.
  - destruct (finish_found_value _ _ _ _ _ _ _ _ _ 1 H eq_refl) as (cur & Hcur & Hp & Hfin). exists (Some cur), st', q, n, ki, kp, ka. auto 7.
  - destruct (finish_missing D tab K st' q n ki kp ka H) as (st2 & tab2 & E2 & Hok & Hm). exists None, st', q, n, ki, kp, ka. split; [|split; [exact E|split; [exact Ekp|eauto]]].
    intros v. split; [discriminate|]. intros Hv. destruct H as (t2 & ? & ? & ? & ? & ? & ? & ? & ? & ? & ? & ? & Hm2 & _ & _ & Hn).
    destruct (Hn v). apply Hm2, Hv.
Qed.

(** ** modify_insert *)
Section Insert.
Context (fresh : list leaf.slot) (alloc : heap -> nat) (new_ikeys : list Z) (new_children : list internode.ptr).
Hypothesis Hshape : tree_shape width w alloc fresh new_ikeys new_children.
Abbreviation check_insert := (check_leaf_insert width w nv binary mem bag alloc fresh new_ikeys new_children).

Lemma find_insert_ok fuel : forall D tab K G st r x pre k ka s len, at_root D tab K G st r x pre k ka s len -> (S D + Z.to_nat len < fuel)%nat ->
  exists res, find_insert width w nv binary mem bag alloc fresh new_ikeys new_children fuel st x ka = Some res /\ inserting (S D) tab K res.
Proof.
  induction fuel as [|fuel IH]; intros D tab K G st r x pre k ka s len Har Hf; [lia|]. cbn [find_insert].
  destruct (locate D tab K G st r x pre k ka s len (S fuel) Har ltac:(lia)) as (q & n & l & f & pl & res & -> & E & Hg & Hhl & Hfo & Hres). cbn [mbind option_bind].
  assert (Hstep : exists res', check_insert (S fuel) st x q (leaf.v_ n) ka = Some res' /\
    (inserting (S D) tab K res' \/ exists st' x' ka', res' = IRoot st' x' ka' /\ goes_on D tab K s len st' x' ka')).
  { destruct res as [st' x' ka'|st' n' ki kp].
    - unfold check_leaf_insert. rewrite E. eexists. split; [reflexivity|]. right. eauto 6.
    - destruct Hres as (fd & -> & -> & -> & -> & Hp & H9). destruct fd as [ki kp|ki]; cbn [found_ki found_kp] in E.
      + destruct (H9 ki kp eq_refl) as (sl & Hs & Hkl). eapply insert_at_found; eassumption.
      + destruct (insert_at_absent D tab K G st r pre k ka s len q n l f pl Hg Hhl Hfo fresh alloc new_ikeys new_children Hshape ki (S fuel) x Hp ltac:(lia) E) as (res' & E' & H). eauto. }
  destruct Hstep as (res' & -> & [H|(st' & x' & ka' & -> & H8 & tab' & G' & r' & pre' & k' & Hm & Har')]); cbn [mbind option_bind].
  - exists res'. split; [|exact H]. destruct res'; [reflexivity..|destruct H].
  - destruct (IH D tab' K G' st' r' x' pre' k' ka' (s + 8) (len - 8) Har' ltac:(lia)) as (res'' & E'' & H). exists res''. split; [exact E''|].
    eapply inserting_maps; eassumption.
Qed.
(** The cursor after find_insert. *)
Lemma insert_cursor D st tab s len fuel (K := bytes mem s (Z.to_nat len)) :
  store_ok D st tab -> 0 <= len -> s + len <= bag -> (S D + Z.to_nat len < fuel)%nat ->
  exists cur res, (forall v, cur = Some v <-> maps tab top K v) /\
    find_insert width w nv binary mem bag alloc fresh new_ikeys new_children fuel st (root_ st) (key.of_str mem s len) = Some res /\
    match res with
    | IFound st q n ki kp ka => is_Some cur /\ pointed cur n kp /\ forall a x, exists r,
        (n ← layer.set_lv n kp x; finish width nv mem a 3 st q n ki kp ka) = Some r /\ outcome_ok (S D) tab K cur a (if a <? 0 then None else Some x) r
    | IInsert st q n ki kp ka => cur = None /\ pointed cur n kp /\ forall a x, 0 < a -> exists r,
        (n ← layer.set_lv n kp x; finish width nv mem a 2 st q n ki kp ka) = Some r /\ outcome_ok (S D) tab K cur a (Some x) r
    | IRoot _ _ _ => False
    end.
Proof.
  intros Hst Hlen Hb Hf. destruct (start_root D st tab s len Hst Hlen Hb) as [G Har].
  destruct (find_insert_ok fuel _ _ _ _ _ _ _ _ _ _ _ _ Har Hf) as (res & E & H).
  destruct res as [st' q n ki kp ka|st' q n ki kp ka|]; cbn [inserting] in H; [| |destruct H].
  - destruct (finish_found_value _ _ _ _ _ _ _ _ _ 3 H eq_refl) as (cur & Hcur & Hp & Hfin). eexists (Some cur), _. split; [exact Hcur|]. split; [exact E|]. cbn beta iota. eauto.
  - destruct (finish_inserting_value _ _ _ _ _ _ _ _ _ H) as (Hn & Hp & Hfin). eexists None, _. split; [|split; [exact E|cbn beta iota; eauto]].
    intros v. split; [discriminate|intros Hv; destruct (Hn v Hv)].
Qed.
(** With any callback: a declined insertion may leave a spoiled leaf. *)
Lemma modify_insert_any D st tab s len f fuel (K := bytes mem s (Z.to_nat len)) :
  store_ok D st tab -> 0 <= len -> s + len <= bag -> (S D + Z.to_nat len < fuel)%nat ->
  exists cur r, (forall v, cur = Some v <-> maps tab top K v) /\
    modify_insert width w nv binary mem bag alloc fresh new_ikeys new_children fuel st s len f = Some r /\
    (outcome_ok (S D) tab K cur (callback_result f cur).1 (callback_result f cur).2 r \/
     cur = None /\ (callback_result f cur).1 <= 0 /\ exists st' q, r = Done (callback_result f cur).1 st' /\ spoiled st' q).
Proof.
  intros Hst Hlen Hb Hf. destruct (start_root D st tab s len Hst Hlen Hb) as [G Har]. unfold modify_insert.
  destruct (find_insert_ok fuel _ _ _ _ _ _ _ _ _ _ _ _ Har Hf) as (res & -> & H). cbn [mbind option_bind].
  destruct res as [st' q n ki kp ka|st' q n ki kp ka|]; cbn [inserting] in H; [| |destruct H].
  - destruct (finish_found _ _ _ _ _ _ _ _ _ f 3 H eq_refl) as (cur & Hcur & r & E & Hok). exists (Some cur), r. auto.
  - destruct (Z.leb_spec (f false leaf.empty_value).1 0) as [Ha|Ha].
    + destruct (finish_declined _ _ _ _ _ _ _ _ _ f Ha H) as (Hn & r & E & Hok). exists None, r. split; [intros v; split; [discriminate|intros Hv; destruct (Hn v Hv)]|].
      split; [exact E|]. destruct Hok as [Hok|(st'' & -> & Hsp)]; [auto|right]. split; [reflexivity|]. split; [|eauto].
      cbn [callback_result]. destruct (f false leaf.empty_value). exact Ha.
    + destruct (finish_inserting _ _ _ _ _ _ _ _ _ f Ha H) as (Hn & r & E & Hok). exists None, r. split; [|auto].
      intros v. split; [discriminate|intros Hv; destruct (Hn v Hv)].
Qed.

End Insert.

End Modify.
End modify.
