(* ===== verification/MasstreeSpec.v ===== *)
(** * The whole tree as a map

    initialize, modify_insert and modify (Cursor.v) against finite maps: the tree
    stands for a map, an operation changes the map at its key as the callback says,
    lookups (Tree.v) read the map, and so does any sequence of operations from the
    empty table on; with runs of a tree that splits. *)

From S2P Require Import Prelude KPermuter NodeVersion KSearch StringSlice MtKey LeafLink Internode Leaf Tree Layer Paths Cursor TreeStore NewLayer Modify.

Open Scope Z_scope.

Import tree (maps).
Import cursor.
Import treestore (store_ok).
Import modify (callback_result, outcome_ok, spoiled, tree_shape, ts_width, ts_slots).

Section Masstree.
Context (width : Z) (w : nat) (nv : nodeversion_parameters) `{L : !NvLayout nv} (binary : bool) (mem : memory).

(** The tree, no layer of it higher than [D], maps what [M] maps; [top] names its
    first layer. *)
Definition represents (top D : nat) (st : store) (M : gmap (list byte) Z) : Prop :=
  exists tab, store_ok width w nv top D st tab /\ forall k v, maps tab top k v <-> M !! k = Some v.

(** basic_table::get *)
Definition lookup_key (fuel : nat) (st : store) (s len : Z) : option (option Z) := tree.get nv binary mem (nodes st) (parent_ st) fuel (root_ st) s len.

Lemma lookup_ok (top D : nat) (st : store) (M : gmap (list byte) Z) (s len : Z) (fuel : nat) : 3 <= width <= 15 -> represents top D st M -> 0 <= len -> (S D + Z.to_nat len < fuel)%nat ->
  lookup_key fuel st s len = Some (M !! bytes mem s (Z.to_nat len)).
Proof.
  intros Hwidth (tab & Hst & HM) Hlen Hf. destruct (treestore.store_lookup width w nv binary mem Hwidth top D st tab _ s len fuel Hst (tree.of_str_at mem s len Hlen) Hf) as (r & E & Hr).
  unfold lookup_key, tree.get. rewrite E. f_equal. apply option_eq. intros v. rewrite (Hr v). apply HM.
Qed.

(** The map after the callback has changed the value of [K]. *)
Definition updated (M : gmap (list byte) Z) (K : list byte) (f : bool -> Z -> Z * Z) : gmap (list byte) Z :=
  partial_alter (fun cur => (callback_result f cur).2) K M.

Lemma changed_represents (top D : nat) (st : store) (tab tab' : gmap nat (list leaf.entry)) (M : gmap (list byte) Z) (K : list byte) (f : bool -> Z -> Z * Z) : (forall k v, maps tab top k v <-> M !! k = Some v) -> store_ok width w nv top D st tab' ->
  modify.map_changed top tab tab' K (callback_result f (M !! K)).2 -> represents top D st (updated M K f).
Proof.
  intros HM Hst Hch. exists tab'. split; [exact Hst|]. intros k v. rewrite (Hch k v). unfold updated. destruct (decide (K = k)) as [<-|Hne].
  - rewrite lookup_partial_alter_eq. intuition.
  - rewrite lookup_partial_alter_ne by exact Hne. rewrite HM. intuition congruence.
Qed.

Context (bag : Z) (alloc : tree.heap -> nat) (new_slots : list leaf.slot) (new_ikeys : list Z) (new_children : list internode.ptr).

Abbreviation tree_shape := (tree_shape width w alloc new_slots new_ikeys new_children).
Abbreviation insert := (modify_insert width w nv binary mem bag alloc new_slots new_ikeys new_children).

Lemma insert_any (top D : nat) (st : store) (M : gmap (list byte) Z) (s len : Z) (f : bool -> Z -> Z * Z) (fuel : nat) (K := bytes mem s (Z.to_nat len)) :
  tree_shape -> represents top D st M -> 0 <= len -> s + len <= bag -> (S D + Z.to_nat len < fuel)%nat ->
  exists r, insert fuel st s len f = Some r /\
    match r with
    | Done a st' => a = (callback_result f (M !! K)).1 /\ (represents top (S D) st' (updated M K f) \/ M !! K = None /\ a <= 0 /\ exists q, spoiled width st' q)
    | MustUnlink a st' q n => a = (callback_result f (M !! K)).1 /\ a < 0 /\ is_Some (M !! K) /\ leaf.size n = 0 /\ q ∈ prev_ st'
    end.
Proof.
  intros Hsh (tab & Hst & HM) Hlen Hb Hf. pose proof (ts_width _ _ _ _ _ _ Hsh).
  destruct (modify.modify_insert_any width w nv binary mem ltac:(lia) bag top new_slots alloc new_ikeys new_children Hsh D st tab s len f fuel Hst Hlen Hb Hf)
    as (cur & r & Hcur & E & Hok).
  assert (cur = M !! K) as -> by (apply option_eq; intros v; rewrite (Hcur v); apply HM). exists r. split; [exact E|].
  destruct Hok as [Hok|(HK & Ha & st' & q & -> & Hsp)]; [|split; [reflexivity|]; right; eauto]. destruct r as [a st'|a st' q n]; cbn [outcome_ok] in Hok.
  - destruct Hok as (-> & tab' & Hst' & Hch). split; [reflexivity|]. left. eapply changed_represents; eassumption.
  - destruct Hok as (-> & [v Hv] & Hn & Hsz & Hq). split; [reflexivity|]. rewrite Hv in *. cbn [callback_result] in *. destruct (f true v) as [a x].
    cbn [fst snd] in *. destruct (Z.ltb_spec a 0); [eauto|discriminate].
Qed.

Lemma insert_step (top D : nat) (st : store) (M : gmap (list byte) Z) (s len : Z) (f : bool -> Z -> Z * Z) (fuel : nat) (K := bytes mem s (Z.to_nat len)) :
  tree_shape -> 0 < (f false leaf.empty_value).1 -> represents top D st M -> 0 <= len -> s + len <= bag -> (S D + Z.to_nat len < fuel)%nat ->
  exists r, insert fuel st s len f = Some r /\
    match r with
    | Done a st' => a = (callback_result f (M !! K)).1 /\ represents top (S D) st' (updated M K f)
    | MustUnlink a st' q n => a = (callback_result f (M !! K)).1 /\ a < 0
    end.
Proof.
  intros Hsh Hins HM Hlen Hb Hf. destruct (insert_any top D st M s len f fuel Hsh HM Hlen Hb Hf) as (r & E & Hr). exists r. split; [exact E|].
  destruct r as [a st'|a st' q n]; [|destruct Hr as (-> & Ha & _); auto]. destruct Hr as [-> [Hr|(HK & Ha & _)]]; [auto|].
  fold K in HK, Ha. rewrite HK in Ha. cbn [callback_result] in Ha. destruct (f false leaf.empty_value). cbn [fst] in *. lia.
Qed.

(** Into a spoiled leaf no key with another first slice than its bound can be put:
    it counts as full, and the precondition of leaf_split fails. *)
Lemma spoiled_fails (st : store) (q : nat) : spoiled width st q -> exists n, nodes st !! q = Some (tree.NLeaf n) /\
  forall ka bound v, leaf.ikey_bound n = Some bound -> bound <> key.ikey ka ->
    leaf.do_insert width nv mem 2 (bool_decide (q ∈ prev_ st)) (leaf.set_v v n) ka = Some (leaf.NeedSplit (leaf.set_v v n)) /\
    forall nr nrp p t, leaf.leaf_split width nv mem (leaf.set_v v n) nr q nrp p ka t = None.
Proof.
  intros (n & Hn & Hq & H0 & Hbk & Hsz). exists n. split; [exact Hn|]. intros ka bound v Hb Hne. split.
  - cbn [leaf.do_insert]. change (leaf.ikey_bound (leaf.set_v v n)) with (leaf.ikey_bound n). rewrite Hb. cbn [mbind option_bind leaf.set_v leaf.permutation_ leaf.nremoved_].
    rewrite Hbk, H0, bool_decide_eq_true_2 by exact Hq. destruct (Z.eqb_spec bound (key.ikey ka)); [contradiction|]. cbn [Z.eqb negb orb]. rewrite andb_false_r. reflexivity.
  - intros nr nrp p t. unfold leaf.leaf_split. destruct (negb _); [reflexivity|]. change (leaf.size (leaf.set_v v n)) with (leaf.size n).
    destruct (Z.leb_spec (width - 1) (leaf.size n)); [lia|]. rewrite andb_false_r. reflexivity.
Qed.

(** A sequence of modify_insert calls: what they answered and the tree, or where a
    leaf must be unlinked. *)
Inductive history_end := Ended (answers : list Z) (st : store) | Stopped (answers : list Z) (st : store).
Fixpoint history (fuel : nat) (st : store) (ops : list (Z * Z * (bool -> Z -> Z * Z))) : option history_end :=
  match ops with
  | [] => Some (Ended [] st)
  | (s, len, f) :: ops =>
      r ← insert fuel st s len f;
      match r with
      | Done a st => e ← history fuel st ops; Some (match e with Ended l st => Ended (a :: l) st | Stopped l st => Stopped (a :: l) st end)
      | MustUnlink a st _ _ => Some (Stopped [a] st)
      end
  end.
(** The same on the map. *)
Fixpoint map_history (M : gmap (list byte) Z) (ops : list (Z * Z * (bool -> Z -> Z * Z))) : list Z * gmap (list byte) Z :=
  match ops with
  | [] => ([], M)
  | (s, len, f) :: ops =>
      let K := bytes mem s (Z.to_nat len) in
      let '(l, M') := map_history (updated M K f) ops in ((callback_result f (M !! K)).1 :: l, M')
  end.
(** The key is in memory; the callback does not decline if the key is missing. *)
Definition op_ok (fuel D : nat) (op : Z * Z * (bool -> Z -> Z * Z)) : Prop :=
  let '(s, len, f) := op in 0 <= len /\ s + len <= bag /\ (D + Z.to_nat len < fuel)%nat /\ 0 < (f false leaf.empty_value).1.

Lemma history_ok top fuel ops : tree_shape -> forall D st M, represents top D st M -> Forall (op_ok fuel (D + length ops)) ops ->
  exists e, history fuel st ops = Some e /\
    match e with
    | Ended l st' => l = (map_history M ops).1 /\ represents top (D + length ops) st' (map_history M ops).2
    | Stopped l st' => l `prefix_of` (map_history M ops).1 /\ Exists (fun a => a < 0) l
    end.
Proof.
  intros Hsh. induction ops as [|[[s len] f] ops IH]; intros D st M HM Hops.
  - exists (Ended [] st). split; [reflexivity|]. split; [reflexivity|]. rewrite Nat.add_0_r. exact HM.
  - apply Forall_cons in Hops as [(Hlen & Hb & Hf & Hins) Hops]. cbn [length] in *. cbn [history map_history].
    destruct (insert_step top D st M s len f fuel Hsh Hins HM Hlen Hb ltac:(lia)) as (r & -> & Hr). cbn [mbind option_bind].
    set (M1 := updated M _ f) in *. destruct r as [a st1|a st1 q n].
    + destruct Hr as [-> HM1]. destruct (IH (S D) st1 M1 HM1) as (e & -> & He); [rewrite Nat.add_succ_comm; exact Hops|]. cbn [mbind option_bind].
      destruct (map_history M1 ops) as [l' M'] eqn:El. cbn [fst snd] in *. destruct e as [l st'|l st']; (eexists; split; [reflexivity|]); cbn beta iota.
      * destruct He as [-> He]. split; [reflexivity|]. rewrite <- Nat.add_succ_comm. exact He.
      * destruct He as [Hp He]. split; [apply prefix_cons, Hp|apply Exists_cons_tl, He].
    + destruct Hr as (-> & Ha). destruct (map_history M1 ops) as [l' M']. cbn [fst snd]. eexists. split; [reflexivity|]. cbn beta iota.
      split; [apply prefix_cons, prefix_nil|apply Exists_cons_hd, Ha].
Qed.

Lemma initialize_represents : tree_shape -> represents (alloc ∅) 0 (reinitialize width nv alloc new_slots no_tree) ∅.
Proof.
  intros [Hwd _ _ Hsl _ _]. exists {[alloc ∅ := []]}. split; [apply (newlayer.initialize_ok width w nv); first [assumption | lia]|].
  intros k v. rewrite lookup_empty. split; [|discriminate]. intros Hm. exfalso. inversion Hm; subst;
    match goal with H : _ !! _ = Some ?es, He : _ ∈ ?es |- _ => apply lookup_singleton_Some in H as [_ <-]; inversion He end.
Qed.
End Masstree.

(** C23: modify_insert is an update of the map at one key.  On a well-formed tree
    at rest, with fuel for the height of a layer and the length of the key, it
    returns: full leaves and interior nodes are split and new layers made on the
    way.  The callback gets the value the key maps to, if any, and the tree then
    stands for the map with the value the callback left at this key, or without
    the key after a negative answer, or unchanged if it declined a missing key (an
    answer of 0 or less); no layer has grown by more than one level.  There are two
    exceptions.  Where a removal leaves a leaf with a left neighbour empty, the
    model stops.  And a declined insertion may leave a leaf spoiled, as happens
    when it has split the leaf just before the declined key: the next insertion
    there fails ([spoiled_fails], [declined_run]). *)
Theorem masstree_modify_insert (width : Z) (w : nat) (nv : nodeversion_parameters) `{!NvLayout nv} (binary : bool) (mem : memory) (bag : Z) (alloc : tree.heap -> nat)
    (new_slots : list leaf.slot) (new_ikeys : list Z) (new_children : list internode.ptr)
    (top D : nat) (st : store) (M : gmap (list byte) Z) (s len : Z) (f : bool -> Z -> Z * Z) (fuel : nat) (K := bytes mem s (Z.to_nat len)) :
  tree_shape width w alloc new_slots new_ikeys new_children -> represents width w nv top D st M ->
  0 <= len -> s + len <= bag -> (S D + Z.to_nat len < fuel)%nat ->
  exists r, modify_insert width w nv binary mem bag alloc new_slots new_ikeys new_children fuel st s len f = Some r /\
    let '(answer, new) := callback_result f (M !! K) in
    match r with
    | Done a st' => a = answer /\
        (represents width w nv top (S D) st' (partial_alter (fun _ => new) K M) \/ M !! K = None /\ answer <= 0 /\ exists q, spoiled width st' q)
    | MustUnlink a st' q n => a = answer /\ answer < 0 /\ is_Some (M !! K) /\ leaf.size n = 0 /\ q ∈ prev_ st'
    end.
Proof.
  intros Hsh HM Hlen Hb Hf.
  destruct (insert_any width w nv binary mem bag alloc new_slots new_ikeys new_children top D st M s len f fuel Hsh HM Hlen Hb Hf) as (r & E & Hr).
  exists r. split; [exact E|]. fold K in Hr. destruct (callback_result f (M !! K)) as [answer new] eqn:Ec. cbn [fst] in Hr. destruct r as [a st'|a st' q n].
  - destruct Hr as [-> [Hr|Hr]]; (split; [reflexivity|]); [left|auto]. replace (partial_alter (fun _ => new) K M) with (updated M K f); [exact Hr|].
    apply partial_alter_ext. intros x <-. rewrite Ec. reflexivity.
  - destruct Hr as (-> & Hr). auto.
Qed.

(** C24: modify changes a key that is there and leaves the rest.  On a well-formed
    tree at rest it returns.  If the map has no value for the key, it answers 0 and
    the tree stands for the same map; if it has one, the callback gets it, and the
    key has the value the callback left, or none after a negative answer.  The
    model stops, and nothing is said of the tree, where the removed key was the
    last one of a leaf with a left neighbour: remove_leaf is modelled up to its
    first test only, its unlinking half is not. *)
Theorem masstree_modify (width : Z) (w : nat) (nv : nodeversion_parameters) `{!NvLayout nv} (binary : bool) (mem : memory) (top D : nat) (st : store) (M : gmap (list byte) Z) (s len : Z)
    (f : bool -> Z -> Z * Z) (fuel : nat) (K := bytes mem s (Z.to_nat len)) :
  3 <= width <= 15 -> represents width w nv top D st M -> 0 <= len -> (S D + Z.to_nat len < fuel)%nat ->
  exists r, modify width nv binary mem fuel st s len f = Some r /\
    match M !! K with
    | None => exists st', r = Done 0 st' /\ represents width w nv top D st' M
    | Some cur =>
        let '(answer, value) := f true cur in
        match r with
        | Done a st' => a = answer /\ represents width w nv top D st' (if answer <? 0 then delete K M else <[K := value]> M)
        | MustUnlink a st' q n => a = answer /\ answer < 0 /\ leaf.size n = 0 /\ q ∈ prev_ st'
        end
    end.
Proof.
  intros Hw (tab & Hst & HM) Hlen Hf.
  destruct (modify.modify_ok width w nv binary mem Hw (s + len) top D st tab s len f fuel Hst Hlen ltac:(lia) Hf) as (cur & r & Hcur & E & Hok).
  assert (cur = M !! K) as -> by (apply option_eq; intros v; rewrite (Hcur v); apply HM). exists r. split; [exact E|]. destruct (M !! K) as [v|] eqn:EK.
  - cbn [callback_result] in Hok. pose proof (changed_represents width w nv top D) as Hch. destruct (f true v) as [answer value] eqn:Ef. cbn [fst snd] in Hok. destruct r as [a st'|a st' q n]; cbn [outcome_ok] in Hok.
    + destruct Hok as (-> & tab' & Hst' & Hm). split; [reflexivity|]. specialize (Hch st' tab tab' M K f HM Hst'). rewrite EK in Hch. cbn [callback_result] in Hch. rewrite Ef in Hch. specialize (Hch Hm).
      replace (if answer <? 0 then delete K M else <[K := value]> M) with (updated M K f); [exact Hch|]. unfold updated. destruct (answer <? 0) eqn:Ea;
        (apply partial_alter_ext; intros x; rewrite EK; intros <-; cbn [callback_result]; rewrite Ef; cbn [snd]; rewrite Ea; reflexivity).
    + destruct Hok as (-> & _ & Hn & Hsz & Hq). split; [reflexivity|]. destruct (Z.ltb_spec answer 0); [auto|discriminate].
  - destruct Hok as (st' & tab' & -> & Hst' & Hm). exists st'. split; [reflexivity|]. exists tab'. split; [exact Hst'|]. intros k v. rewrite (Hm k v). apply HM.
Qed.

(** C25: a table used from its initialization on is a map.  Any sequence of
    modify_insert calls whose callbacks insert missing keys ([op_ok]; one that
    declines may spoil a leaf, see [declined_run]) returns on an initialized table.
    It ends early, after some negative answer, where a removal empties a leaf that
    must be unlinked.  Otherwise the answers are those the calls give on a finite
    map that starts empty, and a lookup of any key, of any length, gives what that
    map has for it. *)
Theorem masstree_history (width : Z) (w : nat) (nv : nodeversion_parameters) `{!NvLayout nv} (binary : bool) (mem : memory) (bag : Z) (alloc : tree.heap -> nat)
    (new_slots : list leaf.slot) (new_ikeys : list Z) (new_children : list internode.ptr)
    (ops : list (Z * Z * (bool -> Z -> Z * Z))) (fuel : nat) :
  tree_shape width w alloc new_slots new_ikeys new_children -> Forall (op_ok bag fuel (length ops)) ops ->
  exists e, history width w nv binary mem bag alloc new_slots new_ikeys new_children fuel (reinitialize width nv alloc new_slots no_tree) ops = Some e /\
    let '(answers, M) := map_history mem ∅ ops in
    match e with
    | Ended l st => l = answers /\ forall s len fuel', 0 <= len -> (S (length ops) + Z.to_nat len < fuel')%nat ->
        lookup_key nv binary mem fuel' st s len = Some (M !! bytes mem s (Z.to_nat len))
    | Stopped l st => l `prefix_of` answers /\ Exists (fun a => a < 0) l
    end.
Proof.
  intros Hsh Hops. pose proof Hsh as [Hwd _ _ _ _ _].
  destruct (history_ok width w nv binary mem bag alloc new_slots new_ikeys new_children (alloc ∅) fuel ops Hsh 0 _ ∅ (initialize_represents width w nv alloc new_slots new_ikeys new_children Hsh) Hops)
    as (e & E & He).
  exists e. split; [exact E|]. destruct (map_history mem ∅ ops) as [answers M]. cbn [fst snd] in He. destruct e as [l st|l st]; [|exact He].
  destruct He as [-> HM]. split; [reflexivity|]. intros s len fuel' Hlen Hf. eapply (lookup_ok width w nv binary mem); [lia|exact HM|exact Hlen|exact Hf].
Qed.

(** ** Runs *)

(** Keys are bytes of the alphabet: 0 and a length give "a", "abc", ... *)
Abbreviation nv32 := nodeversion32_parameters.
Definition example_alloc (h : tree.heap) : nat := fresh (dom h : gset nat).
Definition example_slots : list leaf.slot := replicate 15 leaf.no_slot.
Definition example_ikeys : list Z := replicate 15 0.
Definition example_children : list internode.ptr := replicate 16 None.
Abbreviation example_insert := (modify_insert 15 15 nv32 true leaf.example_mem 1000 example_alloc example_slots example_ikeys example_children 60).
Abbreviation example_history := (history 15 15 nv32 true leaf.example_mem 1000 example_alloc example_slots example_ikeys example_children 60).
Definition example_new : store := reinitialize 15 nv32 example_alloc example_slots no_tree.
Definition example_get (st : store) (s len : Z) : option (option Z) := lookup_key nv32 true leaf.example_mem 60 st s len.

Lemma example_shape : tree_shape 15 15 example_alloc example_slots example_ikeys example_children.
Proof. split; [lia|lia|intros h; unfold example_alloc; apply (not_elem_of_dom (D := gset nat)), is_fresh|reflexivity..]. Qed.

(** A put of [v]; a removal of a key that is there. *)
Definition put (v : Z) (_ : bool) (_ : Z) : Z * Z := (1, v).
Definition remove (_ : bool) (v : Z) : Z * Z := (-1, v).
Definition puts (keys : list (Z * Z)) : list (Z * Z * (bool -> Z -> Z * Z)) := imap (fun i '(s, len) => (s, len, put (Z.of_nat i))) keys.
Definition swap (found : bool) (v : Z) : Z * Z := if found then (-1, v) else (1, 77).

(** The first sixteen keys fill the first leaf and split it. *)
Definition example_keys : list (Z * Z) := (fun i => (7 * i, 1 + i)) <$> seqZ 0 15.
Definition example_full : store := match example_history example_new (puts example_keys) with Some (Ended _ st) => st | _ => example_new end.
Example example_split :
  (r ← example_insert example_full 50 12 (put 99);
   match r with
   | Done _ st => l ← mapM (fun '(s, len) => example_get st s len) (example_keys ++ [(50, 12); (0, 2)]); Some (root_ example_full, root_ st, l)
   | _ => None
   end) = Some (0%nat, 2%nat, (Some <$> seqZ 0 15) ++ [Some 99; None]).
Proof. vm_compute. reflexivity. Qed.

(** Keys that share eight bytes and more make layers, whose leaves split as well; keys
    are overwritten and removed. *)
Definition example_long : list (Z * Z) := (fun i => (0, 8 + i)) <$> seqZ 0 30.
Example example_layers_run :
  (e ← example_history example_new (puts example_long ++ [(0, 12, put 500); (0, 13, swap); (1, 13, swap)]);
   match e with
   | Ended _ st => mapM (fun '(s, len) => example_get st s len) (example_long ++ [(1, 13); (0, 7)])
   | _ => None
   end) = Some (<[4%nat := Some 500]> (<[5%nat := None]> (Some <$> seqZ 0 30)) ++ [Some 77; None]).
Proof. vm_compute. reflexivity. Qed.

(** Fifteen ascending keys fill a leaf; a callback declines a larger one, for which
    the leaf is split; putting yet another one fails. *)
Definition decline (_ : bool) (v : Z) : Z * Z := (0, v).
Definition ascending : list (Z * Z) := (fun i => (i, 1)) <$> seqZ 0 15.
Example declined_run :
  is_Some (example_history example_new (puts ascending ++ [(20, 1, decline)])) /\
  example_history example_new (puts ascending ++ [(20, 1, decline); (21, 1, put 99)]) = None.
Proof. split; [vm_compute; eexists; reflexivity|vm_compute; reflexivity]. Qed.

Lemma example_ops keys fuel D : Forall (fun '(s, len) => 0 <= len /\ s + len <= 1000 /\ (D + Z.to_nat len < fuel)%nat) keys -> Forall (op_ok 1000 fuel D) (puts keys).
Proof.
  intros H. apply Forall_lookup. intros i [[s len] f] Hi. unfold puts in Hi. rewrite list_lookup_imap in Hi. destruct (keys !! i) as [[s' len']|] eqn:Ek; [|discriminate].
  injection Hi as -> -> <-. rewrite Forall_lookup in H. destruct (H i _ Ek) as (H1 & H2 & H3). repeat (split; [assumption|]). cbn. lia.
Qed.

Definition example_map : gmap (list byte) Z := (map_history leaf.example_mem ∅ (puts example_keys)).2.
Lemma example_represents : represents 15 15 nv32 (example_alloc ∅) 15 example_full example_map.
Proof.
  destruct (history_ok 15 15 nv32 true leaf.example_mem 1000 example_alloc example_slots example_ikeys example_children (example_alloc ∅) 60 (puts example_keys)
    example_shape 0 _ ∅ (initialize_represents 15 15 nv32 example_alloc example_slots example_ikeys example_children example_shape)) as (e & E & He).
  { apply example_ops. repeat constructor; cbn; lia. }
  assert (Hend : (match example_history example_new (puts example_keys) with Some (Ended _ _) => true | _ => false end) = true) by (vm_compute; reflexivity).
  unfold example_full. unfold example_new in *. rewrite E in *. destruct e as [l st|]; [|discriminate Hend]. apply He.
Qed.

(** The sixteenth key is put: the leaf is full and is split. *)
Lemma masstree_modify_insert_witness : exists r, example_insert example_full 50 12 (put 99) = Some r /\
  exists st', r = Done 1 st' /\ root_ st' = 2%nat /\ represents 15 15 nv32 (example_alloc ∅) 16 st' (partial_alter (fun _ => Some 99) (bytes leaf.example_mem 50 12) example_map).
Proof.
  destruct (masstree_modify_insert 15 15 nv32 true leaf.example_mem 1000 example_alloc example_slots example_ikeys example_children (example_alloc ∅) 15 example_full example_map
    50 12 (put 99) 60 example_shape example_represents) as (r & E & Hr); [lia|lia|cbn; lia|].
  assert (EK : example_map !! bytes leaf.example_mem 50 12 = None) by (vm_compute; reflexivity). change (Z.to_nat 12) with 12%nat in Hr. rewrite EK in Hr.
  assert (E' : (r' ← example_insert example_full 50 12 (put 99); match r' with Done _ st => Some (root_ st) | _ => None end) = Some 2%nat) by (vm_compute; reflexivity).
  rewrite E in E'. exists r. split; [exact E|]. cbn [mbind option_bind] in E'. destruct r as [a st'|]; [|discriminate]. injection E' as E'. destruct Hr as [-> [Hr|(_ & Ha & _)]]; [eauto|lia].
Defined.

(** A key of that tree is removed. *)
Lemma masstree_modify_witness : exists st', modify 15 nv32 true leaf.example_mem 60 example_full 14 3 remove = Some (Done (-1) st') /\
  represents 15 15 nv32 (example_alloc ∅) 15 st' (delete (bytes leaf.example_mem 14 3) example_map).
Proof.
  destruct (masstree_modify 15 15 nv32 true leaf.example_mem (example_alloc ∅) 15 example_full example_map 14 3 remove 60 ltac:(lia) example_represents) as (r & E & Hr); [lia|cbn; lia|].
  assert (EK : example_map !! bytes leaf.example_mem 14 3 = Some 2) by (vm_compute; reflexivity). change (Z.to_nat 3) with 3%nat in Hr. rewrite EK in Hr.
  assert (E' : (r' ← modify 15 nv32 true leaf.example_mem 60 example_full 14 3 remove; match r' with Done a _ => Some a | _ => None end) = Some (-1)) by (vm_compute; reflexivity).
  rewrite E in E'. cbn [mbind option_bind] in E'. destruct r as [a st'|]; [|discriminate]. injection E' as ->. exists st'. split; [exact E|]. apply Hr.
Defined.

(** After those puts, and one that replaces a value, a lookup finds the last value. *)
Lemma masstree_history_witness : exists l st, example_history example_new (puts example_keys ++ [(14, 3, put 500)]) = Some (Ended l st) /\
  example_get st 14 3 = Some (Some 500) /\ example_get st 0 1 = Some (Some 0).
Proof.
  destruct (masstree_history 15 15 nv32 true leaf.example_mem 1000 example_alloc example_slots example_ikeys example_children (puts example_keys ++ [(14, 3, put 500)]) 60 example_shape)
    as (e & E & He).
  { apply Forall_app. split; [apply example_ops; repeat constructor; cbn; lia|repeat constructor; cbn; lia]. }
  assert (EA : (let '(answers, M) := map_history leaf.example_mem ∅ (puts example_keys ++ [(14, 3, put 500)]) in
    (forallb (Z.leb 0) answers, M !! bytes leaf.example_mem 14 3, M !! bytes leaf.example_mem 0 1)) = (true, Some 500, Some 0)) by (vm_compute; reflexivity).
  destruct (map_history leaf.example_mem ∅ (puts example_keys ++ [(14, 3, put 500)])) as [answers M].
  apply pair_equal_spec in EA as [EA E2]. apply pair_equal_spec in EA as [EA E1]. destruct e as [l st|l st].
  - exists l, st. split; [exact E|]. destruct He as [_ He]. unfold example_get.
    assert (Hl : length (puts example_keys ++ [(14, 3, put 500)]) = 16%nat) by (vm_compute; reflexivity). rewrite Hl in He. rewrite !He by (cbn; lia). change (Z.to_nat 3) with 3%nat. change (Z.to_nat 1) with 1%nat. rewrite E1, E2. auto.
  - exfalso. destruct He as [[t Ht] Hneg]. apply Exists_exists in Hneg as (a & Ha & Hn). rewrite forallb_forall in EA. specialize (EA a).
    rewrite Z.leb_le in EA. rewrite Ht in EA. assert (0 <= a) by (apply EA, list_elem_of_In, elem_of_app; auto). lia.
Defined.
