(* ===== verification/Query.v ===== *)
(** * Queries of the Masstree store (src/masstree/kvrow.hh, masstree.cc, masstree_query.hh,
    kvthread.hh, kvproto.hh)

    get, put, replace and remove of query_table: the tree (Cursor.v) holds pointers to
    rows (ValueBag.v), the queries make new rows, give them timestamps and retire the
    old ones.  The thread has no log (ti_log is null).  The timestamp of the leaf
    (node_ts_), which the nodes of the model do not have, is an argument. *)

From S2P Require Import Prelude CircularInt NodeVersion StringSlice MtKey Internode Leaf Tree Layer Cursor TreeStore Modify MasstreeSpec Changeset ValueBag.

Open Scope Z_scope.

Module query.

Import cursor.
Import changeset (change, serial_changeset, changes, kvw_short, kvw_str).
Import bag (row, mkRow, d_).
Import modify (tree_shape).

(** ** The thread (threadinfo)

    Its timestamp, the rows in memory, and those given to deallocate_rcu. *)
Record threadinfo := mkTi { ts_ : Z; rows : gmap Z row; limbo : list Z }.

Definition set_ts (ts : Z) (ti : threadinfo) : threadinfo := mkTi ts (rows ti) (limbo ti).
Definition marker_safe (x : Z) : Z := u64 (Z.lor x 1 + 1).
(** update_timestamp(), update_timestamp(x), update_timestamp(x, y) *)
Definition update_timestamp (x : Z) (ti : threadinfo) : threadinfo :=
  if circular_int.less_equal 64 (ts_ ti) x then set_ts (marker_safe x) ti else ti.
Definition update_timestamp2 (x y : Z) (ti : threadinfo) : threadinfo :=
  let x := if circular_int.less 64 x y then y else x in update_timestamp x ti.
Definition increment_timestamp (ti : threadinfo) : threadinfo := set_ts (u64 (ts_ ti + 2)) ti.
Definition advance_timestamp (x : Z) (ti : threadinfo) : threadinfo := if circular_int.less 64 (ts_ ti) x then set_ts x ti else ti.
Definition deallocate_rcu (p : Z) (ti : threadinfo) : threadinfo := mkTi (ts_ ti) (rows ti) (p :: limbo ti).

Definition row_is_marker (r : row) : bool := Z.testbit (bag.ts_ r) 0.

Inductive result_t := Inserted | Updated.
(** begin_get1 with a column, which is not negative; begin_get with fields. *)
Inductive get_query := Get1 (col : nat) | Get (fields : list Z).

Section Query.
(** sizeof(offset_type), the memory a new row is made of, and where it lies. *)
Context (osize : nat) (allocate : nat -> list byte) (place : gmap Z row -> Z).

Definition new_row (r : row) (ti : threadinfo) : Z * threadinfo :=
  let p := place (rows ti) in (p, mkTi (ts_ ti) (<[p := r]> (rows ti)) (limbo ti)).

(** ** query *)

(** [for (int i = 0; i != n; ++i) KVW(kvout_, row->col(...));] *)
Definition emit_columns (r : row) (fs : list Z) : option (list byte) := l ← mapM (bag.col osize r) fs; Some (concat (kvw_str <$> l)).
(** What is written to kvout_. *)
Definition emit (f_ : list Z) (r : row) : option (list byte) :=
  if decide (length f_ = 0%nat) then n ← bag.ncol_ osize (d_ r); bs ← emit_columns r (seqZ 0 n); Some (kvw_short n ++ bs)
  else bs ← emit_columns r f_; Some (kvw_short (Z.of_nat (length f_)) ++ bs).
(** val_, or what is written; [Some None]: false. *)
Definition emitrow (q : get_query) (v : row) : option (option (list byte)) :=
  if row_is_marker v then Some None
  else match q with Get1 c => s ← bag.col osize v (Z.of_nat c); Some (Some s) | Get f_ => s ← emit f_ v; Some (Some s) end.

(** The new value, what apply_put returns and the thread. *)
Definition apply_put (val_ : list byte) (has_value : bool) (value : Z) (ti : threadinfo) : option (Z * result_t * threadinfo) :=
  str ← serial_changeset val_;
  changeset ← changes str;
  let insert ti := r ← bag.create osize allocate changeset (ts_ ti); let '(p, ti) := new_row r ti in Some (p, Inserted, ti) in
  if negb has_value then insert ti
  else
    old ← rows ti !! value;
    let ti := update_timestamp (bag.ts_ old) ti in
    if row_is_marker old then insert (deallocate_rcu value ti)
    else
      r ← bag.update osize allocate old changeset (ts_ ti);
      let '(updated, ti) := new_row r ti in
      Some (if negb (updated =? value) then (updated, Updated, deallocate_rcu value ti) else (value, Updated, ti)).

Definition apply_replace (val_ : list byte) (has_value : bool) (value : Z) (ti : threadinfo) : option (Z * threadinfo) :=
  ti ← (if negb has_value then Some ti else old ← rows ti !! value; Some (deallocate_rcu value (update_timestamp (bag.ts_ old) ti)));
  r ← bag.create1 osize allocate val_ (ts_ ti);
  Some (new_row r ti).

(** Whether it removes, the leaf's timestamp and the thread.  (In the tree a split
    leaf and a new layer get a copy of node_ts_, an unlinked leaf leaves it to its
    left neighbour; here it is an argument.) *)
Definition apply_remove (has_value : bool) (value : Z) (node_ts : Z) (ti : threadinfo) : option (bool * Z * threadinfo) :=
  if negb has_value then Some (false, node_ts, ti)
  else
    old ← rows ti !! value;
    let ti := update_timestamp (bag.ts_ old) ti in
    Some (true, if circular_int.less_equal 64 node_ts (ts_ ti) then u64 (ts_ ti + 2) else node_ts, deallocate_rcu value ti).

(** ** query_table *)

Record table := mkTable { tree_ : store; ti_ : threadinfo }.

Context (width : Z) (w : nat) (nv : nodeversion_parameters) (binary : bool) (mem : memory).
Context (bag_ : Z) (alloc : tree.heap -> nat) (new_slots : list leaf.slot) (new_ikeys : list Z) (new_children : list internode.ptr).

(** The query on lp.value() and finish(1, ti). *)
Definition write_value {A} (op : bool -> Z -> threadinfo -> option (Z * A * threadinfo)) (found : bool) (st : store) (q : nat) (n : leaf.leaf) (ki kp : Z) (ka : key.key) (ti : threadinfo) : option (A * table) :=
  sl ← leaf.slot_at n kp;
  '(value, r, ti) ← op found (leaf.lv sl) ti;
  n ← layer.set_lv n kp value;
  m ← finish width nv mem 1 (if found then 3 else 2) st q n ki kp ka;
  match m with Done _ st => Some (r, mkTable st ti) | MustUnlink _ _ _ _ => None end.
(** put and replace: find_insert, the timestamp of the leaf for a new key, the rest. *)
Definition insert_with {A} (fuel : nat) (t : table) (s len node_ts : Z) (op : bool -> Z -> threadinfo -> option (Z * A * threadinfo)) : option (A * table) :=
  lp ← find_insert width w nv binary mem bag_ alloc new_slots new_ikeys new_children fuel (tree_ t) (root_ (tree_ t)) (key.of_str mem s len);
  match lp with
  | IFound st q n ki kp ka => write_value op true st q n ki kp ka (ti_ t)
  | IInsert st q n ki kp ka => write_value op false st q n ki kp ka (advance_timestamp node_ts (ti_ t))
  | IRoot _ _ _ => None
  end.

Definition put (fuel : nat) (t : table) (s len node_ts : Z) (val_ : list byte) : option (result_t * table) :=
  insert_with fuel t s len node_ts (apply_put val_).
Definition replace (fuel : nat) (t : table) (s len node_ts : Z) (val_ : list byte) : option (() * table) :=
  insert_with fuel t s len node_ts (fun found value ti => '(p, ti) ← apply_replace val_ found value ti; Some (p, tt, ti)).

(** Removed or not, the leaf's timestamp and the table; or a leaf to unlink. *)
Inductive removal := Removed (r : bool) (node_ts : Z) (t : table) | Unlinking (q : nat).
Definition remove (fuel : nat) (t : table) (s len node_ts : Z) : option removal :=
  lp ← find_locked width nv binary mem fuel (tree_ t) (root_ (tree_ t)) (key.of_str mem s len);
  match lp with
  | LRoot _ _ _ => None
  | LAt st q n ki kp ka =>
      '(removed, node_ts, ti) ← (if 0 <=? kp then sl ← leaf.slot_at n kp; apply_remove true (leaf.lv sl) node_ts (ti_ t) else Some (false, node_ts, ti_ t));
      m ← finish width nv mem (if removed then -1 else 0) (if 0 <=? kp then 1 else 0) st q n ki kp ka;
      Some (match m with Done _ st => Removed removed node_ts (mkTable st ti) | MustUnlink _ _ q _ => Unlinking q end)
  end.
Definition get (fuel : nat) (t : table) (s len : Z) (q : get_query) : option (option (list byte)) :=
  found ← lookup_key nv binary mem fuel (tree_ t) s len;
  match found with None => Some None | Some p => v ← rows (ti_ t) !! p; emitrow q v end.

(** threadinfo::make and initialize *)
Definition new_thread : threadinfo := mkTi 2 ∅ [].
Definition new_table : table := mkTable (reinitialize width nv alloc new_slots no_tree) new_thread.
End Query.
End query.
