(* ===== verification/QuerySpec.v ===== *)
(** * The store as a map from keys to columns

    get, put, replace and remove (Query.v) against finite maps from keys to lists of
    columns: any sequence of queries on a new table is answered as on the map, no row
    is retired while a key has it, none twice; timestamps grow with every change. *)

From S2P Require Import Prelude CircularInt NodeVersion StringSlice MtKey Internode Leaf Tree Layer Cursor TreeStore Modify MasstreeSpec Changeset ValueBag Query.

Open Scope Z_scope.

Module querySpec.

Import cursor.
Import changeset (change, serial_changeset, changes, kvw_short, kvw_str).
Import bag (row, mkRow, d_, row_image, fits, changed, in_order).
Import modify (tree_shape).
Import query.

(** ** Timestamps *)

Definition good_ts (ts : Z) : Prop := is_u64 ts /\ Z.even ts = true.

Lemma lor_one x : 0 <= x -> Z.lor x 1 + 1 = if Z.even x then x + 2 else x + 1.
Proof. intros Hx. destruct x as [|[p|p|]|p]; [reflexivity|reflexivity|change (Z.lor (Z.pos p~0) 1) with (Z.pos p~1); cbn [Z.even]; lia|reflexivity|lia]. Qed.
Lemma even_u64 z : Z.even (u64 z) = Z.even z.
Proof.
  unfold u64. rewrite (Z.div_mod z (2 ^ 64)) at 2 by lia. change (2 ^ 64) with (2 * 2 ^ 63) at 2. rewrite <- Z.mul_assoc, Z.add_comm, Z.even_add_mul_2. reflexivity.
Qed.
Lemma less_add x k : 0 < k < 2 ^ 63 -> circular_int.less 64 x (u64 (x + k)) = true.
Proof.
  intros Hk. unfold circular_int.less. replace (circular_int.value_type 64 (x - u64 (x + k))) with (circular_int.value_type 64 (- k)).
  - rewrite circular_int.difference_small by lia. apply Z.ltb_lt. lia.
  - unfold circular_int.value_type, u64. rewrite Zminus_mod_idemp_r. f_equal. lia.
Qed.
Lemma less_flip a b : circular_int.less_equal 64 a b = false -> circular_int.less 64 b a = true.
Proof.
  unfold circular_int.less_equal, circular_int.less, circular_int.difference_type, circular_int.value_type. intros H. apply Z.leb_gt in H. apply Z.ltb_lt.
  change (2 ^ (64 - 1)) with (2 ^ 63) in *. set (m := (a - b) mod 2 ^ 64) in *. assert (Hm : 0 <= m < 2 ^ 64) by (apply Z.mod_pos_bound; lia).
  assert (E : (b - a) mod 2 ^ 64 = (- m) mod 2 ^ 64) by (unfold m; rewrite <- Z.sub_0_l, Zminus_mod_idemp_r; f_equal; lia). rewrite E, Zplus_mod_idemp_l.
  assert (Hpos : 0 < m < 2 ^ 63).
  { rewrite (Z.mod_eq (m + 2 ^ 63)) in H by lia. destruct (decide (m < 2 ^ 63)); [rewrite Z.div_small in H by lia; lia|].
    replace ((m + 2 ^ 63) / 2 ^ 64) with 1 in H; [lia|]. apply Z.div_unique with (m - 2 ^ 63); lia. }
  rewrite Z.mod_small; lia.
Qed.

(** A row's new timestamp is later, and not that of a marker. *)
Lemma update_later x ti : is_u64 x -> good_ts (ts_ ti) -> good_ts (ts_ (update_timestamp x ti)) /\ circular_int.less 64 x (ts_ (update_timestamp x ti)) = true.
Proof.
  intros Hx Hti. unfold update_timestamp. destruct (circular_int.less_equal 64 (ts_ ti) x) eqn:E; [|split; [exact Hti|apply less_flip, E]].
  cbn [set_ts ts_]. unfold marker_safe. rewrite lor_one by (unfold is_u64 in Hx; lia). destruct (Z.even x) eqn:Ex.
  - split; [split; [apply u64_range|rewrite even_u64, Z.even_add, Ex; reflexivity]|apply less_add; lia].
  - split; [split; [apply u64_range|rewrite even_u64, Z.even_add, Ex; reflexivity]|apply less_add; lia].
Qed.
Lemma advance_later x ti : good_ts x -> good_ts (ts_ ti) -> good_ts (ts_ (advance_timestamp x ti)) /\ circular_int.less 64 (ts_ (advance_timestamp x ti)) x = false.
Proof.
  intros Hx Hti. unfold advance_timestamp. destruct (circular_int.less 64 (ts_ ti) x) eqn:E; [|auto]. cbn [set_ts ts_]. split; [exact Hx|].
  unfold circular_int.less. rewrite Z.sub_diag. reflexivity.
Qed.
Lemma good_not_marker ts d : good_ts ts -> row_is_marker (mkRow ts d) = false.
Proof. intros [_ H]. unfold row_is_marker. cbn [bag.ts_]. rewrite Z.bit0_odd, <- Z.negb_even, H. reflexivity. Qed.

Lemma update_fields x ti : rows (update_timestamp x ti) = rows ti /\ limbo (update_timestamp x ti) = limbo ti.
Proof. unfold update_timestamp. destruct (circular_int.less_equal _ _ _); auto. Qed.
Lemma advance_fields x ti : rows (advance_timestamp x ti) = rows ti /\ limbo (advance_timestamp x ti) = limbo ti.
Proof. unfold advance_timestamp. destruct (circular_int.less _ _ _); auto. Qed.

(** ** Rows and columns *)

Abbreviation ptrs := (gmap (list byte) Z).
Abbreviation columns := (gmap (list byte) (list (list byte))).

Section Spec.
Context (osize : nat) (allocate : nat -> list byte) (place : gmap Z row -> Z).
Hypothesis Hosize : (0 < osize < 8)%nat.
Hypothesis Hallocate : forall n, length (allocate n) = n.
Hypothesis Hplace : forall h, h !! place h = None.

(** The row at [p] is live and has these columns. *)
Definition row_ok (ti : threadinfo) (p : Z) (cs : list (list byte)) : Prop :=
  exists ts, rows ti !! p = Some (mkRow ts (row_image osize cs)) /\ good_ts ts /\ fits osize cs /\ p ∉ limbo ti.

Record rows_ok (ti : threadinfo) (M : ptrs) (C : columns) : Prop := {
  ro_rows k : match M !! k, C !! k with Some p, Some cs => row_ok ti p cs | None, None => True | _, _ => False end;
  ro_inj k k' p : M !! k = Some p -> M !! k' = Some p -> k = k';
  ro_limbo p : p ∈ limbo ti -> is_Some (rows ti !! p);
  ro_nodup : NoDup (limbo ti);
  ro_ts : good_ts (ts_ ti)
}.

Lemma rows_ok_ts ti M C ts : rows_ok ti M C -> good_ts ts -> rows_ok (set_ts ts ti) M C.
Proof. intros [H1 H2 H3 H4 H5] Ht. split; assumption. Qed.

(** A new row for a key; its old one is retired. *)
Definition retire (cur : option Z) (l : list Z) : list Z := match cur with Some v => v :: l | None => l end.

Lemma rows_write ti M C K ts cs : rows_ok ti M C -> good_ts ts -> fits osize cs ->
  let p := place (rows ti) in
  rows_ok (mkTi ts (<[p := mkRow ts (row_image osize cs)]> (rows ti)) (retire (M !! K) (limbo ti))) (<[K := p]> M) (<[K := cs]> C).
Proof.
  intros [H1 H2 H3 H4 H5] Hts Hf p. pose proof (Hplace (rows ti)) as Hp. fold p in Hp.
  assert (Hlive : forall k v, M !! k = Some v -> v <> p /\ v ∉ limbo ti).
  { intros k v Hv. specialize (H1 k). rewrite Hv in H1. destruct (C !! k); [|destruct H1]. destruct H1 as (t0 & Hr & _ & _ & Hl). split; [congruence|exact Hl]. }
  assert (Hpl : p ∉ limbo ti) by (intros Hin; destruct (H3 p Hin); congruence).
  assert (Hret : forall x, x ∈ retire (M !! K) (limbo ti) -> M !! K = Some x \/ x ∈ limbo ti).
  { intros x Hx. destruct (M !! K) as [v|]; cbn [retire] in Hx; [apply elem_of_cons in Hx as [->|Hx]|]; auto. }
  split; cbn [rows limbo ts_].
  - intros k. destruct (decide (k = K)) as [->|Hk].
    + rewrite !lookup_insert_eq. exists ts. cbn [rows limbo]. rewrite lookup_insert_eq. split; [reflexivity|]. split; [exact Hts|]. split; [exact Hf|].
      intros Hin. apply Hret in Hin as [Hin|Hin]; [apply (Hlive K p) in Hin as [Hne _]; congruence|contradiction].
    + rewrite !lookup_insert_ne by congruence. specialize (H1 k). destruct (M !! k) as [v|] eqn:Ev; [|exact H1]. destruct (C !! k) as [cs'|]; [|exact H1].
      destruct H1 as (t0 & Hr & Ht & Hf' & Hl). destruct (Hlive k v Ev) as [Hne _]. exists t0. cbn [rows limbo]. rewrite lookup_insert_ne by congruence. repeat (split; [assumption|]).
      intros Hin. apply Hret in Hin as [Hin|Hin]; [|contradiction]. apply Hk. exact (H2 _ _ _ Ev Hin).
  - intros k k' x. rewrite !lookup_insert. destruct (decide (K = k)) as [<-|Hk], (decide (K = k')) as [<-|Hk']; [auto|intros [= <-] Hx|intros Hx [= <-]|apply H2]; destruct (Hlive _ _ Hx); congruence.
  - intros x Hx. rewrite lookup_insert. destruct (decide (p = x)); [eauto|]. apply Hret in Hx as [Hx|Hx]; [|auto]. specialize (H1 K). rewrite Hx in H1. destruct (C !! K); [|destruct H1]. destruct H1 as (t0 & Hr & _). eauto.
  - destruct (M !! K) as [v|] eqn:Ev; cbn [retire]; [|exact H4]. constructor; [apply (Hlive K v Ev)|exact H4].
  - exact Hts.
Qed.

Lemma rows_delete ti M C K v ts : rows_ok ti M C -> good_ts ts -> M !! K = Some v -> rows_ok (mkTi ts (rows ti) (v :: limbo ti)) (delete K M) (delete K C).
Proof.
  intros [H1 H2 H3 H4 H5] Hts Hv. pose proof (H1 K) as HK. rewrite Hv in HK. destruct (C !! K) as [cs|]; [|destruct HK]. destruct HK as (t0 & Hr & _ & _ & Hl).
  split; cbn [rows limbo ts_].
  - intros k. destruct (decide (k = K)) as [->|Hk]; [rewrite !lookup_delete_eq; exact I|]. rewrite !lookup_delete_ne by congruence. specialize (H1 k).
    destruct (M !! k) as [x|] eqn:Ex; [|exact H1]. destruct (C !! k) as [cs'|]; [|exact H1]. destruct H1 as (t1 & ? & ? & ? & Hx). exists t1. repeat (split; [assumption|]). cbn [limbo].
    intros Hin. apply elem_of_cons in Hin as [->|Hin]; [|contradiction]. apply Hk. exact (H2 _ _ _ Ex Hv).
  - intros k k' x Hk Hk'. apply lookup_delete_Some in Hk as [_ Hk], Hk' as [_ Hk']. exact (H2 _ _ _ Hk Hk').
  - intros x Hx. apply elem_of_cons in Hx as [->|Hx]; [eauto|auto].
  - constructor; assumption.
  - exact Hts.
Qed.

(** ** The queries on rows *)

Lemma fits_empty : fits osize [].
Proof. unfold fits. destruct osize as [|[|[|[|[|[|[|[|n]]]]]]]]; try lia; vm_compute; reflexivity. Qed.

(** The key of the query is there or not, in both maps. *)
Lemma rows_at ti M C K : rows_ok ti M C -> match M !! K with
  | Some p => exists cs, C !! K = Some cs /\ row_ok ti p cs
  | None => C !! K = None
  end.
Proof. intros H. pose proof (ro_rows _ _ _ H K) as HK. destruct (M !! K), (C !! K); eauto; contradiction. Qed.

Definition has_key {A} (cur : option A) : bool := match cur with Some _ => true | None => false end.
Definition value_at (cur : option Z) : Z := default leaf.empty_value cur.

Lemma apply_put_ok ti M C K val_ str ch : rows_ok ti M C -> serial_changeset val_ = Some str -> changes str = Some ch -> in_order 0 ch -> fits osize (changed (default [] (C !! K)) ch) ->
  exists p ti', apply_put osize allocate place val_ (has_key (M !! K)) (value_at (M !! K)) ti = Some (p, if has_key (C !! K) then Updated else Inserted, ti') /\
    rows_ok ti' (<[K := p]> M) (<[K := changed (default [] (C !! K)) ch]> C).
Proof.
  intros Hro Es Ech Ho Hf. pose proof (rows_at ti M C K Hro) as HK. pose proof (ro_ts _ _ _ Hro) as Hts. unfold apply_put. rewrite Es. cbn [mbind option_bind]. rewrite Ech. cbn [mbind option_bind].
  destruct (M !! K) as [v|] eqn:Ev; cbn [has_key negb].
  - change (value_at (Some v)) with v. destruct HK as (cs & Ec & t0 & Er & Ht0 & Hfc & Hl). rewrite Ec in *. cbn [default has_key] in *. rewrite Er. cbn [mbind option_bind bag.ts_]. rewrite good_not_marker by exact Ht0.
    destruct (update_later t0 ti (proj1 Ht0) Hts) as [Hts1 _]. destruct (update_fields t0 ti) as [Er1 El1]. set (ti1 := update_timestamp t0 ti) in *.
    rewrite (bag.row_update_ok osize allocate Hosize Hallocate cs ch t0 (ts_ ti1) Hfc Hf Ho). cbn [mbind option_bind new_row]. rewrite Er1, El1.
    destruct (Z.eqb_spec (place (rows ti)) v) as [E|_]; [rewrite <- E, Hplace in Er; discriminate|]. cbn [negb]. do 2 eexists. split; [reflexivity|].
    pose proof (rows_write ti M C K (ts_ ti1) _ Hro Hts1 Hf) as Hw. rewrite Ev in Hw. exact Hw.
  - rewrite HK in *. cbn [default has_key] in *. unfold bag.create. rewrite bag.empty_image by assumption. rewrite (bag.row_update_ok osize allocate Hosize Hallocate [] ch 0 (ts_ ti) fits_empty Hf Ho). cbn [mbind option_bind new_row].
    do 2 eexists. split; [reflexivity|]. pose proof (rows_write ti M C K (ts_ ti) _ Hro Hts Hf) as Hw. rewrite Ev in Hw. exact Hw.
Qed.

Lemma apply_replace_ok ti M C K val_ : rows_ok ti M C -> fits osize [val_] ->
  exists p ti', apply_replace osize allocate place val_ (has_key (M !! K)) (value_at (M !! K)) ti = Some (p, ti') /\ rows_ok ti' (<[K := p]> M) (<[K := [val_]]> C).
Proof.
  intros Hro Hf. pose proof (rows_at ti M C K Hro) as HK. pose proof (ro_ts _ _ _ Hro) as Hts. unfold apply_replace.
  destruct (M !! K) as [v|] eqn:Ev; cbn [has_key negb].
  - change (value_at (Some v)) with v. destruct HK as (cs & Ec & t0 & Er & Ht0 & _ & Hl). rewrite Er. cbn [mbind option_bind bag.ts_].
    destruct (update_later t0 ti (proj1 Ht0) Hts) as [Hts1 _]. destruct (update_fields t0 ti) as [Er1 El1]. set (ti1 := update_timestamp t0 ti) in *.
    rewrite (bag.create1_ok osize allocate Hosize Hallocate) by exact Hf. cbn [mbind option_bind]. unfold new_row, deallocate_rcu. cbn [ts_ rows limbo]. rewrite Er1, El1. do 2 eexists. split; [reflexivity|].
    pose proof (rows_write ti M C K (ts_ ti1) _ Hro Hts1 Hf) as Hw. rewrite Ev in Hw. exact Hw.
  - cbn [mbind option_bind]. rewrite (bag.create1_ok osize allocate Hosize Hallocate) by exact Hf. cbn [mbind option_bind]. unfold new_row. do 2 eexists. split; [reflexivity|].
    pose proof (rows_write ti M C K (ts_ ti) _ Hro Hts Hf) as Hw. rewrite Ev in Hw. exact Hw.
Qed.

Lemma apply_remove_ok ti M C K v node_ts : rows_ok ti M C -> M !! K = Some v ->
  exists node_ts' ti', apply_remove true v node_ts ti = Some (true, node_ts', ti') /\ rows_ok ti' (delete K M) (delete K C).
Proof.
  intros Hro Ev. pose proof (rows_at ti M C K Hro) as HK. rewrite Ev in HK. destruct HK as (cs & Ec & t0 & Er & Ht0 & _ & Hl). unfold apply_remove. cbn [negb]. rewrite Er. cbn [mbind option_bind bag.ts_].
  destruct (update_later t0 ti (proj1 Ht0) (ro_ts _ _ _ Hro)) as [Hts1 _]. destruct (update_fields t0 ti) as [Er1 El1]. set (ti1 := update_timestamp t0 ti) in *. do 2 eexists. split; [reflexivity|].
  unfold deallocate_rcu. rewrite Er1, El1. apply rows_delete; assumption.
Qed.

(** What a get finds. *)
Definition column (cs : list (list byte)) (i : Z) : list byte := if 0 <=? i then default [] (cs !! Z.to_nat i) else [].
Definition answer_of (q : get_query) (cs : list (list byte)) : list byte :=
  match q with
  | Get1 c => column cs (Z.of_nat c)
  | Get [] => kvw_short (Z.of_nat (length cs)) ++ concat (kvw_str <$> cs)
  | Get fs => kvw_short (Z.of_nat (length fs)) ++ concat (kvw_str <$> (column cs <$> fs))
  end.

Lemma col_column cs ts i : fits osize cs -> bag.col osize (mkRow ts (row_image osize cs)) i = Some (column cs i).
Proof.
  intros Hf. unfold column. destruct (Z.leb_spec 0 i); [apply (bag.col_ok osize Hosize); assumption|]. unfold bag.col. cbn [d_]. rewrite (bag.image_ncol osize cs Hf) by lia. cbn [mbind option_bind].
  destruct (Z.leb_spec 0 i); [lia|reflexivity].
Qed.
Lemma emit_columns_ok cs ts fs : fits osize cs -> emit_columns osize (mkRow ts (row_image osize cs)) fs = Some (concat (kvw_str <$> (column cs <$> fs))).
Proof.
  intros Hf. unfold emit_columns. replace (mapM _ fs) with (Some (column cs <$> fs)); [reflexivity|]. symmetry. apply mapM_Some. induction fs as [|i fs IH]; constructor; [|exact IH]. apply col_column, Hf.
Qed.
Lemma all_columns cs : column cs <$> seqZ 0 (Z.of_nat (length cs)) = cs.
Proof.
  apply list_eq. intros i. rewrite list_lookup_fmap. destruct (decide (i < length cs)%nat) as [Hi|Hi].
  - rewrite lookup_seqZ_lt by lia. cbn [fmap option_fmap option_map]. unfold column. destruct (Z.leb_spec 0 (0 + Z.of_nat i)); [|lia]. rewrite Z.add_0_l, Nat2Z.id. destruct (lookup_lt_is_Some_2 cs i Hi) as [c ->]. reflexivity.
  - rewrite lookup_seqZ_ge by lia. symmetry. apply lookup_ge_None_2. lia.
Qed.
Lemma emitrow_ok cs ts q : good_ts ts -> fits osize cs -> emitrow osize q (mkRow ts (row_image osize cs)) = Some (Some (answer_of q cs)).
Proof.
  intros Ht Hf. unfold emitrow. rewrite good_not_marker by exact Ht. destruct q as [c|fs]; cbn [answer_of]; [rewrite col_column by exact Hf; reflexivity|]. unfold emit. destruct fs as [|f fs].
  - cbn [length]. rewrite decide_True by reflexivity. cbn [d_]. rewrite (bag.image_ncol osize cs Hf) by lia. cbn [mbind option_bind]. rewrite emit_columns_ok, all_columns by exact Hf. reflexivity.
  - rewrite decide_False by discriminate. rewrite emit_columns_ok by exact Hf. reflexivity.
Qed.

(** ** The queries on the table *)

Context (width : Z) (w : nat) (nv : nodeversion_parameters) `{L : !NvLayout nv} (binary : bool) (mem : memory).

(** The tree has the keys, each with a row of its columns. *)
Definition holds (top D : nat) (t : table) (C : columns) : Prop := exists M, represents width w nv top D (tree_ t) M /\ rows_ok (ti_ t) M C.

Lemma get_ok top D t C s len q fuel : 3 <= width <= 15 -> holds top D t C -> 0 <= len -> (S D + Z.to_nat len < fuel)%nat ->
  get osize nv binary mem fuel t s len q = Some (answer_of q <$> C !! bytes mem s (Z.to_nat len)).
Proof.
  intros Hw (M & HM & Hro) Hlen Hf. unfold get. rewrite (lookup_ok width w nv binary mem top D _ M s len fuel Hw HM Hlen Hf). cbn [mbind option_bind].
  pose proof (rows_at _ _ _ (bytes mem s (Z.to_nat len)) Hro) as HK. destruct (M !! _) as [p|]; [|rewrite HK; reflexivity].
  destruct HK as (cs & -> & t0 & -> & Ht & Hfc & _). cbn [mbind option_bind]. rewrite emitrow_ok by assumption. reflexivity.
Qed.

Lemma set_same n kp sl : leaf.slot_at n kp = Some sl -> layer.set_lv n kp (leaf.lv sl) = Some n.
Proof.
  intros H. unfold layer.set_lv. rewrite H. cbn [mbind option_bind]. unfold leaf.slot_at in H. unfold layer.put_slot. destruct sl as [a b c d]. cbn [leaf.keylenx leaf.ikey0 leaf.lv leaf.suf].
  rewrite poke_in by (eapply lookup_lt_Some, H). cbn [mbind option_bind]. rewrite list_insert_id by exact H. destruct n. reflexivity.
Qed.

(** The map of pointers after a change at one key. *)
Lemma represents_changed top D st tab tab' M K new : (forall k v, tree.maps tab top k v <-> M !! k = Some v) -> treestore.store_ok width w nv top D st tab' ->
  modify.map_changed top tab tab' K new -> represents width w nv top D st (partial_alter (fun _ => new) K M).
Proof.
  intros HM Hst Hch. exists tab'. split; [exact Hst|]. intros k v. rewrite (Hch k v). destruct (decide (K = k)) as [<-|Hne].
  - rewrite lookup_partial_alter_eq. intuition.
  - rewrite lookup_partial_alter_ne by exact Hne. rewrite HM. intuition congruence.
Qed.

Lemma remove_ok top D t C s len node_ts fuel (K := bytes mem s (Z.to_nat len)) :
  3 <= width <= 15 -> holds top D t C -> 0 <= len -> (S D + Z.to_nat len < fuel)%nat ->
  exists r, remove width nv binary mem fuel t s len node_ts = Some r /\
    match r with
    | Removed b _ t' => b = has_key (C !! K) /\ holds top D t' (delete K C)
    | Unlinking _ => has_key (C !! K) = true
    end.
Proof.
  intros Hw (M & (tab & Hst & HM) & Hro) Hlen Hf. unfold remove.
  destruct (modify.locked_cursor width w nv binary mem Hw (s + len) top D (tree_ t) tab s len fuel Hst Hlen ltac:(lia) Hf) as (cur & st1 & q & n & ki & kp & ka & Hcur & E & Hfin).
  fold K in Hcur, Hfin. rewrite E. cbn [mbind option_bind]. assert (cur = M !! K) as -> by (apply option_eq; intros v; rewrite (Hcur v); apply HM).
  pose proof (rows_at _ _ _ K Hro) as HK. destruct (M !! K) as [v|] eqn:Ev.
  - destruct Hfin as (-> & (sl & Hsl & Elv) & Hfin). change (default leaf.empty_value (Some v)) with v in Elv. destruct HK as (cs & Ec & _).
    destruct (apply_remove_ok (ti_ t) M C K v node_ts Hro Ev) as (nts & ti' & Ea & Hro'). rewrite Hsl. cbn [mbind option_bind]. rewrite Elv, Ea. cbn [mbind option_bind].
    destruct (Hfin (-1) v) as (r & Er & Hok). rewrite <- Elv, (set_same n kp sl Hsl) in Er. cbn [mbind option_bind] in Er. rewrite Er. cbn [mbind option_bind]. eexists. split; [reflexivity|].
    rewrite Ec. destruct r as [a st'|a st' q' n']; cbn [modify.outcome_ok] in Hok; [|reflexivity]. destruct Hok as (_ & tab' & Hst' & Hch). split; [reflexivity|].
    exists (delete K M). split; [|exact Hro']. exact (represents_changed top D st' tab tab' M K None HM Hst' Hch).
  - destruct Hfin as (-> & st' & tab' & Efin & Hst' & Hm). cbn [mbind option_bind]. rewrite Efin. cbn [mbind option_bind]. eexists. split; [reflexivity|]. cbn beta iota. rewrite HK. split; [reflexivity|].
    rewrite delete_id by exact HK. exists M. split; [|exact Hro]. exists tab'. split; [exact Hst'|]. intros k x. rewrite (Hm k x). apply HM.
Qed.

Section Insert.
Context (bag_ : Z) (alloc : tree.heap -> nat) (new_slots : list leaf.slot) (new_ikeys : list Z) (new_children : list internode.ptr).
Hypothesis Hshape : tree_shape width w alloc new_slots new_ikeys new_children.

Lemma insert_with_ok {A} top D t M s len node_ts fuel (op : bool -> Z -> threadinfo -> option (Z * A * threadinfo)) (K := bytes mem s (Z.to_nat len)) p a ti' :
  represents width w nv top D (tree_ t) M -> 0 <= len -> s + len <= bag_ -> (S D + Z.to_nat len < fuel)%nat ->
  op (has_key (M !! K)) (value_at (M !! K)) (if has_key (M !! K) then ti_ t else advance_timestamp node_ts (ti_ t)) = Some (p, a, ti') ->
  exists st', insert_with width w nv binary mem bag_ alloc new_slots new_ikeys new_children fuel t s len node_ts op = Some (a, mkTable st' ti') /\ represents width w nv top (S D) st' (<[K := p]> M).
Proof.
  intros (tab & Hst & HM) Hlen Hb Hf Hop. pose proof (modify.ts_width _ _ _ _ _ _ Hshape) as Hw. unfold insert_with.
  destruct (modify.insert_cursor width w nv binary mem ltac:(lia) bag_ top new_slots alloc new_ikeys new_children Hshape D (tree_ t) tab s len fuel Hst Hlen Hb Hf) as (cur & res & Hcur & E & Hres).
  fold K in Hcur, Hres. rewrite E. cbn [mbind option_bind]. assert (cur = M !! K) as -> by (apply option_eq; intros v; rewrite (Hcur v); apply HM).
  destruct res as [st q n ki kp ka|st q n ki kp ka|]; [| |destruct Hres]; unfold write_value; destruct Hres as (Hc & (sl & Hsl & Elv) & Hfin); rewrite Hsl; cbn [mbind option_bind]; rewrite Elv; fold (value_at (M !! K)).
  - destruct Hc as [v Ev]. rewrite Ev in *. cbn [has_key] in Hop. rewrite Hop. cbn [mbind option_bind]. destruct (Hfin 1 p) as (r & Er & Hok).
    destruct (layer.set_lv n kp p) as [n'|]; [|discriminate]. cbn [mbind option_bind] in *. rewrite Er. cbn [mbind option_bind].
    destruct r as [a' st'|a' st' q' n2]; cbn [modify.outcome_ok Z.ltb Z.compare] in Hok; [|destruct Hok as (_ & _ & ? & _); discriminate]. destruct Hok as (_ & tab' & Hst' & Hch).
    eexists. split; [reflexivity|]. exact (represents_changed top (S D) st' tab tab' M K (Some p) HM Hst' Hch).
  - rewrite Hc in *. cbn [has_key] in Hop. rewrite Hop. cbn [mbind option_bind]. destruct (Hfin 1 p ltac:(lia)) as (r & Er & Hok).
    destruct (layer.set_lv n kp p) as [n'|]; [|discriminate]. cbn [mbind option_bind] in *. rewrite Er. cbn [mbind option_bind].
    destruct r as [a' st'|a' st' q' n2]; cbn [modify.outcome_ok] in Hok; [|destruct Hok as (_ & _ & ? & _); discriminate]. destruct Hok as (_ & tab' & Hst' & Hch).
    eexists. split; [reflexivity|]. exact (represents_changed top (S D) st' tab tab' M K (Some p) HM Hst' Hch).
Qed.

(** The thread the query is applied with. *)
Lemma rows_ok_start t M C node_ts b : rows_ok (ti_ t) M C -> good_ts node_ts -> rows_ok (if b : bool then ti_ t else advance_timestamp node_ts (ti_ t)) M C.
Proof.
  intros Hro Hn. destruct b; [exact Hro|]. pose proof (advance_later node_ts (ti_ t) Hn (ro_ts _ _ _ Hro)) as [Hg _]. unfold advance_timestamp in *. destruct (circular_int.less _ _ _); [|exact Hro]. apply rows_ok_ts; assumption.
Qed.

Lemma put_ok top D t C s len node_ts val_ str ch fuel (K := bytes mem s (Z.to_nat len)) :
  holds top D t C -> 0 <= len -> s + len <= bag_ -> (S D + Z.to_nat len < fuel)%nat -> good_ts node_ts ->
  serial_changeset val_ = Some str -> changes str = Some ch -> in_order 0 ch -> fits osize (changed (default [] (C !! K)) ch) ->
  exists t', put osize allocate place width w nv binary mem bag_ alloc new_slots new_ikeys new_children fuel t s len node_ts val_ = Some (if has_key (C !! K) then Updated else Inserted, t') /\
    holds top (S D) t' (<[K := changed (default [] (C !! K)) ch]> C).
Proof.
  intros (M & HM & Hro) Hlen Hb Hf Hn Es Ech Ho Hfit. pose proof (rows_ok_start t M C node_ts (has_key (M !! K)) Hro Hn) as Hro1.
  destruct (apply_put_ok _ M C K val_ str ch Hro1 Es Ech Ho Hfit) as (p & ti' & Ea & Hro').
  destruct (insert_with_ok top D t M s len node_ts fuel _ p _ ti' HM Hlen Hb Hf Ea) as (st' & E & HM'). eexists. split; [exact E|]. exists (<[K := p]> M). auto.
Qed.
Lemma replace_ok top D t C s len node_ts val_ fuel (K := bytes mem s (Z.to_nat len)) :
  holds top D t C -> 0 <= len -> s + len <= bag_ -> (S D + Z.to_nat len < fuel)%nat -> good_ts node_ts -> fits osize [val_] ->
  exists t', replace osize allocate place width w nv binary mem bag_ alloc new_slots new_ikeys new_children fuel t s len node_ts val_ = Some (tt, t') /\ holds top (S D) t' (<[K := [val_]]> C).
Proof.
  intros (M & HM & Hro) Hlen Hb Hf Hn Hfit. pose proof (rows_ok_start t M C node_ts (has_key (M !! K)) Hro Hn) as Hro1.
  destruct (apply_replace_ok _ M C K val_ Hro1 Hfit) as (p & ti' & Ea & Hro').
  edestruct (insert_with_ok top D t M s len node_ts fuel (fun found value ti => '(p, ti) ← apply_replace osize allocate place val_ found value ti; Some (p, tt, ti)) p tt ti' HM Hlen Hb Hf) as (st' & E & HM');
    [fold K; rewrite Ea; reflexivity|]. eexists. split; [exact E|]. exists (<[K := p]> M). auto.
Qed.

(** ** Sequences of queries *)

(** A query of the key of [len] bytes at [s], with the timestamp of its leaf. *)
Inductive op :=
| OGet (s len : Z) (q : get_query)
| OPut (s len node_ts : Z) (val_ : list byte)
| OReplace (s len node_ts : Z) (val_ : list byte)
| ORemove (s len node_ts : Z).
Inductive answer := AValue (v : option (list byte)) | AResult (r : result_t) | AReplaced | ARemoved (b : bool).
Inductive run_end := Finished (answers : list answer) (t : table) | StoppedAt (answers : list answer).

(** The answer, and the table unless a leaf must be unlinked. *)
Definition step (fuel : nat) (t : table) (o : op) : option (answer * option table) :=
  match o with
  | OGet s len q => v ← get osize nv binary mem fuel t s len q; Some (AValue v, Some t)
  | OPut s len node_ts val_ => '(r, t) ← put osize allocate place width w nv binary mem bag_ alloc new_slots new_ikeys new_children fuel t s len node_ts val_; Some (AResult r, Some t)
  | OReplace s len node_ts val_ => '(_, t) ← replace osize allocate place width w nv binary mem bag_ alloc new_slots new_ikeys new_children fuel t s len node_ts val_; Some (AReplaced, Some t)
  | ORemove s len node_ts => r ← remove width nv binary mem fuel t s len node_ts; Some (match r with Removed b _ t => (ARemoved b, Some t) | Unlinking _ => (ARemoved true, None) end)
  end.
Fixpoint run (fuel : nat) (t : table) (ops : list op) : option run_end :=
  match ops with
  | [] => Some (Finished [] t)
  | o :: ops =>
      '(a, t) ← step fuel t o;
      match t with
      | None => Some (StoppedAt [a])
      | Some t => e ← run fuel t ops; Some (match e with Finished l t => Finished (a :: l) t | StoppedAt l => StoppedAt (a :: l) end)
      end
  end.

(** The same on the columns; [None]: indices that do not increase, or a row that does
    not fit its offsets. *)
Definition spec_step (C : columns) (o : op) : option (answer * columns) :=
  match o with
  | OGet s len q => Some (AValue (answer_of q <$> C !! bytes mem s (Z.to_nat len)), C)
  | OPut s len _ val_ =>
      let K := bytes mem s (Z.to_nat len) in
      str ← serial_changeset val_; ch ← changes str;
      let cs := changed (default [] (C !! K)) ch in
      if decide (in_order 0 ch /\ fits osize cs) then Some (AResult (if has_key (C !! K) then Updated else Inserted), <[K := cs]> C) else None
  | OReplace s len _ val_ => if decide (fits osize [val_]) then Some (AReplaced, <[bytes mem s (Z.to_nat len) := [val_]]> C) else None
  | ORemove s len _ => let K := bytes mem s (Z.to_nat len) in Some (ARemoved (has_key (C !! K)), delete K C)
  end.
Fixpoint spec_run (C : columns) (ops : list op) : option (list answer * columns) :=
  match ops with
  | [] => Some ([], C)
  | o :: ops => '(a, C) ← spec_step C o; '(l, C) ← spec_run C ops; Some (a :: l, C)
  end.

Definition key_of (o : op) : Z * Z := match o with OGet s len _ | OPut s len _ _ | OReplace s len _ _ | ORemove s len _ => (s, len) end.
Definition node_ts_of (o : op) : Z := match o with OGet _ _ _ => 0 | OPut _ _ n _ | OReplace _ _ n _ | ORemove _ _ n => n end.
(** The key is in memory, the timestamp of the leaf is not a marker's. *)
Definition op_in (fuel D : nat) (o : op) : Prop :=
  let '(s, len) := key_of o in 0 <= len /\ s + len <= bag_ /\ (D + Z.to_nat len < fuel)%nat /\ good_ts (node_ts_of o).

Lemma step_ok top D t C o a C' fuel : holds top D t C -> op_in fuel (S D) o -> spec_step C o = Some (a, C') ->
  exists r, step fuel t o = Some (a, r) /\ match r with Some t' => exists D', (D <= D' <= S D)%nat /\ holds top D' t' C' | None => a = ARemoved true end.
Proof.
  intros Hh Hin Hs. pose proof (modify.ts_width _ _ _ _ _ _ Hshape) as Hw. assert (3 <= width <= 15) as Hw3 by lia. destruct o as [s len q|s len nts v|s len nts v|s len nts]; cbn [spec_step step op_in key_of node_ts_of] in *; destruct Hin as (Hlen & Hb & Hf & Hn).
  - injection Hs as <- <-. rewrite (get_ok top D t C s len q fuel Hw3 Hh Hlen ltac:(lia)). cbn [mbind option_bind]. eexists. split; [reflexivity|]. exists D. split; [lia|exact Hh].
  - destruct (serial_changeset v) as [str|] eqn:Es; [cbn [mbind option_bind] in Hs|discriminate]. destruct (changes str) as [ch|] eqn:Ec; [cbn [mbind option_bind] in Hs|discriminate].
    destruct (decide _) as [[Ho Hfit]|]; [|discriminate]. injection Hs as <- <-.
    destruct (put_ok top D t C s len nts v str ch fuel Hh Hlen Hb ltac:(lia) Hn Es Ec Ho Hfit) as (t' & -> & Hh'). cbn [mbind option_bind]. eexists. split; [reflexivity|]. exists (S D). split; [lia|exact Hh'].
  - destruct (decide _) as [Hfit|]; [|discriminate]. injection Hs as <- <-.
    destruct (replace_ok top D t C s len nts v fuel Hh Hlen Hb ltac:(lia) Hn Hfit) as (t' & -> & Hh'). cbn [mbind option_bind]. eexists. split; [reflexivity|]. exists (S D). split; [lia|exact Hh'].
  - injection Hs as <- <-. destruct (remove_ok top D t C s len nts fuel Hw3 Hh Hlen ltac:(lia)) as (r & -> & Hr). cbn [mbind option_bind]. destruct r as [b n' t'|q'].
    + destruct Hr as [-> Hr]. eexists. split; [reflexivity|]. exists D. split; [lia|exact Hr].
    + rewrite Hr. eexists. split; [reflexivity|]. reflexivity.
Qed.

Lemma run_ok top fuel ops : forall D t C l C', holds top D t C -> Forall (op_in fuel (D + length ops)) ops -> spec_run C ops = Some (l, C') ->
  exists e, run fuel t ops = Some e /\
    match e with
    | Finished l' t' => l' = l /\ exists D', (D' <= D + length ops)%nat /\ holds top D' t' C'
    | StoppedAt l' => l' `prefix_of` l /\ last l' = Some (ARemoved true)
    end.
Proof.
  induction ops as [|o ops IH]; intros D t C l C' Hh Hin Hs; cbn [spec_run run] in *.
  - injection Hs as <- <-. eexists. split; [reflexivity|]. split; [reflexivity|]. exists D. split; [lia|exact Hh].
  - apply Forall_cons in Hin as [Ho Hin]. cbn [length] in *. destruct (spec_step C o) as [[a C1]|] eqn:E1; [cbn [mbind option_bind] in Hs|discriminate].
    destruct (spec_run C1 ops) as [[l1 C2]|] eqn:E2; [cbn [mbind option_bind] in Hs|discriminate]. injection Hs as <- <-.
    destruct (step_ok top D t C o a C1 fuel Hh) as (r & -> & Hr); [|exact E1|].
    { unfold op_in in *. destruct (key_of o). intuition lia. }
    cbn [mbind option_bind]. destruct r as [t1|].
    + destruct Hr as (D1 & HD1 & Hh1). destruct (IH D1 t1 C1 l1 C2 Hh1) as (e & -> & He); [|exact E2|].
      { eapply Forall_impl; [exact Hin|]. intros x Hx. unfold op_in in *. destruct (key_of x). intuition lia. }
      cbn [mbind option_bind]. eexists. split; [reflexivity|]. destruct e as [l' t'|l'].
      * destruct He as (-> & D' & HD' & Hh'). split; [reflexivity|]. exists D'. split; [lia|exact Hh'].
      * destruct He as [Hp Hl]. split; [apply prefix_cons, Hp|]. destruct l'; [discriminate|exact Hl].
    + subst a. eexists. split; [reflexivity|]. split; [apply prefix_cons, prefix_nil|reflexivity].
Qed.

Lemma new_holds : holds (alloc ∅) 0 (new_table width nv alloc new_slots) ∅.
Proof.
  exists ∅. split; [exact (initialize_represents width w nv alloc new_slots new_ikeys new_children Hshape)|]. split.
  - intros k. rewrite !lookup_empty. exact I.
  - intros k k' p H. rewrite lookup_empty in H. discriminate.
  - intros p H. inversion H.
  - constructor.
  - split; [split; [discriminate|reflexivity]|reflexivity].
Qed.
End Insert.
End Spec.

(** C26: the store is a map from keys to columns.  For every sequence of gets, puts,
    replaces and removes on a new table in which the change sets have increasing
    indices and the rows fit their offset type ([spec_run] answers no other), the
    queries return: rows
    are made inside of their memory, the tree is split and layered as needed, and
    every answer is the map's: the column or the encoded row of a get, whether a put
    inserted or updated, whether a key was removed.  Afterwards every key has a row
    with its columns, no key shares its row, no row that a key has is waiting to be
    freed and none is waiting twice.  The first removal that empties a leaf with a
    left neighbour ends the model early, with the answers so far, as unlinking the
    leaf is not modelled.  The timestamps of the leaves are arguments. *)
Theorem query_store (osize : nat) (allocate : nat -> list byte) (place : gmap Z row -> Z) (width : Z) (w : nat) (nv : nodeversion_parameters) `{!NvLayout nv} (binary : bool) (mem : memory)
    (bag_ : Z) (alloc : tree.heap -> nat) (new_slots : list leaf.slot) (new_ikeys : list Z) (new_children : list internode.ptr) (ops : list op) (fuel : nat) (answers : list answer) (C : columns) :
  (0 < osize < 8)%nat -> (forall n, length (allocate n) = n) -> (forall h, h !! place h = None) -> tree_shape width w alloc new_slots new_ikeys new_children ->
  Forall (op_in bag_ fuel (length ops)) ops -> spec_run osize mem ∅ ops = Some (answers, C) ->
  exists e, run osize allocate place width w nv binary mem bag_ alloc new_slots new_ikeys new_children fuel (new_table width nv alloc new_slots) ops = Some e /\
    match e with
    | Finished l t => l = answers /\ exists D, (D <= length ops)%nat /\ holds osize width w nv (alloc ∅) D t C
    | StoppedAt l => l `prefix_of` answers /\ last l = Some (ARemoved true)
    end.
Proof.
  intros Ho Ha Hp Hsh Hin Hs.
  exact (run_ok osize allocate place Ho Ha Hp width w nv binary mem bag_ alloc new_slots new_ikeys new_children Hsh (alloc ∅) fuel ops 0 _ ∅ answers C (new_holds osize width w nv alloc new_slots new_ikeys new_children Hsh) Hin Hs).
Qed.

(** ** Timestamps of rows *)

Lemma less_small a b : 0 <= a < 2 ^ 63 -> 0 <= b < 2 ^ 63 -> circular_int.less 64 a b = (a <? b).
Proof. intros Ha Hb. rewrite <- (circular_int.less_window 64 ltac:(lia) a b) by lia. unfold circular_int.make, circular_int.value_type. rewrite !Z.mod_small by lia. reflexivity. Qed.
Lemma less_equal_small a b : 0 <= a < 2 ^ 63 -> 0 <= b < 2 ^ 63 -> circular_int.less_equal 64 a b = (a <=? b).
Proof.
  intros Ha Hb. unfold circular_int.less_equal. rewrite circular_int.difference_small by lia. lia.
Qed.
Lemma update_small x ti : 0 <= x < 2 ^ 62 -> 0 <= ts_ ti < 2 ^ 62 -> x < ts_ (update_timestamp x ti) <= 2 ^ 62 + 1 .
Proof.
  intros Hx Ht. unfold update_timestamp. rewrite less_equal_small by lia. destruct (Z.leb_spec (ts_ ti) x); [|lia]. cbn [set_ts ts_]. unfold marker_safe. rewrite lor_one by lia.
  destruct (Z.even x); rewrite u64_id by (unfold is_u64; lia); lia.
Qed.

(** A new row has the timestamp it was asked for. *)
Lemma update_stamp osize allocate r ch ts r' : bag.update osize allocate r ch ts = Some r' -> bag.ts_ r' = ts.
Proof. unfold bag.update, mbind, option_bind. intros H. repeat case_match; simplify_eq; reflexivity. Qed.
Lemma create1_stamp osize allocate str ts r' : bag.create1 osize allocate str ts = Some r' -> bag.ts_ r' = ts.
Proof. unfold bag.create1, mbind, option_bind. intros H. repeat case_match; simplify_eq; reflexivity. Qed.

Section Stamps.
Context (osize : nat) (allocate : nat -> list byte) (place : gmap Z row -> Z) (ti : threadinfo) (v : Z) (old : row).
Hypothesis Hplace : forall h, h !! place h = None.
Hypothesis Hti : good_ts (ts_ ti).
Hypothesis Hv : rows ti !! v = Some old.
Hypothesis Hold : is_u64 (bag.ts_ old).

Definition later_row (p : Z) (ti' : threadinfo) : Prop :=
  exists new, rows ti' !! p = Some new /\ good_ts (bag.ts_ new) /\ circular_int.less 64 (bag.ts_ old) (bag.ts_ new) = true.

(** The row [r] made with the thread's new timestamp. *)
Lemma later_new r h : rows h = rows ti -> bag.ts_ r = ts_ (update_timestamp (bag.ts_ old) ti) -> forall ts l, later_row (place (rows h)) (mkTi ts (<[place (rows h) := r]> (rows h)) l).
Proof.
  intros Eh Er ts l. exists r. cbn [rows]. rewrite lookup_insert_eq, Er. split; [reflexivity|]. destruct (update_later _ _ Hold Hti). auto.
Qed.
Lemma put_later val_ p r ti' : apply_put osize allocate place val_ true v ti = Some (p, r, ti') -> later_row p ti'.
Proof.
  unfold apply_put. cbn [negb]. destruct (serial_changeset val_) as [str|]; [cbn [mbind option_bind]|discriminate]. destruct (changes str) as [ch|]; [cbn [mbind option_bind]|discriminate].
  rewrite Hv. cbn [mbind option_bind]. destruct (update_fields (bag.ts_ old) ti) as [Er1 El1]. pose proof (later_new) as Hnew. set (ti1 := update_timestamp (bag.ts_ old) ti) in *. destruct (row_is_marker old).
  - unfold bag.create. destruct (bag.update osize allocate _ ch _) as [r'|] eqn:Eu; [cbn [mbind option_bind]|discriminate]. apply update_stamp in Eu. unfold new_row. intros [= <- _ <-]. apply (Hnew r' (deallocate_rcu v ti1)); assumption.
  - destruct (bag.update osize allocate old ch _) as [r'|] eqn:Eu; [cbn [mbind option_bind]|discriminate]. apply update_stamp in Eu. unfold new_row. destruct (Z.eqb_spec (place (rows ti1)) v) as [E|_].
    + exfalso. rewrite <- E, <- Er1, Hplace in Hv. discriminate.
    + cbn [negb]. intros [= <- _ <-]. unfold deallocate_rcu. cbn [rows ts_ limbo]. apply Hnew; assumption.
Qed.
Lemma replace_later val_ p ti' : apply_replace osize allocate place val_ true v ti = Some (p, ti') -> later_row p ti'.
Proof.
  unfold apply_replace. cbn [negb]. rewrite Hv. cbn [mbind option_bind]. destruct (update_fields (bag.ts_ old) ti) as [Er1 El1]. pose proof (later_new) as Hnew. set (ti1 := update_timestamp (bag.ts_ old) ti) in *.
  destruct (bag.create1 osize allocate val_ _) as [r'|] eqn:Eu; [cbn [mbind option_bind]|discriminate]. apply create1_stamp in Eu. unfold new_row. intros [= <- <-]. apply (Hnew r' (deallocate_rcu v ti1)); assumption.
Qed.
(** The timestamp a removal leaves the leaf. *)
Lemma remove_stamp node_ts : bag.ts_ old < 2 ^ 62 -> ts_ ti < 2 ^ 62 -> 0 <= node_ts < 2 ^ 62 ->
  exists node_ts' ti', apply_remove true v node_ts ti = Some (true, node_ts', ti') /\ bag.ts_ old < node_ts' < 2 ^ 63 /\ node_ts <= node_ts' /\ limbo ti' = v :: limbo ti.
Proof.
  intros Ho Ht Hn. destruct Hti as [[H0 _] _]. pose proof (update_small (bag.ts_ old) ti ltac:(unfold is_u64 in Hold; lia) ltac:(lia)) as Hu. unfold apply_remove. cbn [negb]. rewrite Hv. cbn [mbind option_bind].
  destruct (update_fields (bag.ts_ old) ti) as [_ El]. set (ti1 := update_timestamp (bag.ts_ old) ti) in *. assert (0 <= bag.ts_ old) by (unfold is_u64 in Hold; lia). do 2 eexists. split; [reflexivity|]. rewrite less_equal_small by lia.
  cbn [limbo deallocate_rcu]. rewrite El. destruct (Z.leb_spec node_ts (ts_ ti1)); [rewrite u64_id by (unfold is_u64; lia)|]; (split; [lia|]; split; [lia|reflexivity]).
Qed.
End Stamps.

(** The row made for a key that has none, by a thread [ti2] that advances its clock
    to the leaf's timestamp first, as put and replace do. *)
Definition row_of (p : Z) (ti' : threadinfo) (ts : Z) : Prop := exists new, rows ti' !! p = Some new /\ ts < bag.ts_ new.

Lemma advance_reaches nts ti2 : 0 <= nts < 2 ^ 63 -> 0 <= ts_ ti2 < 2 ^ 63 -> nts <= ts_ (advance_timestamp nts ti2).
Proof. intros Hn Ht. unfold advance_timestamp. rewrite less_small by lia. destruct (Z.ltb_spec (ts_ ti2) nts); cbn [set_ts ts_]; lia. Qed.
Lemma put_new osize allocate place val_ x ti p r ti' : apply_put osize allocate place val_ false x ti = Some (p, r, ti') ->
  r = Inserted /\ exists new, rows ti' !! p = Some new /\ bag.ts_ new = ts_ ti.
Proof.
  unfold apply_put. cbn [negb]. destruct (serial_changeset val_) as [str|]; [cbn [mbind option_bind]|discriminate]. destruct (changes str) as [ch|]; [cbn [mbind option_bind]|discriminate].
  unfold bag.create. destruct (bag.update osize allocate _ ch _) as [r'|] eqn:Eu; [cbn [mbind option_bind]|discriminate]. apply update_stamp in Eu. unfold new_row. intros [= <- <- <-].
  split; [reflexivity|]. exists r'. cbn [rows]. rewrite lookup_insert_eq. auto.
Qed.
Lemma replace_new osize allocate place val_ x ti p ti' : apply_replace osize allocate place val_ false x ti = Some (p, ti') ->
  exists new, rows ti' !! p = Some new /\ bag.ts_ new = ts_ ti.
Proof.
  unfold apply_replace. cbn [negb mbind option_bind]. destruct (bag.create1 osize allocate val_ _) as [r'|] eqn:Eu; [cbn [mbind option_bind]|discriminate]. apply create1_stamp in Eu.
  unfold new_row. intros [= <- <-]. exists r'. cbn [rows]. rewrite lookup_insert_eq. auto.
Qed.

(** C27: timestamps grow.  A row that a put or a replace makes for a key that has one
    has a later timestamp than the old row, in the circular order and across
    wrap-arounds, and never that of a marker, also where the old row is a marker.
    For clocks below 2^62: a removal leaves a leaf timestamp [node_ts'] that is later
    than the removed row's and no earlier than the leaf's was; a put or a replace of a
    key without a row, by any thread, that first advances its clock to a leaf
    timestamp no earlier than [node_ts'] makes a row later than the removed one.  The
    leaf timestamp is an argument of the queries: that a leaf hands its own on when it
    is split or unlinked is outside of the model. *)
Theorem row_timestamps (osize : nat) (allocate : nat -> list byte) (place : gmap Z row -> Z) (ti : threadinfo) (v : Z) (old : row) :
  (forall h, h !! place h = None) -> good_ts (ts_ ti) -> rows ti !! v = Some old -> is_u64 (bag.ts_ old) ->
  (forall val_ p r ti', apply_put osize allocate place val_ true v ti = Some (p, r, ti') -> later_row old p ti') /\
  (forall val_ p ti', apply_replace osize allocate place val_ true v ti = Some (p, ti') -> later_row old p ti') /\
  (forall node_ts, bag.ts_ old < 2 ^ 62 -> ts_ ti < 2 ^ 62 -> 0 <= node_ts < 2 ^ 62 ->
     exists node_ts' ti', apply_remove true v node_ts ti = Some (true, node_ts', ti') /\
       bag.ts_ old < node_ts' /\ node_ts <= node_ts' /\ limbo ti' = v :: limbo ti /\
       forall nts ti2, node_ts' <= nts < 2 ^ 63 -> 0 <= ts_ ti2 < 2 ^ 63 ->
         (forall val_ x p r ti3, apply_put osize allocate place val_ false x (advance_timestamp nts ti2) = Some (p, r, ti3) ->
            r = Inserted /\ row_of p ti3 (bag.ts_ old)) /\
         (forall val_ x p ti3, apply_replace osize allocate place val_ false x (advance_timestamp nts ti2) = Some (p, ti3) ->
            row_of p ti3 (bag.ts_ old))).
Proof.
  intros Hp Hti Hv Ho. split; [intros; eapply put_later; eassumption|]. split; [intros; eapply replace_later; eassumption|].
  intros node_ts H1 H2 H3. destruct (remove_stamp ti v old Hti Hv Ho node_ts H1 H2 H3) as (node_ts' & ti' & E & Hlt & Hle & Hl). exists node_ts', ti'.
  split; [exact E|]. split; [apply Hlt|]. split; [exact Hle|]. split; [exact Hl|]. intros nts ti2 Hn Ht2. destruct Ho as [Ho _].
  pose proof (advance_reaches nts ti2 ltac:(lia) Ht2) as Ha. split.
  - intros val_ x p r ti3 Hput. destruct (put_new _ _ _ _ _ _ _ _ _ Hput) as (-> & new & Hnew & Et). split; [reflexivity|]. exists new. split; [exact Hnew|lia].
  - intros val_ x p ti3 Hrep. destruct (replace_new _ _ _ _ _ _ _ _ Hrep) as (new & Hnew & Et). exists new. split; [exact Hnew|lia].
Qed.

(** ** Runs *)

Definition example_place (h : gmap Z row) : Z := fresh (dom h : gset Z).
Definition abc : list byte := [x61; x62; x63].
Definition example_put (l : list change) : list byte := concat (changeset.written <$> l).
(** Columns are put, changed and added; one value is replaced, one key removed and put back. *)
Definition example_queries : list op :=
  [OPut 0 12 0 (example_put [changeset.mkChange 0 abc; changeset.mkChange 2 [x78]]); OReplace 3 20 0 abc;
   OPut 0 12 0 (example_put [changeset.mkChange 1 [x79; x7a]]); OGet 0 12 (Get [2; 1; 5]); OGet 0 12 (Get1 0%nat); OGet 3 20 (Get []);
   ORemove 3 20 0; OGet 3 20 (Get1 0%nat); OReplace 3 20 6 [x7a]; OGet 3 20 (Get1 0%nat); ORemove 5 5 0].
Definition example_answers : list answer :=
  [AResult Inserted; AReplaced; AResult Updated;
   AValue (Some (kvw_short 3 ++ kvw_str [x78] ++ kvw_str [x79; x7a] ++ kvw_str [])); AValue (Some abc); AValue (Some (kvw_short 1 ++ kvw_str abc));
   ARemoved true; AValue None; AReplaced; AValue (Some [x7a]); ARemoved false].
Abbreviation example_run := (run 2 bag.example_memory example_place 15 15 nodeversion32_parameters true leaf.example_mem 1000 example_alloc example_slots example_ikeys example_children 60
  (new_table 15 nodeversion32_parameters example_alloc example_slots)).

Lemma example_place_fresh (h : gmap Z row) : h !! example_place h = None.
Proof. unfold example_place. apply (not_elem_of_dom (D := gset Z)), is_fresh. Qed.

Lemma query_store_witness : exists t C D, example_run example_queries = Some (Finished example_answers t) /\
  holds 2 15 15 nodeversion32_parameters (example_alloc ∅) D t C /\ C !! bytes leaf.example_mem 3 20 = Some [[x7a]].
Proof.
  assert (Es : (l ← spec_run 2 leaf.example_mem ∅ example_queries; Some (l.1, l.2 !! bytes leaf.example_mem 3 20)) = Some (example_answers, Some [[x7a]])) by (vm_compute; reflexivity).
  destruct (spec_run 2 leaf.example_mem ∅ example_queries) as [[l C]|] eqn:E; [|discriminate]. cbn [mbind option_bind fst snd] in Es. injection Es as -> EC.
  destruct (query_store 2 bag.example_memory example_place 15 15 nodeversion32_parameters true leaf.example_mem 1000 example_alloc example_slots example_ikeys example_children example_queries 60
    example_answers C) as (e & Er & He); [lia|intros n; apply length_replicate|apply example_place_fresh|apply example_shape| |exact E|].
  { repeat constructor; cbn; (lia || discriminate || reflexivity). }
  assert (Hend : (e ← example_run example_queries; match e with Finished _ _ => Some true | _ => None end) = Some true) by (vm_compute; reflexivity).
  rewrite Er in Hend. cbn [mbind option_bind] in Hend. destruct e as [l' t|]; [|discriminate]. destruct He as (-> & D & _ & Hh). exists t, C, D. auto.
Defined.

(** A row that was updated, whose key is then removed. *)
Definition example_thread : threadinfo := mkTi 2 {[8 := mkRow 6 (row_image 2 [abc])]} [].
Lemma row_timestamps_witness :
  (exists p r ti', apply_put 2 bag.example_memory example_place (example_put [changeset.mkChange 1 abc]) true 8 example_thread = Some (p, r, ti') /\ ts_ ti' = 8 /\ later_row (mkRow 6 (row_image 2 [abc])) p ti') /\
  exists ti', apply_remove true 8 0 example_thread = Some (true, 10, ti') /\
  exists p ti3, apply_replace 2 bag.example_memory example_place abc false 0 (advance_timestamp 10 new_thread) = Some (p, ti3) /\ row_of p ti3 6.
Proof.
  destruct (row_timestamps 2 bag.example_memory example_place example_thread 8 (mkRow 6 (row_image 2 [abc]))) as (Hput & _ & Hrem);
    [apply example_place_fresh|split; [split; [discriminate|reflexivity]|reflexivity]|reflexivity|split; [discriminate|reflexivity]|]. split.
  - assert (E : (x ← apply_put 2 bag.example_memory example_place (example_put [changeset.mkChange 1 abc]) true 8 example_thread; Some (ts_ x.2)) = Some 8) by (vm_compute; reflexivity).
    destruct (apply_put 2 _ _ _ true 8 example_thread) as [[[p r] ti']|] eqn:Ea; [|discriminate]. injection E as E. exists p, r, ti'. split; [reflexivity|]. split; [exact E|]. eapply Hput, Ea.
  - destruct (Hrem 0 ltac:(cbn; lia) ltac:(cbn; lia) ltac:(lia)) as (nts & ti' & E & _ & _ & _ & Hnew).
    assert (En : (x ← apply_remove true 8 0 example_thread; Some x.1.2) = Some 10) by (vm_compute; reflexivity). rewrite E in En. injection En as ->. exists ti'. split; [exact E|].
    destruct (Hnew 10 new_thread ltac:(lia) ltac:(cbn; lia)) as [_ Hr].
    assert (Es : is_Some (apply_replace 2 bag.example_memory example_place abc false 0 (advance_timestamp 10 new_thread))) by (vm_compute; eexists; reflexivity).
    destruct (apply_replace 2 bag.example_memory example_place abc false 0 (advance_timestamp 10 new_thread)) as [[p ti3]|] eqn:Er; [|destruct Es; discriminate].
    exists p, ti3. split; [reflexivity|]. exact (Hr abc 0 p ti3 Er).
Defined.

(** The request of put_col: the row has no columns. *)
Example put_col_run :
  (e ← example_run [OPut 0 12 0 (changeset.make_put_col_request 0 abc); OGet 0 12 (Get1 0%nat); OGet 0 12 (Get [])]; match e with Finished l _ => Some l | _ => None end) =
  Some [AResult Inserted; AValue (Some []); AValue (Some (kvw_short 0))].
Proof. vm_compute. reflexivity. Qed.
End querySpec.
