(* ===== verification/Mycsba.v ===== *)
(** * The Masstree benchmark (src/masstree/kvrandom.hh, mttest.hh, kvclient.cc,
    kvtest_mycsba of kvtest.hh)

    The server fills the store with generated keys and values; the client sends
    batches of gets and puts drawn from the same generator with the same seed.
    Characters are written into fixed buffers ([None]: past the end), batches are
    arrays of structs in memory, and the store is an interface. *)

From S2P Require Import Prelude Msgs.

Open Scope Z_scope.

(** ** Random numbers (kvrandom_lcg_nr) *)

Module kvrandom.

Definition reset (seed : Z) : Z := u32 seed.
(** kvrandom_lcg_nr_simple::next, which is also the new seed. *)
Definition simple_next (seed_ : Z) : Z := u32 (seed_ * 1664525 + 1013904223).
(** The value and the new seed. *)
Definition next (seed_ : Z) : Z * Z :=
  let x0 := simple_next seed_ in
  let x1 := simple_next x0 in
  (i32 (Z.lor (Z.shiftr x0 15) (u32 (Z.shiftl (Z.land x1 0x7FFE) 16))), x1).

End kvrandom.

(** ** Requests (mttest.hh) *)

Definition mycsbaAggrFactor : nat := 256.
Definition mycsbaSeed : Z := 3242323423.
Definition mycsbaKeySize : nat := 4 + 18 + 1.
Definition mycsbaValSize : nat := 12.

Definition GET : Z := 0.
Definition PUT : Z := 1.

Record KvRequest := mkReq { type : Z; key : list byte; val : list byte }.

(** A four-byte enum, the two arrays and a byte of padding. *)
Definition sizeof_KvRequest : nat := 40.
Definition request_image (pad : byte) (r : KvRequest) : list byte := le_bytes 4 (type r) ++ key r ++ val r ++ [pad].

(** [sprintf(val, "%d", value)]. *)
Fixpoint dec_digits (fuel : nat) (z : Z) : list byte :=
  match fuel with
  | O => []
  | S f => if z <? 10 then [byte_of_Z (48 + z)] else dec_digits f (z / 10) ++ [byte_of_Z (48 + z mod 10)]
  end.
Definition int_text (z : Z) : list byte := if z <? 0 then x2d :: dec_digits 10 (- z) else dec_digits 10 z.

(** "user" *)
Definition user_text : list byte := [x75; x73; x65; x72].

(** [for (int i = 0; i < 18; ++i, ++p) key[p] = '0' + (rand.next() % 10);] *)
Fixpoint gen_digits (n p : nat) (key : list byte) (rand : Z) : option (list byte * nat * Z) :=
  match n with
  | O => Some (key, p, rand)
  | S n' =>
      let '(v, rand) := kvrandom.next rand in
      key ← poke key p (byte_of_Z (48 + Z.rem v 10));
      gen_digits n' (S p) key rand
  end.

Definition genKeyVal (rand : Z) (key val : list byte) : option (list byte * list byte * Z) :=
  key ← splice key 0 (user_text ++ [x00]);
  '(key, p, rand) ← gen_digits 18 4 key rand;
  key ← poke key p x00;
  let '(value, rand) := kvrandom.next rand in
  val ← splice val 0 (int_text value ++ [x00]);
  Some (key, val, rand).

(** [Str(s, strlen(s))]: the bytes before the first null. *)
Fixpoint c_string (buf : list byte) : option (list byte) :=
  match buf with
  | [] => None
  | b :: buf' => if decide (b = x00) then Some [] else s ← c_string buf'; Some (b :: s)
  end.

(** ** The client (kvclient.cc) *)

(** [for (int n = 0; n < mycsbaDbSize; ++n)], [cnt] turns from [n] on, reusing one
    request object. *)
Fixpoint gen_reqs (cnt : nat) (n : Z) (rand : Z) (req : KvRequest) : option (list KvRequest) :=
  match cnt with
  | O => Some []
  | S cnt' =>
      '(k, v, rand) ← genKeyVal rand (key req) (val req);
      let req := mkReq (if Z.rem n 2 =? 0 then GET else PUT) k v in
      rest ← gen_reqs cnt' (n + 1) rand req;
      Some (req :: rest)
  end.

(** Client::Client; [req] is the uninitialised local. *)
Definition new_KvClient (mycsbaDbSize : nat) (req : KvRequest) : option (list KvRequest) :=
  gen_reqs mycsbaDbSize 0 (kvrandom.reset mycsbaSeed) req.

(** Client::getReq: the request at the cursor, and the cursor after it. *)
Definition getReq (reqs : list KvRequest) (cur : nat) : option (KvRequest * nat) :=
  req ← reqs !! cur;
  let cur := S cur in
  Some (req, if decide (cur = length reqs) then 0%nat else cur).

(** [for (int i = 0; i < mycsbaAggrFactor; ++i)] of tBenchClientGenReq. *)
Fixpoint gen_batch (cnt : nat) (pad : byte) (reqs : list KvRequest) (cur : nat) : option (list byte * nat) :=
  match cnt with
  | O => Some ([], cur)
  | S cnt' =>
      '(req, cur) ← getReq reqs cur;
      '(bs, cur) ← gen_batch cnt' pad reqs cur;
      Some (request_image pad req ++ bs, cur)
  end.

(** The bytes written to [data], the length returned and the cursor. *)
Definition genReq (pad : byte) (reqs : list KvRequest) (cur : nat) : option (list byte * Z * nat) :=
  '(bs, cur) ← gen_batch mycsbaAggrFactor pad reqs cur;
  Some (bs, Z.of_nat mycsbaAggrFactor * Z.of_nat sizeof_KvRequest, cur).

(** ** The server (kvtest_mycsba) *)

(** What the benchmark asks of the store. *)
Class KvStore (S : Type) := {
  kv_put : list byte -> list byte -> S -> S;
  kv_get : list byte -> S -> option (list byte)
}.
(** What it may rely on, for stores in a good state and values of its size. *)
Class KvLaws (S : Type) `{KvStore S} := {
  kv_ok : S -> Prop;
  kv_ok_put k v s : kv_ok s -> (length v < mycsbaValSize)%nat -> kv_ok (kv_put k v s);
  kv_get_put k v s : kv_ok s -> (length v < mycsbaValSize)%nat -> kv_get k (kv_put k v s) = Some v;
  kv_get_put_ne k k' v s : kv_ok s -> (length v < mycsbaValSize)%nat -> k <> k' -> kv_get k' (kv_put k v s) = kv_get k' s
}.

Section Server.
Context {S : Type} `{KvStore S}.

(** Populate: [cnt] turns; [key] and [val] are the local buffers. *)
Fixpoint populate (cnt : nat) (rand : Z) (key val : list byte) (db : S) : option S :=
  match cnt with
  | O => Some db
  | Datatypes.S cnt' =>
      key ← splice key 0 (user_text ++ [x00]);
      '(key, p, rand) ← gen_digits 18 4 key rand;
      key ← poke key p x00;
      let '(v, rand) := kvrandom.next rand in
      val ← splice val 0 (int_text v ++ [x00]);
      k ← c_string key;
      v ← c_string val;
      populate cnt' rand key val (kv_put k v db)
  end.

(** [&req[op]] in the received bytes. *)
Definition request_at (data : list byte) (op : nat) : KvRequest :=
  let bs := take sizeof_KvRequest (drop (op * sizeof_KvRequest) data) in
  mkReq (le_value (take 4 bs)) (take mycsbaKeySize (drop 4 bs)) (take mycsbaValSize (drop (4 + mycsbaKeySize) bs)).

(** What a request did: a get with its result, or a put. *)
Inductive op_result := Got (k : list byte) (r : option (list byte)) | Done (k v : list byte).

(** [for (int op = 0; ...)]: [cnt] operations from [op] on. *)
Fixpoint serve_ops (cnt op : nat) (data : list byte) : M S (list op_result) :=
  match cnt with
  | O => mret []
  | Datatypes.S cnt' =>
      let cur := request_at data op in
      r ← (if type cur =? GET then
             match c_string (key cur) with
             | None => undefined
             | Some k => db ← get; mret (Got k (kv_get k db))
             end
           else if type cur =? PUT then
             match c_string (key cur), c_string (val cur) with
             | Some k, Some v => modify (kv_put k v) ;; mret (Done k v)
             | _, _ => undefined
             end
           else exit_ (-1));
      rs ← serve_ops cnt' (Datatypes.S op) data;
      mret (r :: rs)
  end.

(** One turn of [while (true)] on a received request. *)
Definition serve_batch (data : list byte) (len : Z) : M S (list op_result) :=
  assert_ (len =? Z.of_nat sizeof_KvRequest * Z.of_nat mycsbaAggrFactor) ;;
  serve_ops mycsbaAggrFactor 0 data.

End Server.

(** ** What the generator produces *)

Lemma lor_range a b k : 0 <= k -> 0 <= a < 2 ^ k -> 0 <= b < 2 ^ k -> 0 <= Z.lor a b < 2 ^ k.
Proof.
  intros Hk Ha Hb. split; [apply Z.lor_nonneg; lia|].
  replace (Z.lor a b) with (Z.lor a b mod 2 ^ k); [apply Z.mod_pos_bound; lia|].
  apply Z.bits_inj'. intros i Hi. destruct (Z.lt_ge_cases i k).
  - rewrite Z.mod_pow2_bits_low by lia. reflexivity.
  - rewrite Z.mod_pow2_bits_high, Z.lor_spec by lia. rewrite <- (Z.mod_small a (2 ^ k)), <- (Z.mod_small b (2 ^ k)) by lia.
    rewrite !Z.mod_pow2_bits_high by lia. reflexivity.
Qed.

Lemma next_range rand : 0 <= (kvrandom.next rand).1 < 2 ^ 31.
Proof.
  unfold kvrandom.next. cbn [fst]. set (x0 := kvrandom.simple_next rand). set (x1 := kvrandom.simple_next x0).
  assert (H0 : 0 <= x0 < 2 ^ 32) by apply u32_range.
  assert (H1 : 0 <= Z.land x1 0x7FFE < 2 ^ 15).
  { rewrite Z.land_comm. split; [apply Z.land_nonneg; lia|].
    replace (Z.land 0x7FFE x1) with (Z.land 0x7FFE x1 mod 2 ^ 15); [apply Z.mod_pos_bound; lia|].
    rewrite <- Z.land_ones by lia. rewrite (Z.land_comm 0x7FFE x1), <- Z.land_assoc. f_equal. }
  assert (H : 0 <= Z.lor (Z.shiftr x0 15) (u32 (Z.shiftl (Z.land x1 0x7FFE) 16)) < 2 ^ 31).
  { apply lor_range; [lia| |].
    - rewrite Z.shiftr_div_pow2 by lia. split; [apply Z.div_pos; lia|apply Z.div_lt_upper_bound; lia].
    - rewrite u32_id; rewrite Z.shiftl_mul_pow2 by lia; lia. }
  rewrite i32_id by (unfold is_i32; lia). exact H.
Qed.

Definition not_nul (b : byte) : Prop := b <> x00.

Lemma digit_not_nul d : 0 <= d < 10 -> not_nul (byte_of_Z (48 + d)).
Proof. intros Hd E. apply (f_equal Z_of_byte) in E. rewrite Z_of_byte_of_Z, Z.mod_small in E by lia. cbn in E. lia. Qed.

Lemma dec_digits_ok fuel z : 0 <= z < 10 ^ Z.of_nat fuel ->
  Forall not_nul (dec_digits fuel z) /\ (length (dec_digits fuel z) <= fuel)%nat.
Proof.
  revert z. induction fuel as [|f IH]; intros z Hz; [split; [constructor|cbn; lia]|]. cbn [dec_digits].
  destruct (Z.ltb_spec z 10).
  - split; [constructor; [apply digit_not_nul; lia|constructor]|cbn; lia].
  - destruct (IH (z / 10)) as [H1 H2].
    { split; [apply Z.div_pos; lia|]. apply Z.div_lt_upper_bound; [lia|]. rewrite Nat2Z.inj_succ, Z.pow_succ_r in Hz by lia. lia. }
    split; [apply Forall_app_2; [exact H1|constructor; [apply digit_not_nul, Z.mod_pos_bound; lia|constructor]]|].
    rewrite length_app. cbn [length]. lia.
Qed.
Lemma int_text_ok z : 0 <= z < 2 ^ 31 -> Forall not_nul (int_text z) /\ (length (int_text z) <= 10)%nat.
Proof.
  intros Hz. unfold int_text. destruct (Z.ltb_spec z 0); [lia|]. apply dec_digits_ok.
  split; [lia|]. apply Z.lt_trans with (2 ^ 31); [lia|reflexivity].
Qed.

Lemma c_string_app s rest : Forall not_nul s -> c_string (s ++ x00 :: rest) = Some s.
Proof.
  induction 1 as [|b s Hb Hs IH]; [reflexivity|]. cbn [app c_string]. rewrite decide_False by exact Hb. rewrite IH. reflexivity.
Qed.

Fixpoint digit_stream (n : nat) (rand : Z) : list byte * Z :=
  match n with
  | O => ([], rand)
  | S n' => let '(v, rand) := kvrandom.next rand in
            let '(ds, rand) := digit_stream n' rand in (byte_of_Z (48 + Z.rem v 10) :: ds, rand)
  end.

Lemma digit_stream_ok n rand : Forall not_nul (digit_stream n rand).1 /\ length (digit_stream n rand).1 = n.
Proof.
  revert rand. induction n as [|n IH]; intros rand; [split; [constructor|reflexivity]|]. cbn [digit_stream].
  pose proof (next_range rand) as Hv. destruct (kvrandom.next rand) as [v r1]. cbn [fst] in Hv. specialize (IH r1).
  destruct (digit_stream n r1) as [ds r2]. cbn [fst] in *. destruct IH as [H1 H2]. split; [|cbn; lia].
  constructor; [|exact H1]. apply digit_not_nul. rewrite Z.rem_mod_nonneg by lia. apply Z.mod_pos_bound. lia.
Qed.

Lemma gen_digits_ok n p k rand : (p + n <= length k)%nat ->
  gen_digits n p k rand = Some (take p k ++ (digit_stream n rand).1 ++ drop (p + n) k, (p + n)%nat, (digit_stream n rand).2).
Proof.
  revert p k rand. induction n as [|n IH]; intros p k rand Hl; cbn [gen_digits digit_stream].
  { cbn [fst snd app]. rewrite Nat.add_0_r, take_drop. reflexivity. }
  destruct (kvrandom.next rand) as [v r1]. rewrite poke_in by lia. cbn [mbind option_bind].
  rewrite IH by (rewrite length_insert; lia). destruct (digit_stream n r1) as [ds r2]. cbn [fst snd].
  rewrite drop_insert_lt by lia. replace (S p + n)%nat with (p + S n)%nat by lia. do 3 f_equal.
  rewrite (take_S_r _ _ (byte_of_Z (48 + Z.rem v 10))) by (apply list_lookup_insert_eq; lia).
  rewrite take_insert_ge by lia. rewrite <- app_assoc. reflexivity.
Qed.

(** The strings of one entry, as a function of the generator's state alone. *)
Definition gen_entry (rand : Z) : (list byte * list byte) * Z :=
  let '(ds, r1) := digit_stream 18 rand in
  let '(v, r2) := kvrandom.next r1 in
  ((user_text ++ ds, int_text v), r2).

Definition buffers_ok (k v : list byte) : Prop := length k = mycsbaKeySize /\ length v = mycsbaValSize.

(** The buffers never overflow, whatever they held before. *)
Lemma genKeyVal_ok rand k v : buffers_ok k v ->
  exists k' v', genKeyVal rand k v = Some (k', v', (gen_entry rand).2) /\ buffers_ok k' v' /\
    c_string k' = Some (gen_entry rand).1.1 /\ c_string v' = Some (gen_entry rand).1.2.
Proof.
  intros [Hk Hv]. unfold mycsbaKeySize, mycsbaValSize in *. unfold genKeyVal.
  replace (splice k 0 (user_text ++ [x00])) with (Some (user_text ++ x00 :: drop 5 k))
    by (unfold splice; rewrite decide_True by (rewrite Hk; cbn; lia); reflexivity).
  assert (Hk5 : length (drop 5 k) = 18%nat) by (rewrite length_drop; lia). set (k5 := drop 5 k) in *. clearbody k5. clear Hk.
  cbn [mbind option_bind]. rewrite gen_digits_ok by (cbn [user_text app length]; lia). cbn [mbind option_bind].
  unfold gen_entry. pose proof (digit_stream_ok 18 rand) as [Hd1 Hd2]. destruct (digit_stream 18 rand) as [ds r1]. cbn [fst snd] in *.
  replace (take 4 (user_text ++ x00 :: k5)) with user_text by reflexivity.
  replace (drop (4 + 18) (user_text ++ x00 :: k5)) with (drop 17 k5) by reflexivity.
  rewrite poke_in by (rewrite !length_app, length_drop; cbn [user_text length]; lia).
  cbn [mbind option_bind]. pose proof (next_range r1) as Hr. destruct (kvrandom.next r1) as [z r2]. cbn [fst] in Hr.
  destruct (int_text_ok z Hr) as [Ht1 Ht2]. unfold splice. rewrite decide_True by (rewrite length_app, Hv; cbn [length]; lia). cbn [mbind option_bind].
  set (k' := <[_ := x00]> _). set (v' := take 0 v ++ _). exists k', v'. split; [reflexivity|].
  assert (Ek : k' = user_text ++ ds ++ [x00]).
  { unfold k'. rewrite insert_app_r_alt by (cbn; lia). f_equal. rewrite insert_app_r_alt by (cbn [user_text length]; lia). f_equal.
    rewrite Hd2. assert (Hl : length (drop 17 k5) = 1%nat) by (rewrite length_drop; lia).
    destruct (drop 17 k5) as [|c [|? ?]]; try discriminate Hl. reflexivity. }
  assert (Ev : exists rest, v' = int_text z ++ x00 :: rest).
  { eexists. unfold v'. cbn [take app]. rewrite <- app_assoc. reflexivity. }
  split; [|split].
  - split; [rewrite Ek, !length_app, Hd2; reflexivity|]. unfold v'. cbn [take app]. rewrite !length_app, length_drop, Hv, ?length_app. cbn [length]. rewrite length_take. unfold mycsbaValSize. lia.
  - rewrite Ek, app_assoc. apply c_string_app. apply Forall_app_2; [repeat constructor; discriminate|exact Hd1].
  - destruct Ev as [rest ->]. apply c_string_app, Ht1.
Qed.

(** The first [n] entries from a state of the generator. *)
Fixpoint entries (n : nat) (rand : Z) : list (list byte * list byte) :=
  match n with
  | O => []
  | S n' => (gen_entry rand).1 :: entries n' (gen_entry rand).2
  end.
Lemma length_entries n rand : length (entries n rand) = n.
Proof. revert rand. induction n; intros rand; cbn; auto. Qed.

(** A request for an entry. *)
Definition asks (r : KvRequest) (e : list byte * list byte) : Prop :=
  (type r = GET \/ type r = PUT) /\ buffers_ok (key r) (val r) /\ c_string (key r) = Some e.1 /\ c_string (val r) = Some e.2.

Lemma gen_reqs_ok cnt n rand req : buffers_ok (key req) (val req) ->
  exists reqs, gen_reqs cnt n rand req = Some reqs /\ Forall2 asks reqs (entries cnt rand).
Proof.
  revert n rand req. induction cnt as [|cnt IH]; intros n rand req Hb; cbn [gen_reqs entries]; [eauto|].
  destruct (genKeyVal_ok rand (key req) (val req) Hb) as (k & v & -> & Hb' & Hk & Hv). cbn [mbind option_bind].
  set (r := mkReq _ k v). destruct (IH (n + 1) (gen_entry rand).2 r Hb') as (reqs & -> & Hf). cbn [mbind option_bind].
  eexists. split; [reflexivity|]. constructor; [|exact Hf]. split; [unfold r; cbn; destruct (_ =? 0); auto|]. auto.
Qed.

(** ** Batches in memory *)

Lemma getReq_ok reqs cur : (cur < length reqs)%nat ->
  exists r cur', getReq reqs cur = Some (r, cur') /\ r ∈ reqs /\ (cur' < length reqs)%nat.
Proof.
  intros Hc. unfold getReq. destruct (lookup_lt_is_Some_2 reqs cur Hc) as [r Hr]. rewrite Hr. cbn [mbind option_bind].
  eexists _, _. split; [reflexivity|]. split; [eapply list_elem_of_lookup_2, Hr|]. destruct (decide _); lia.
Qed.
Lemma gen_batch_ok cnt pad reqs cur : (cur < length reqs)%nat ->
  exists rs cur', gen_batch cnt pad reqs cur = Some (concat (request_image pad <$> rs), cur') /\
    length rs = cnt /\ Forall (fun r => r ∈ reqs) rs /\ (cur' < length reqs)%nat.
Proof.
  revert cur. induction cnt as [|cnt IH]; intros cur Hc; cbn [gen_batch].
  { exists [], cur. auto. }
  destruct (getReq_ok reqs cur Hc) as (r & c1 & -> & Hr & Hc1). cbn [mbind option_bind].
  destruct (IH c1 Hc1) as (rs & c2 & -> & Hl & Hf & Hc2). cbn [mbind option_bind].
  exists (r :: rs), c2. split; [reflexivity|]. split; [cbn; lia|]. auto.
Qed.

Definition in_bounds (r : KvRequest) : Prop := (type r = GET \/ type r = PUT) /\ buffers_ok (key r) (val r).

Lemma request_image_length pad r : in_bounds r -> length (request_image pad r) = sizeof_KvRequest.
Proof. intros [_ [Hk Hv]]. unfold request_image. rewrite !length_app, length_le_bytes, Hk, Hv. reflexivity. Qed.

Lemma request_image_load pad r rest : in_bounds r -> request_at (request_image pad r ++ rest) 0 = r.
Proof.
  intros Hb. unfold request_at. rewrite Nat.mul_0_l, drop_0, take_app_exact by (apply request_image_length, Hb).
  destruct Hb as [Ht [Hk Hv]]. destruct r as [t k v]. unfold request_image. cbn [type key val] in *.
  rewrite take_app_exact by apply length_le_bytes. rewrite drop_app_exact by apply length_le_bytes. f_equal.
  - rewrite le_value_bytes. destruct Ht as [-> | ->]; reflexivity.
  - apply take_app_exact, Hk.
  - rewrite <- drop_drop, drop_app_exact by apply length_le_bytes. rewrite drop_app_exact by exact Hk. apply take_app_exact, Hv.
Qed.

Lemma request_at_skip r1 bs op : length r1 = sizeof_KvRequest -> request_at (r1 ++ bs) (S op) = request_at bs op.
Proof.
  intros H. unfold request_at. replace (S op * sizeof_KvRequest)%nat with (length r1 + op * sizeof_KvRequest)%nat by lia.
  rewrite <- drop_drop, drop_app_length. reflexivity.
Qed.

Lemma request_at_batch pad rs op r : Forall in_bounds rs -> rs !! op = Some r ->
  request_at (concat (request_image pad <$> rs)) op = r.
Proof.
  intros Hf. revert op. induction Hf as [|r0 rs Hr Hf IH]; intros op Ho; [discriminate|]. cbn [fmap list_fmap concat].
  destruct op as [|op].
  - injection Ho as ->. apply request_image_load, Hr.
  - rewrite request_at_skip by (apply request_image_length, Hr). apply IH, Ho.
Qed.

Lemma c_string_size buf s n : length buf = n -> c_string buf = Some s -> (length s < n)%nat.
Proof.
  intros <-. revert s. induction buf as [|b buf IH]; intros s; cbn [c_string length]; [discriminate|]. destruct (decide (b = x00)); [intros [= <-]; cbn; lia|].
  destruct (c_string buf) as [s'|]; [cbn [mbind option_bind]|discriminate]. intros [= <-]. specialize (IH s' eq_refl). cbn [length]. lia.
Qed.

(** ** The server keeps the generated keys *)
Section Served.
Context {S : Type} `{L : KvLaws S}.

(** Every generated key has a value that was generated for it. *)
Definition store_ok (es : list (list byte * list byte)) (db : S) : Prop :=
  kv_ok db /\ forall e, e ∈ es -> exists v, kv_get e.1 db = Some v /\ (e.1, v) ∈ es.

Lemma store_ok_put es e db : store_ok es db -> (length e.2 < mycsbaValSize)%nat -> e ∈ es -> store_ok es (kv_put e.1 e.2 db).
Proof.
  intros [Hok Hs] Hsz He. split; [apply kv_ok_put; assumption|]. intros e' He'. destruct (decide (e.1 = e'.1)) as [E|Hn].
  - exists e.2. rewrite E, kv_get_put by assumption. split; [reflexivity|]. rewrite <- E. destruct e; exact He.
  - rewrite kv_get_put_ne by assumption. apply Hs, He'.
Qed.

Lemma store_ok_new es e db : store_ok es db -> (length e.2 < mycsbaValSize)%nat -> store_ok (es ++ [e]) (kv_put e.1 e.2 db).
Proof.
  intros [Hok Hs] Hsz. split; [apply kv_ok_put; assumption|]. intros e' He'. destruct (decide (e.1 = e'.1)) as [E|Hn].
  - exists e.2. rewrite E, kv_get_put by assumption. split; [reflexivity|]. rewrite <- E, <- surjective_pairing. set_solver.
  - rewrite kv_get_put_ne by assumption. apply elem_of_app in He' as [He'|He'].
    + destruct (Hs e' He') as (v & Hg & Hv). exists v. set_solver.
    + apply list_elem_of_singleton in He' as ->. contradiction.
Qed.

(** Populate is written out in the server, but generates as genKeyVal does. *)
Lemma populate_step cnt rand k v (db : S) :
  populate (Datatypes.S cnt) rand k v db =
  ('(k, v, rand) ← genKeyVal rand k v; ks ← c_string k; vs ← c_string v; populate cnt rand k v (kv_put ks vs db)).
Proof.
  cbn [populate]. unfold genKeyVal. destruct (splice k 0 _) as [k1|]; [|reflexivity]. cbn [mbind option_bind].
  destruct (gen_digits 18 4 k1 rand) as [[[k2 p] r]|]; [|reflexivity]. cbn [mbind option_bind].
  destruct (poke k2 p x00) as [k3|]; [|reflexivity]. cbn [mbind option_bind].
  destruct (kvrandom.next r) as [z r']. destruct (splice v 0 _) as [v1|]; reflexivity.
Qed.

Lemma populate_ok cnt rand k v db es : buffers_ok k v -> store_ok es db ->
  exists db', populate cnt rand k v db = Some db' /\ store_ok (es ++ entries cnt rand) db'.
Proof.
  revert rand k v db es. induction cnt as [|cnt IH]; intros rand k v db es Hb Hs.
  { exists db. cbn. rewrite app_nil_r. auto. }
  rewrite populate_step. cbn [entries].
  destruct (genKeyVal_ok rand k v Hb) as (k' & v' & -> & Hb' & Hk & Hv). cbn [mbind option_bind]. rewrite Hk, Hv. cbn [mbind option_bind].
  destruct (IH (gen_entry rand).2 k' v' _ (es ++ [(gen_entry rand).1]) Hb' (store_ok_new _ _ _ Hs (c_string_size _ _ _ (proj2 Hb') Hv))) as (db' & Ep & Hs').
  exists db'. split; [exact Ep|]. rewrite <- app_assoc in Hs'. exact Hs'.
Qed.

(** An operation's result concerns a generated entry; a get always finds a value. *)
Definition result_ok (es : list (list byte * list byte)) (r : op_result) : Prop :=
  match r with
  | Got k r => exists v, r = Some v /\ (k, v) ∈ es
  | Done k v => (k, v) ∈ es
  end.

Lemma serve_ops_ok es pad rs cnt op db :
  store_ok es db -> Forall (fun r => exists e, e ∈ es /\ asks r e) rs -> (op + cnt = length rs)%nat ->
  exists results db', serve_ops cnt op (concat (request_image pad <$> rs)) db = Ret results db' /\
    store_ok es db' /\ length results = cnt /\ Forall (result_ok es) results.
Proof.
  intros Hs Hf. revert op db Hs. induction cnt as [|cnt IH]; intros op db Hs Hl; cbn [serve_ops].
  { exists [], db. auto. }
  destruct (lookup_lt_is_Some_2 rs op ltac:(lia)) as [r Hr].
  assert (Hin : Forall in_bounds rs) by (eapply Forall_impl; [exact Hf|]; intros ? (e & _ & H1 & H2 & _); split; assumption).
  rewrite (request_at_batch pad rs op r Hin Hr). rewrite Forall_lookup in Hf. destruct (Hf op r Hr) as (e & He & Ht & Hbuf & Hk & Hv).
  rewrite Hk, Hv. destruct Ht as [-> | ->];
    [change (GET =? GET) with true|change (PUT =? GET) with false; change (PUT =? PUT) with true]; cbv iota.
  - destruct (IH (Datatypes.S op) db Hs ltac:(lia)) as (rs' & db' & E & Hs' & Hn & Hr').
    exists (Got e.1 (kv_get e.1 db) :: rs'), db'. split; [|split; [exact Hs'|split; [cbn; lia|]]].
    + unfold mbind, M_bind, mret, M_ret, get in *. cbv beta iota. rewrite E. reflexivity.
    + constructor; [|exact Hr']. destruct (proj2 Hs e He) as (v & Hg & Hv'). exists v. auto.
  - destruct (IH (Datatypes.S op) (kv_put e.1 e.2 db) (store_ok_put _ _ _ Hs (c_string_size _ _ _ (proj2 Hbuf) Hv) He) ltac:(lia)) as (rs' & db' & E & Hs' & Hn & Hr').
    exists (Done e.1 e.2 :: rs'), db'. split; [|split; [exact Hs'|split; [cbn; lia|]]].
    + unfold mbind, M_bind, mret, M_ret, modify in *. cbv beta iota. rewrite E. reflexivity.
    + constructor; [|exact Hr']. cbn. rewrite <- surjective_pairing. exact He.
Qed.

(** Batches of any clients, in the order the server receives them: each is what a
    client at cursor [cur] generates. *)
Fixpoint serve_all (pad : byte) (reqs : list KvRequest) (curs : list nat) : M S (list (list op_result)) :=
  match curs with
  | [] => mret []
  | cur :: curs' =>
      match genReq pad reqs cur with
      | None => undefined
      | Some (data, len, _) =>
          r ← serve_batch data len;
          rs ← serve_all pad reqs curs';
          mret (r :: rs)
      end
  end.

Lemma serve_all_ok es pad reqs curs db :
  store_ok es db -> Forall2 asks reqs es -> Forall (fun c => c < length reqs)%nat curs ->
  exists results db', serve_all pad reqs curs db = Ret results db' /\ store_ok es db' /\
    length results = length curs /\ Forall (fun rs => length rs = mycsbaAggrFactor /\ Forall (result_ok es) rs) results.
Proof.
  intros Hs Ha Hc. revert db Hs. induction Hc as [|c curs Hc Hcs IH]; intros db Hs; cbn [serve_all].
  { exists [], db. auto. }
  unfold genReq. destruct (gen_batch_ok mycsbaAggrFactor pad reqs c Hc) as (rs & c' & -> & Hl & Hrs & _). cbn [mbind option_bind].
  assert (Hask : Forall (fun r => exists e, e ∈ es /\ asks r e) rs).
  { eapply Forall_impl; [exact Hrs|]. intros r Hr. apply list_elem_of_lookup_1 in Hr as [i Hi].
    destruct (Forall2_lookup_l _ _ _ _ _ Ha Hi) as (e & He & Hre). exists e. split; [eapply list_elem_of_lookup_2, He|exact Hre]. }
  destruct (serve_ops_ok es pad rs mycsbaAggrFactor 0 db Hs Hask ltac:(lia)) as (res & db1 & E & Hs1 & Hn & Hres).
  destruct (IH db1 Hs1) as (results & db2 & E2 & Hs2 & Hn2 & Hres2).
  exists (res :: results), db2. split; [|split; [exact Hs2|split; [cbn; lia|auto]]].
  unfold serve_batch, assert_. rewrite Z.mul_comm, Z.eqb_refl. unfold mbind, M_bind, mret, M_ret in *. rewrite E, E2. reflexivity.
Qed.

End Served.

(** C40: the Masstree benchmark measures hits.  Whatever the store that keeps its
    promises, as the tree of rows does (MycsbaTree.v), and whatever was in the uninitialised buffers, neither generator
    overruns a buffer; the client's list of requests is, entry by entry, the
    server's database; and in any sequence of batches any clients send, each
    batch has the size the server asserts, no request type is unknown, every put
    writes a generated pair back and every get finds a value generated for its
    key. *)
Theorem mycsba_hits {S} `{KvLaws S} n pad (req : KvRequest) key0 val0 (db0 : S) curs :
  buffers_ok (key req) (val req) -> buffers_ok key0 val0 -> kv_ok db0 ->
  exists reqs db, new_KvClient n req = Some reqs /\ populate n (kvrandom.reset mycsbaSeed) key0 val0 db0 = Some db /\
    let es := entries n (kvrandom.reset mycsbaSeed) in
    Forall2 asks reqs es /\ length reqs = n /\
    (Forall (fun c => c < n)%nat curs ->
     exists results db', serve_all pad reqs curs db = Ret results db' /\ length results = length curs /\
       Forall (fun rs => length rs = mycsbaAggrFactor /\ Forall (result_ok es) rs) results).
Proof.
  intros Hb Hb0 Hdb. destruct (gen_reqs_ok n 0 (kvrandom.reset mycsbaSeed) req Hb) as (reqs & Er & Ha).
  destruct (populate_ok n (kvrandom.reset mycsbaSeed) key0 val0 db0 [] Hb0) as (db & Ep & Hs).
  { split; [exact Hdb|]. intros e He. apply elem_of_nil in He. contradiction. }
  assert (Hn : length reqs = n) by (rewrite (Forall2_length _ _ _ Ha); apply length_entries).
  exists reqs, db. split; [exact Er|]. split; [exact Ep|]. cbv zeta. split; [exact Ha|]. split; [exact Hn|]. intros Hc.
  destruct (serve_all_ok _ pad reqs curs db Hs Ha) as (results & db' & E & _ & Hl & Hres); [rewrite Hn; exact Hc|]. eauto.
Qed.

(** ** A store: finite maps *)
#[export] Instance gmap_store : KvStore (gmap (list byte) (list byte)) :=
  {| kv_put k v m := <[k := v]> m; kv_get k m := m !! k |}.
#[export] Instance gmap_laws : KvLaws (gmap (list byte) (list byte)).
Proof. exists (fun _ => True); intros; cbn; [exact I|apply lookup_insert_eq|apply lookup_insert_ne; assumption]. Defined.

(** An uninitialised request. *)
Definition example_req : KvRequest := mkReq 7 (replicate 23 xff) (replicate 12 xff).

(** The first key the benchmark uses. *)
Example first_key :
  (gen_entry (kvrandom.reset mycsbaSeed)).1.1 =
    user_text ++ ((fun d => byte_of_Z (48 + d)) <$> [5; 0; 1; 5; 6; 6; 8; 1; 1; 7; 8; 6; 4; 0; 2; 1; 4; 9]).
Proof. vm_compute. reflexivity. Qed.
