(* ===== verification/MycsbaTree.v ===== *)
(** * The benchmark on the tree (kvtest_server of src/masstree/mttest.cc)

    put and get_sync of kvtest_server are a replace and a get of column 0: the tree
    with its rows is a store of the kind the benchmark asks for. *)

From S2P Require Import Prelude Msgs NodeVersion StringSlice Internode Leaf Tree Cursor Modify MasstreeSpec ValueBag Query QuerySpec Mycsba.

Open Scope Z_scope.

Section Tree.
Context (osize : nat) (allocate : nat -> list byte) (place : gmap Z bag.row -> Z) (width : Z) (w : nat) (nv : nodeversion_parameters) `{!NvLayout nv} (binary : bool).
Context (alloc : tree.heap -> nat) (new_slots : list leaf.slot) (new_ikeys : list Z) (new_children : list internode.ptr).

(** The table, and how high a layer of it may be; leaves have the timestamp 0 as
    long as nothing is removed. *)
Record server := mkServer { table_ : query.table; height : nat }.

(** The key and its bytes in memory; fuel for the height and the length of the key. *)
Definition key_memory (k : list byte) : memory := store (fun _ => x00) 0 k.
Definition enough (s : server) (k : list byte) : nat := S (S (height s) + length k).

Definition put (k v : list byte) (s : server) : option server :=
  '(_, t) ← query.replace osize allocate place width w nv binary (key_memory k) (Z.of_nat (length k)) alloc new_slots new_ikeys new_children (enough s k) (table_ s) 0 (Z.of_nat (length k)) 0 v;
  Some (mkServer t (S (height s))).
(** get_sync: the value, if it returns true. *)
Definition get_sync (k : list byte) (s : server) : option (option (list byte)) :=
  query.get osize nv binary (key_memory k) (enough s k) (table_ s) 0 (Z.of_nat (length k)) (query.Get1 0).

Instance tree_store : KvStore server := {| kv_put k v s := default s (put k v s); kv_get k s := default None (get_sync k s) |}.

Definition serving (s : server) : Prop := exists C, querySpec.holds osize width w nv (alloc ∅) (height s) (table_ s) C.
Definition new_server : server := mkServer (query.new_table width nv alloc new_slots) 0.

Hypothesis Hosize : (2 <= osize < 8)%nat.
Hypothesis Hallocate : forall n, length (allocate n) = n.
Hypothesis Hplace : forall h, h !! place h = None.
Hypothesis Hshape : modify.tree_shape width w alloc new_slots new_ikeys new_children.

Lemma key_bytes k : bytes (key_memory k) 0 (Z.to_nat (Z.of_nat (length k))) = k.
Proof. rewrite Nat2Z.id. apply bytes_store. Qed.

Lemma get_sync_ok k s C : querySpec.holds osize width w nv (alloc ∅) (height s) (table_ s) C -> get_sync k s = Some ((fun cs => querySpec.column cs 0) <$> C !! k).
Proof.
  intros HC. pose proof (modify.ts_width _ _ _ _ _ _ Hshape). unfold get_sync.
  rewrite (querySpec.get_ok osize ltac:(lia) width w nv binary (key_memory k) (alloc ∅) (height s) (table_ s) C) by (first [exact HC | unfold enough; lia]). rewrite key_bytes. reflexivity.
Qed.
Lemma small_fits v : (length v < mycsbaValSize)%nat -> bag.fits osize [v].
Proof.
  intros Hv. unfold bag.fits, bag.row_size, bag.header. cbn [length concat]. rewrite app_nil_r. unfold mycsbaValSize in Hv.
  assert (256 ^ Z.of_nat 2 <= 256 ^ Z.of_nat osize) by (apply Z.pow_le_mono_r; lia). change (256 ^ Z.of_nat 2) with 65536 in *. lia.
Qed.
Lemma server_put_ok k v s C : querySpec.holds osize width w nv (alloc ∅) (height s) (table_ s) C -> (length v < mycsbaValSize)%nat ->
  exists s', put k v s = Some s' /\ querySpec.holds osize width w nv (alloc ∅) (height s') (table_ s') (<[k := [v]]> C).
Proof.
  intros HC Hv. unfold put.
  destruct (querySpec.replace_ok osize allocate place ltac:(lia) Hallocate Hplace width w nv binary (key_memory k) (Z.of_nat (length k)) alloc new_slots new_ikeys new_children Hshape
    (alloc ∅) (height s) (table_ s) C 0 (Z.of_nat (length k)) 0 v (enough s k) HC ltac:(lia) ltac:(lia) ltac:(unfold enough; lia)) as (t' & -> & Ht');
    [split; [split; [discriminate|reflexivity]|reflexivity]|apply small_fits, Hv|].
  cbn [mbind option_bind]. eexists. split; [reflexivity|]. cbn [height table_]. rewrite key_bytes in Ht'. exact Ht'.
Qed.

Lemma new_serving : serving new_server.
Proof. exists ∅. exact (querySpec.new_holds osize width w nv alloc new_slots new_ikeys new_children Hshape). Qed.

(** The promises the benchmark relies on. *)
Instance tree_laws : KvLaws server.
Proof.
  exists serving.
  - intros k v s [C HC] Hv. cbn [kv_put tree_store]. destruct (server_put_ok k v s C HC Hv) as (s' & -> & HC'). exists (<[k := [v]]> C). exact HC'.
  - intros k v s [C HC] Hv. cbn [kv_put kv_get tree_store]. destruct (server_put_ok k v s C HC Hv) as (s' & -> & HC'). cbn [from_option id]. rewrite (get_sync_ok k s' _ HC'), lookup_insert_eq. reflexivity.
  - intros k k' v s [C HC] Hv Hne. cbn [kv_put kv_get tree_store]. destruct (server_put_ok k v s C HC Hv) as (s' & -> & HC'). cbn [from_option id].
    rewrite (get_sync_ok k' s' _ HC'), (get_sync_ok k' s C HC), lookup_insert_ne by exact Hne. reflexivity.
Defined.
End Tree.

(** ** A run *)

Abbreviation example_server := (new_server 15 nodeversion32_parameters example_alloc example_slots).
#[local] Instance example_store : KvStore server := tree_store 2 bag.example_memory querySpec.example_place 15 15 nodeversion32_parameters true example_alloc example_slots example_ikeys example_children.
#[local] Instance example_laws : KvLaws server := tree_laws 2 bag.example_memory querySpec.example_place 15 15 nodeversion32_parameters true example_alloc example_slots example_ikeys example_children
  ltac:(lia) ltac:(intros n; apply length_replicate) querySpec.example_place_fresh example_shape.

(** A database of three entries in the tree, and two interleaved clients. *)
Lemma mycsba_hits_witness : exists reqs (db : server),
  new_KvClient 3 example_req = Some reqs /\
  populate 3 (kvrandom.reset mycsbaSeed) (replicate 23 xff) (replicate 12 xff) example_server = Some db /\
  exists results db', serve_all xff reqs [0; 2; 1]%nat db = Ret results db' /\ length results = 3%nat /\
    Forall (fun rs => length rs = mycsbaAggrFactor /\ Forall (result_ok (entries 3 (kvrandom.reset mycsbaSeed))) rs) results.
Proof.
  destruct (mycsba_hits 3 xff example_req (replicate 23 xff) (replicate 12 xff) example_server [0; 2; 1]%nat) as (reqs & db & E1 & E2 & _ & _ & H).
  - split; reflexivity.
  - split; reflexivity.
  - exact (new_serving 2 15 15 nodeversion32_parameters example_alloc example_slots example_ikeys example_children example_shape).
  - exists reqs, db. split; [exact E1|]. split; [exact E2|]. apply H. repeat constructor; lia.
Defined.

(** The first key of the database is found in the populated tree. *)
Example populated_tree :
  (db ← populate 20 (kvrandom.reset mycsbaSeed) (replicate 23 xff) (replicate 12 xff) example_server;
   Some (bool_decide (kv_get (gen_entry (kvrandom.reset mycsbaSeed)).1.1 db = Some (gen_entry (kvrandom.reset mycsbaSeed)).1.2))) = Some true.
Proof. vm_compute. reflexivity. Qed.
