(* ===== verification/ThreadPool.v ===== *)
(** * The thread pool of Moses (src/moses/moses/ThreadPool.cpp, ThreadPool.h)

    Workers, and the threads that call Submit and Stop, interleave over the
    queue and the two flags.  A block of code that holds m_mutex is one step: every
    access to the queue and every write to a flag is in such a block.  What the code
    does without the mutex is a step of its own: running a task, notify_all after a
    task, the read of m_stopped that ends the loop, and the read and the write of
    the count of warmed-up threads.  wait gives the mutex up and, once woken by
    notify_all or spuriously, takes it again. *)

From stdpp Require Import relations.
From S2P Require Import Prelude Workers.

Module pool.

(** ** Data *)

(** Where a worker is in Execute. *)
Inductive wpc :=
| WFind                 (* before scoped_lock *)
| WWait                 (* in m_threadNeeded.wait *)
| WWoken                (* woken, the lock not yet taken again *)
| WRun (task : nat)
| WNotify               (* before m_threadAvailable.notify_all *)
| WWarm                 (* before the test of *m_isWarmedUp *)
| WWarmed (n : Z)       (* in ++m_numWarmedUpThreads, [n] read *)
| WTest                 (* while (!m_stopped) *)
| WExit.
Record worker := mkW { w_pc : wpc; m_isWarmedUp : bool }.
#[export] Instance wpc_eq_dec : EqDecision wpc.
Proof. solve_decision. Defined.
#[export] Instance worker_eq_dec : EqDecision worker.
Proof. solve_decision. Defined.

Inductive call := Submit (task : nat) | Stop (processRemainingJobs : bool).

(** Where a caller is. *)
Inductive cpc :=
| CCall                 (* between calls *)
| CFull (task : nat)    (* Submit: in m_threadAvailable.wait *)
| CRoom (task : nat)    (* Submit: woken *)
| CDrain                (* Stop: in m_threadAvailable.wait *)
| CDrained              (* Stop: before the test of the loop *)
| CSet                  (* Stop: before m_stopped = true *)
| CNotify               (* Stop: before m_threadNeeded.notify_all *)
| CJoin                 (* Stop: in join_all *)
| CThrown.              (* Submit threw *)
Record caller := mkC { c_pc : cpc; c_calls : list call }.

(** The members; the last three record, for the theorems only, the tasks pushed,
    popped and run. *)
Record shared := mkS {
  m_tasks : list nat;
  m_stopped : bool;
  m_stopping : bool;
  m_numWarmedUpThreads : Z;
  pushed : list nat;
  popped : list nat;
  finished : list nat
}.
Record state := mk { sh : shared; workers : list worker; callers : list caller }.

Definition set_warm (n : Z) (s : shared) : shared :=
  mkS (m_tasks s) (m_stopped s) (m_stopping s) n (pushed s) (popped s) (finished s).
Definition set_stopping (s : shared) : shared :=
  mkS (m_tasks s) (m_stopped s) true (m_numWarmedUpThreads s) (pushed s) (popped s) (finished s).
Definition set_stopped (s : shared) : shared :=
  mkS (m_tasks s) true (m_stopping s) (m_numWarmedUpThreads s) (pushed s) (popped s) (finished s).
Definition push (t : nat) (s : shared) : shared :=
  mkS (m_tasks s ++ [t]) (m_stopped s) (m_stopping s) (m_numWarmedUpThreads s) (pushed s ++ [t]) (popped s) (finished s).
Definition finish (t : nat) (s : shared) : shared :=
  mkS (m_tasks s) (m_stopped s) (m_stopping s) (m_numWarmedUpThreads s) (pushed s) (popped s) (t :: finished s).

Definition empty (l : list nat) : bool := match l with [] => true | _ => false end.

(** ** Execute *)

(** [if (!m_stopped && !m_tasks.empty())] *)
Definition pick (s : shared) : shared * wpc :=
  match m_tasks s with
  | t :: rest =>
      if m_stopped s then (s, WNotify)
      else (mkS rest (m_stopped s) (m_stopping s) (m_numWarmedUpThreads s) (pushed s) (popped s ++ [t]) (finished s), WRun t)
  | [] => (s, WNotify)
  end.

(** The next step of a worker, and whether it notifies m_threadAvailable. *)
Definition worker_step (s : shared) (w : worker) : option (shared * worker * bool) :=
  let at_ p := mkW p (m_isWarmedUp w) in
  match w_pc w with
  | WFind => if empty (m_tasks s) && negb (m_stopped s) then Some (s, at_ WWait, false)
             else let '(s', p) := pick s in Some (s', at_ p, false)
  | WWait => None
  | WWoken => let '(s', p) := pick s in Some (s', at_ p, false)
  | WRun t => Some (finish t s, at_ WNotify, false)
  | WNotify => Some (s, at_ WWarm, true)
  | WWarm => Some (s, at_ (if m_isWarmedUp w then WTest else WWarmed (m_numWarmedUpThreads s)), false)
  | WWarmed n => Some (set_warm (u64 (n + 1)) s, mkW WTest true, false)
  | WTest => Some (s, at_ (if m_stopped s then WExit else WFind), false)
  | WExit => None
  end.

(** ** Submit and Stop *)
Section Pool.
Context (m_queueLimit : nat).

Definition full (s : shared) : bool := (0 <? m_queueLimit)%nat && (m_queueLimit <=? length (m_tasks s))%nat.

(** Submit's loop and what follows it. *)
Definition submit_loop (s : shared) (t : nat) (calls : list call) : shared * caller * bool :=
  if full s then (s, mkC (CFull t) calls, false) else (push t s, mkC CCall calls, true).

(** The next step of a caller, and whether it notifies m_threadNeeded.  [joined]:
    every worker has returned. *)
Definition caller_step (s : shared) (joined : bool) (c : caller) : option (shared * caller * bool) :=
  let at_ p := mkC p (c_calls c) in
  match c_pc c with
  | CCall =>
      match c_calls c with
      | [] => None
      | Submit t :: calls => if m_stopping s then Some (s, mkC CThrown calls, false) else Some (submit_loop s t calls)
      | Stop b :: calls =>
          if m_stopped s then Some (s, mkC CCall calls, false)
          else Some (set_stopping s, mkC (if b then CDrained else CSet) calls, false)
      end
  | CFull _ => None
  | CRoom t => Some (submit_loop s t (c_calls c))
  | CDrain => None
  | CDrained => Some (s, at_ (if negb (empty (m_tasks s)) && negb (m_stopped s) then CDrain else CSet), false)
  | CSet => Some (set_stopped s, at_ CNotify, false)
  | CNotify => Some (s, at_ CJoin, true)
  | CJoin => if joined then Some (s, at_ CCall, false) else None
  | CThrown => None
  end.

(** notify_all *)
Definition wake_worker (w : worker) : worker := match w_pc w with WWait => mkW WWoken (m_isWarmedUp w) | _ => w end.
Definition wake_caller (c : caller) : caller :=
  match c_pc c with
  | CFull t => mkC (CRoom t) (c_calls c)
  | CDrain => mkC CDrained (c_calls c)
  | _ => c
  end.

Definition exited (w : worker) : bool := match w_pc w with WExit => true | _ => false end.

Inductive step : state -> state -> Prop :=
| step_worker s ws cs i w s' w' n :
    ws !! i = Some w -> worker_step s w = Some (s', w', n) ->
    step (mk s ws cs) (mk s' (<[i := w']> ws) (if n then wake_caller <$> cs else cs))
| step_caller s ws cs j c s' c' n :
    cs !! j = Some c -> caller_step s (forallb exited ws) c = Some (s', c', n) ->
    step (mk s ws cs) (mk s' (if n then wake_worker <$> ws else ws) (<[j := c']> cs)).

(** Spurious wake-ups. *)
Inductive spurious : state -> state -> Prop :=
| spurious_worker s ws cs i w : ws !! i = Some w -> spurious (mk s ws cs) (mk s (<[i := wake_worker w]> ws) cs)
| spurious_caller s ws cs j c : cs !! j = Some c -> spurious (mk s ws cs) (mk s ws (<[j := wake_caller c]> cs)).

Definition any_step (x y : state) : Prop := step x y \/ spurious x y.

(** The constructor with [K] threads, and callers with their calls. *)
Definition start (K : nat) (scripts : list (list call)) : state :=
  mk (mkS [] false false 0 [] [] []) (replicate K (mkW WFind false)) (mkC CCall <$> scripts).

(** ** The tasks *)

Definition task_of (w : worker) : option nat := match w_pc w with WRun t => Some t | _ => None end.
Definition running (ws : list worker) : list nat := omap task_of ws.

Record tasks_ok (x : state) : Prop := {
  ok_fifo : pushed (sh x) = popped (sh x) ++ m_tasks (sh x);
  ok_once : popped (sh x) ≡ₚ finished (sh x) ++ running (workers x);
  ok_limit : (0 < m_queueLimit -> length (m_tasks (sh x)) <= m_queueLimit)%nat
}.

Lemma running_insert ws i w w' : ws !! i = Some w ->
  exists rest, running ws ≡ₚ option_list (task_of w) ++ rest /\ running (<[i := w']> ws) ≡ₚ option_list (task_of w') ++ rest.
Proof.
  intros Hi. destruct (insert_Permutation ws i w Hi) as (rest & Hp & Hp'). exists (running rest). unfold running.
  split; [rewrite Hp|rewrite (Hp' w')]; cbn; [destruct (task_of w)|destruct (task_of w')]; reflexivity.
Qed.
Lemma running_wake ws : running (wake_worker <$> ws) = running ws.
Proof. unfold running. induction ws as [|[[] b] ws IH]; cbn in *; rewrite ?IH; reflexivity. Qed.

Lemma pick_ok s p s' : pick s = (s', p) ->
  (s' = s /\ p = WNotify) \/
  (exists t, p = WRun t /\ m_tasks s = t :: m_tasks s' /\ m_stopped s = false /\ popped s' = popped s ++ [t] /\
     pushed s' = pushed s /\ finished s' = finished s /\ m_stopped s' = false /\ m_stopping s' = m_stopping s).
Proof.
  unfold pick. destruct (m_tasks s) as [|t rest]; [intros [= <- <-]; auto|].
  destruct (m_stopped s); intros [= <- <-]; [auto|]. right. exists t. repeat split.
Qed.

(** What a worker's step does to the tasks. *)
Lemma worker_tasks s w s' w' n : worker_step s w = Some (s', w', n) ->
  pushed s' = pushed s /\ m_stopped s' = m_stopped s /\ m_stopping s' = m_stopping s /\
  ((exists t, w_pc w' = WRun t /\ task_of w = None /\ m_tasks s = t :: m_tasks s' /\ popped s' = popped s ++ [t] /\
      finished s' = finished s /\ m_stopped s = false) \/
   (exists t, w_pc w = WRun t /\ w_pc w' = WNotify /\ m_tasks s' = m_tasks s /\ popped s' = popped s /\ finished s' = t :: finished s) \/
   (task_of w = None /\ task_of w' = None /\ m_tasks s' = m_tasks s /\ popped s' = popped s /\ finished s' = finished s)).
Proof.
  unfold worker_step, task_of. intros E. destruct (w_pc w) eqn:Ew; try discriminate.
  - destruct (_ && _); [injection E as <- <- <-; cbn; tauto|]. destruct (pick s) as [s1 p] eqn:Ep. injection E as <- <- <-.
    apply pick_ok in Ep as [[-> ->]|(t & -> & Ht & Hs & Hp & H1 & H2 & H3 & H4)]; cbn; [tauto|].
    repeat (split; [congruence|]). left. exists t. repeat (split; [assumption || reflexivity|]). assumption.
  - destruct (pick s) as [s1 p] eqn:Ep. injection E as <- <- <-.
    apply pick_ok in Ep as [[-> ->]|(t & -> & Ht & Hs & Hp & H1 & H2 & H3 & H4)]; cbn; [tauto|].
    repeat (split; [congruence|]). left. exists t. repeat (split; [assumption || reflexivity|]). assumption.
  - injection E as <- <- <-. cbn. repeat (split; [reflexivity|]). right. left. eexists. repeat split.
  - injection E as <- <- <-. cbn. tauto.
  - injection E as <- <- <-. cbn. destruct (m_isWarmedUp w); tauto.
  - injection E as <- <- <-. cbn. tauto.
  - injection E as <- <- <-. cbn. destruct (m_stopped s); tauto.
Qed.

(** What a caller's step does to the tasks. *)
Lemma caller_tasks s b c s' c' n : caller_step s b c = Some (s', c', n) ->
  popped s' = popped s /\ finished s' = finished s /\
  ((m_tasks s' = m_tasks s /\ pushed s' = pushed s) \/
   (exists t, m_tasks s' = m_tasks s ++ [t] /\ pushed s' = pushed s ++ [t] /\ full s = false)).
Proof.
  assert (Hsub : forall t calls s' c' n, submit_loop s t calls = (s', c', n) -> popped s' = popped s /\ finished s' = finished s /\
    ((m_tasks s' = m_tasks s /\ pushed s' = pushed s) \/
     (exists t, m_tasks s' = m_tasks s ++ [t] /\ pushed s' = pushed s ++ [t] /\ full s = false))).
  { intros t calls s1 c1 n1 E. unfold submit_loop in E. destruct (full s) eqn:Ef; injection E as <- <- <-; cbn; eauto 8. }
  unfold caller_step. intros E. destruct (c_pc c); try discriminate.
  - destruct (c_calls c) as [|[t|d] calls]; [discriminate| |].
    + destruct (m_stopping s); [injection E as <- <- <-; auto|]. injection E as E. eapply Hsub, E.
    + destruct (m_stopped s); injection E as <- <- <-; cbn; auto.
  - injection E as E. eapply Hsub, E.
  - injection E as <- <- <-; auto.
  - injection E as <- <- <-; cbn; auto.
  - injection E as <- <- <-; auto.
  - destruct b; [injection E as <- <- <-; auto|discriminate].
Qed.

Lemma tasks_step x y : tasks_ok x -> any_step x y -> tasks_ok y.
Proof.
  intros [H1 H2 H3] [Hst|Hst].
  - destruct Hst as [s ws cs i w s' w' n Hi E|s ws cs j c s' c' n Hj E]; cbn in *.
    + destruct (running_insert ws i w w' Hi) as (rest & Hp & Hp'). rewrite Hp in H2.
      apply worker_tasks in E as (Ep & _ & _ & [(t & Ew & Ew0 & Et & Epp & Ef & _)|[(t & Ew & Ew' & Et & Epp & Ef)|(Ew & Ew' & Et & Epp & Ef)]]);
        split; cbn.
      * rewrite Ep, H1, Epp, Et, <- app_assoc. reflexivity.
      * rewrite Hp', Epp, Ef, H2, Ew0. unfold task_of. rewrite Ew. cbn. rewrite <- Permutation_cons_append. apply Permutation_middle.
      * rewrite Et in H3. cbn in H3. lia.
      * rewrite Ep, Epp, Et. exact H1.
      * rewrite Hp', Epp, Ef, H2. unfold task_of. rewrite Ew, Ew'. cbn. symmetry. apply Permutation_middle.
      * rewrite Et. exact H3.
      * rewrite Ep, Epp, Et. exact H1.
      * rewrite Hp', Epp, Ef, H2, Ew, Ew'. reflexivity.
      * rewrite Et. exact H3.
    + assert (Er : running (if n then wake_worker <$> ws else ws) = running ws) by (destruct n; [apply running_wake|reflexivity]).
      apply caller_tasks in E as (Epp & Ef & [[Et Ep]|(t & Et & Ep & Hfull)]); split; cbn [sh workers]; rewrite ?Er, ?Epp, ?Ef, ?Et, ?Ep; auto.
      * rewrite H1, app_assoc. reflexivity.
      * intros Hl. unfold full in Hfull. rewrite length_app. cbn. destruct (Nat.ltb_spec 0 m_queueLimit), (Nat.leb_spec m_queueLimit (length (m_tasks s)));
          cbn in Hfull; try discriminate; lia.
  - destruct Hst as [s ws cs i w Hi|s ws cs j c Hj]; split; cbn in *; auto.
    destruct (running_insert ws i w (wake_worker w) Hi) as (rest & Hp & Hp'). rewrite Hp', H2, Hp.
    destruct w as [[] b]; reflexivity.
Qed.

Lemma tasks_start K scripts : tasks_ok (start K scripts).
Proof.
  split; cbn; [reflexivity| |lia]. unfold running. replace (omap _ _) with (@nil nat); [reflexivity|].
  induction K as [|K IH]; cbn; [reflexivity|exact IH].
Qed.

Lemma tasks_reachable K scripts x : rtc any_step (start K scripts) x -> tasks_ok x.
Proof. apply (rtc_preserves any_step tasks_ok tasks_step), tasks_start. Qed.
End Pool.

(** C16: Tasks start in the order of submission, each at most once.  However many
    threads submit, stop and work, and however they interleave, with spurious
    wake-ups: the tasks pushed so far are the tasks started followed by the queue;
    each task started has finished or is running in exactly one worker; and the
    queue never exceeds its limit. *)
Theorem pool_tasks limit K scripts x :
  rtc (any_step limit) (start K scripts) x ->
  pushed (sh x) = popped (sh x) ++ m_tasks (sh x) /\
  popped (sh x) ≡ₚ finished (sh x) ++ running (workers x) /\
  (0 < limit -> length (m_tasks (sh x)) <= limit)%nat.
Proof. intros H. destruct (tasks_reachable limit K scripts x H). auto. Qed.

(** ** One caller: submit everything, then Stop(true), as in main *)
Section Run.
Context (m_queueLimit : nat).
Abbreviation step := (step m_queueLimit).
Abbreviation any_step := (any_step m_queueLimit).

Definition script (ts : list nat) : list call := (Submit <$> ts) ++ [Stop true].

(** What the caller's place tells about the pool. *)
Definition caller_ok (ts : list nat) (s : shared) (ws : list worker) (c : caller) : Prop :=
  match c_pc c with
  | CCall => (exists rest, c_calls c = script rest /\ pushed s ++ rest = ts /\ m_stopping s = false /\ m_stopped s = false) \/
             (c_calls c = [] /\ pushed s = ts /\ m_stopped s = true /\ m_tasks s = [] /\ forallb exited ws = true)
  | CFull t | CRoom t =>
      exists rest, c_calls c = script rest /\ pushed s ++ t :: rest = ts /\ m_stopping s = false /\ m_stopped s = false
  | CDrain | CDrained => c_calls c = [] /\ pushed s = ts /\ m_stopped s = false
  | CSet => c_calls c = [] /\ pushed s = ts /\ m_stopped s = false /\ m_tasks s = []
  | CNotify | CJoin => c_calls c = [] /\ pushed s = ts /\ m_stopped s = true /\ m_tasks s = []
  | CThrown => False
  end.

Definition waits (c : caller) : Prop := match c_pc c with CFull _ | CDrain => True | _ => False end.
Definition will_notify (w : worker) : Prop := match w_pc w with WRun _ | WNotify => True | _ => False end.

Record run_ok (ts : list nat) (s : shared) (ws : list worker) (c : caller) : Prop := {
  r_caller : caller_ok ts s ws c;
  r_exit : forall w, w ∈ ws -> w_pc w = WExit -> m_stopped s = true;
  r_wait : forall w, w ∈ ws -> w_pc w = WWait -> m_tasks s = [] /\ (m_stopped s = true -> c_pc c = CNotify);
  r_notify : waits c -> m_tasks s <> [] \/ exists w, w ∈ ws /\ will_notify w
}.

Lemma elem_insert {A} (l : list A) i x y : y ∈ <[i := x]> l -> y = x \/ y ∈ l.
Proof.
  intros H. apply list_elem_of_lookup_1 in H as [j Hj]. apply list_lookup_insert_Some in Hj as [(_ & <- & _)|[_ Hj]]; [auto|].
  right. eapply list_elem_of_lookup_2, Hj.
Qed.
Lemma insert_elem {A} (l : list A) i x y : l !! i = Some y -> x ∈ <[i := x]> l.
Proof. intros H. eapply (list_elem_of_lookup_2 _ i), list_lookup_insert_eq, lookup_lt_Some, H. Qed.
Lemma kept_elem {A} (l : list A) i x y z : l !! i = Some y -> z ∈ l -> z <> y -> z ∈ <[i := x]> l.
Proof.
  intros Hi Hz Hn. apply list_elem_of_lookup_1 in Hz as [j Hj]. assert (i <> j) by congruence.
  apply (list_elem_of_lookup_2 _ j). rewrite list_lookup_insert_ne by assumption. exact Hj.
Qed.
Lemma exited_worker ws w : forallb exited ws = true -> w ∈ ws -> w_pc w = WExit.
Proof.
  rewrite forallb_forall. intros H Hw. specialize (H w (proj1 (list_elem_of_In _ _) Hw)). unfold exited in H.
  destruct (w_pc w); congruence.
Qed.

Lemma caller_ok_keep ts s s' ws ws' c : caller_ok ts s ws c -> pushed s' = pushed s -> m_stopped s' = m_stopped s ->
  m_stopping s' = m_stopping s -> (m_tasks s = [] -> m_tasks s' = []) -> (forallb exited ws = true -> forallb exited ws' = true) ->
  caller_ok ts s' ws' c.
Proof.
  intros H Ep Es Eg Ht Hw. unfold caller_ok in *. destruct (c_pc c); rewrite ?Ep, ?Es, ?Eg; intuition eauto.
Qed.
Lemma caller_ok_wake ts s ws c : caller_ok ts s ws c -> caller_ok ts s ws (wake_caller c).
Proof. unfold caller_ok, wake_caller. destruct c as [[] cs]; cbn; auto. Qed.
Lemma wake_notify c : c_pc c = CNotify -> c_pc (wake_caller c) = CNotify.
Proof. destruct c as [[] cs]; cbn; congruence. Qed.
Lemma wake_not_waits c : ~ waits (wake_caller c).
Proof. destruct c as [[] cs]; cbn; tauto. Qed.

(** A worker's step that ends in a wait, an exit, or a notification. *)
Lemma worker_shape s w s' w' n : worker_step s w = Some (s', w', n) ->
  (w_pc w' = WWait -> m_tasks s' = [] /\ m_stopped s' = false) /\ (w_pc w' = WExit -> m_stopped s' = true) /\
  (n = true <-> w_pc w = WNotify) /\ (will_notify w -> n = false -> will_notify w') /\ w_pc w <> WWait /\ w_pc w <> WExit.
Proof.
  unfold worker_step, will_notify. intros E.
  assert (Hpick : forall p, pick s = (s', p) -> p <> WWait /\ p <> WExit).
  { intros p Ep. apply pick_ok in Ep as [[_ ->]|(t & -> & _)]; split; discriminate. }
  destruct (w_pc w) eqn:Ew; try discriminate.
  - destruct (empty (m_tasks s)) eqn:Ee, (m_stopped s) eqn:Es; cbn in E;
      try (destruct (pick s) as [s1 p] eqn:Ep; injection E as <- <- <-; destruct (Hpick p eq_refl); cbn; repeat split; congruence || tauto).
    injection E as <- <- <-. cbn. destruct (m_tasks s); [repeat split; congruence || tauto|discriminate].
  - destruct (pick s) as [s1 p] eqn:Ep. injection E as <- <- <-. destruct (Hpick p eq_refl). cbn. repeat split; congruence || tauto.
  - injection E as <- <- <-. cbn. repeat split; congruence || tauto.
  - injection E as <- <- <-. cbn. repeat split; congruence || tauto.
  - injection E as <- <- <-. cbn. destruct (m_isWarmedUp w); repeat split; congruence || tauto.
  - injection E as <- <- <-. cbn. repeat split; congruence || tauto.
  - injection E as <- <- <-. cbn. destruct (m_stopped s) eqn:Es; repeat split; congruence || tauto.
Qed.

Lemma run_worker ts s ws c i w s' w' n : run_ok ts s ws c -> ws !! i = Some w -> worker_step s w = Some (s', w', n) ->
  run_ok ts s' (<[i := w']> ws) (if n then wake_caller c else c).
Proof.
  intros [Hc He Hw Hn] Hi E. pose proof (worker_tasks _ _ _ _ _ E) as (Ep & Es & Eg & Et).
  pose proof (worker_shape _ _ _ _ _ E) as (S1 & S2 & S3 & S4 & S5 & S6).
  assert (Hin : w ∈ ws) by (eapply list_elem_of_lookup_2, Hi).
  assert (Ht : m_tasks s = [] -> m_tasks s' = []).
  { intros E0. destruct Et as [(t & _ & _ & H & _)|[(t & _ & _ & -> & _)|(_ & _ & -> & _)]]; [rewrite E0 in H; discriminate|exact E0|exact E0]. }
  assert (Hc' : caller_ok ts s' (<[i := w']> ws) c).
  { eapply caller_ok_keep; eauto. intros Hx. destruct S6. eapply exited_worker; eassumption. }
  split.
  - destruct n; [apply caller_ok_wake|]; exact Hc'.
  - intros u Hu Eu. apply elem_insert in Hu as [->|Hu]; [auto|]. rewrite Es. eauto.
  - intros u Hu Eu. apply elem_insert in Hu as [->|Hu].
    + destruct (S1 Eu) as [H1 H2]. split; [exact H1|congruence].
    + destruct (Hw u Hu Eu) as [H1 H2]. split; [auto|]. rewrite Es. intros Hs. destruct n; [apply wake_notify|]; auto.
  - destruct n; [intros H; destruct (wake_not_waits c H)|]. intros Hwt. destruct (Hn Hwt) as [Hne|(u & Hu & Hnu)].
    + destruct Et as [(t & Ew & _)|[(t & _ & Ew & _)|(_ & _ & -> & _)]]; [| |auto]; right; exists w'; (split; [eapply insert_elem, Hi|]);
        unfold will_notify; rewrite Ew; exact I.
    + right. destruct (decide (u = w)) as [->|Hne]; [exists w'|exists u].
      * split; [eapply insert_elem, Hi|apply S4; auto].
      * split; [eapply kept_elem; eassumption|exact Hnu].
Qed.

Lemma no_waiter (ws : list worker) w : w ∈ wake_worker <$> ws -> w_pc w <> WWait.
Proof. intros H. apply list_elem_of_fmap in H as ([[] b] & -> & _); cbn; discriminate. Qed.
Lemma wake_exit (ws : list worker) w : w ∈ wake_worker <$> ws -> w_pc w = WExit -> w ∈ ws.
Proof. intros H. apply list_elem_of_fmap in H as ([[] b] & -> & H); cbn; try discriminate. auto. Qed.
Lemma woken_exited ws : forallb exited (wake_worker <$> ws) = forallb exited ws.
Proof. induction ws as [|[[] b] ws IH]; cbn in *; congruence. Qed.

(** A worker that is not blocked can move. *)
Lemma worker_moves s w : w_pc w <> WWait -> w_pc w <> WExit -> exists r, worker_step s w = Some r.
Proof.
  unfold worker_step. destruct (w_pc w); try congruence; intros _ _; try (destruct (_ && _)); try (destruct (pick s)); eauto.
Qed.

Lemma full_tasks s : full m_queueLimit s = true -> m_tasks s <> [].
Proof. unfold full. intros H E. rewrite E in H. cbn in H. destruct m_queueLimit; discriminate. Qed.

Lemma run_submit ts s ws c t rest s' c' n :
  run_ok ts s ws c -> submit_loop m_queueLimit s t (script rest) = (s', c', n) ->
  pushed s ++ t :: rest = ts -> m_stopping s = false -> m_stopped s = false ->
  run_ok ts s' (if n then wake_worker <$> ws else ws) c'.
Proof.
  intros [_ He Hw _] E Hp Hg Hs. unfold submit_loop in E. destruct (full m_queueLimit s) eqn:Ef; injection E as <- <- <-.
  - split; [exists rest; auto|exact He| |intros _; left; apply full_tasks, Ef].
    intros u Hu Eu. destruct (Hw u Hu Eu) as [Ht _]. destruct (full_tasks s Ef Ht).
  - split; cbn.
    + left. exists rest. rewrite <- app_assoc. auto.
    + intros u Hu Eu. exact (He u (wake_exit _ _ Hu Eu) Eu).
    + intros u Hu Eu. destruct (no_waiter _ _ Hu Eu).
    + intros [].
Qed.

Lemma run_caller ts s ws c s' c' n : run_ok ts s ws c -> caller_step m_queueLimit s (forallb exited ws) c = Some (s', c', n) ->
  run_ok ts s' (if n then wake_worker <$> ws else ws) c'.
Proof.
  intros Hok E. pose proof Hok as [Hc He Hw Hn]. unfold caller_step in E. unfold caller_ok in Hc.
  destruct c as [pc calls]. cbn in *. destruct pc; try discriminate.
  - destruct Hc as [([|t rest] & -> & Hp & Hg & Hs)|(-> & _)]; [| |discriminate]; cbn in E.
    + rewrite Hs in E. injection E as <- <- <-. rewrite app_nil_r in Hp. split; cbn; auto.
      intros u Hu Eu. destruct (Hw u Hu Eu). split; [auto|congruence].
    + rewrite Hg in E. injection E as E. eapply run_submit; eauto.
  - destruct Hc as (rest & -> & Hp & Hg & Hs). injection E as E. eapply run_submit; eauto.
  - destruct Hc as (-> & Hp & Hs). rewrite Hs in E. injection E as <- <- <-.
    destruct (m_tasks s) as [|t l] eqn:Et; cbn; (split; cbn; [|exact He| |]); rewrite ?Et; auto; try (intros u Hu Eu; destruct (Hw u Hu Eu); split; congruence);
      intros Hx; first [destruct Hx|left; discriminate].
  - destruct Hc as (-> & Hp & Hs & Ht). injection E as <- <- <-. split; cbn; auto; tauto.
  - destruct Hc as (-> & Hp & Hs & Ht). injection E as <- <- <-. split; cbn; auto; try tauto.
    intros u Hu Eu. destruct (no_waiter _ _ Hu Eu).
  - destruct Hc as (-> & Hp & Hs & Ht). destruct (forallb exited ws) eqn:Ex; [|discriminate]. injection E as <- <- <-.
    split; cbn; auto; try tauto. intros u Hu Eu. rewrite (exited_worker _ _ Ex Hu) in Eu. discriminate.
Qed.

Lemma run_spurious_worker ts s ws c i w : run_ok ts s ws c -> ws !! i = Some w -> run_ok ts s (<[i := wake_worker w]> ws) c.
Proof.
  intros [Hc He Hw Hn] Hi. assert (Hin : w ∈ ws) by (eapply list_elem_of_lookup_2, Hi).
  destruct (decide (w_pc w = WWait)) as [Ew|Ew].
  2: { replace (wake_worker w) with w by (destruct w as [[] b]; cbn in *; congruence). rewrite list_insert_id by exact Hi. split; assumption. }
  assert (Ewk : w_pc (wake_worker w) = WWoken) by (unfold wake_worker; rewrite Ew; reflexivity). split.
  - eapply caller_ok_keep; eauto. intros Hx. rewrite (exited_worker _ _ Hx Hin) in Ew. discriminate.
  - intros u Hu Eu. apply elem_insert in Hu as [->|Hu]; [congruence|eauto].
  - intros u Hu Eu. apply elem_insert in Hu as [->|Hu]; [congruence|eauto].
  - intros Hx. destruct (Hn Hx) as [|(u & Hu & Hnu)]; [auto|]. right. exists u. split; [|exact Hnu].
    eapply kept_elem; try eassumption. intros ->. unfold will_notify in Hnu. rewrite Ew in Hnu. exact Hnu.
Qed.
Lemma run_spurious_caller ts s ws c : run_ok ts s ws c -> run_ok ts s ws (wake_caller c).
Proof.
  intros [Hc He Hw Hn]. split; [apply caller_ok_wake, Hc|exact He| |intros H; destruct (wake_not_waits c H)].
  intros u Hu Eu. destruct (Hw u Hu Eu) as [H1 H2]. split; [exact H1|]. intros Hs. apply wake_notify; auto.
Qed.

Definition running_ok (ts : list nat) (x : state) : Prop := exists c, callers x = [c] /\ run_ok ts (sh x) (workers x) c.

Lemma run_any_step ts x y : running_ok ts x -> any_step x y -> running_ok ts y.
Proof.
  intros (c & Ec & Hok) [Hst|Hst].
  - destruct Hst as [s ws cs i w s' w' n Hi E|s ws cs j c0 s' c' n Hj E]; cbn in *; subst cs.
    + eexists. split; [|eapply run_worker; eassumption]. destruct n; reflexivity.
    + destruct j as [|j]; [|discriminate]. injection Hj as <-. eexists. split; [reflexivity|]. eapply run_caller; eassumption.
  - destruct Hst as [s ws cs i w Hi|s ws cs j c0 Hj]; cbn in *; subst cs.
    + exists c. split; [reflexivity|]. eapply run_spurious_worker; eassumption.
    + destruct j as [|j]; [|discriminate]. injection Hj as <-. eexists. split; [reflexivity|]. apply run_spurious_caller, Hok.
Qed.

Lemma run_start K ts : running_ok ts (start K [script ts]).
Proof.
  eexists. split; [reflexivity|]. split; cbn.
  - left. exists ts. auto.
  - intros w Hw. apply elem_of_replicate in Hw as [-> _]. discriminate.
  - intros w Hw. apply elem_of_replicate in Hw as [-> _]. discriminate.
  - intros [].
Qed.

(** Until the caller is through, something can move. *)
Lemma run_progress ts x : running_ok ts x -> (0 < length (workers x))%nat ->
  callers x = [mkC CCall []] \/ exists y, step x y.
Proof.
  intros (c & Ec & [Hc He Hw Hn]) Hlen. destruct x as [s ws cs]. cbn in *. subst cs.
  assert (Hgo : forall r, caller_step m_queueLimit s (forallb exited ws) c = Some r -> exists y, step (mk s ws [c]) y).
  { intros [[s' c'] n] E. eexists. eapply (step_caller _ _ _ _ 0); [reflexivity|exact E]. }
  assert (Hwk : forall w, w ∈ ws -> w_pc w <> WWait -> w_pc w <> WExit -> exists y, step (mk s ws [c]) y).
  { intros w Hin H1 H2. destruct (worker_moves s w H1 H2) as [[[s' w'] n] E]. apply list_elem_of_lookup_1 in Hin as [i Hi].
    eexists. eapply step_worker; eassumption. }
  assert (Hblocked : waits c -> m_stopped s = false -> exists y, step (mk s ws [c]) y).
  { intros Hx Hs. destruct (Hn Hx) as [Ht|(w & Hin & Hnw)].
    - destruct ws as [|w ws]; [cbn in Hlen; lia|]. assert (Hin : w ∈ w :: ws) by left. apply (Hwk w Hin).
      + intros Ew. destruct (Hw w Hin Ew). contradiction.
      + intros Ew. rewrite (He w Hin Ew) in Hs. discriminate.
    - apply (Hwk w Hin); intros Ew; unfold will_notify in Hnw; rewrite Ew in Hnw; exact Hnw. }
  unfold caller_ok in Hc. destruct c as [pc calls]. unfold caller_step in Hgo. unfold waits in Hblocked. cbn in *. destruct pc.
  - destruct Hc as [([|t rest] & -> & Hp & Hg & Hs)|(-> & _)]; [right|right|left; reflexivity]; cbn in Hgo; rewrite ?Hs, ?Hg in Hgo; eauto.
  - right. destruct Hc as (rest & _ & _ & _ & Hs). auto.
  - right. eauto.
  - right. destruct Hc as (_ & _ & Hs). auto.
  - right. eauto.
  - right. eauto.
  - right. eauto.
  - right. destruct Hc as (_ & _ & Hs & _). destruct (forallb exited ws) eqn:Ex; [eauto|]. clear Hgo.
    apply not_true_iff_false in Ex. rewrite forallb_forall in Ex.
    assert (Hex : exists w, w ∈ ws /\ w_pc w <> WExit).
    { clear - Ex. induction ws as [|w ws IH]; [destruct Ex; intros ? []|]. destruct (decide (w_pc w = WExit)) as [Ew|Ew].
      - destruct IH as (u & Hu & Eu); [|exists u; split; [right; exact Hu|exact Eu]]. intros Hall. apply Ex. intros u [<-|Hu]; [unfold exited; rewrite Ew; reflexivity|auto].
      - exists w. split; [left|exact Ew]. }
    destruct Hex as (w & Hin & Ew). apply (Hwk w Hin); [|exact Ew]. intros Ewt. destruct (Hw w Hin Ewt) as [_ H]. specialize (H Hs). discriminate.
  - destruct Hc.
Qed.

(** ** A bound on the steps, spurious wake-ups apart *)

Section Measure.
Local Open Scope nat_scope.
Context (W C : nat).

Definition worker_weight (stopped : bool) (w : worker) : nat :=
  match w_pc w with
  | WExit | WWait => 0
  | WFind => if stopped then 6 + C else 1
  | WTest => 2
  | WWarmed _ => 3
  | WWarm => 4
  | WNotify => 5 + C
  | WRun _ | WWoken => 6 + C
  end.
Definition all_woken : nat := W * (6 + C).
Definition push_weight : nat := 7 + C + all_woken.
Definition call_weight (o : call) : nat := match o with Submit _ => 4 + push_weight | Stop _ => 6 + 2 * all_woken end.
Definition caller_weight (c : caller) : nat :=
  match c_pc c with
  | CCall => 0
  | CFull _ => 1 + push_weight
  | CRoom _ => 2 + push_weight
  | CDrain => 4 + 2 * all_woken
  | CDrained => 5 + 2 * all_woken
  | CSet => 3 + 2 * all_woken
  | CNotify => 2 + all_woken
  | CJoin => 1
  | CThrown => 0
  end + sum_list_with call_weight (c_calls c).
Definition measure (x : state) : nat :=
  (7 + C) * length (m_tasks (sh x)) + sum_list_with (worker_weight (m_stopped (sh x))) (workers x) + sum_list_with caller_weight (callers x).

Lemma sum_bump {A} (f g : A -> nat) (h : A -> A) k l : (forall x, f (h x) <= g x + k) ->
  sum_list_with f (h <$> l) <= sum_list_with g l + length l * k.
Proof. intros H. induction l as [|x l IH]; cbn in *; [lia|]. specialize (H x). lia. Qed.
Lemma sum_bump_id {A} (f g : A -> nat) k l : (forall x, f x <= g x + k) -> sum_list_with f l <= sum_list_with g l + length l * k.
Proof. intros H. pose proof (sum_bump f g id k l H) as Hs. rewrite list_fmap_id in Hs. exact Hs. Qed.

Lemma sum_insert {A} (f : A -> nat) (l : list A) i x y : l !! i = Some x -> sum_list_with f (<[i := y]> l) + f x = sum_list_with f l + f y.
Proof.
  intros Hi. destruct (insert_Permutation l i x Hi) as (rest & Hp & Hp'). rewrite (Hp' y). transitivity (f y + sum_list_with f (x :: rest)); [cbn; lia|].
  rewrite <- Hp. lia.
Qed.

Lemma worker_decreases s w s' w' n : worker_step s w = Some (s', w', n) ->
  (7 + C) * length (m_tasks s') + worker_weight (m_stopped s') w' + (if n then C else 0)
  < (7 + C) * length (m_tasks s) + worker_weight (m_stopped s) w.
Proof.
  intros E. unfold worker_step in E. unfold worker_weight. destruct (w_pc w) eqn:Ew; try discriminate.
  - destruct (m_tasks s) as [|t l] eqn:Et, (m_stopped s) eqn:Es; cbn in E; unfold pick in E; rewrite ?Et, ?Es in E; injection E as <- <- <-;
      cbn; rewrite ?Et, ?Es; cbn; lia.
  - unfold pick in E. destruct (m_tasks s) as [|t l] eqn:Et, (m_stopped s) eqn:Es; injection E as <- <- <-; cbn; rewrite ?Et, ?Es; cbn; lia.
  - injection E as <- <- <-. cbn. lia.
  - injection E as <- <- <-. cbn. lia.
  - injection E as <- <- <-. cbn. destruct (m_isWarmedUp w); cbn; lia.
  - injection E as <- <- <-. cbn. lia.
  - injection E as <- <- <-. cbn. destruct (m_stopped s); cbn; lia.
Qed.

Lemma wake_caller_weight c : caller_weight (wake_caller c) <= caller_weight c + 1.
Proof. destruct c as [[] calls]; cbn; lia. Qed.
Lemma wake_worker_weight b w : worker_weight b (wake_worker w) <= worker_weight b w + (6 + C).
Proof. destruct w as [[] v], b; cbn; lia. Qed.
Lemma stopped_weight b w : worker_weight true w <= worker_weight b w + (6 + C).
Proof. destruct w as [[] v], b; cbn; lia. Qed.

Lemma submit_decreases ws s t calls s' c' n : length ws = W -> submit_loop m_queueLimit s t calls = (s', c', n) ->
  (7 + C) * length (m_tasks s') + sum_list_with (worker_weight (m_stopped s')) (if n then wake_worker <$> ws else ws) + caller_weight c'
  < (7 + C) * length (m_tasks s) + sum_list_with (worker_weight (m_stopped s)) ws + (2 + push_weight) + sum_list_with call_weight calls.
Proof.
  intros Hl E. unfold submit_loop in E. destruct (full m_queueLimit s); injection E as <- <- <-.
  - unfold caller_weight. cbn [c_pc c_calls]. lia.
  - unfold caller_weight. cbn [m_tasks m_stopped push c_pc c_calls]. rewrite length_app. cbn [length].
    pose proof (sum_bump _ _ _ _ ws (wake_worker_weight (m_stopped s))) as Hs. unfold push_weight, all_woken. rewrite Hl in Hs. lia.
Qed.

Lemma caller_decreases ws s c s' c' n b : length ws = W -> caller_step m_queueLimit s b c = Some (s', c', n) ->
  (7 + C) * length (m_tasks s') + sum_list_with (worker_weight (m_stopped s')) (if n then wake_worker <$> ws else ws) + caller_weight c'
  < (7 + C) * length (m_tasks s) + sum_list_with (worker_weight (m_stopped s)) ws + caller_weight c.
Proof.
  intros Hl E. unfold caller_step in E. destruct c as [pc calls]. cbn [c_pc c_calls] in E. destruct pc; try discriminate.
  - destruct calls as [|[t|d] calls]; [discriminate| |].
    + destruct (m_stopping s); [injection E as <- <- <-; cbn; lia|]. injection E as E. apply (submit_decreases ws) in E; [|exact Hl].
      unfold caller_weight at 2. cbn [c_pc c_calls sum_list_with call_weight]. lia.
    + destruct (m_stopped s) eqn:Es; injection E as <- <- <-; [cbn; rewrite Es; lia|]. cbn [m_tasks m_stopped set_stopping].
      rewrite Es. unfold caller_weight. destruct d; cbn [c_pc c_calls sum_list_with call_weight]; lia.
  - injection E as E. apply (submit_decreases ws) in E; [|exact Hl]. unfold caller_weight at 2. cbn [c_pc c_calls]. lia.
  - injection E as <- <- <-. unfold caller_weight. destruct (_ && _); cbn [c_pc c_calls]; lia.
  - injection E as <- <- <-. cbn [m_tasks m_stopped set_stopped]. unfold caller_weight. cbn [c_pc c_calls].
    pose proof (sum_bump_id _ _ _ ws (stopped_weight (m_stopped s))) as Hs. unfold all_woken. rewrite Hl in Hs. lia.
  - injection E as <- <- <-. unfold caller_weight. cbn [c_pc c_calls].
    pose proof (sum_bump _ _ _ _ ws (wake_worker_weight (m_stopped s))) as Hs. unfold all_woken. rewrite Hl in Hs. lia.
  - destruct b; [|discriminate]. injection E as <- <- <-. unfold caller_weight. cbn [c_pc c_calls]. lia.
Qed.

Lemma measure_step x y : length (workers x) = W -> length (callers x) = C -> step x y ->
  measure y < measure x /\ length (workers y) = W /\ length (callers y) = C.
Proof.
  intros HW HC Hst. destruct Hst as [s ws cs i w s' w' n Hi E|s ws cs j c s' c' n Hj E]; unfold measure; cbn [sh workers callers] in *.
  - rewrite length_insert. split; [|split; [exact HW|destruct n; [rewrite length_fmap|]; exact HC]].
    pose proof (worker_tasks _ _ _ _ _ E) as (_ & Es & _). pose proof (worker_decreases _ _ _ _ _ E) as Hd. rewrite Es in *.
    pose proof (sum_insert (worker_weight (m_stopped s)) ws i w w' Hi).
    pose proof (sum_bump _ _ _ _ cs wake_caller_weight) as Hs. destruct n; lia.
  - rewrite length_insert. split; [|split; [destruct n; [rewrite length_fmap|]; exact HW|exact HC]].
    pose proof (sum_insert caller_weight cs j c c' Hj). pose proof (caller_decreases ws s c s' c' n _ HW E). lia.
Qed.

Lemma measure_bound n x y : length (workers x) = W -> length (callers x) = C -> nsteps step n x y -> n <= measure x.
Proof.
  intros HW HC Hn. induction Hn as [x|n x y z Hst _ IH]; [lia|]. destruct (measure_step x y HW HC Hst) as (Hlt & HW' & HC'). specialize (IH HW' HC'). lia.
Qed.
End Measure.

Lemma any_step_sizes x y : any_step x y -> length (workers y) = length (workers x) /\ length (callers y) = length (callers x).
Proof.
  intros [Hst|Hst]; destruct Hst; cbn; rewrite ?length_insert; try destruct n; rewrite ?length_fmap; auto.
Qed.

(** C15: Stop(true) waits for every task.  One thread submits tasks and calls
    Stop(true), as Moses's main does; [K] > 0 workers run them, with any queue limit
    and spurious wake-ups.  From any state reached, runs without further spurious
    wake-ups are bounded by [measure], and a run that can go no further has returned from Stop, every task
    finished exactly once, the queue empty and every worker gone. *)
Theorem pool_completes K ts x y : (0 < K)%nat -> rtc any_step (start K [script ts]) x -> rtc step x y ->
  (forall n z, nsteps step n y z -> (n <= measure K 1 y)%nat) /\
  ((forall z, ~ step y z) -> callers y = [mkC CCall []] /\ finished (sh y) ≡ₚ ts /\ m_tasks (sh y) = [] /\
     Forall (fun w => w_pc w = WExit) (workers y)).
Proof.
  intros HK Hx Hxy. assert (Hy : rtc any_step (start K [script ts]) y).
  { etransitivity; [exact Hx|]. eapply rtc_subrel; [|exact Hxy]. intros a b H. left. exact H. }
  assert (Hsz : length (workers y) = K /\ length (callers y) = 1%nat).
  { apply (rtc_preserves any_step (fun x => length (workers x) = K /\ length (callers x) = 1%nat)) in Hy; [exact Hy| |].
    - intros a b [H1 H2] Hab. destruct (any_step_sizes a b Hab). lia.
    - cbn. rewrite length_replicate. auto. }
  destruct Hsz as [HW HC]. split; [intros n z; apply measure_bound; assumption|]. intros Hstuck.
  assert (Hok : running_ok ts y) by (eapply (rtc_preserves any_step); [apply run_any_step|apply run_start|exact Hy]).
  destruct (run_progress ts y Hok ltac:(lia)) as [Ec|(z & Hz)]; [|destruct (Hstuck z Hz)]. split; [exact Ec|].
  destruct Hok as (c & Ec' & [Hc _ _ _]). rewrite Ec in Ec'. injection Ec' as <-.
  destruct Hc as [(rest & E & _)|(_ & Hp & _ & Ht & Hex)]; [destruct rest; discriminate E|].
  destruct (tasks_reachable m_queueLimit K _ y Hy) as [Hf Ho _]. rewrite Ht, app_nil_r, Hp in Hf.
  assert (Hall : Forall (fun w => w_pc w = WExit) (workers y)) by (apply Forall_forall; intros w Hw; eapply exited_worker; eassumption).
  split; [|split; [exact Ht|exact Hall]].
  rewrite Hf, Ho. replace (running (workers y)) with (@nil nat); [rewrite app_nil_r; reflexivity|].
  clear - Hall. unfold running. induction Hall as [|w ws Hw _ IH]; [reflexivity|]. cbn. unfold task_of at 1. rewrite Hw. exact IH.
Qed.
End Run.

(** ** Executions *)

(** One worker runs one task; threads move in the order given. *)
Inductive who := Wk (i : nat) | Cl (j : nat).
Definition move (limit : nat) (x : state) (m : who) : option state :=
  match m with
  | Wk i => w ← workers x !! i; '(s', w', n) ← worker_step (sh x) w;
            Some (mk s' (<[i := w']> (workers x)) (if n : bool then wake_caller <$> callers x else callers x))
  | Cl j => c ← callers x !! j; '(s', c', n) ← caller_step limit (sh x) (forallb exited (workers x)) c;
            Some (mk s' (if n : bool then wake_worker <$> workers x else workers x) (<[j := c']> (callers x)))
  end.
Fixpoint moves (limit : nat) (x : state) (ms : list who) : option state :=
  match ms with [] => Some x | m :: ms => y ← move limit x m; moves limit y ms end.

Lemma move_step limit x m y : move limit x m = Some y -> step limit x y.
Proof.
  destruct x as [s ws cs], m as [i|j]; cbn.
  - destruct (ws !! i) as [w|] eqn:Hi; [|discriminate]. cbn. destruct (worker_step s w) as [[[s' w'] n]|] eqn:E; [|discriminate].
    cbn. intros [= <-]. eapply step_worker; eassumption.
  - destruct (cs !! j) as [c|] eqn:Hj; [|discriminate]. cbn. destruct (caller_step limit s _ c) as [[[s' c'] n]|] eqn:E; [|discriminate].
    cbn. intros [= <-]. eapply step_caller; eassumption.
Qed.
Lemma moves_rtc limit x ms y : moves limit x ms = Some y -> rtc (step limit) x y.
Proof.
  revert x. induction ms as [|m ms IH]; cbn; intros x E; [injection E as ->; apply rtc_refl|].
  destruct (move limit x m) as [z|] eqn:Em; [|discriminate]. eapply rtc_l; [apply (move_step limit x m), Em|apply IH, E].
Qed.

Definition one_task : list who :=
  [Cl 0; Wk 0; Wk 0; Wk 0; Wk 0; Wk 0; Wk 0; Wk 0;  Cl 0; Cl 0; Cl 0; Cl 0;  Wk 0; Wk 0; Wk 0; Wk 0;  Cl 0].
Definition one_task_end : state := mk (mkS [] true true 1 [7%nat] [7%nat] [7%nat]) [mkW WExit true] [mkC CCall []].

Lemma one_task_run : moves 0 (start 1 [script [7%nat]]) one_task = Some one_task_end.
Proof. reflexivity. Qed.

Lemma pool_tasks_witness : pushed (sh one_task_end) = popped (sh one_task_end) ++ m_tasks (sh one_task_end) /\
  popped (sh one_task_end) ≡ₚ finished (sh one_task_end) ++ running (workers one_task_end) /\
  (0 < 0 -> length (m_tasks (sh one_task_end)) <= 0)%nat.
Proof.
  apply (pool_tasks 0 1 [script [7%nat]] one_task_end). eapply rtc_subrel; [|apply (moves_rtc 0 _ one_task), one_task_run].
  intros a b H. left. exact H.
Defined.

Lemma pool_completes_witness : callers one_task_end = [mkC CCall []] /\ finished (sh one_task_end) ≡ₚ [7%nat] /\
  m_tasks (sh one_task_end) = [] /\ Forall (fun w => w_pc w = WExit) (workers one_task_end).
Proof.
  apply (pool_completes 0 1 [7%nat] (start 1 [script [7%nat]]) one_task_end).
  - lia.
  - apply rtc_refl.
  - apply (moves_rtc 0 _ one_task), one_task_run.
  - intros z Hz. inversion Hz as [? ? ? i w ? ? ? Hi E|? ? ? j c ? ? ? Hj E]; subst.
    + destruct i; [injection Hi as <-; discriminate E|discriminate Hi].
    + destruct j; [injection Hj as <-; discriminate E|discriminate Hj].
Defined.

(** With a queue limit, a Submit that waits for room while another thread calls
    Stop(true) adds its task after the queue was drained: the pool stops with task
    2 in the queue, although Stop's comment says no more jobs are added. *)
Example late_submit :
  let calls := [[Submit 1; Submit 2]; [Stop true]]%nat in
  let ms := [Cl 0; Cl 0;  Cl 1; Cl 1;  Wk 0; Wk 0; Wk 0;  Cl 1; Cl 1; Cl 0;  Wk 0; Wk 0; Wk 0;  Cl 1; Cl 1] in
  exists x, moves 1 (start 1 calls) ms = Some x /\ c_pc <$> callers x = [CCall; CCall] /\ m_tasks (sh x) = [2%nat] /\ finished (sh x) = [1%nat].
Proof. eexists. split; [vm_compute; reflexivity|]. repeat split. Qed.

End pool.
