(* ===== verification/Sphinx.v ===== *)
(** * The speech recognition benchmark (src/sphinx/client.cpp, decoder.cpp)

    The client sends a random audio file of the corpus as a request; a worker hands
    its samples to the decoder in chunks and answers with the hypothesis.  The
    PocketSphinx decoder is an interface, the file system a function. *)

From S2P Require Import Prelude Msgs TBench.

Open Scope Z_scope.

(** ** The client *)

Definition newline : byte := x0a.
Definition slash : byte := x2f.

(** [while (std::getline(fd, line))]: a line ends at a newline or, when it is not
    empty, at the end of the file. *)
Fixpoint getlines (line file : list byte) : list (list byte) :=
  match file with
  | [] => match line with [] => [] | _ => [line] end
  | c :: file' => if bool_decide (c = newline) then line :: getlines [] file' else getlines (line ++ [c]) file'
  end.

(** loadSamples: a file that cannot be opened leaves no samples.  The test of
    [fd.fail()] is inside a loop that runs only while it is false. *)
Definition loadSamples (an4Corpus : list byte) (samplesFile : option (list byte)) : list (list byte) :=
  match samplesFile with
  | None => []
  | Some f => (fun line => an4Corpus ++ [slash] ++ line) <$> getlines [] f
  end.

(** The constructor: [uniform_int_distribution(0, size - 1)] needs 0 <= size - 1. *)
Definition new_AudioSamples (an4Corpus : list byte) (samplesFile : option (list byte)) : outcome () (list (list byte)) :=
  let samples := loadSamples an4Corpus samplesFile in
  if i32 (Z.of_nat (length samples) - 1) <? 0 then UB else Ret samples ().

(** tBenchClientGenReq: [idx] is what the distribution gives.  The file is read
    into the request's data, which has [MAX_REQ_BYTES] bytes. *)
Definition tBenchClientGenReq (fs : list byte -> option (list byte)) (samples : list (list byte)) (idx : nat) : outcome () (list byte * Z) :=
  match samples !! idx with
  | None => UB
  | Some sample =>
      match fs sample with
      | None => Exit (-1) ()
      | Some file => if MAX_REQ_BYTES <? Z.of_nat (length file) then UB else Ret (file, Z.of_nat (length file)) ()
      end
  end.

(** ** The decoder *)

Class Decoder (D : Type) := {
  ps_start_utt : D -> Z * D;
  ps_process_raw : list Z -> D -> Z * D;
  ps_end_utt : D -> Z * D;
  ps_get_hyp : D -> option (list byte)
}.

Definition bufsize : Z := 1024 * 1024.
Definition i16 (z : Z) : Z := (z + 2 ^ 15) mod 2 ^ 16 - 2 ^ 15.

(** [n] samples of the buffer [buf] points to. *)
Fixpoint samples_of (n : nat) (buf : list byte) : list Z :=
  match n with
  | O => []
  | S n' => i16 (le_value (take 2 buf)) :: samples_of n' (drop 2 buf)
  end.

Section Asr.
Context {W D : Type} `{!Server W} `{!Decoder D}.
Abbreviation world := (Globals (W := W) * D)%type.

Definition on_tbench {A} (m : M (Globals (W := W)) A) : M world A := zoom fst (fun g w => (g, w.2)) m.
Definition on_ps (f : D -> Z * D) : M world Z := fun w => let '(rv, d) := f w.2 in Ret rv (w.1, d).

(** [while (remaining > 0)]; the result of ps_process_raw is not looked at. *)
Fixpoint process_loop (fuel : nat) (cur : list Z) (remaining : Z) : M world () :=
  match fuel with
  | O => blocked
  | S fuel' =>
      if 0 <? remaining then
        let nsamp := Z.min remaining bufsize in
        rv ← on_ps (ps_process_raw (take (Z.to_nat nsamp) cur));
        process_loop fuel' (drop (Z.to_nat nsamp) cur) (remaining - nsamp)
      else mret ()
  end.

(** One turn of [while (true)].  An exception leaves the thread and ends the
    process; for a missing hypothesis one is made but not thrown, and strlen gets
    the null pointer. *)
Definition doAsr_iter (fuel : nat) (tid : Z) : M world () :=
  '(len, buf) ← on_tbench (tBenchRecvReq tid);
  rv ← on_ps ps_start_utt;
  if rv <? 0 then abort
  else
    let remaining := len / 2 in
    process_loop fuel (samples_of (Z.to_nat remaining) buf) remaining;;
    rv ← on_ps ps_end_utt;
    if rv <? 0 then abort
    else
      w ← get;
      match ps_get_hyp w.2 with
      | None => undefined
      | Some hyp => on_tbench (tBenchSendResp tid hyp (Z.of_nat (length hyp)))
      end.

(** ** Facts *)

Lemma length_samples n buf : length (samples_of n buf) = n.
Proof. revert buf. induction n as [|n IH]; intros buf; cbn; [reflexivity|]. rewrite IH. reflexivity. Qed.

(** The samples depend on the bytes of the request only. *)
Lemma samples_take n buf m : (2 * n <= m)%nat -> samples_of n (take m buf) = samples_of n buf.
Proof.
  revert buf m. induction n as [|n IH]; intros buf m Hm; cbn [samples_of]; [reflexivity|]. f_equal.
  - rewrite take_take, Nat.min_l by lia. reflexivity.
  - rewrite skipn_firstn_comm. apply IH. lia.
Qed.

Definition feed (chunks : list (list Z)) (d : D) : D := fold_left (fun d c => (ps_process_raw c d).2) chunks d.

Lemma process_loop_chunks fuel cur remaining (w : world) :
  0 <= remaining -> Z.of_nat (length cur) = remaining -> remaining <= bufsize * (Z.of_nat fuel - 1) ->
  exists chunks, process_loop fuel cur remaining w = Ret () (w.1, feed chunks w.2) /\
    concat chunks = cur /\ Forall (fun c => 0 < Z.of_nat (length c) <= bufsize) chunks.
Proof.
  unfold bufsize. revert cur remaining w. induction fuel as [|fuel IH]; intros cur remaining w Hr Hl Hf; [lia|]. cbn [process_loop]. unfold bufsize.
  destruct (Z.ltb_spec 0 remaining).
  2: { exists []. destruct cur; [|cbn in Hl; lia]. destruct w. split; [reflexivity|]. split; [reflexivity|constructor]. }
  remember (Z.min remaining (1024 * 1024)) as n eqn:En. unfold mbind, M_bind, on_ps.
  destruct (ps_process_raw (take (Z.to_nat n) cur) w.2) as [rv d] eqn:E.
  destruct (IH (drop (Z.to_nat n) cur) (remaining - n) (w.1, d)) as (chunks & Ec & Hc & Hfa).
  - lia.
  - rewrite length_drop. lia.
  - lia.
  - exists (take (Z.to_nat n) cur :: chunks). split; [|split].
    + rewrite Ec. unfold feed. cbn. rewrite E. reflexivity.
    + cbn. rewrite Hc. apply take_drop.
    + constructor; [rewrite length_take; lia|exact Hfa].
Qed.

(** What the iteration does after the decoder has been fed. *)
Definition answer (tid : Z) (w : world) : outcome world () :=
  let '(rv, d) := ps_end_utt w.2 in
  if rv <? 0 then Abort
  else match ps_get_hyp d with
       | None => UB
       | Some hyp => on_tbench (tBenchSendResp tid hyp (Z.of_nat (length hyp))) (w.1, d)
       end.

(** C19: The decoder gets exactly the audio of the request.  A worker that receives
    the bytes of an audio file, as the client made them a request, starts an
    utterance and passes on the file's 16-bit samples once each, in order, in
    chunks of at most [bufsize]; then it ends the utterance and sends the
    hypothesis, without a terminating zero.  If the utterance cannot be started or
    ended the process ends; without a hypothesis the behaviour is undefined. *)
Theorem asr_request fs samples idx tid g g1 d buf file fuel :
  tBenchClientGenReq fs samples idx = Ret (file, Z.of_nat (length file)) () ->
  tBenchRecvReq tid g = Ret (Z.of_nat (length file), buf) g1 -> take (length file) buf = file ->
  (2 <= fuel)%nat ->
  let audio := samples_of (length file / 2) file in
  exists chunks, concat chunks = audio /\ Forall (fun c => 0 < Z.of_nat (length c) <= bufsize) chunks /\
    doAsr_iter fuel tid (g, d) =
      if (ps_start_utt d).1 <? 0 then Abort else answer tid (g1, feed chunks (ps_start_utt d).2).
Proof.
  intros Hreq Hrecv Htake Hfuel audio.
  assert (Hmax : Z.of_nat (length file) <= 1024 * 1024).
  { unfold tBenchClientGenReq in Hreq. destruct (samples !! idx) as [sample|]; [|discriminate]. destruct (fs sample) as [f|]; [|discriminate].
    destruct (Z.ltb_spec MAX_REQ_BYTES (Z.of_nat (length f))) as [|Hle]; [discriminate|]. injection Hreq as -> _. exact Hle. }
  assert (Hq : Z.of_nat (length file) / 2 = Z.of_nat (length file / 2)) by (rewrite Nat2Z.inj_div; reflexivity).
  assert (Hhalf : (2 * (length file / 2) <= length file)%nat) by (apply Nat.Div0.mul_div_le).
  assert (Haudio : samples_of (Z.to_nat (Z.of_nat (length file) / 2)) buf = audio).
  { unfold audio. rewrite Hq, Nat2Z.id. rewrite <- (samples_take _ buf _ Hhalf), Htake. reflexivity. }
  destruct (ps_start_utt d) as [rv d1] eqn:Es.
  destruct (process_loop_chunks fuel audio (Z.of_nat (length file) / 2) (g1, d1)) as (chunks & Eloop & Hc & Hfa).
  { rewrite Hq. lia. }
  { rewrite Hq. unfold audio. rewrite length_samples. reflexivity. }
  { rewrite Hq. unfold bufsize. nia. }
  exists chunks. split; [exact Hc|]. split; [exact Hfa|].
  assert (Er : on_tbench (tBenchRecvReq tid) (g, d) = Ret (Z.of_nat (length file), buf) (g1, d)).
  { unfold on_tbench, zoom. cbn [fst snd]. rewrite Hrecv. reflexivity. }
  unfold doAsr_iter. rewrite (bind_Ret _ _ _ _ _ Er).
  assert (Est : on_ps ps_start_utt (g1, d) = Ret rv (g1, d1)) by (unfold on_ps; cbn [snd fst]; rewrite Es; reflexivity).
  rewrite (bind_Ret _ _ _ _ _ Est). cbn [fst snd]. destruct (rv <? 0); [reflexivity|]. cbv zeta. rewrite Haudio, (bind_Ret _ _ _ _ _ Eloop).
  unfold answer. cbn [fst snd]. unfold mbind, M_bind, on_ps, get. cbn [fst snd].
  destruct (ps_end_utt (feed chunks d1)) as [rv2 d2]. destruct (rv2 <? 0); [reflexivity|]. cbn [fst snd]. destruct (ps_get_hyp d2); reflexivity.
Qed.
End Asr.

(** ** The list of samples *)

Lemma getlines_line acc l rest : newline ∉ l -> getlines acc (l ++ newline :: rest) = (acc ++ l) :: getlines [] rest.
Proof.
  revert acc. induction l as [|c l IH]; intros acc Hn; cbn [app getlines].
  - rewrite bool_decide_true, app_nil_r by reflexivity. reflexivity.
  - rewrite elem_of_cons in Hn. rewrite bool_decide_false by (intros ->; tauto). rewrite IH by tauto. rewrite <- app_assoc. reflexivity.
Qed.

(** Each line of the file names a sample, a last line without newline too; an
    empty or missing file makes the constructor's distribution undefined. *)
Theorem samples_loaded corpus ls tail : Forall (fun l => newline ∉ l) (ls ++ [tail]) ->
  loadSamples corpus (Some (concat ((fun l => l ++ [newline]) <$> ls) ++ tail)) =
    (fun l => corpus ++ [slash] ++ l) <$> (ls ++ if decide (tail = []) then [] else [tail]).
Proof.
  intros H. unfold loadSamples. f_equal. induction ls as [|l ls IH]; cbn [fmap list_fmap concat app].
  - apply Forall_cons in H as [H _]. destruct (decide (tail = [])) as [->|Ht]; [reflexivity|].
    assert (Hg : forall acc, acc ++ tail <> [] -> getlines acc tail = [acc ++ tail]); [|apply (Hg []), Ht].
    clear Ht. induction tail as [|c tail IH]; intros acc Hne; cbn [getlines].
    + rewrite app_nil_r in *. destruct acc; [contradiction|reflexivity].
    + rewrite elem_of_cons in H. rewrite bool_decide_false by (intros ->; tauto). rewrite IH.
      * rewrite <- app_assoc. reflexivity.
      * tauto.
      * destruct acc; discriminate.
  - apply Forall_cons in H as [Hl H]. rewrite <- !app_assoc. cbn [app]. rewrite getlines_line by exact Hl. cbn [app]. f_equal. apply IH, H.
Qed.

Lemma no_samples_undefined corpus : new_AudioSamples corpus None = UB /\ new_AudioSamples corpus (Some []) = UB.
Proof. split; reflexivity. Qed.

(** ** A request of three samples and a stray byte *)

(** A decoder that remembers the samples it was given. *)
Definition recording : Decoder (list Z) := {|
  ps_start_utt := fun _ => (0, []);
  ps_process_raw := fun c d => (0, d ++ c);
  ps_end_utt := fun d => (0, d);
  ps_get_hyp := fun d => Some [x68; x69]
|}.
Definition one_request : Server (list byte) := {|
  recvReq := fun _ w => Ret (Z.of_nat (length w), w) w;
  sendResp := fun _ data len w => Ret () (take (Z.to_nat len) data);
  server_finish := mret ()
|}.

Lemma asr_request_witness :
  let file := [x01; x00; xff; xff; x00; x80; x07] in
  exists chunks, concat chunks = [1; -1; -32768] /\ Forall (fun c => 0 < Z.of_nat (length c) <= bufsize) chunks /\
    doAsr_iter (W := list byte) (D := list Z) (Server0 := one_request) (Decoder0 := recording) 2 0 (mkGlobals 1 file, []) =
    answer (W := list byte) (D := list Z) (Server0 := one_request) (Decoder0 := recording) 0 (mkGlobals 1 file, feed (Decoder0 := recording) chunks []).
Proof.
  intros file.
  apply (asr_request (Server0 := one_request) (Decoder0 := recording) (fun _ => Some file) [[x61]] 0 0 (mkGlobals 1 file) (mkGlobals 1 file) [] file file 2).
  - reflexivity.
  - reflexivity.
  - reflexivity.
  - lia.
Defined.
