(* ===== verification/Silo.v ===== *)
(** * The Silo transaction benchmark (src/silo/benchmarks/client.cc, bench.cc,
    request.h, tpcc.cc, src/silo/util.h)

    The client draws the type of a TPC-C transaction; a worker of the database
    runs it, again after an abort if asked to, and answers when it commits.  The
    database is a parameter: a transaction takes the worker's random seed and
    the database and gives whether it committed, the growth in bytes, and both
    anew. *)

From Stdlib Require Import SpecFloat.
From S2P Require Import Prelude Msgs Double TBench.

Open Scope Z_scope.

(** ** util::fast_random *)

Definition lcg_mask : Z := Z.shiftl 1 48 - 1.
Definition set_seed0 (seed : Z) : Z := Z.land (Z.lxor seed 0x5DEECE66D) lcg_mask.
(** next(bits): the number and the new seed. *)
Definition next (bits seed : Z) : Z * Z :=
  let seed := Z.land (u64 (u64 (seed * 0x5DEECE66D) + 0xB)) lcg_mask in (Z.shiftr seed (48 - bits), seed).
(** next_uniform, the operands of + evaluated from the left (the language leaves
    the order open). *)
Definition next_uniform (seed : Z) : double * Z :=
  let '(a, seed) := next 26 seed in
  let '(b, seed) := next 27 seed in
  (ddiv (dZ (u64 (u64 (Z.shiftl a 27) + b))) (dZ (Z.shiftl 1 53)), seed).

(** ** The client *)

Inductive ReqType := NEW_ORDER | PAYMENT | DELIVERY | ORDER_STATUS | STOCK_LEVEL.
Definition ReqType_val (t : ReqType) : Z :=
  match t with NEW_ORDER => 0 | PAYMENT => 1 | DELIVERY => 2 | ORDER_STATUS => 3 | STOCK_LEVEL => 4 end.

Definition g_txn_workload_mix : list Z := [45; 43; 4; 4; 4].
Definition client_seed : Z := 23984543.

(** The constructor's frequencies. *)
Definition workload (mix : list Z) : list double := (fun m => ddiv (dZ m) (dZ 100)) <$> mix.

Definition dsub : double -> double -> double := SFsub 53 1024.

(** The loop of getReq from index [i] on. *)
Fixpoint pick_type (d : double) (i : Z) (w : list double) : option Z :=
  match w with
  | [] => None
  | f :: w' =>
      if match w' with [] => true | _ => false end || dltb d f then Some i
      else pick_type (dsub d f) (i + 1) w'
  end.
(** The type, left undetermined by an empty workload, and the new seed. *)
Definition getReq (w : list double) (seed : Z) : option Z * Z :=
  let '(d, seed) := next_uniform seed in (pick_type d 0 w, seed).

(** The struct of one int: bytes, length, seed. *)
Definition tBenchClientGenReq (w : list double) (seed : Z) : option (list byte * Z * Z) :=
  let '(t, seed) := getReq w seed in t ← t; Some (le_bytes 4 t, 4, seed).

(** ** The server's transactions *)

(** get_workload of the TPC-C worker: transactions with share 0 are left out. *)
Definition get_workload (mix : list Z) : option (list ReqType) :=
  if (fold_left (fun m x => u32 (m + x)) mix 0 =? 100) && (length mix =? 5)%nat then
    Some ((fun p => p.2) <$> filter (fun p => p.1 <> 0) (zip mix [NEW_ORDER; PAYMENT; DELIVERY; ORDER_STATUS; STOCK_LEVEL]))
  else None.

(** ** The worker *)

Section Worker.
Context {W DB : Type} `{!Server W}.
Context (txn : ReqType -> Z -> DB -> bool * Z * Z * DB).
(** The clock of the timer, and what reads of the volatile flag running give. *)
Context (cur_usec : nat -> Z) (running : nat -> bool).
Context (retry_aborted_transaction backoff_aborted_transaction : bool) (ops_mode : bool) (ops_per_worker : Z).

Record worker := mkWorker {
  r : Z;
  db : DB;
  ntxn_commits : Z;
  ntxn_aborts : Z;
  latency_numer_us : Z;
  backoff_shifts : Z;
  size_delta : Z;
  txn_counts : list Z;
  offered : list Z;   (* what evt_avg_abort_spins was offered, oldest first *)
  ticks : nat;        (* clock reads *)
  polls : nat         (* reads of running *)
}.
Abbreviation world := (Globals (W := W) * worker)%type.
Definition on_tbench {A} (m : M (Globals (W := W)) A) : M world A := zoom fst (fun g w => (g, w.2)) m.

(** [1UL << backoff_shifts], times 100. *)
Definition spins (shifts : Z) : Z := u64 (u64 (Z.shiftl 1 shifts) * 100).

Definition committed (w : worker) (lap seed : Z) (d : DB) : worker :=
  mkWorker seed d (u64 (ntxn_commits w + 1)) (ntxn_aborts w) (u64 (latency_numer_us w + lap)) (Z.shiftr (backoff_shifts w) 1)
    (size_delta w) (txn_counts w) (offered w) (ticks w + 2) (polls w).
Definition aborted (w : worker) (seed : Z) (d : DB) : worker :=
  mkWorker seed d (ntxn_commits w) (u64 (ntxn_aborts w + 1)) (latency_numer_us w) (backoff_shifts w)
    (size_delta w) (txn_counts w) (offered w) (ticks w + 1) (if retry_aborted_transaction then S (polls w) else polls w).
(** The back-off, whose wait is [spins] pauses, and the seed put back. *)
Definition backed_off (w : worker) (old_seed : Z) : worker :=
  let shifts := if backoff_aborted_transaction then (if backoff_shifts w <? 63 then backoff_shifts w + 1 else backoff_shifts w) else backoff_shifts w in
  mkWorker old_seed (db w) (ntxn_commits w) (ntxn_aborts w) (latency_numer_us w) shifts
    (size_delta w) (txn_counts w) (if backoff_aborted_transaction then offered w ++ [spins shifts] else offered w) (ticks w) (polls w).

(** From label retry to the end of the if: the growth of the last attempt.  Out
    of fuel is [undefined], which no attempt gives. *)
Fixpoint attempt (fuel : nat) (tid : Z) (t : ReqType) : M world Z :=
  match fuel with
  | O => undefined
  | S fuel' =>
      w ← gets snd;
      let old_seed := r w in
      let '(ok, delta, seed, d) := txn t (r w) (db w) in
      if ok : bool then
        modify (fun x => (x.1, committed w (u64 (cur_usec (S (ticks w)) - cur_usec (ticks w))) seed d));;
        on_tbench (tBenchSendResp tid [x01] 1);;
        mret delta
      else
        modify (fun x => (x.1, aborted w seed d));;
        if retry_aborted_transaction && running (polls w) then
          modify (fun x => (x.1, backed_off x.2 old_seed));;
          attempt fuel' tid t
        else mret delta
  end.

(** size_delta and txn_counts. *)
Definition counted (delta ty : Z) (w : worker) : option worker :=
  c ← txn_counts w !! Z.to_nat ty;
  Some (mkWorker (r w) (db w) (ntxn_commits w) (ntxn_aborts w) (latency_numer_us w) (backoff_shifts w)
    (i64 (size_delta w + delta)) (<[Z.to_nat ty := u64 (c + 1)]> (txn_counts w)) (offered w) (ticks w) (polls w)).

(** The body of the while loop; a type without a transaction indexes outside the
    workload. *)
Definition run_iter (fuel : nat) (wl : list ReqType) (tid : Z) : M world () :=
  '(_, req) ← on_tbench (tBenchRecvReq tid);
  let ty := i32 (le_value (buf_read 4 req)) in
  match (if 0 <=? ty then wl !! Z.to_nat ty else None) with
  | None => undefined
  | Some t =>
      delta ← attempt fuel tid t;
      w ← get;
      match counted delta ty w.2 with None => undefined | Some w' => put (w.1, w') end
  end.

(** The while loop. *)
Fixpoint run_loop (fuel : nat) (wl : list ReqType) (tid : Z) : M world () :=
  match fuel with
  | O => undefined
  | S fuel' =>
      w ← gets snd;
      modify (fun x => (x.1, mkWorker (r w) (db w) (ntxn_commits w) (ntxn_aborts w) (latency_numer_us w) (backoff_shifts w)
                               (size_delta w) (txn_counts w) (offered w) (ticks w) (S (polls w))));;
      if running (polls w) && (negb ops_mode || (ntxn_commits w <? ops_per_worker)) then
        run_iter fuel wl tid;; run_loop fuel' wl tid
      else mret ()
  end.

(** ** Facts *)

(** What becomes of transaction [t] started from [seed], after [p] reads of
    running: it aborts [n] times, [k] of them followed by another attempt, and
    ends committed or not with this growth, seed and database. *)
Inductive served (t : ReqType) (seed : Z) : nat -> nat -> nat -> DB -> bool -> Z -> Z -> DB -> Prop :=
| served_commit p d delta seed' d' :
    txn t seed d = (true, delta, seed', d') -> served t seed p 0 0 d true delta seed' d'
| served_drop p d delta seed' d' :
    txn t seed d = (false, delta, seed', d') -> retry_aborted_transaction && running p = false ->
    served t seed p 1 0 d false delta seed' d'
| served_retry p n k d x s1 d1 ok delta seed' d' :
    txn t seed d = (false, x, s1, d1) -> retry_aborted_transaction = true -> running p = true ->
    served t seed (S p) n k d1 ok delta seed' d' -> served t seed p (S n) (S k) d ok delta seed' d'.

(** The back-off after [k] retries from [b] shifts, and the waits before them. *)
Definition raised (b : Z) (k : nat) : Z := if backoff_aborted_transaction then Z.min 63 (b + Z.of_nat k) else b.
Definition waits (b : Z) (k : nat) : list Z :=
  if backoff_aborted_transaction then (fun i => (100 * 2 ^ Z.min 63 (b + Z.of_nat i)) mod 2 ^ 64) <$> seq 1 k else [].

Lemma spins_value k : 0 <= k -> spins k = (100 * 2 ^ k) mod 2 ^ 64.
Proof. intros Hk. unfold spins. rewrite Z.shiftl_1_l. unfold u64. rewrite Zmult_mod_idemp_l. f_equal. lia. Qed.

Lemma backed_off_step w seed : 0 <= backoff_shifts w <= 63 ->
  backoff_shifts (backed_off w seed) = raised (backoff_shifts w) 1 /\ offered (backed_off w seed) = offered w ++ waits (backoff_shifts w) 1.
Proof.
  intros Hb. unfold backed_off, raised, waits. cbn [backoff_shifts offered]. destruct backoff_aborted_transaction; [|rewrite app_nil_r; auto].
  assert (E : (if backoff_shifts w <? 63 then backoff_shifts w + 1 else backoff_shifts w) = Z.min 63 (backoff_shifts w + Z.of_nat 1))
    by (destruct (Z.ltb_spec (backoff_shifts w) 63); lia).
  rewrite E. split; [reflexivity|]. rewrite spins_value by lia. reflexivity.
Qed.

Lemma raised_range b k : 0 <= b <= 63 -> 0 <= raised b k <= 63.
Proof. unfold raised. destruct backoff_aborted_transaction; lia. Qed.
Lemma raised_S b k : 0 <= b <= 63 -> raised (raised b 1) k = raised b (S k).
Proof. unfold raised. destruct backoff_aborted_transaction; lia. Qed.
Lemma waits_S b k : 0 <= b <= 63 -> waits b 1 ++ waits (raised b 1) k = waits b (S k).
Proof.
  intros Hb. unfold waits, raised. destruct backoff_aborted_transaction; [|reflexivity]. cbn [seq fmap list_fmap app]. f_equal.
  rewrite <- (fmap_S_seq 1 k), <- list_fmap_compose. apply list_fmap_ext. intros i x Hx. cbn. do 3 f_equal. lia.
Qed.

(** The counters and the back-off of a worker that has served a request this way. *)
Definition accounts (n k : nat) (ok : bool) (w w' : worker) : Prop :=
  ntxn_commits w' = (if ok then u64 (ntxn_commits w + 1) else ntxn_commits w) /\
  u64 (ntxn_aborts w') = u64 (ntxn_aborts w + Z.of_nat n) /\
  backoff_shifts w' = (if ok then raised (backoff_shifts w) k / 2 else raised (backoff_shifts w) k) /\
  offered w' = offered w ++ waits (backoff_shifts w) k.

Lemma accounts_S n k ok w seed s1 d1 w' : 0 <= backoff_shifts w <= 63 ->
  accounts n k ok (backed_off (aborted w s1 d1) seed) w' -> accounts (S n) (S k) ok w w'.
Proof.
  intros Hb (H1 & H2 & H3 & H4). destruct (backed_off_step (aborted w s1 d1) seed Hb) as [E1 E2].
  rewrite E1 in H3, H4. rewrite E2 in H4. cbn [backoff_shifts offered aborted] in H3, H4. rewrite raised_S in H3 by lia.
  rewrite <- app_assoc, waits_S in H4 by lia. split; [exact H1|]. split; [|split; [exact H3|exact H4]].
  rewrite H2. cbn. unfold u64. rewrite Zplus_mod_idemp_l. f_equal. lia.
Qed.

Lemma attempt_served t n k p ok tid g g' w delta seed' d' fuel :
  0 <= backoff_shifts w <= 63 -> polls w = p -> served t (r w) p n k (db w) ok delta seed' d' -> (n < fuel)%nat ->
  (if ok then tBenchSendResp tid [x01] 1 g = Ret () g' else g' = g) ->
  exists w', attempt fuel tid t (g, w) = Ret delta (g', w') /\ r w' = seed' /\ db w' = d' /\ accounts n k ok w w' /\
    txn_counts w' = txn_counts w /\ size_delta w' = size_delta w.
Proof.
  intros Hb Hp Hev. remember (r w) as seed eqn:Es. remember (db w) as d eqn:Ed. revert fuel w Es Ed Hb Hp.
  induction Hev as [p d delta seed' d' E|p d delta seed' d' E Hdrop|p n k d x s1 d1 ok delta seed' d' E Hretry Hrun _ IH];
    intros fuel w Es Ed Hb Hp Hf Hsend;
    (destruct fuel as [|fuel]; [lia|]); cbn [attempt]; unfold gets, modify, mbind, M_bind; cbn [fst snd]; rewrite <- Es, <- Ed, E.
  - unfold on_tbench, zoom. cbn [fst snd]. rewrite Hsend. eexists. split; [reflexivity|]. unfold accounts, raised, waits. cbn.
    rewrite !Z.add_0_r. repeat split; [|destruct backoff_aborted_transaction; rewrite app_nil_r; reflexivity].
    rewrite Z.shiftr_div_pow2 by lia. destruct backoff_aborted_transaction; [|reflexivity]. rewrite Z.min_r by lia. reflexivity.
  - subst p g'. rewrite Hdrop. eexists. split; [reflexivity|]. unfold accounts, raised, waits. cbn. unfold u64. rewrite Zmod_mod.
    repeat split; destruct backoff_aborted_transaction; rewrite ?app_nil_r; try reflexivity. lia.
  - subst p. rewrite Hretry, Hrun. cbn [andb fst snd].
    destruct (IH fuel (backed_off (aborted w s1 d1) seed)) as (w' & Ea & H1 & H2 & H3 & H4 & H5); [reflexivity|reflexivity| | |lia|exact Hsend|].
    { destruct (backed_off_step (aborted w s1 d1) seed Hb) as [-> _]. apply raised_range. exact Hb. }
    { cbn. rewrite Hretry. reflexivity. }
    exists w'. split; [exact Ea|]. split; [exact H1|]. split; [exact H2|]. split; [|auto]. eapply accounts_S; eassumption.
Qed.

(** An attempt that returns has served its transaction; the other outcomes are
    those of sending the answer, and running out of attempts. *)
Lemma attempt_returns t fuel tid g w delta x :
  attempt fuel tid t (g, w) = Ret delta x -> exists n k ok seed' d', served t (r w) (polls w) n k (db w) ok delta seed' d' /\ (n <= fuel)%nat.
Proof.
  revert w. induction fuel as [|fuel IH]; intros w; [discriminate|]. cbn [attempt]. unfold gets, modify, mbind, M_bind. cbn [fst snd].
  destruct (txn t (r w) (db w)) as [[[ok dl] s1] d1] eqn:E. destruct ok.
  - unfold on_tbench, zoom. cbn [fst snd]. destruct (tBenchSendResp tid [x01] 1 g); try discriminate. intros [= <- _].
    exists 0%nat, 0%nat, true, s1, d1. split; [apply served_commit; exact E|lia].
  - destruct (retry_aborted_transaction && running (polls w)) eqn:Hr.
    + apply andb_true_iff in Hr as [Hr Hrun]. intros H. destruct (IH _ H) as (n & k & ok & seed' & d' & Hs & Hn).
      exists (S n), (S k), ok, seed', d'. cbn in Hs. rewrite Hr in Hs. split; [eapply served_retry; eauto|lia].
    + intros [= <- _]. exists 1%nat, 0%nat, false, s1, d1. split; [apply served_drop; assumption|lia].
Qed.

Lemma counted_in delta ty w c : txn_counts w !! Z.to_nat ty = Some c ->
  exists w', counted delta ty w = Some w' /\ r w' = r w /\ db w' = db w /\ (forall n k ok w0, accounts n k ok w0 w -> accounts n k ok w0 w') /\
    size_delta w' = i64 (size_delta w + delta) /\ txn_counts w' = <[Z.to_nat ty := u64 (c + 1)]> (txn_counts w).
Proof. intros Hc. unfold counted. rewrite Hc. eexists. split; [reflexivity|]. repeat split; apply H. Qed.

Section Iter.
Context (wl : list ReqType) (tid len ty : Z) (g g1 : Globals (W := W)) (w : worker) (req : list byte) (t : ReqType) (c : Z).
Hypothesis Hty : 0 <= ty < 2 ^ 31.
Hypothesis Hrecv : tBenchRecvReq tid g = Ret (len, req) g1.
Hypothesis Hreq : buf_read 4 req = le_bytes 4 ty.
Hypothesis Ht : wl !! Z.to_nat ty = Some t.
Hypothesis Hc : txn_counts w !! Z.to_nat ty = Some c.
Hypothesis Hb : 0 <= backoff_shifts w <= 63.

Lemma run_iter_reads fuel : run_iter fuel wl tid (g, w) =
  (delta ← attempt fuel tid t; x ← get; match counted delta ty x.2 with None => undefined | Some w' => put (x.1, w') end) (g1, w).
Proof.
  unfold run_iter. assert (E : on_tbench (tBenchRecvReq tid) (g, w) = Ret (len, req) (g1, w)).
  { unfold on_tbench, zoom. cbn [fst snd]. rewrite Hrecv. reflexivity. }
  rewrite (bind_Ret _ _ _ _ _ E). cbv zeta. rewrite Hreq, le_value_bytes. change (256 ^ Z.of_nat 4) with (2 ^ 32).
  rewrite Z.mod_small by lia. rewrite i32_id by (unfold is_i32; lia). destruct (Z.leb_spec 0 ty); [|lia]. rewrite Ht. reflexivity.
Qed.

Lemma run_iter_serves n k ok delta seed' d' g2 fuel :
  served t (r w) (polls w) n k (db w) ok delta seed' d' -> (n < fuel)%nat ->
  (if ok then tBenchSendResp tid [x01] 1 g1 = Ret () g2 else g2 = g1) ->
  exists w', run_iter fuel wl tid (g, w) = Ret () (g2, w') /\ r w' = seed' /\ db w' = d' /\ accounts n k ok w w' /\
    size_delta w' = i64 (size_delta w + delta) /\ txn_counts w' = <[Z.to_nat ty := u64 (c + 1)]> (txn_counts w).
Proof.
  intros Hev Hf Hsend.
  destruct (attempt_served t n k _ ok tid g1 g2 w delta seed' d' fuel Hb eq_refl Hev Hf Hsend) as (w1 & Ea & H1 & H2 & H3 & H4 & H5).
  rewrite run_iter_reads, (bind_Ret _ _ _ _ _ Ea). unfold get, mbind, M_bind. cbn [snd fst].
  rewrite <- H4 in Hc. destruct (counted_in delta ty w1 c Hc) as (w2 & -> & G1 & G2 & G3 & G4 & G5).
  exists w2. split; [reflexivity|]. rewrite G1, G2, G4, G5, H4, H5. auto 8.
Qed.

Lemma run_iter_returns fuel x : run_iter fuel wl tid (g, w) = Ret () x ->
  exists n k ok delta seed' d', served t (r w) (polls w) n k (db w) ok delta seed' d'.
Proof.
  rewrite run_iter_reads. unfold mbind, M_bind. destruct (attempt fuel tid t (g1, w)) as [delta y| | | |] eqn:E; try discriminate.
  intros _. destruct (attempt_returns _ _ _ _ _ _ _ E) as (n & k & ok & seed' & d' & Hs & _). eauto 10.
Qed.
End Iter.
End Worker.

(** C17: A worker answers a request when its transaction commits, and only then.
    [served] says how a transaction ends, for every setting of the two flags and
    every behaviour of running: it commits; or it aborts and, as retries are off or
    running is no longer set, is given up; or it aborts and is tried again from the
    same seed.  A request served with [n] aborts and [k] retries is answered once,
    with the byte 1, if it committed and not at all if it was given up; the seed,
    the database, the growth and the count of its type are those of the last
    attempt; commits grow by one or not at all, aborts by [n]; with back-off on, the
    shifts grow by one a retry up to 63, the waits before the retries are 100 times
    the powers of two of them (in 64 bits), and a commit halves the shifts.
    Conversely every iteration that returns has served its request in this sense. *)
Theorem silo_request {W DB} `{!Server W} (txn : ReqType -> Z -> DB -> bool * Z * Z * DB) usec running retry backoff wl tid len ty g g1 w req t c :
  0 <= ty < 2 ^ 31 -> tBenchRecvReq tid g = Ret (len, req) g1 -> buf_read 4 req = le_bytes 4 ty -> wl !! Z.to_nat ty = Some t ->
  txn_counts w !! Z.to_nat ty = Some c -> 0 <= backoff_shifts w <= 63 ->
  (forall n k ok delta seed' d' g2 fuel,
     served txn running retry t (r w) (polls w) n k (db w) ok delta seed' d' -> (n < fuel)%nat ->
     (if ok then tBenchSendResp tid [x01] 1 g1 = Ret () g2 else g2 = g1) ->
     exists w', run_iter txn usec running retry backoff fuel wl tid (g, w) = Ret () (g2, w') /\ r w' = seed' /\ db w' = d' /\
       accounts backoff n k ok w w' /\
       size_delta w' = i64 (size_delta w + delta) /\ txn_counts w' = <[Z.to_nat ty := u64 (c + 1)]> (txn_counts w)) /\
  (forall fuel x, run_iter txn usec running retry backoff fuel wl tid (g, w) = Ret () x ->
     exists n k ok delta seed' d', served txn running retry t (r w) (polls w) n k (db w) ok delta seed' d').
Proof.
  intros Hty Hrecv Hreq Ht Hc Hb. split.
  - intros n k ok delta seed' d' g2 fuel. eapply run_iter_serves; eassumption.
  - intros fuel x. eapply run_iter_returns; eassumption.
Qed.

(** A payment that commits at the second attempt: with retries on it is answered,
    after a wait of 200 pauses; with retries off it is dropped, and the next one,
    which commits at once, is answered. *)
Definition example_server : Server (list byte) := {|
  recvReq := fun _ w => Ret (4, w) w;
  sendResp := fun _ data len w => Ret () (take (Z.to_nat len) data);
  server_finish := mret ()
|}.
Definition second_try (t : ReqType) (seed : Z) (attempts : nat) : bool * Z * Z * nat := ((0 <? attempts)%nat, 8, seed + 1, S attempts).
Definition idle_worker (d : nat) : worker := mkWorker 7 d 0 0 0 0 0 [0; 0] [] 0 0.

Lemma silo_request_witness :
  (exists w', run_iter (Server0 := example_server) second_try (fun _ => 0) (fun _ => true) true true 2 [NEW_ORDER; PAYMENT] 0
      (mkGlobals 1 (le_bytes 4 1), idle_worker 0) = Ret () (mkGlobals 1 [x01], w') /\
    r w' = 8 /\ db w' = 2%nat /\ accounts true 1 1 true (idle_worker 0) w' /\ waits true 0 1 = [200] /\ txn_counts w' = [0; u64 (0 + 1)]) /\
  (exists w', run_iter (Server0 := example_server) second_try (fun _ => 0) (fun _ => true) false true 2 [NEW_ORDER; PAYMENT] 0
      (mkGlobals 1 (le_bytes 4 1), idle_worker 0) = Ret () (mkGlobals 1 (le_bytes 4 1), w') /\
    accounts true 1 0 false (idle_worker 0) w') /\
  (exists w', run_iter (Server0 := example_server) second_try (fun _ => 0) (fun _ => true) false true 2 [NEW_ORDER; PAYMENT] 0
      (mkGlobals 1 (le_bytes 4 1), idle_worker 1) = Ret () (mkGlobals 1 [x01], w') /\
    accounts true 0 0 true (idle_worker 1) w').
Proof.
  pose proof (fun retry d H => silo_request (Server0 := example_server) second_try (fun _ => 0) (fun _ => true) retry true [NEW_ORDER; PAYMENT] 0 4 1
    (mkGlobals 1 (le_bytes 4 1)) (mkGlobals 1 (le_bytes 4 1)) (idle_worker d) (le_bytes 4 1) PAYMENT 0
    ltac:(lia) ltac:(reflexivity) ltac:(reflexivity) ltac:(reflexivity) ltac:(reflexivity) H) as T.
  assert (Hb : forall d, 0 <= backoff_shifts (idle_worker d) <= 63) by (cbn; lia).
  split; [|split].
  - destruct (proj1 (T true 0%nat (Hb 0%nat)) 1%nat 1%nat true 8 8 2%nat (mkGlobals 1 [x01]) 2%nat) as (w' & E & H1 & H2 & H3 & _ & H5).
    + eapply served_retry; [reflexivity|reflexivity|reflexivity|]. apply served_commit. reflexivity.
    + lia.
    + reflexivity.
    + exists w'. auto 10.
  - destruct (proj1 (T false 0%nat (Hb 0%nat)) 1%nat 0%nat false 8 8 1%nat (mkGlobals 1 (le_bytes 4 1)) 2%nat) as (w' & E & _ & _ & H3 & _).
    + apply served_drop; reflexivity.
    + lia.
    + reflexivity.
    + exists w'. auto.
  - destruct (proj1 (T false 1%nat (Hb 1%nat)) 0%nat 0%nat true 8 8 2%nat (mkGlobals 1 [x01]) 2%nat) as (w' & E & _ & _ & H3 & _).
    + apply served_commit. reflexivity.
    + lia.
    + reflexivity.
    + exists w'. auto.
Defined.

(** *** Requests *)

Lemma pick_type_range d i w : w <> [] -> exists t, pick_type d i w = Some t /\ i <= t < i + Z.of_nat (length w).
Proof.
  revert d i. induction w as [|f w IH]; intros d i Hne; [contradiction|]. cbn [pick_type]. destruct w as [|f' w].
  - exists i. cbn. split; [reflexivity|lia].
  - cbn [orb]. destruct (dltb d f); [exists i; split; [reflexivity|cbn; lia]|].
    destruct (IH (dsub d f) (i + 1) ltac:(discriminate)) as (t & -> & Ht). exists t. split; [reflexivity|]. cbn [length] in *. lia.
Qed.

(** With five positive shares no transaction is left out. *)
Lemma get_workload_all mix : length mix = 5%nat -> Forall (fun m => 0 < m) mix -> fold_left (fun m x => u32 (m + x)) mix 0 = 100 ->
  get_workload mix = Some [NEW_ORDER; PAYMENT; DELIVERY; ORDER_STATUS; STOCK_LEVEL].
Proof.
  intros Hl Hp Hs. unfold get_workload. rewrite Hs, Hl. cbn [Z.eqb Nat.eqb andb].
  destruct mix as [|m0 [|m1 [|m2 [|m3 [|m4 [|]]]]]]; try discriminate. rewrite !Forall_cons in Hp. cbn [zip zip_with].
  rewrite !filter_cons_True by (cbn; lia). reflexivity.
Qed.

(** C18: Client and server agree on the transactions.  Whatever the seed, the
    client's next request is four bytes holding one of the five types; a server
    whose mix gives every transaction a positive share has at that index the
    transaction of that name.  (With a share of 0 it has not: [shifted_workload].) *)
Theorem silo_dispatch mix seed : length mix = 5%nat -> Forall (fun m => 0 < m) mix -> fold_left (fun m x => u32 (m + x)) mix 0 = 100 ->
  exists bs seed' wl t, tBenchClientGenReq (workload g_txn_workload_mix) seed = Some (bs, 4, seed') /\ length bs = 4%nat /\
    get_workload mix = Some wl /\ 0 <= i32 (le_value bs) /\ wl !! Z.to_nat (i32 (le_value bs)) = Some t /\ ReqType_val t = i32 (le_value bs).
Proof.
  intros Hl Hp Hs. unfold tBenchClientGenReq, getReq. destruct (next_uniform seed) as [d seed'].
  destruct (pick_type_range d 0 (workload g_txn_workload_mix) ltac:(discriminate)) as (ty & -> & Hty).
  change (Z.of_nat (length (workload g_txn_workload_mix))) with 5 in Hty.
  rewrite (get_workload_all mix Hl Hp Hs). cbn [mbind option_bind].
  assert (Ht : exists t, [NEW_ORDER; PAYMENT; DELIVERY; ORDER_STATUS; STOCK_LEVEL] !! Z.to_nat ty = Some t /\ ReqType_val t = ty).
  { assert (Hc : ty = 0 \/ ty = 1 \/ ty = 2 \/ ty = 3 \/ ty = 4) by lia. decompose [or] Hc; subst ty; eexists; split; reflexivity. }
  destruct Ht as (t & Ht & Hv). exists (le_bytes 4 ty), seed', [NEW_ORDER; PAYMENT; DELIVERY; ORDER_STATUS; STOCK_LEVEL], t. split; [reflexivity|]. split; [apply length_le_bytes|]. split; [reflexivity|].
  rewrite le_value_bytes. change (256 ^ Z.of_nat 4) with (2 ^ 32). rewrite Z.mod_small, i32_id by (unfold is_i32; lia).
  split; [lia|]. auto.
Qed.

Lemma silo_dispatch_witness : exists bs seed' wl t,
  tBenchClientGenReq (workload g_txn_workload_mix) (set_seed0 client_seed) = Some (bs, 4, seed') /\ length bs = 4%nat /\
  get_workload [45; 43; 4; 4; 4] = Some wl /\ 0 <= i32 (le_value bs) /\ wl !! Z.to_nat (i32 (le_value bs)) = Some t /\
  ReqType_val t = i32 (le_value bs).
Proof. apply (silo_dispatch [45; 43; 4; 4; 4] (set_seed0 client_seed)); [reflexivity|repeat constructor|reflexivity]. Defined.

(** A server mix without payments runs a delivery for a payment request, and has
    nothing at the index of a stock-level request. *)
Lemma shifted_workload : exists wl, get_workload [50; 0; 40; 5; 5] = Some wl /\
  wl !! Z.to_nat (ReqType_val PAYMENT) = Some DELIVERY /\ wl !! Z.to_nat (ReqType_val STOCK_LEVEL) = None.
Proof. eexists. repeat split. Qed.

(** The random fraction is k / 2^53 with 0 <= k < 2^53. *)
Lemma lcg_next_range bits seed : 0 <= bits <= 48 -> 0 <= (next bits seed).1 < 2 ^ bits.
Proof.
  intros Hb. unfold next, lcg_mask. cbn [fst]. rewrite Z.shiftl_1_l, Z.sub_1_r, <- Z.ones_equiv, Z.land_ones, Z.shiftr_div_pow2 by lia.
  pose proof (Z.mod_pos_bound (u64 (u64 (seed * 25214903917) + 11)) (2 ^ 48) ltac:(lia)). split; [apply Z.div_pos; lia|].
  apply Z.div_lt_upper_bound; [lia|]. rewrite <- Z.pow_add_r by lia. replace (48 - bits + bits) with 48 by lia. lia.
Qed.
Lemma uniform_numerator seed :
  let a := (next 26 seed).1 in let b := (next 27 (next 26 seed).2).1 in
  u64 (u64 (Z.shiftl a 27) + b) = a * 2 ^ 27 + b /\ 0 <= a * 2 ^ 27 + b < 2 ^ 53.
Proof.
  intros a b. pose proof (lcg_next_range 26 seed ltac:(lia)) as Ha. pose proof (lcg_next_range 27 (next 26 seed).2 ltac:(lia)) as Hb.
  fold a in Ha. fold b in Hb. rewrite Z.shiftl_mul_pow2 by lia. unfold u64. rewrite (Z.mod_small (a * 2 ^ 27)) by lia.
  rewrite Z.mod_small by lia. lia.
Qed.

(** The back-off doubles up to 57 aborts; from 62 on it wraps to no wait at all. *)
Lemma spins_exact k : 0 <= k <= 57 -> spins k = 100 * 2 ^ k.
Proof.
  intros Hk. unfold spins. rewrite Z.shiftl_1_l. assert (Hle : 2 ^ k <= 2 ^ 57) by (apply Z.pow_le_mono_r; lia).
  assert (0 < 2 ^ k) by (apply Z.pow_pos_nonneg; lia). unfold u64. rewrite (Z.mod_small (2 ^ k)) by lia. rewrite Z.mod_small by lia. lia.
Qed.
Lemma spins_wrap : spins 62 = 0 /\ spins 63 = 0.
Proof. split; reflexivity. Qed.
